(* ===== verification/_CoqProject ===== *)
-Q . S2P
Prelude.v
StateErr.v
RLP.v
RLPFacts.v
RLPStreamFacts.v
RLPProps.v
CodecFacts.v
Hex.v
Crypto.v
Bits.v
Keccak.v
KeccakFacts.v
Ripemd.v
RipemdFacts.v
PBFTMsg.v
PBFTMsgFacts.v
Transaction.v
TransactionFacts.v
TrieHash.v
TrieHashFacts.v
Block.v
BlockFacts.v
PBFTReqCache.v
PBFTReqCacheFacts.v
TimeManager.v
PBFTMsgCache.v
Engine.v
PBFTEngine.v
EngineFacts.v
PBFTSafety.v
PBFTInvariant.v
PBFTExample.v
PBFTProps.v
PBFTFunctional.v
NonceCheck.v
NonceCheckFacts.v
TxPool.v
TxPoolSpec.v
TxPoolFacts.v
TxPoolProps.v
Table.v
TableFactory.v
TableFacts.v
Rollback.v
StorageState.v
RollbackFacts.v
TextDecimal.v
StateRollback.v
AccountFacts.v
AccountSpec.v
AccountSim.v
VMInstr.v
VM.v
VMAlu.v
VMJump.v
VMTyped.v
VMCases.v
VMSafe.v
VMStatic.v
VMStack.v
VMProps.v
RaftMsg.v
RaftEngine.v
RaftMsgFacts.v
RaftFacts.v
RaftRun.v
RaftSystem.v
RaftProps.v
Heap.v
SyncMsg.v
SyncQueue.v
SyncQueueFacts.v
SyncMaster.v
SyncRun.v
SyncRequest.v
SyncProps.v
