(* ===== verification/Prelude.v ===== *)
(** * FISCO BCOS (lab-bcos): verification library

    The node is a set of C++ libraries. The ones modelled here are the wire
    and storage encoding ([libdevcore], [libethcore]), the hash functions
    ([libdevcrypto]), the PBFT and Raft consensus engines ([libconsensus]),
    the block synchronisation ([libsync]), the transaction pool
    ([libtxpool]), the virtual machine ([libinterpreter]), and the tables and
    account state ([libstorage], [libstoragestate]). A transaction enters
    through the pool, a sealer takes the pool's best ones into a block, the
    PBFT engine (or the Raft leader) agrees on the block, nodes that were away
    download the blocks they miss, the
    interpreter executes its contracts over the account state, which keeps
    accounts as rows of tables, and every message and block travels as RLP.

    ** Conventions

    - A w-bit integer is a [Z] and the wrap-around of its type is written out
      ([u8] ... [u256], [i64]); bytes, hashes and C++ strings are [list Z].
    - A function that throws returns [res]; a method that also changes its
      object is a computation of the state and error monad [SM] of
      StateErr.v, whose state survives the exception as it does in C++.
    - [Throw UB] marks undefined behaviour of the C++ program, [Throw
      AssertFail] a failed [assert] and [Throw OutOfFuel] a loop that used up
      its fuel; the theorems show that the last cannot happen where a loop
      carries fuel.
    - Code outside the sources is a class with the laws the code relies on:
      [Crypto] (hashing, signing, recovery), [NodeEnv] (block chain, block
      verifier, network and clock as the engine sees them), [Chain] (the
      block chain as the pool sees it), [Host] and [Metrics] (the host
      functions and the gas table of EVM-C), [Text] (number conversions of
      Boost). Each law has an instance in the
      witnesses, so that it can hold.

    ** Files

    - Prelude.v: integers, bytes, exceptions, the hint databases [bcos] and
      [bcos_arith]. StateErr.v: the monad, Hoare triples, the [keeps]
      judgement with its automation and the predicate transformer [wp].
    - RLP.v: [RLP] and [RLPStream] of libdevcore/RLP.h, RLP.cpp, the reader
      with its mutable index cache and the writer with its stack of open
      lists. RLPFacts.v and RLPStreamFacts.v prove the writer equal to an
      encoder on trees and the reader its inverse; RLPProps.v has the claims;
      CodecFacts.v the tactics that run a reader on an encoding.
    - Hex.v: [toHex], [fromHex] of CommonData and the hash conversions.
    - Crypto.v: [SignatureStruct] and the class of cryptographic primitives.
    - PBFTMsg.v, Transaction.v, Block.v: messages, transactions, receipts,
      headers and blocks with their codecs, memoised hashes and setters
      (libconsensus/pbft/Common.h, libethcore); the [...Facts] files have the
      round trips. TrieHash.v: [trieRootOver] of libdevcore/TrieHash.cpp.
    - PBFTReqCache.v, TimeManager.v, PBFTMsgCache.v: the request cache, the
      timers and the broadcast filter of libconsensus/pbft.
    - Engine.v, PBFTEngine.v: ConsensusEngineBase and PBFTEngine, one
      definition per method, as steps on the record of the engine's members
      and the list of effects (packets sent, blocks committed, callbacks).
      EngineFacts.v, PBFTSafety.v, PBFTInvariant.v and PBFTFunctional.v carry
      the proofs, PBFTExample.v a running node, PBFTProps.v the claims.
    - NonceCheck.v, TxPool.v: the nonce caches and the pool, its multiset
      queue as a sorted list and its iterators as hashes. TxPoolSpec.v is the
      abstract pool, TxPoolFacts.v and TxPoolProps.v the proofs.
    - VMInstr.v, VM.v: the instruction tables of libethcore/Instruction and
      the interpreter of libinterpreter (VM.cpp, VMCalls.cpp, VMOpt.cpp), one
      definition per case of the instruction loop; [vm_step] is one instruction. VMAlu.v (arithmetic),
      VMJump.v (jump analysis), VMTyped.v (frame typing), VMCases.v
      and VMSafe.v (each case keeps the typing), VMStatic.v
      (static calls), VMStack.v (the abstract stack machine), VMProps.v (the
      claims).
    - libconsensus/raft: RaftMsg.v (messages), RaftEngine.v (the engine: its
      members as records, one definition per method, the worker thread as
      [thread_step], which runs one iteration of the loop it is in, and
      [commit] cut at its wait), RaftMsgFacts.v (the codec), RaftFacts.v (what
      every method leaves alone), RaftRun.v (what an iteration of the worker
      can do), RaftSystem.v (runs of the node: the worker, the network, the
      sealer and the other callers interleave) and RaftProps.v.
    - libsync: SyncMsg.v (packets and their codec), Heap.v (the priority queue
      of the standard library), SyncQueue.v and SyncQueueFacts.v (requests of
      peers, downloaded blocks, batches), SyncMaster.v (peers, the message
      handlers and the worker), SyncRun.v (what every call keeps, and runs),
      SyncRequest.v (asking for blocks) and SyncProps.v. The pool it feeds is
      that of TxPool.v.
    - Bits.v, Keccak.v, Ripemd.v: the hash functions of libdevcrypto/Hash.cpp
      on the arrays the code works on, every macro a definition.
      KeccakFacts.v and RipemdFacts.v have the reference descriptions (lanes
      and sponge, two lines of eighty steps) and the equivalences.
    - Table.v: [Entry], [Entries], [Condition] and [MemoryTable] of
      libstorage, a cache of rows over a storage, with a change log.
      TableFactory.v: [MemoryTableFactory], opening and creating tables,
      permissions, hash, savepoints, rollback and commit. StorageState.v: the
      account state of libstoragestate over these tables. TextDecimal.v: an
      instance of the number conversions of Boost.
    - TableFacts.v, Rollback.v, RollbackFacts.v, StateRollback.v: what a
      rollback restores. AccountFacts.v: the tables as a map
      of values; AccountSpec.v: the account map the state represents and what
      each method does to it; AccountSim.v: every method simulates it.
    ** What the theorems show

    - Encoding: [rlp_roundtrip] and the [..._codec] theorems say that what a
      node writes another node reads back, [rlp256_total] that the trie hash
      ends; [tx_memo_coherent] and [header_hash_coherent] that the memos are
      invisible, and [rlp_index_cache_transparent] that the index cache of an
      RLP object is until an access throws ([index_after_throw]).
    - Consensus: [engine_invariant] says that along every run each cached
      request is signed by the miner whose index it carries or by the node
      itself; [commit_needs_quorum], [commit_lock] and
      [quorum_intersection] are the ingredients of PBFT safety: a block is
      only committed on a quorum of commit messages for its hash, the prepare
      request committed is not replaced in its height, and any two quorums
      share a correct node. Others fix the leader rotation, the view change,
      the broadcast filter and the content of the caches exactly.
    - Raft: [raft_election_majority] and [raft_commit_majority] say what a
      leader and a committed block need along every run of the node: granting
      packets of other miners, more than half of the miners with the node's own
      vote, and acknowledgements of distinct other miners, likewise;
      [raft_timeouts] bounds the election timeout and [raft_wire_codec] is the
      round trip of the messages. The examples of RaftProps.v are runs that
      show what the code does not ensure: a vote counts as often as it
      arrives, a leader may grant a vote of an older term, a malformed message
      ends the worker, and a [commit] that wakes up late needs no
      acknowledgement.
    - Synchronisation: [sync_commits_verified] says that a downloaded block
      reaches the chain only on its head, accepted and executed, and
      [sync_queue_invariant] keeps the queues in order along every run;
      [requests_cover_missing] says which blocks a round asks for and whom,
      [blocks_delivered] that the answer arrives whole, [download_catches_up]
      that it is committed; [topAndPop_exact] is the merging of requests, and
      [overfull_queue_stuck] a state the download does not leave.
    - Pool: [pool_refines_spec] relates each operation to the abstract pool,
      imports with the policy [Retry] apart ([retry_refused]),
      [pool_invariant] keeps the index and the queue in step,
      [nonce_cache_equals_rebuild] says when the nonce cache is that of the
      window, and [pool_no_replay] excludes replays along every run.
    - Interpreter: [vm_round_typed] says that a frame running any code meets
      no undefined behaviour and keeps its typing, [execute_total] that
      execution ends for every code and gas (fuel linear in the gas),
      [stack_machine_refined] that the stack instructions implement the
      abstract machine, [jump_targets_exact], [alu_correct] and
      [static_frame_quiet] what their names say.
    - Hashing: [sha3_is_keccak256] and [ripemd160_is_reference] say that the
      unrolled in-place code computes the functions of the standards.
    - Account state: [accounts_refine] says that the methods of
      [StorageState], which read and write rows of text, behave as a map from
      addresses to accounts, as long as the storage answers, nobody has set a
      permission on an account table and code is set only on accounts that
      exist; [state_rollback_restores] that a
      rollback over updates restores all rows, [rollback_insert_undefined]
      that a rollback over an insertion is undefined in the code as written.
    ** Fuel and bounds

    Loops that are not structural take fuel computed from their input: the
    length of the data for the RLP loops, the number of digits for number
    printing, the number of cached requests for the request loops, the gas
    plus the code size for the interpreter. The termination theorems show
    that this fuel is enough, so [OutOfFuel] marks no behaviour of the code.
    Sizes of containers are assumed below 2^64 only where a theorem says so.

    ** Not modelled

    Threads and locks (each method runs as one step; the interleaving of
    methods is the order of the steps), logging, allocation failures, the
    address of an empty range of the interpreter's memory (nothing is accessed
    through it), rows shared between a table
    and a caller that changes them (Table.v), the JSON status reports, the
    floating-point average of the execution time, sockets and sessions
    ([libnetwork], [libp2p]), JSON-RPC, the channel server, configuration and
    start-up, the disk encryption, and the wrappers of third-party libraries
    (LevelDB, OpenSSL, secp256k1). EVM-C is a submodule that is not part of
    the sources: the types of its interface list the members the interpreter
    uses. Not modelled yet: the sealer threads, the precompiled storage
    contracts, the trie database with the account state over it, the block
    chain storage and the block verifier with its precompiled
    contracts; the components above are verified against their interfaces. *)

From stdpp Require Export base gmap sets list strings numbers fin_maps option.
From Stdlib Require Export Lia.

Local Open Scope Z_scope.

(** ** Machine integers

    A w-bit C++ integer is a [Z]; the wrap-around of its type is written out
    where the source converts or computes at that width. *)

Definition u8 (z : Z) : Z := z `mod` 2 ^ 8.
Definition u16 (z : Z) : Z := z `mod` 2 ^ 16.
Definition u32 (z : Z) : Z := z `mod` 2 ^ 32.
Definition u64 (z : Z) : Z := z `mod` 2 ^ 64.
Definition u256 (z : Z) : Z := z `mod` 2 ^ 256.
Definition i64 (z : Z) : Z := (z + 2 ^ 63) `mod` 2 ^ 64 - 2 ^ 63.

Definition UINT64_MAX : Z := 2 ^ 64 - 1.
Definition INT64_MAX : Z := 2 ^ 63 - 1.
Definition UINT16_MAX : Z := 2 ^ 16 - 1.
Definition UINT32_MAX : Z := 2 ^ 32 - 1.
Definition Invalid256 : Z := 2 ^ 256 - 1.

(** ** Bytes

    [bytes], [bytesConstRef] and [FixedHash<N>] all hold a sequence of bytes:
    a list of [Z], each in [0, 256). A [FixedHash<N>] has exactly N of them. *)

Abbreviation bytes := (list Z).

Definition is_byte (b : Z) : Prop := 0 ≤ b < 256.
Definition bytes_ok (d : bytes) : Prop := Forall is_byte d.

Definition len (d : bytes) : Z := Z.of_nat (length d).
Definition byte_at (d : bytes) (i : Z) : Z := nth (Z.to_nat i) d 0.

(** ** Exceptions

    The exception classes the modelled functions throw; [AssertFail] is a
    failed [assert], which the default build keeps; [UB] marks a path on
    which the C++ program has undefined behaviour (a read through a null or
    out-of-range pointer). *)

Inductive exn :=
  | BadRLP | BadCast | OversizeRLP | UndersizeRLP | RLPException
  | BadHexCharacter | InvalidBlockFormat | InvalidTransactionFormat
  | InvalidSignature | TransactionIsUnsigned | ErrorBlockHash
  | InvalidNumber | TooMuchGasUsed
  | DisabledFutureTime | InvalidBlockHeight | ExistedBlock | ParentNoneExist
  | BlockMinerListWrong | TransactionRefused | OtherException
  | InvalidParentHash | InvalidTimestamp | InvalidTransactionsRoot
  | OutOfGas | BadInstruction | BadJumpDestination | OutOfStack | StackUnderflow
  | DisallowedStateChange | BufferOverrun | RevertInstruction
  | StorageException | InvalidArgument | OutOfRange | BadLexicalCast | RuntimeError
  | NotEnoughCash | InvalidAccountStartNonceInState | IncorrectAccountStartNonceInState
  | OutOfGasIntrinsic | PermissionDenied | PrecompiledError | OpenSysTableFailed
  | InvalidBlockWithBadStateOrReceipt | InvalidProtocolID | NotEnoughAvailableSpace
  | AssertFail | OutOfFuel | UB.

#[global] Instance exn_eq_dec : EqDecision exn.
Proof. solve_decision. Defined.

Inductive res (A : Type) :=
  | Ok (a : A)
  | Throw (e : exn).
Arguments Ok {_} _.
Arguments Throw {_} _.

#[global] Instance res_ret : MRet res := λ A a, Ok a.
#[global] Instance res_bind : MBind res := λ A B f m,
  match m with Ok a => f a | Throw e => Throw e end.
#[global] Instance res_fmap : FMap res := λ A B f m,
  match m with Ok a => Ok (f a) | Throw e => Throw e end.

#[global] Instance res_eq_dec {A} `{EqDecision A} : EqDecision (res A).
Proof. solve_decision. Defined.

Definition is_ok {A} (r : res A) : bool :=
  match r with Ok _ => true | Throw _ => false end.

(** [throw_if P e]: the guard [if (P) BOOST_THROW_EXCEPTION(e)]. *)
Definition throw_if (P : Prop) `{Decision P} (e : exn) : res unit :=
  if decide P then Throw e else Ok tt.

Lemma throw_if_false (P : Prop) `{Decision P} e : ¬ P → throw_if P e = Ok tt.
Proof. intros HP. unfold throw_if. by rewrite decide_False. Qed.

Lemma throw_if_true (P : Prop) `{Decision P} e : P → throw_if P e = Throw e.
Proof. intros HP. unfold throw_if. by rewrite decide_True. Qed.

Lemma bind_ok {A B} (f : A → res B) a : (Ok a ≫= f) = f a.
Proof. done. Qed.

Lemma bind_ok_inv {A B} (m : res A) (f : A → res B) b :
  m ≫= f = Ok b → ∃ a, m = Ok a ∧ f a = Ok b.
Proof. destruct m as [a|e]; [by exists a | done]. Qed.

Lemma throw_if_ok_inv (P : Prop) `{Decision P} e x : throw_if P e = Ok x → ¬ P.
Proof. unfold throw_if. by case_decide. Qed.

(** ** Automation *)

Create HintDb bcos.
Create Rewrite HintDb bcos_arith.

(** [inv_ok] takes apart a chain of binds that succeeded. *)
Ltac inv_ok :=
  repeat match goal with
  | H : (?m ≫= _) = Ok _ |- _ =>
      let a := fresh "r" in let E := fresh "E" in
      apply bind_ok_inv in H as (a & E & H)
  | H : throw_if _ _ = Ok _ |- _ => apply throw_if_ok_inv in H
  | H : mret _ = Ok _ |- _ => unfold mret, res_ret in H
  | H : Ok _ = Ok _ |- _ => injection H as H
  | H : Throw _ = Ok _ |- _ => discriminate H
  | H : unit |- _ => destruct H
  end.

(** [ok_step] runs the guards of a chain of binds that lia decides. *)
Ltac ok_step :=
  repeat (rewrite throw_if_false by lia); rewrite ?bind_ok.

(** [dcase] splits on every [decide] of the goal. *)
Ltac dcase := repeat case_decide; try done; try lia.

(** ** Lemmas on machine integers *)

Lemma u64_small z : 0 ≤ z < 2 ^ 64 → u64 z = z.
Proof. apply Z.mod_small. Qed.

Lemma u32_small z : 0 ≤ z < 2 ^ 32 → u32 z = z.
Proof. apply Z.mod_small. Qed.

Lemma u16_small z : 0 ≤ z < 2 ^ 16 → u16 z = z.
Proof. apply Z.mod_small. Qed.

Lemma u8_small z : 0 ≤ z < 2 ^ 8 → u8 z = z.
Proof. apply Z.mod_small. Qed.

Lemma u256_small z : 0 ≤ z < 2 ^ 256 → u256 z = z.
Proof. apply Z.mod_small. Qed.

Lemma i64_small z : - 2 ^ 63 ≤ z < 2 ^ 63 → i64 z = z.
Proof. intros. unfold i64. rewrite Z.mod_small; lia. Qed.

Lemma i64_range z : - 2 ^ 63 ≤ i64 z < 2 ^ 63.
Proof. unfold i64. pose proof (Z.mod_pos_bound (z + 2 ^ 63) (2 ^ 64)). lia. Qed.

Lemma u8_range z : 0 ≤ u8 z < 2 ^ 8.
Proof. unfold u8. apply Z.mod_pos_bound. lia. Qed.

Lemma u32_range z : 0 ≤ u32 z < 2 ^ 32.
Proof. unfold u32. apply Z.mod_pos_bound. lia. Qed.

Lemma u64_range z : 0 ≤ u64 z < 2 ^ 64.
Proof. apply Z.mod_pos_bound. lia. Qed.

(** ** Lemmas on byte lists *)

Lemma len_nonneg d : 0 ≤ len d.
Proof. unfold len. lia. Qed.
#[export] Hint Resolve len_nonneg : bcos.

Lemma len_nil : len [] = 0.
Proof. done. Qed.

Lemma len_cons b d : len (b :: d) = 1 + len d.
Proof. unfold len. simpl. lia. Qed.

Lemma len_app d1 d2 : len (d1 ++ d2) = len d1 + len d2.
Proof. unfold len. rewrite length_app. lia. Qed.

Lemma len_pos_cons d : 0 < len d → ∃ b d', d = b :: d'.
Proof. destruct d as [|b d']; [done | by exists b, d']. Qed.

Lemma len_0_nil d : len d = 0 → d = [].
Proof. destruct d; [done|]. rewrite len_cons. pose proof (len_nonneg d). lia. Qed.

Lemma len_take n d : 0 ≤ n ≤ len d → len (take (Z.to_nat n) d) = n.
Proof. unfold len. rewrite length_take. lia. Qed.

Lemma len_drop n d : 0 ≤ n ≤ len d → len (drop (Z.to_nat n) d) = len d - n.
Proof. unfold len. rewrite length_drop. lia. Qed.

Lemma len_length_nat d : Z.to_nat (len d) = length d.
Proof. unfold len. lia. Qed.

Lemma take_len_app d1 d2 : take (Z.to_nat (len d1)) (d1 ++ d2) = d1.
Proof. rewrite len_length_nat. apply take_app_length. Qed.

Lemma drop_len_app d1 d2 : drop (Z.to_nat (len d1)) (d1 ++ d2) = d2.
Proof. rewrite len_length_nat. apply drop_app_length. Qed.

Lemma byte_at_0 b d : byte_at (b :: d) 0 = b.
Proof. done. Qed.

Lemma byte_at_S b d i : 0 ≤ i → byte_at (b :: d) (1 + i) = byte_at d i.
Proof.
  intros Hi. unfold byte_at. replace (Z.to_nat (1 + i)) with (S (Z.to_nat i)) by lia.
  done.
Qed.

Lemma bytes_ok_app d1 d2 : bytes_ok (d1 ++ d2) ↔ bytes_ok d1 ∧ bytes_ok d2.
Proof. apply Forall_app. Qed.

Lemma bytes_ok_cons b d : bytes_ok (b :: d) ↔ is_byte b ∧ bytes_ok d.
Proof. unfold bytes_ok. split; [by inversion 1 | by intros [? ?]; constructor]. Qed.

#[export] Hint Rewrite len_nil len_cons len_app : bcos_arith.

(** [len_lia] decides a goal about lengths of concatenations. *)
Ltac len_lia :=
  autorewrite with bcos_arith in *;
  repeat match goal with
  | |- context [len ?d] => lazymatch goal with
      | H : 0 ≤ len d |- _ => fail
      | _ => pose proof (len_nonneg d) end
  | _ : context [len ?d] |- _ => lazymatch goal with
      | H : 0 ≤ len d |- _ => fail
      | _ => pose proof (len_nonneg d) end
  end; lia.

(** ** Reflexive-transitive closure of a step relation *)

Inductive star {A : Type} (R : A → A → Prop) : A → A → Prop :=
  | star_refl a : star R a a
  | star_step a b c : R a b → star R b c → star R a c.
#[export] Hint Constructors star : bcos.

Lemma star_invariant {A} (R : A → A → Prop) (I : A → Prop) :
  (∀ a b, I a → R a b → I b) → ∀ a b, star R a b → I a → I b.
Proof. intros HI a b. induction 1; eauto. Qed.

Lemma star_one {A} (R : A → A → Prop) a b : R a b → star R a b.
Proof. eauto with bcos. Qed.

Lemma star_trans {A} (R : A → A → Prop) a b c : star R a b → star R b c → star R a c.
Proof. induction 1; eauto with bcos. Qed.
