(* ===== verification/StateErr.v ===== *)
(** * A state and exception monad

    The shape of a member function of a C++ class: it reads and writes the
    object's data members and may throw, in which case the members keep the
    values they had at the throw. The operations of the transaction pool, the
    sealer, the Raft engine, the block synchroniser and the interpreter are
    written in it, each at its own state. The second half gives the reasoning
    principles they share: partial correctness triples that also speak of the
    state at a throw, and preservation of an invariant. *)

From S2P Require Import Prelude.

Local Open Scope Z_scope.

Definition SM (S A : Type) : Type := S → res A * S.

Section monad.
Context {S : Type}.

#[global] Instance sm_ret : MRet (SM S) := λ A a s, (Ok a, s).
#[global] Instance sm_bind : MBind (SM S) := λ A B f m s,
  match m s with
  | (Ok a, s') => f a s'
  | (Throw e, s') => (Throw e, s')
  end.

Definition sget : SM S S := λ s, (Ok s, s).
Definition gets {A} (f : S → A) : SM S A := λ s, (Ok (f s), s).
Definition smodify (f : S → S) : SM S unit := λ s, (Ok tt, f s).
Definition sput (s : S) : SM S unit := λ _, (Ok tt, s).
Definition sthrow {A} (e : exn) : SM S A := λ s, (Throw e, s).
Definition slift {A} (r : res A) : SM S A := λ s, (r, s).
Definition swhen (P : Prop) `{Decision P} (m : SM S unit) : SM S unit :=
  if decide P then m else mret tt.
Definition sthrow_if (P : Prop) `{Decision P} (e : exn) : SM S unit := slift (throw_if P e).

(** [try { m } catch (...) { h }]: undefined behaviour, a failed assertion and
    divergence are not exceptions and cannot be caught. *)
Definition catchable (e : exn) : bool :=
  match e with UB | AssertFail | OutOfFuel => false | _ => true end.
Definition stry {A} (m : SM S A) (h : exn → SM S A) : SM S A := λ s,
  match m s with
  | (Throw e, s') => if catchable e then h e s' else (Throw e, s')
  | r => r
  end.

Fixpoint sfor_each {A} (l : list A) (f : A → SM S unit) : SM S unit :=
  match l with
  | [] => mret tt
  | x :: l => f x ≫= λ _, sfor_each l f
  end.
End monad.

(** ** Equations *)

Section equations.
Context {S : Type}.

Lemma sm_bind_ok {A B} (m : SM S A) (f : A → SM S B) s a s' :
  m s = (Ok a, s') → (m ≫= f) s = f a s'.
Proof. unfold mbind, sm_bind. by intros ->. Qed.

Lemma sm_bind_throw {A B} (m : SM S A) (f : A → SM S B) s e s' :
  m s = (Throw e, s') → (m ≫= f) s = (Throw e, s').
Proof. unfold mbind, sm_bind. by intros ->. Qed.

Lemma sm_bind_inv {A B} (m : SM S A) (f : A → SM S B) s b s2 :
  (m ≫= f) s = (Ok b, s2) → ∃ a s1, m s = (Ok a, s1) ∧ f a s1 = (Ok b, s2).
Proof.
  unfold mbind, sm_bind. destruct (m s) as [[a|e] s1]; [|done]. intros E. by exists a, s1.
Qed.

Lemma sm_bind_assoc {A B C} (m : SM S A) (f : A → SM S B) (g : B → SM S C) s :
  ((m ≫= f) ≫= g) s = (m ≫= λ x, f x ≫= g) s.
Proof. unfold mbind, sm_bind. by destruct (m s) as [[a|e] s1]. Qed.

Lemma sthrow_if_false (P : Prop) `{Decision P} e (s : S) : ¬ P → sthrow_if P e s = (Ok tt, s).
Proof. intros. unfold sthrow_if, slift. by rewrite throw_if_false. Qed.

Lemma sthrow_if_true (P : Prop) `{Decision P} e (s : S) : P → sthrow_if P e s = (Throw e, s).
Proof. intros. unfold sthrow_if, slift. by rewrite throw_if_true. Qed.
End equations.

(** ** Triples *)

Section triples.
Context {S : Type}.

(** From a state in [P], [m] either returns [a] in a state in [Q a], or throws
    [e] in a state in [E e]. *)
Definition triple {A} (P : S → Prop) (m : SM S A) (Q : A → S → Prop) (E : exn → S → Prop) : Prop :=
  ∀ s, P s → match m s with (Ok a, s') => Q a s' | (Throw e, s') => E e s' end.

Lemma triple_ret {A} P (a : A) Q E : (∀ s, P s → Q a s) → triple P (mret a) Q E.
Proof. intros HQ s. apply HQ. Qed.

Lemma triple_bind {A B} P (m : SM S A) (f : A → SM S B) Q R E :
  triple P m Q E → (∀ a, triple (Q a) (f a) R E) → triple P (m ≫= f) R E.
Proof.
  intros Hm Hf s Hs. specialize (Hm s Hs). unfold mbind, sm_bind.
  destruct (m s) as [[a|e] s']; [by apply (Hf a s')|done].
Qed.

Lemma triple_weaken {A} (P P' : S → Prop) (m : SM S A) (Q Q' : A → S → Prop) (E E' : exn → S → Prop) :
  triple P' m Q' E' → (∀ s, P s → P' s) → (∀ a s, Q' a s → Q a s) → (∀ e s, E' e s → E e s) →
  triple P m Q E.
Proof.
  intros Hm HP HQ HE s Hs. specialize (Hm s (HP s Hs)).
  destruct (m s) as [[a|e] s']; auto.
Qed.

Lemma triple_get P Q E : (∀ s, P s → Q s s) → triple P sget Q E.
Proof. intros HQ s. apply HQ. Qed.

Lemma triple_gets {A} P (f : S → A) Q E : (∀ s, P s → Q (f s) s) → triple P (gets f) Q E.
Proof. intros HQ s. apply HQ. Qed.

Lemma triple_modify P (f : S → S) Q E : (∀ s, P s → Q tt (f s)) → triple P (smodify f) Q E.
Proof. intros HQ s. apply HQ. Qed.

Lemma triple_lift {A} P (r : res A) Q E :
  (∀ s, P s → match r with Ok a => Q a s | Throw e => E e s end) → triple P (slift r) Q E.
Proof. intros HQ s Hs. unfold slift. specialize (HQ s Hs). by destruct r. Qed.

Lemma triple_throw_if (C : Prop) `{Decision C} (P : S → Prop) (Q : unit → S → Prop) (E : exn → S → Prop) e :
  (∀ s, P s → C → E e s) → (∀ s, P s → ¬ C → Q tt s) → triple P (sthrow_if C e) Q E.
Proof.
  intros HE HQ s Hs. unfold sthrow_if, slift, throw_if. case_decide; auto.
Qed.

Lemma triple_when (C : Prop) `{Decision C} P (m : SM S unit) Q E :
  triple (λ s, P s ∧ C) m Q E → (∀ s, P s → ¬ C → Q tt s) → triple P (swhen C m) Q E.
Proof. intros Hm HQ s Hs. unfold swhen. case_decide; [by apply Hm|by apply HQ]. Qed.

Lemma triple_for_each {A} (I : list A → S → Prop) (l : list A) (f : A → SM S unit) E :
  (∀ x l', triple (I (x :: l')) (f x) (λ _, I l') E) → triple (I l) (sfor_each l f) (λ _, I []) E.
Proof.
  intros Hf. induction l as [|x l IH]; simpl; [by apply triple_ret|].
  eapply triple_bind; [apply Hf|]. intros ?. apply IH.
Qed.

(** ** Invariants *)

Definition keeps {A} (I : S → Prop) (m : SM S A) : Prop := ∀ s, I s → I (snd (m s)).

Lemma keeps_triple {A} I (m : SM S A) : keeps I m ↔ triple I m (λ _, I) (λ _, I).
Proof. split; intros Hm s Hs; specialize (Hm s Hs); by destruct (m s) as [[]]. Qed.

Lemma keeps_ret {A} I (a : A) : keeps I (mret a).
Proof. intros s Hs. done. Qed.

Lemma keeps_bind {A B} I (m : SM S A) (f : A → SM S B) :
  keeps I m → (∀ a, keeps I (f a)) → keeps I (m ≫= f).
Proof.
  rewrite !keeps_triple. intros Hm Hf. eapply triple_bind; [done|].
  intros a. by apply keeps_triple.
Qed.

(** The bind rule that remembers how the first part ran. *)
Lemma keeps_bind_eq {A B} I (m : SM S A) (f : A → SM S B) :
  keeps I m → (∀ s a s', I s → m s = (Ok a, s') → I (snd (f a s'))) → keeps I (m ≫= f).
Proof.
  intros Hm Hf s Hs. specialize (Hm s Hs). unfold mbind, sm_bind.
  destruct (m s) as [[a|e] s'] eqn:E; [by apply (Hf s)|done].
Qed.

Lemma keeps_get I : keeps I sget.
Proof. intros s Hs. done. Qed.
Lemma keeps_gets {A} I (f : S → A) : keeps I (gets f).
Proof. intros s Hs. done. Qed.
Lemma keeps_lift {A} I (r : res A) : keeps I (slift r).
Proof. intros s Hs. done. Qed.
Lemma keeps_throw {A} I e : keeps I (@sthrow S A e).
Proof. intros s Hs. done. Qed.
Lemma keeps_throw_if I (P : Prop) `{Decision P} e : keeps I (sthrow_if P e).
Proof. intros s Hs. done. Qed.
Lemma keeps_modify (I : S → Prop) (f : S → S) : (∀ s, I s → I (f s)) → keeps I (smodify f).
Proof. intros Hf s Hs. by apply Hf. Qed.
Lemma keeps_when I (P : Prop) `{Decision P} m : (P → keeps I m) → keeps I (swhen P m).
Proof. intros Hm. unfold swhen. case_decide; [by apply Hm|apply keeps_ret]. Qed.
Lemma keeps_if {A} I (P : Prop) `{Decision P} (m1 m2 : SM S A) :
  (P → keeps I m1) → (¬ P → keeps I m2) → keeps I (if decide P then m1 else m2).
Proof. intros H1 H2. case_decide; auto. Qed.
Lemma keeps_try {A} I (m : SM S A) h : keeps I m → (∀ e, keeps I (h e)) → keeps I (stry m h).
Proof.
  intros Hm Hh s Hs. specialize (Hm s Hs). unfold stry.
  destruct (m s) as [[a|e] s']; [done|]. destruct (catchable e); [by apply Hh|done].
Qed.
Lemma keeps_for_each {A} I (l : list A) (f : A → SM S unit) :
  (∀ x, keeps I (f x)) → keeps I (sfor_each l f).
Proof.
  intros Hf. induction l as [|x l IH]; simpl; [apply keeps_ret|].
  apply keeps_bind; [apply Hf|]. intros _. apply IH.
Qed.
End triples.

(** ** Weakest preconditions *)

Section wp.
Context {S : Type}.

(** From [s], [m] either returns [a] in a state in [Q a], or throws [e] in a
    state in [E e]: the form for symbolic execution. *)
Definition wp {A} (m : SM S A) (Q : A → S → Prop) (E : exn → S → Prop) (s : S) : Prop :=
  match m s with (Ok a, s') => Q a s' | (Throw e, s') => E e s' end.

Lemma wp_triple {A} P (m : SM S A) Q E : triple P m Q E ↔ ∀ s, P s → wp m Q E s.
Proof. done. Qed.

Lemma wp_ret {A} (a : A) Q E s : Q a s → wp (mret a) Q E s.
Proof. done. Qed.

Lemma wp_bind {A B} (m : SM S A) (f : A → SM S B) Q E s :
  wp m (λ a, wp (f a) Q E) E s → wp (m ≫= f) Q E s.
Proof. unfold wp, mbind, sm_bind. by destruct (m s) as [[a|e] s']. Qed.

Lemma wp_mono {A} (m : SM S A) (Q Q' : A → S → Prop) (E E' : exn → S → Prop) s :
  wp m Q' E' s → (∀ a s', Q' a s' → Q a s') → (∀ e s', E' e s' → E e s') → wp m Q E s.
Proof. unfold wp. destruct (m s) as [[a|e] s']; auto. Qed.

Lemma wp_get Q E s : Q s s → wp sget Q E s.
Proof. done. Qed.

Lemma wp_modify (f : S → S) Q E s : Q tt (f s) → wp (smodify f) Q E s.
Proof. done. Qed.

Lemma wp_throw {A} e (Q : A → S → Prop) E s : E e s → wp (sthrow e) Q E s.
Proof. done. Qed.

Lemma wp_throw_if (C : Prop) `{Decision C} e (Q : unit → S → Prop) E s :
  (C → E e s) → (¬ C → Q tt s) → wp (sthrow_if C e) Q E s.
Proof. intros HE HQ. unfold wp, sthrow_if, slift, throw_if. case_decide; auto. Qed.

Lemma wp_lift {A} (r : res A) (Q : A → S → Prop) E s :
  (∀ a, r = Ok a → Q a s) → (∀ e, r = Throw e → E e s) → wp (slift r) Q E s.
Proof. intros HQ HE. unfold wp, slift. destruct r; auto. Qed.

Lemma wp_keeps {A} (I : S → Prop) (m : SM S A) s :
  keeps I m → I s → wp m (λ _, I) (λ _, I) s.
Proof. intros Hk Hs. specialize (Hk s Hs). unfold wp. by destruct (m s) as [[a|e] s']. Qed.

Lemma keeps_wp {A} (I : S → Prop) (m : SM S A) :
  (∀ s, I s → wp m (λ _, I) (λ _, I) s) → keeps I m.
Proof. intros Hw s Hs. specialize (Hw s Hs). unfold wp in Hw. by destruct (m s) as [[a|e] s']. Qed.

Lemma wp_when (C : Prop) `{Decision C} m Q E s :
  (C → wp m Q E s) → (¬ C → Q tt s) → wp (swhen C m) Q E s.
Proof. intros Hm HQ. unfold swhen. case_decide; [by apply Hm|by apply HQ]. Qed.

Lemma wp_if {A} (C : Prop) `{Decision C} (m1 m2 : SM S A) Q E s :
  (C → wp m1 Q E s) → (¬ C → wp m2 Q E s) → wp (if decide C then m1 else m2) Q E s.
Proof. intros H1 H2. case_decide; auto. Qed.

Lemma wp_eq {A} (m : SM S A) (a : A) s' Q E s : m s = (Ok a, s') → Q a s' → wp m Q E s.
Proof. unfold wp. by intros ->. Qed.

(** What holds of every run of [m] holds of its result. *)
Lemma wp_run {A} (m : SM S A) Q E s : wp m Q E s →
  (∃ a s', m s = (Ok a, s') ∧ Q a s') ∨ (∃ e s', m s = (Throw e, s') ∧ E e s').
Proof. unfold wp. destruct (m s) as [[a|e] s']; eauto. Qed.
End wp.

Create HintDb keeps discriminated.
#[export] Hint Resolve keeps_ret keeps_get keeps_gets keeps_lift keeps_throw keeps_throw_if : keeps.

(** [keeps_auto] follows the structure of the operation and closes the calls
    whose preservation lemma is in the database. *)
Ltac keeps_step :=
  lazymatch goal with
  | |- keeps _ (_ ≫= _) => apply keeps_bind; [|intros ?]
  | |- keeps _ (swhen _ _) => apply keeps_when; intros ?
  | |- keeps _ (stry _ _) => apply keeps_try; [|intros ?]
  | |- keeps _ (sfor_each _ _) => apply keeps_for_each; intros ?
  | |- keeps _ (if decide _ then _ else _) => apply keeps_if; intros ?
  | |- keeps _ (if ?b then _ else _) => destruct b eqn:?
  | |- keeps _ (match ?x with _ => _ end) => destruct x eqn:?
  | |- keeps _ (let _ := _ in _) => cbv zeta
  end.
Ltac keeps_auto := repeat first [solve [eauto with keeps] | keeps_step].
