(* ===== verification/RLP.v ===== *)
(** * RLP: the recursive length prefix codec

    Models [class RLP] (the reader) and [class RLPStream] (the writer) of
    libdevcore/RLP.h and libdevcore/RLP.cpp, with the parts of
    libdevcore/CommonData.h and libdevcore/vector_ref.h they use.

    An [RLP] object is its [m_data], a list of bytes; the list-indexing cache
    ([m_lastIndex], [m_lastEnd], [m_lastItem]), which [operator[]] updates, is
    passed explicitly. Exceptions are [Throw] values. An [RLPStream] is its
    output and its stack of open lists. *)

From S2P Require Import Prelude.

Local Open Scope Z_scope.

(** ** Constants (RLP.h) *)

Definition c_rlpMaxLengthBytes : Z := 8.
Definition c_rlpDataImmLenStart : Z := 0x80.
Definition c_rlpListStart : Z := 0xc0.
Definition c_rlpDataImmLenCount : Z :=
  c_rlpListStart - c_rlpDataImmLenStart - c_rlpMaxLengthBytes.
Definition c_rlpDataIndLenZero : Z := c_rlpDataImmLenStart + c_rlpDataImmLenCount - 1.
Definition c_rlpListImmLenCount : Z := 256 - c_rlpListStart - c_rlpMaxLengthBytes.
Definition c_rlpListIndLenZero : Z := c_rlpListStart + c_rlpListImmLenCount - 1.

(** Conversion flags of [RLP]. *)
Definition AllowNonCanon : Z := 1.
Definition ThrowOnFail : Z := 4.
Definition FailIfTooBig : Z := 8.
Definition FailIfTooSmall : Z := 16.
Definition Strict : Z := Z.lor ThrowOnFail FailIfTooBig.
Definition VeryStrict : Z := Z.lor ThrowOnFail (Z.lor FailIfTooBig FailIfTooSmall).
Definition LaissezFaire : Z := AllowNonCanon.

(** [flags & f] as a condition. *)
Definition has (flags f : Z) : Prop := Z.land flags f ≠ 0.
#[global] Instance has_dec flags f : Decision (has flags f) := _.

(** ** vector_ref *)

(** [vector_ref::cropped(begin, count)]; the view becomes empty when out of
    range. The sum is a [size_t]. *)
Definition cropped (d : bytes) (b c : Z) : bytes :=
  if decide (b ≤ len d ∧ c ≤ len d ∧ u64 (b + c) ≤ len d)
  then take (Z.to_nat c) (drop (Z.to_nat b) d) else [].

(** [vector_ref::cropped(begin)]. *)
Definition cropped_from (d : bytes) (b : Z) : bytes :=
  if decide (b ≤ len d) then drop (Z.to_nat b) d else [].

(** ** Big-endian helpers (CommonData.h) *)

(** [fromBigEndian<T>]: [wrap] is the conversion to [T]. *)
Definition fromBigEndian (wrap : Z → Z) (bs : bytes) : Z :=
  fold_left (λ r b, wrap (Z.lor (Z.shiftl r 8) b)) bs 0.

(** [toBigEndian(val, out)] for an [out] of [n] bytes. *)
Fixpoint toBigEndian (n : nat) (v : Z) : bytes :=
  match n with
  | O => []
  | S n => toBigEndian n (Z.shiftr v 8) ++ [Z.land v 0xff]
  end.

(** [bytesRequired]: the loop [for (; i != 0; ++n, i >>= 8)]. *)
Fixpoint bytesRequired_loop (fuel : nat) (i : Z) : Z :=
  match fuel with
  | O => 0
  | S fuel => if decide (i = 0) then 0 else 1 + bytesRequired_loop fuel (Z.shiftr i 8)
  end.
Definition bytesRequired (i : Z) : Z := bytesRequired_loop (S (Z.to_nat (Z.log2 i))) i.

(** ** The reader *)

Definition isNull (d : bytes) : Prop := len d = 0.
#[global] Instance isNull_dec d : Decision (isNull d) := _.

Definition isEmpty (d : bytes) : Prop :=
  ¬ isNull d ∧ (byte_at d 0 = c_rlpDataImmLenStart ∨ byte_at d 0 = c_rlpListStart).
#[global] Instance isEmpty_dec d : Decision (isEmpty d) := _.

Definition isData (d : bytes) : Prop := ¬ isNull d ∧ byte_at d 0 < c_rlpListStart.
#[global] Instance isData_dec d : Decision (isData d) := _.

Definition isList (d : bytes) : Prop := ¬ isNull d ∧ c_rlpListStart ≤ byte_at d 0.
#[global] Instance isList_dec d : Decision (isList d) := _.

Definition isSingleByte (d : bytes) : Prop :=
  ¬ isNull d ∧ byte_at d 0 < c_rlpDataImmLenStart.
#[global] Instance isSingleByte_dec d : Decision (isSingleByte d) := _.

Definition requireGood (d : bytes) : res unit :=
  throw_if (isNull d) BadRLP;;
  if decide (byte_at d 0 ≠ c_rlpDataImmLenStart + 1) then Ok tt
  else
    throw_if (len d < 2) BadRLP;;
    throw_if (byte_at d 1 < c_rlpDataImmLenStart) BadRLP.

Definition isInt (d : bytes) : res bool :=
  if decide (isNull d) then Ok false
  else
    requireGood d;;
    let n := byte_at d 0 in
    if decide (n < c_rlpDataImmLenStart) then Ok (bool_decide (n ≠ 0))
    else if decide (n = c_rlpDataImmLenStart) then Ok true
    else if decide (n ≤ c_rlpDataIndLenZero) then
      throw_if (len d ≤ 1) BadRLP;;
      Ok (bool_decide (byte_at d 1 ≠ 0))
    else if decide (n < c_rlpListStart) then
      throw_if (len d ≤ 1 + n - c_rlpDataIndLenZero) BadRLP;;
      Ok (bool_decide (byte_at d (1 + n - c_rlpDataIndLenZero) ≠ 0))
    else Ok false.

(** The length of the length prefix is read into a [size_t]. *)
Definition lengthPrefix (d : bytes) (lengthSize : Z) : Z :=
  fromBigEndian u64 (take (Z.to_nat lengthSize) (drop 1 d)).

Definition rlp_length (d : bytes) : res Z :=
  if decide (isNull d) then Ok 0
  else
    requireGood d;;
    let n := byte_at d 0 in
    let sizeLimit := UINT64_MAX - 0x100 in
    if decide (n < c_rlpDataImmLenStart) then Ok 1
    else if decide (n ≤ c_rlpDataIndLenZero) then Ok (n - c_rlpDataImmLenStart)
    else if decide (n < c_rlpListStart) then
      throw_if (len d ≤ n - c_rlpDataIndLenZero) BadRLP;;
      throw_if (len d > 1 ∧ byte_at d 1 = 0) BadRLP;;
      let lengthSize := n - c_rlpDataIndLenZero in
      throw_if (lengthSize > 8) UndersizeRLP;;
      throw_if (byte_at d 1 = 0) BadRLP;;
      let ret := lengthPrefix d lengthSize in
      throw_if (ret < c_rlpListStart - c_rlpDataImmLenStart - c_rlpMaxLengthBytes) BadRLP;;
      throw_if (sizeLimit ≤ ret) UndersizeRLP;;
      Ok ret
    else if decide (n ≤ c_rlpListIndLenZero) then Ok (n - c_rlpListStart)
    else
      let lengthSize := n - c_rlpListIndLenZero in
      throw_if (len d ≤ lengthSize) BadRLP;;
      throw_if (len d > 1 ∧ byte_at d 1 = 0) BadRLP;;
      throw_if (lengthSize > 8) UndersizeRLP;;
      throw_if (byte_at d 1 = 0) BadRLP;;
      let ret := lengthPrefix d lengthSize in
      throw_if (ret < 0x100 - c_rlpListStart - c_rlpMaxLengthBytes) BadRLP;;
      throw_if (sizeLimit ≤ ret) UndersizeRLP;;
      Ok ret.

Definition lengthSize (d : bytes) : Z :=
  if decide (isData d ∧ byte_at d 0 > c_rlpDataIndLenZero) then byte_at d 0 - c_rlpDataIndLenZero
  else if decide (isList d ∧ byte_at d 0 > c_rlpListIndLenZero) then
    byte_at d 0 - c_rlpListIndLenZero
  else 0.

Definition payloadOffset (d : bytes) : Z :=
  if decide (isSingleByte d) then 0 else 1 + lengthSize d.

Definition payload (d : bytes) : res bytes :=
  l ← rlp_length d;
  throw_if (l > len d) BadRLP;;
  Ok (cropped d (payloadOffset d) l).

Definition actualSize (d : bytes) : res Z :=
  if decide (isNull d) then Ok 0
  else if decide (isSingleByte d) then Ok 1
  else if decide (isData d ∨ isList d) then l ← rlp_length d; Ok (payloadOffset d + l)
  else Ok 0.

(** The constructor [RLP(bytesConstRef, Strictness)]; the result is [m_data]. *)
Definition RLP_new (d : bytes) (s : Z) : res bytes :=
  d1 ← (if decide (has s FailIfTooBig) then
          a ← actualSize d;
          if decide (a < len d) then
            (if decide (has s ThrowOnFail) then Throw OversizeRLP else Ok [])
          else Ok d
        else Ok d);
  if decide (has s FailIfTooSmall) then
    a ← actualSize d1;
    if decide (a > len d) then
      (if decide (has s ThrowOnFail) then Throw UndersizeRLP else Ok [])
    else Ok d1
  else Ok d1.

Definition sizeAsEncoded (d : bytes) : res Z :=
  r ← RLP_new d (Z.lor ThrowOnFail FailIfTooSmall);
  actualSize r.

(** The mutable members of an [RLP] that [operator[]] maintains. *)
Record rlp_cache := RLPCache {
  m_lastIndex : Z;
  m_lastEnd : Z;
  m_lastItem : bytes;
}.
Definition rlp_cache0 : rlp_cache := RLPCache UINT64_MAX 0 [].

(** The loop of [operator[]]; it runs at most [n = i - m_lastIndex] times. An
    exception of [sizeAsEncoded] comes after the first assignment of
    [m_lastItem] and before those of the other members. *)
Fixpoint index_loop (n : nat) (d : bytes) (c : rlp_cache) : res unit * rlp_cache :=
  match n with
  | O => (Ok tt, c)
  | S n =>
      if decide (len (m_lastItem c) = 0) then (Ok tt, c)
      else
        match payload d with
        | Throw x => (Throw x, c)
        | Ok p =>
            let rest := cropped_from p (m_lastEnd c) in
            match sizeAsEncoded rest with
            | Throw x => (Throw x, RLPCache (m_lastIndex c) (m_lastEnd c) rest)
            | Ok s =>
                let item := cropped rest 0 s in
                index_loop n d (RLPCache (m_lastIndex c + 1) (u64 (m_lastEnd c + len item)) item)
            end
        end
  end.

(** [operator[](i)] on the object with data [d] and cache [c]: the result and
    the cache, which is also changed when the access throws. *)
Definition rlp_access (d : bytes) (c : rlp_cache) (i : Z) : res bytes * rlp_cache :=
  let '(r, c) :=
    if decide (i < m_lastIndex c) then
      match (p ← payload d; e ← sizeAsEncoded p; Ok (RLPCache 0 e (cropped p 0 e))) with
      | Ok c => (Ok tt, c)
      | Throw x => (Throw x, c)
      end
    else (Ok tt, c) in
  match r with
  | Throw x => (Throw x, c)
  | Ok _ =>
      let '(r, c) := index_loop (Z.to_nat (i - m_lastIndex c)) d c in
      (r;; RLP_new (m_lastItem c) (Z.lor ThrowOnFail FailIfTooSmall), c)
  end.

(** The same for an object that no one uses after an exception. *)
Definition rlp_index (d : bytes) (c : rlp_cache) (i : Z) : res (bytes * rlp_cache) :=
  let '(r, c) := rlp_access d c i in
  x ← r;
  Ok (x, c).

(** [operator[](i)] on a fresh object. *)
Definition rlp_at (d : bytes) (i : Z) : res bytes := fst <$> rlp_index d rlp_cache0 i.

(** The loop of [items()]. *)
Fixpoint items_loop (fuel : nat) (d : bytes) (i : Z) : res Z :=
  match fuel with
  | O => Throw OutOfFuel
  | S fuel =>
      if decide (len d = 0) then Ok i
      else s ← sizeAsEncoded d; items_loop fuel (cropped_from d s) (i + 1)
  end.

Definition items (d : bytes) : res Z :=
  if decide (isList d) then p ← payload d; items_loop (S (length p)) p 0 else Ok 0.

Definition itemCount (d : bytes) : res Z := if decide (isList d) then items d else Ok 0.

Definition itemCountStrict (d : bytes) : res Z :=
  throw_if (¬ isList d) BadCast;; items d.

(** [for (auto const& i : *this) ret.push_back(f(i))]: the iterator is the
    offset and the size of the current item in [m_data], and [m_remaining]. *)
Fixpoint iterate_loop {T} (fuel : nat) (d : bytes) (f : bytes → res T) (off cnt rem : Z) :
    res (list T) :=
  match fuel with
  | O => Throw OutOfFuel
  | S fuel =>
      if decide (off = len d ∧ cnt = 0) then Ok []
      else
        r ← RLP_new (cropped d off cnt) VeryStrict;
        x ← f r;
        '(off', cnt', rem') ←
          (if decide (rem ≠ 0) then
             let rest := cropped d (off + cnt) rem in
             s ← sizeAsEncoded rest;
             let item := cropped rest 0 s in
             Ok (off + cnt, len item, rem - Z.min rem (len item))
           else Ok (off + cnt, 0, 0));
        xs ← iterate_loop fuel d f off' cnt' rem';
        Ok (x :: xs)
  end.

(** When the announced payload reaches past the data, [payload()] is a null
    view, which never equals [end()]: the loop body runs on null items forever. *)
Definition iterate {T} (d : bytes) (f : bytes → res T) : res (list T) :=
  if decide (isList d) then
    l ← rlp_length d;
    pl ← payload d;
    if decide (len d < payloadOffset d + l) then f [];; Throw OutOfFuel
    else
      s ← sizeAsEncoded pl;
      let item := cropped pl 0 s in
      iterate_loop (S (length d)) d f (payloadOffset d) (len item) (len pl - len item)
  else Ok [].

(** [toList]: the items themselves. *)
Definition toList (d : bytes) (flags : Z) : res (list bytes) :=
  if decide (¬ isList d) then
    (if decide (has flags ThrowOnFail) then Throw BadCast else Ok [])
  else iterate d Ok.

(** *** Conversions *)

Definition toBytes (d : bytes) (flags : Z) : res bytes :=
  if decide (¬ isData d) then
    (if decide (has flags ThrowOnFail) then Throw BadCast else Ok [])
  else
    p ← payload d;
    l ← rlp_length d;
    (* bytes(payload().data(), payload().data() + length()) *)
    throw_if (len p < l) UB;;
    Ok (take (Z.to_nat l) p).

Definition toBytesConstRef (d : bytes) (flags : Z) : res bytes :=
  if decide (¬ isData d) then
    (if decide (has flags ThrowOnFail) then Throw BadCast else Ok [])
  else
    p ← payload d;
    l ← rlp_length d;
    Ok (cropped p 0 l).

(** [toInt<T>]: [maxSize] is [intTraits<T>::maxSize], [wrap] the conversion to
    [T]. *)
Definition toInt (maxSize : Z) (wrap : Z → Z) (d : bytes) (flags : Z) : res Z :=
  requireGood d;;
  b ← isInt d;
  if decide ((b = false ∧ ¬ has flags AllowNonCanon) ∨ isList d ∨ isNull d) then
    (if decide (has flags ThrowOnFail) then Throw BadCast else Ok 0)
  else
    p ← payload d;
    if decide (len p > maxSize ∧ has flags FailIfTooBig) then
      (if decide (has flags ThrowOnFail) then Throw BadCast else Ok 0)
    else Ok (fromBigEndian wrap p).

Definition toInt_u8 := toInt 1 u8.
Definition toInt_u16 := toInt 2 u16.
Definition toInt_u64 := toInt 8 u64.
Definition toInt_i64 := toInt 8 i64.
Definition toInt_u256 := toInt 32 u256.

Definition toPositiveInt64 (d : bytes) (flags : Z) : res Z :=
  i ← toInt_i64 d flags;
  throw_if (has flags ThrowOnFail ∧ i < 0) BadCast;;
  Ok i.

(** [toHash<FixedHash<n>>]. *)
Definition toHash (n : Z) (d : bytes) (flags : Z) : res bytes :=
  requireGood d;;
  p ← payload d;
  let l := len p in
  if decide (¬ isData d ∨ (l > n ∧ has flags FailIfTooBig) ∨ (l < n ∧ has flags FailIfTooSmall))
  then
    (if decide (has flags ThrowOnFail) then Throw BadCast else Ok (replicate (Z.to_nat n) 0))
  else
    let s := Z.min n l in
    Ok (replicate (Z.to_nat (n - s)) 0 ++ take (Z.to_nat s) p).

(** [toVector<T>], with [conv] the [convert<T>(flags)] of the items. *)
Definition toVector {T} (conv : bytes → res T) (d : bytes) (flags : Z) : res (list T) :=
  if decide (isList d) then itemCount d;; iterate d conv
  else if decide (has flags ThrowOnFail) then Throw BadCast else Ok [].

(** [toPair<T, U>]. *)
Definition toPair {T U} (convT : bytes → res T) (convU : bytes → res U) (dflt : T * U)
    (d : bytes) (flags : Z) : res (T * U) :=
  n ← itemCountStrict d;
  if decide (n ≠ 2) then
    (if decide (has flags ThrowOnFail) then Throw BadCast else Ok dflt)
  else
    '(d0, c) ← rlp_index d rlp_cache0 0;
    x ← convT d0;
    '(d1, _) ← rlp_index d c 1;
    y ← convU d1;
    Ok (x, y).

(** ** The writer *)

(** [m_out] and [m_listStack]; the head of the list is [m_listStack.back()]. *)
Record RLPStream := Stream {
  m_out : bytes;
  m_listStack : list (Z * Z);
}.
Definition RLPStream0 : RLPStream := Stream [] [].

(** [pushInt(i, br)]: [m_out] grows by [br] bytes that hold [i] big-endian. *)
Definition pushInt (out : bytes) (i br : Z) : bytes := out ++ toBigEndian (Z.to_nat br) i.

Definition pushCount (out : bytes) (count base : Z) : res bytes :=
  let br := bytesRequired count in
  throw_if (br + base > 0xff) RLPException;;
  Ok (pushInt (out ++ [u8 (br + base)]) count br).

(** The header [noteAppended] moves in front of a completed list of [s] bytes. *)
Definition listHeader (s : Z) : res bytes :=
  let brs := bytesRequired s in
  if decide (s < c_rlpListImmLenCount) then Ok [u8 (c_rlpListStart + s)]
  else if decide (c_rlpListIndLenZero + brs ≤ 0xff) then
    Ok (u8 (c_rlpListIndLenZero + brs) :: toBigEndian (Z.to_nat brs) s)
  else Throw RLPException.

(** The loop of [noteAppended]: closes every list that became complete. *)
Fixpoint note_loop (stack : list (Z * Z)) (out : bytes) (itemCount : Z) : res RLPStream :=
  match stack with
  | [] => Ok (Stream out [])
  | (n, p) :: rest =>
      throw_if (n < itemCount) RLPException;;
      let n' := n - itemCount in
      if decide (n' ≠ 0) then Ok (Stream out ((n', p) :: rest))
      else
        h ← listHeader (len out - p);
        note_loop rest (take (Z.to_nat p) out ++ h ++ drop (Z.to_nat p) out) 1
  end.

Definition noteAppended (s : RLPStream) (itemCount : Z) : res RLPStream :=
  if decide (itemCount = 0) then Ok s else note_loop (m_listStack s) (m_out s) itemCount.

Definition appendRaw (s : RLPStream) (d : bytes) (itemCount : Z) : res RLPStream :=
  noteAppended (Stream (m_out s ++ d) (m_listStack s)) itemCount.

(** [appendList(bytesConstRef)]. *)
Definition appendListRaw (s : RLPStream) (d : bytes) : res RLPStream :=
  out ← (if decide (len d < c_rlpListImmLenCount)
         then Ok (m_out s ++ [u8 (len d + c_rlpListStart)])
         else pushCount (m_out s) (len d) c_rlpListIndLenZero);
  appendRaw (Stream out (m_listStack s)) d 1.

(** [appendList(size_t)]. *)
Definition appendList (s : RLPStream) (n : Z) : res RLPStream :=
  if decide (n ≠ 0) then Ok (Stream (m_out s) ((n, len (m_out s)) :: m_listStack s))
  else appendListRaw s [].

(** The leading zeros [append(bytesConstRef, compact)] skips. *)
Fixpoint skipZeros (d : bytes) : bytes :=
  match d with
  | 0 :: d => skipZeros d
  | _ => d
  end.

Definition append_bytes (s : RLPStream) (d0 : bytes) (compact : bool) : res RLPStream :=
  let d := if compact then skipZeros d0 else d0 in
  s1 ← (if decide (len d = 1 ∧ byte_at d 0 < c_rlpDataImmLenStart)
        then Ok (Stream (m_out s ++ [byte_at d 0]) (m_listStack s))
        else
          out ← (if decide (len d < c_rlpDataImmLenCount)
                 then Ok (m_out s ++ [u8 (len d + c_rlpDataImmLenStart)])
                 else pushCount (m_out s) (len d) c_rlpDataIndLenZero);
          appendRaw (Stream out (m_listStack s)) d 0);
  noteAppended s1 1.

Definition append_bigint (s : RLPStream) (i : Z) : res RLPStream :=
  out ← (if decide (i = 0) then Ok (m_out s ++ [c_rlpDataImmLenStart])
         else if decide (i < c_rlpDataImmLenStart) then Ok (m_out s ++ [u8 i])
         else
           let br := bytesRequired i in
           out ← (if decide (br < c_rlpDataImmLenCount)
                  then Ok (m_out s ++ [u8 (br + c_rlpDataImmLenStart)])
                  else
                    let brbr := bytesRequired br in
                    throw_if (c_rlpDataIndLenZero + brbr > 0xff) RLPException;;
                    Ok (pushInt (m_out s ++ [u8 (c_rlpDataIndLenZero + brbr)]) br brbr));
           Ok (pushInt out i br));
  noteAppended (Stream out (m_listStack s)) 1.

(** [append(unsigned)]: also what an [int64_t], a [size_t], a [uint16_t] or a
    [byte] operand of [operator<<] selects, by integral conversion. *)
Definition append_unsigned (s : RLPStream) (i : Z) : res RLPStream := append_bigint s (u32 i).
Definition append_u256 (s : RLPStream) (i : Z) : res RLPStream := append_bigint s i.

(** [appendVector]. *)
Definition appendVector {T} (app : RLPStream → T → res RLPStream) (s : RLPStream) (l : list T) :
    res RLPStream :=
  s1 ← appendList s (Z.of_nat (length l));
  foldl (λ acc x, s ← acc; app s x) (Ok s1) l.

(** [out()] and [swapOut()]. *)
Definition out (s : RLPStream) : res bytes :=
  throw_if (m_listStack s ≠ []) RLPException;; Ok (m_out s).
