(* ===== verification/RLPFacts.v ===== *)
(** * Facts about the RLP codec

    A reference encoding of nested items ([enc]), the proof that the writer
    with its stack of open lists computes it, and the proofs that the reader
    inverts it. *)

From S2P Require Import Prelude RLP.

Local Open Scope Z_scope.

(** ** Reference encoding *)

(** The length header: immediate below 56, else length of length. *)
Definition hdr (imm ind n : Z) : bytes :=
  if decide (n < 56) then [imm + n]
  else (ind + bytesRequired n) :: toBigEndian (Z.to_nat (bytesRequired n)) n.

Definition enc_data (b : bytes) : bytes :=
  if decide (len b = 1 ∧ byte_at b 0 < 0x80) then b else hdr 0x80 0xb7 (len b) ++ b.

Definition enc_list (payload : bytes) : bytes := hdr 0xc0 0xf7 (len payload) ++ payload.

#[warnings="-register-all"] Inductive item :=
  | Data (b : bytes)
  | Items (l : list item).

Fixpoint enc (i : item) : bytes :=
  match i with
  | Data b => enc_data b
  | Items l => enc_list (concat (enc <$> l))
  end.

(** The minimal big-endian bytes of an integer, the payload [append(bigint)]
    writes. *)
Definition minimal (i : Z) : bytes := toBigEndian (Z.to_nat (bytesRequired i)) i.

(** ** Big-endian lemmas *)

Lemma shiftr8 v : Z.shiftr v 8 = v / 256.
Proof. by rewrite Z.shiftr_div_pow2. Qed.

Lemma land_ff v : Z.land v 0xff = v `mod` 256.
Proof. change 0xff with (Z.ones 8). by rewrite Z.land_ones. Qed.

Lemma lor_shiftl8 r b : is_byte b → Z.lor (Z.shiftl r 8) b = r * 256 + b.
Proof.
  intros Hb. unfold is_byte in Hb. rewrite Z.shiftl_mul_pow2 by lia. change (2 ^ 8) with 256.
  assert (Z.land (r * 256) b = 0) as Hd; [|by rewrite <- Z.lxor_lor, <- Z.add_nocarry_lxor].
  apply Z.bits_inj'. intros n Hn. rewrite Z.land_spec, Z.bits_0.
  destruct (decide (n < 8)).
  - change 256 with (2 ^ 8). rewrite Z.mul_pow2_bits_low by lia. done.
  - rewrite (Z.bits_above_log2 b n), andb_false_r; [done|lia|].
    destruct (decide (b = 0)); [subst; simpl; lia|].
    assert (Z.log2 b < 8) by (apply Z.log2_lt_pow2; lia). lia.
Qed.

Lemma length_toBigEndian n v : length (toBigEndian n v) = n.
Proof. revert v. induction n; intros v; simpl; [done|]. rewrite length_app, IHn. simpl. lia. Qed.

Lemma len_toBigEndian n v : len (toBigEndian n v) = Z.of_nat n.
Proof. unfold len. by rewrite length_toBigEndian. Qed.

Lemma toBigEndian_ok n v : bytes_ok (toBigEndian n v).
Proof.
  revert v. induction n; intros v; simpl; [constructor|].
  apply bytes_ok_app. split; [done|]. constructor; [|constructor].
  rewrite land_ff. unfold is_byte. pose proof (Z.mod_pos_bound v 256). lia.
Qed.

Lemma fromBigEndian_app wrap bs b :
  fromBigEndian wrap (bs ++ [b]) = wrap (Z.lor (Z.shiftl (fromBigEndian wrap bs) 8) b).
Proof. unfold fromBigEndian. by rewrite fold_left_app. Qed.

Lemma fromBigEndian_toBigEndian wrap n v :
  (∀ z, 0 ≤ z ≤ v → wrap z = z) →
  0 ≤ v < 256 ^ Z.of_nat n → fromBigEndian wrap (toBigEndian n v) = v.
Proof.
  revert v. induction n as [|n IH]; intros v Hw Hv.
  - simpl in *. unfold fromBigEndian. simpl. lia.
  - cbn [toBigEndian]. rewrite fromBigEndian_app, IH.
    + rewrite land_ff, lor_shiftl8, shiftr8.
      * rewrite Hw; pose proof (Z.div_mod v 256); pose proof (Z.mod_pos_bound v 256); lia.
      * unfold is_byte. pose proof (Z.mod_pos_bound v 256). lia.
    + intros z Hz. rewrite shiftr8 in Hz. apply Hw.
      pose proof (Z.div_le_upper_bound v 256 v). lia.
    + rewrite shiftr8. split; [apply Z.div_pos; lia|].
      apply Z.div_lt_upper_bound; [lia|].
      replace (256 * 256 ^ Z.of_nat n) with (256 ^ Z.of_nat (S n)); [lia|].
      rewrite Nat2Z.inj_succ, Z.pow_succ_r; lia.
Qed.

(** ** The number of bytes an integer needs *)

Lemma bytesRequired_loop_spec fuel i :
  0 ≤ i → (i = 0 ∨ Z.log2 i < Z.of_nat fuel) →
  let n := bytesRequired_loop fuel i in
  0 ≤ n ∧ i < 256 ^ n ∧ (0 < i → 0 < n ∧ 256 ^ (n - 1) ≤ i).
Proof.
  revert i. induction fuel as [|fuel IH]; intros i Hi Hf; simpl.
  - destruct Hf as [->|Hf]; [simpl; lia|]. pose proof (Z.log2_nonneg i). lia.
  - case_decide as Hi0; [subst; simpl; lia|].
    rewrite shiftr8. assert (0 ≤ i / 256) by (apply Z.div_pos; lia).
    destruct (IH (i / 256)) as (Hn & Hlt & Hge); [lia| |].
    + destruct (decide (i < 256)); [left; by apply Z.div_small|right].
      destruct Hf as [|Hf]; [lia|].
      assert (8 ≤ Z.log2 i) by (apply Z.log2_le_pow2; lia).
      rewrite <- shiftr8, Z.log2_shiftr by lia. lia.
    + set (n := bytesRequired_loop fuel (i / 256)) in *.
      replace (1 + n) with (Z.succ n) by lia. rewrite Z.pow_succ_r by lia.
      pose proof (Z.div_mod i 256). pose proof (Z.mod_pos_bound i 256).
      split; [lia|]. split; [lia|]. intros _. split; [lia|].
      replace (Z.succ n - 1) with n by lia.
      destruct (decide (0 < i / 256)) as [Hq|Hq].
      * destruct (Hge Hq) as [Hn0 Hge'].
        replace n with (Z.succ (n - 1)) by lia. rewrite Z.pow_succ_r by lia. lia.
      * assert (n = 0) as ->; [|simpl; lia].
        unfold n. replace (i / 256) with 0 by lia. by destruct fuel.
Qed.

Lemma bytesRequired_spec i :
  0 ≤ i → 0 ≤ bytesRequired i ∧ i < 256 ^ bytesRequired i ∧
  (0 < i → 0 < bytesRequired i ∧ 256 ^ (bytesRequired i - 1) ≤ i).
Proof.
  intros Hi. apply (bytesRequired_loop_spec (S (Z.to_nat (Z.log2 i))) i Hi).
  right. pose proof (Z.log2_nonneg i). lia.
Qed.

Lemma bytesRequired_0 : bytesRequired 0 = 0.
Proof. done. Qed.

Lemma bytesRequired_le i n : 0 ≤ n → 0 ≤ i < 256 ^ n → bytesRequired i ≤ n.
Proof.
  intros Hn Hi. destruct (bytesRequired_spec i) as (H0 & H1 & H2); [lia|].
  destruct (decide (0 < i)) as [Hp|Hp].
  - destruct (H2 Hp) as [H3 H4]. assert (256 ^ (bytesRequired i - 1) < 256 ^ n) as Hlt by lia.
    apply Z.pow_lt_mono_r_iff in Hlt; lia.
  - replace i with 0 by lia. rewrite bytesRequired_0. lia.
Qed.

Lemma bytesRequired_nonneg i : 0 ≤ i → 0 ≤ bytesRequired i.
Proof. intros. by apply bytesRequired_spec. Qed.

Lemma bytesRequired_pos i : 0 < i → 0 < bytesRequired i.
Proof. intros. apply bytesRequired_spec; lia. Qed.

(** The first byte of a minimal encoding is not zero. *)
Lemma toBigEndian_first n v :
  256 ^ Z.of_nat n ≤ v < 256 ^ Z.of_nat (S n) →
  ∃ b bs, toBigEndian (S n) v = b :: bs ∧ 0 < b < 256.
Proof.
  revert v. induction n as [|n IH]; intros v Hv.
  - simpl. eexists _, _. split; [done|]. rewrite land_ff.
    change (256 ^ Z.of_nat 0) with 1 in Hv. change (256 ^ Z.of_nat 1) with 256 in Hv.
    rewrite Z.mod_small; lia.
  - destruct (IH (Z.shiftr v 8)) as (b & bs & E & Hb).
    + rewrite shiftr8.
      assert (256 ^ Z.of_nat (S (S n)) = 256 * 256 ^ Z.of_nat (S n)) by
        (rewrite (Nat2Z.inj_succ (S n)), Z.pow_succ_r; lia).
      assert (256 ^ Z.of_nat (S n) = 256 * 256 ^ Z.of_nat n) by
        (rewrite (Nat2Z.inj_succ n), Z.pow_succ_r; lia).
      split.
      * apply Z.div_le_lower_bound; lia.
      * apply Z.div_lt_upper_bound; lia.
    + exists b, (bs ++ [Z.land v 0xff]). cbn [toBigEndian] in *. rewrite E. done.
Qed.

Lemma minimal_first i :
  0 < i → ∃ b bs, minimal i = b :: bs ∧ 0 < b < 256.
Proof.
  intros Hi. unfold minimal. destruct (bytesRequired_spec i) as (H0 & H1 & H2); [lia|].
  destruct (H2 Hi) as [H3 H4].
  replace (Z.to_nat (bytesRequired i)) with (S (Z.to_nat (bytesRequired i - 1))) by lia.
  apply toBigEndian_first. rewrite Nat2Z.inj_succ, Z2Nat.id by lia.
  replace (Z.succ (bytesRequired i - 1)) with (bytesRequired i) by lia. lia.
Qed.

Lemma len_minimal i : 0 ≤ i → len (minimal i) = bytesRequired i.
Proof.
  intros Hi. unfold minimal. rewrite len_toBigEndian. pose proof (bytesRequired_nonneg i Hi). lia.
Qed.

Lemma fromBigEndian_minimal wrap i :
  0 ≤ i → (∀ z, 0 ≤ z ≤ i → wrap z = z) → fromBigEndian wrap (minimal i) = i.
Proof.
  intros Hi Hw. apply fromBigEndian_toBigEndian; [done|].
  destruct (bytesRequired_spec i Hi) as (? & ? & _). rewrite Z2Nat.id; lia.
Qed.

(** ** Reading a header *)

Ltac rlp_consts :=
  unfold c_rlpDataIndLenZero, c_rlpListIndLenZero, c_rlpDataImmLenCount, c_rlpListImmLenCount,
    c_rlpDataImmLenStart, c_rlpListStart, c_rlpMaxLengthBytes in *.

Lemma isNull_cons x d : ¬ isNull (x :: d).
Proof. unfold isNull. len_lia. Qed.

Lemma requireGood_cons x d : x ≠ 0x81 → requireGood (x :: d) = Ok tt.
Proof.
  intros Hx. unfold requireGood. rewrite (throw_if_false (isNull _)) by apply isNull_cons.
  rewrite bind_ok, byte_at_0. rewrite decide_True; [done|]. rlp_consts. lia.
Qed.

Lemma requireGood_81 b d : 0x80 ≤ b → requireGood (0x81 :: b :: d) = Ok tt.
Proof.
  intros Hb. unfold requireGood. rewrite (throw_if_false (isNull _)) by apply isNull_cons.
  rewrite bind_ok, byte_at_0, decide_False by (rlp_consts; lia).
  rewrite (throw_if_false (_ < 2)) by len_lia. rewrite bind_ok.
  change 1 with (1 + 0). rewrite byte_at_S, byte_at_0 by lia.
  apply throw_if_false. rlp_consts. lia.
Qed.

Lemma lengthPrefix_hdr x n d :
  0 < n < 2 ^ 64 → lengthPrefix (x :: minimal n ++ d) (bytesRequired n) = n.
Proof.
  intros Hn. unfold lengthPrefix. change (drop 1 (x :: minimal n ++ d)) with (minimal n ++ d).
  rewrite <- len_minimal by lia.
  rewrite take_len_app. apply fromBigEndian_minimal; [lia|]. intros z Hz. apply u64_small. lia.
Qed.

(** The bytes of a long header, whatever follows it. *)
Lemma long_hdr n :
  56 ≤ n < 2 ^ 63 →
  1 ≤ bytesRequired n ≤ 8 ∧ ∃ b bs, minimal n = b :: bs ∧ 0 < b.
Proof.
  intros Hn. split.
  - pose proof (bytesRequired_pos n). pose proof (bytesRequired_le n 8). lia.
  - destruct (minimal_first n) as (b & bs & E & Hb); [lia|]. exists b, bs. split; [done|lia].
Qed.

Section read_header.
Context (n : Z) (d : bytes) (Hn : 56 ≤ n < 2 ^ 63).

Lemma long_byte_1 x : byte_at (x :: minimal n ++ d) 1 ≠ 0.
Proof.
  destruct (long_hdr n Hn) as (_ & b & bs & -> & Hb).
  change 1 with (1 + 0). rewrite byte_at_S by lia. simpl. rewrite byte_at_0. lia.
Qed.

Lemma long_len x : len (x :: minimal n ++ d) = 1 + bytesRequired n + len d.
Proof. rewrite len_cons, len_app, len_minimal; lia. Qed.

Lemma rlp_length_long_data :
  rlp_length ((0xb7 + bytesRequired n) :: minimal n ++ d) = Ok n.
Proof.
  destruct (long_hdr n Hn) as (Hbr & _). pose proof (long_byte_1 (0xb7 + bytesRequired n)).
  pose proof (long_len (0xb7 + bytesRequired n)). pose proof (len_nonneg d).
  unfold rlp_length. rewrite decide_False by apply isNull_cons.
  rewrite requireGood_cons by lia. rewrite bind_ok, byte_at_0. rlp_consts. cbv zeta.
  rewrite !decide_False, decide_True by lia.
  replace (183 + bytesRequired n - (128 + (192 - 128 - 8) - 1)) with (bytesRequired n) by lia.
  rewrite lengthPrefix_hdr by lia. unfold UINT64_MAX.
  ok_step. done.
Qed.

Lemma rlp_length_long_list :
  rlp_length ((0xf7 + bytesRequired n) :: minimal n ++ d) = Ok n.
Proof.
  destruct (long_hdr n Hn) as (Hbr & _). pose proof (long_byte_1 (0xf7 + bytesRequired n)).
  pose proof (long_len (0xf7 + bytesRequired n)). pose proof (len_nonneg d).
  unfold rlp_length. rewrite decide_False by apply isNull_cons.
  rewrite requireGood_cons by lia. rewrite bind_ok, byte_at_0. rlp_consts. cbv zeta.
  rewrite !decide_False by lia.
  replace (247 + bytesRequired n - (192 + (256 - 192 - 8) - 1)) with (bytesRequired n) by lia.
  rewrite lengthPrefix_hdr by lia. unfold UINT64_MAX.
  ok_step. done.
Qed.
End read_header.

Lemma lengthSize_cons x d :
  lengthSize (x :: d) =
    if decide (0xb7 < x < 0xc0) then x - 0xb7 else if decide (0xf7 < x) then x - 0xf7 else 0.
Proof.
  unfold lengthSize, isData, isList. pose proof (isNull_cons x d).
  change (byte_at (x :: d) 0) with x. rlp_consts.
  repeat case_decide; try done; try lia; naive_solver lia.
Qed.

Lemma payloadOffset_cons x d :
  payloadOffset (x :: d) = if decide (x < 0x80) then 0 else 1 + lengthSize (x :: d).
Proof.
  unfold payloadOffset, isSingleByte. pose proof (isNull_cons x d).
  change (byte_at (x :: d) 0) with x. rlp_consts.
  repeat case_decide; try done; naive_solver.
Qed.

Lemma actualSize_cons x d :
  actualSize (x :: d) =
    if decide (x < 0x80) then Ok 1 else l ← rlp_length (x :: d); Ok (payloadOffset (x :: d) + l).
Proof.
  unfold actualSize, isSingleByte, isData, isList. pose proof (isNull_cons x d).
  change (byte_at (x :: d) 0) with x. rewrite decide_False by done. rlp_consts.
  destruct (decide (x < 128)).
  - by rewrite decide_True by done.
  - rewrite decide_False by (intros [_ ?]; done).
    rewrite decide_True; [done|].
    destruct (decide (x < 192)); [left|right]; split; auto; lia.
Qed.

(** The constructor at the two strictness levels the code uses. *)
Lemma RLP_new_prefix d :
  RLP_new d (Z.lor ThrowOnFail FailIfTooSmall) =
    a ← actualSize d; if decide (a > len d) then Throw UndersizeRLP else Ok d.
Proof. reflexivity. Qed.

Lemma RLP_new_exact d :
  RLP_new d VeryStrict =
    a ← actualSize d;
    if decide (a < len d) then Throw OversizeRLP
    else if decide (a > len d) then Throw UndersizeRLP else Ok d.
Proof.
  unfold RLP_new. simpl. destruct (actualSize d) as [a|] eqn:E; simpl; [|done].
  case_decide; simpl; [done|]. rewrite E. done.
Qed.

(** ** Self-delimiting items

    [reads e p]: the encoding [e] announces exactly its own length and its
    payload [p], whatever bytes follow it. *)
Record reads (e p : bytes) : Prop := Reads {
  reads_pos : 0 < len e;
  reads_bound : len e < 2 ^ 64;
  reads_length rest : rlp_length (e ++ rest) = Ok (len p);
  reads_actual rest : actualSize (e ++ rest) = Ok (len e);
  reads_offset rest : 0 ≤ payloadOffset (e ++ rest) ∧ payloadOffset (e ++ rest) + len p = len e;
  reads_payload rest : drop (Z.to_nat (payloadOffset (e ++ rest))) e = p;
}.

Section reads_facts.
Context (e p : bytes) (R : reads e p).

Lemma reads_RLP_new_prefix rest :
  RLP_new (e ++ rest) (Z.lor ThrowOnFail FailIfTooSmall) = Ok (e ++ rest).
Proof using R.
  rewrite RLP_new_prefix, (reads_actual _ _ R), bind_ok, decide_False; [done|]. len_lia.
Qed.

Lemma reads_RLP_new : RLP_new e VeryStrict = Ok e.
Proof using R.
  pose proof (reads_actual _ _ R []) as Ha. rewrite app_nil_r in Ha.
  rewrite RLP_new_exact, Ha, bind_ok, !decide_False; [done|lia|lia].
Qed.

Lemma reads_sizeAsEncoded rest : sizeAsEncoded (e ++ rest) = Ok (len e).
Proof using R.
  unfold sizeAsEncoded. rewrite reads_RLP_new_prefix, bind_ok. apply (reads_actual _ _ R).
Qed.

Lemma reads_crop rest : cropped (e ++ rest) 0 (len e) = e.
Proof using R.
  pose proof (reads_bound _ _ R). unfold cropped.
  rewrite decide_True; [by rewrite drop_0, take_len_app|].
  rewrite Z.add_0_l, u64_small; len_lia.
Qed.

Lemma reads_payload_eq rest : payload (e ++ rest) = Ok p.
Proof using R.
  destruct R as [H0 H1 H2 H3 H4 H5].
  unfold payload. rewrite H2, bind_ok. destruct (H4 rest) as [Ho Hs].
  rewrite throw_if_false by len_lia. rewrite bind_ok. f_equal.
  unfold cropped. rewrite decide_True; [|rewrite u64_small; len_lia].
  rewrite drop_app_le by (unfold len in *; lia).
  rewrite H5. by rewrite take_len_app.
Qed.

Lemma reads_payload_self : payload e = Ok p.
Proof using R. rewrite <- (app_nil_r e). apply reads_payload_eq. Qed.

Lemma reads_length_self : rlp_length e = Ok (len p).
Proof using R. rewrite <- (app_nil_r e). apply (reads_length _ _ R). Qed.

Lemma reads_len_le : len p ≤ len e.
Proof using R. pose proof (reads_offset _ _ R []). lia. Qed.
End reads_facts.

Lemma reads_data b : bytes_ok b → len b < 2 ^ 63 → reads (enc_data b) b.
Proof.
  intros Hok Hb. unfold enc_data. case_decide as Hs.
  { destruct Hs as [Hl H0]. destruct b as [|x [|]]; [done| |unfold len in Hl; simpl in Hl; lia].
    rewrite byte_at_0 in H0.
    assert (∀ rest, payloadOffset ([x] ++ rest) = 0) as Hoff.
    { intros rest. simpl. by rewrite payloadOffset_cons, decide_True by lia. }
    split; [done|done|..]; intros rest; rewrite ?Hoff; simpl app.
    - unfold rlp_length. rewrite decide_False by apply isNull_cons.
      rewrite requireGood_cons, bind_ok by lia. rewrite byte_at_0. rlp_consts.
      by rewrite decide_True by lia.
    - by rewrite actualSize_cons, decide_True by lia.
    - done.
    - done. }
  unfold hdr. pose proof (len_nonneg b). case_decide as Hlt.
  - (* short header *)
    assert (∀ rest, rlp_length ((0x80 + len b) :: b ++ rest) = Ok (len b)) as Hlen.
    { intros rest. unfold rlp_length. rewrite decide_False by apply isNull_cons.
      assert (requireGood (0x80 + len b :: b ++ rest) = Ok tt) as ->.
      { destruct (decide (len b = 1)) as [H1|H1]; [|apply requireGood_cons; lia].
        destruct b as [|x b]; [done|]. rewrite H1.
        apply requireGood_81. rewrite byte_at_0 in Hs. lia. }
      rewrite bind_ok, byte_at_0. rlp_consts. rewrite decide_False, decide_True by lia.
      f_equal. lia. }
    assert (∀ rest, payloadOffset ((0x80 + len b) :: b ++ rest) = 1) as Hoff.
    { intros rest. rewrite payloadOffset_cons, lengthSize_cons.
      rewrite !decide_False; lia. }
    split; [len_lia|len_lia|..]; intros rest; simpl app; rewrite ?Hoff.
    + apply Hlen.
    + rewrite actualSize_cons, decide_False, Hlen, bind_ok, Hoff by lia. f_equal. len_lia.
    + len_lia.
    + done.
  - (* long header *)
    change (toBigEndian (Z.to_nat (bytesRequired (len b))) (len b)) with (minimal (len b)).
    destruct (long_hdr (len b)) as (Hbr & _); [lia|].
    assert (∀ rest, payloadOffset ((0xb7 + bytesRequired (len b)) :: rest)
              = 1 + bytesRequired (len b)) as Hoff.
    { intros rest. rewrite payloadOffset_cons, lengthSize_cons.
      rewrite decide_False, decide_True; lia. }
    assert (Hm := len_minimal (len b) ltac:(lia)).
    split; [len_lia|len_lia|..]; intros rest; simpl app; rewrite <- ?app_assoc, ?Hoff.
    + apply rlp_length_long_data. lia.
    + rewrite actualSize_cons, decide_False, rlp_length_long_data, bind_ok, Hoff by lia.
      f_equal. len_lia.
    + len_lia.
    + replace (Z.to_nat (1 + bytesRequired (len b)))
        with (S (Z.to_nat (len (minimal (len b))))) by lia.
      simpl. apply drop_len_app.
Qed.

Lemma reads_list p : len p < 2 ^ 63 → reads (enc_list p) p.
Proof.
  intros Hp. unfold enc_list, hdr. pose proof (len_nonneg p). case_decide as Hlt.
  - assert (∀ rest, rlp_length ((0xc0 + len p) :: rest) = Ok (len p)) as Hlen.
    { intros rest. unfold rlp_length. rewrite decide_False by apply isNull_cons.
      rewrite requireGood_cons, bind_ok, byte_at_0 by lia. rlp_consts.
      rewrite !decide_False, decide_True by lia. f_equal. lia. }
    assert (∀ rest, payloadOffset ((0xc0 + len p) :: rest) = 1) as Hoff.
    { intros rest. rewrite payloadOffset_cons, lengthSize_cons. rewrite !decide_False; lia. }
    split; [len_lia|len_lia|..]; intros rest; simpl app; rewrite ?Hoff.
    + apply Hlen.
    + rewrite actualSize_cons, decide_False, Hlen, bind_ok, Hoff by lia. f_equal. len_lia.
    + len_lia.
    + done.
  - change (toBigEndian (Z.to_nat (bytesRequired (len p))) (len p)) with (minimal (len p)).
    destruct (long_hdr (len p)) as (Hbr & _); [lia|].
    assert (∀ rest, payloadOffset ((0xf7 + bytesRequired (len p)) :: rest)
              = 1 + bytesRequired (len p)) as Hoff.
    { intros rest. rewrite payloadOffset_cons, lengthSize_cons.
      rewrite !decide_False, decide_True by lia. lia. }
    assert (Hm := len_minimal (len p) ltac:(lia)).
    split; [len_lia|len_lia|..]; intros rest; simpl app; rewrite <- ?app_assoc, ?Hoff.
    + apply rlp_length_long_list. lia.
    + rewrite actualSize_cons, decide_False, rlp_length_long_list, bind_ok, Hoff by lia.
      f_equal. len_lia.
    + len_lia.
    + replace (Z.to_nat (1 + bytesRequired (len p)))
        with (S (Z.to_nat (len (minimal (len p))))) by lia.
      simpl. apply drop_len_app.
Qed.

(** ** Indexing a sequence of items *)

Definition reads_some (e : bytes) : Prop := ∃ p, reads e p.

(** The cache after the item of index [j] was reached; past the end the item
    is empty. *)
Definition pos_cache (es : list bytes) (j : nat) : rlp_cache :=
  RLPCache (Z.of_nat j) (len (concat (take (S j) es))) (default [] (es !! j)).

Lemma sizeAsEncoded_nil : sizeAsEncoded [] = Ok 0.
Proof. reflexivity. Qed.

Lemma cropped_from_app d1 d2 : cropped_from (d1 ++ d2) (len d1) = d2.
Proof. unfold cropped_from. rewrite decide_True by len_lia. apply drop_len_app. Qed.

(** The loop of an access that does not throw. *)
Fixpoint index_steps (n : nat) (d : bytes) (c : rlp_cache) : res rlp_cache :=
  match n with
  | O => Ok c
  | S n =>
      if decide (len (m_lastItem c) = 0) then Ok c
      else
        p ← payload d;
        let rest := cropped_from p (m_lastEnd c) in
        s ← sizeAsEncoded rest;
        let item := cropped rest 0 s in
        index_steps n d (RLPCache (m_lastIndex c + 1) (u64 (m_lastEnd c + len item)) item)
  end.

Lemma index_steps_eq n d c : index_steps n d c = (let '(r, c') := index_loop n d c in r;; Ok c').
Proof.
  revert c. induction n as [|n IH]; intros c; [done|]. cbn [index_steps index_loop]. case_decide; [done|].
  destruct (payload d) as [p|]; [|done]. rewrite bind_ok. cbv zeta. destruct (sizeAsEncoded _) as [x|]; [|done].
  rewrite bind_ok. apply IH.
Qed.

(** The cache after [operator[](0)] when the payload is readable. *)
Definition cache_start (d : bytes) : res rlp_cache :=
  p ← payload d; e ← sizeAsEncoded p; Ok (RLPCache 0 e (cropped p 0 e)).

Lemma rlp_index_unfold d c i :
  rlp_index d c i =
    (c2 ← (c1 ← (if decide (i < m_lastIndex c) then cache_start d else Ok c);
           index_steps (Z.to_nat (i - m_lastIndex c1)) d c1);
     r ← RLP_new (m_lastItem c2) (Z.lor ThrowOnFail FailIfTooSmall);
     Ok (r, c2)).
Proof.
  unfold rlp_index, rlp_access, cache_start. destruct (decide _) as [Hi|Hi].
  - destruct (p ← payload d; _) as [c1|]; [|done]. rewrite bind_ok, index_steps_eq. by destruct (index_loop _ _ _) as [[[]|] ?].
  - rewrite bind_ok, index_steps_eq. by destruct (index_loop _ _ _) as [[[]|] ?].
Qed.

Lemma rlp_index_access d c i x c' : rlp_index d c i = Ok (x, c') → rlp_access d c i = (Ok x, c').
Proof. unfold rlp_index. destruct (rlp_access d c i) as [[y|e] c1]; cbn; [by intros [= -> ->]|done]. Qed.

Lemma index_steps_S n d c :
  index_steps (S n) d c = (c' ← index_steps 1 d c; index_steps n d c').
Proof.
  cbn [index_steps]. case_decide as Hz; simpl.
  - destruct n; simpl; [done|]. by rewrite decide_True.
  - destruct (payload d); simpl; [|done]. destruct (sizeAsEncoded _); done.
Qed.

Section index_items.
Context (d : bytes) (es : list bytes).
Hypothesis Hp : payload d = Ok (concat es).
Hypothesis Hes : Forall reads_some es.
Hypothesis Hlen : len (concat es) < 2 ^ 63.

Lemma concat_split j : concat es = concat (take j es) ++ concat (drop j es).
Proof using. by rewrite <- concat_app, take_drop. Qed.

Lemma next_item j :
  let rest := concat (drop j es) in
  sizeAsEncoded rest = Ok (len (default [] (es !! j))) ∧
  cropped rest 0 (len (default [] (es !! j))) = default [] (es !! j).
Proof using Hes.
  cbv zeta. destruct (es !! j) as [e|] eqn:E; simpl.
  - rewrite (drop_S _ _ _ E). simpl.
    rewrite Forall_lookup in Hes. destruct (Hes _ _ E) as [q R].
    split; [by apply (reads_sizeAsEncoded e q) | by apply (reads_crop e q)].
  - apply lookup_ge_None in E. by rewrite drop_ge.
Qed.

Lemma pos_cache_step j :
  (j < length es)%nat →
  index_steps 1 d (pos_cache es j) = Ok (pos_cache es (S j)).
Proof using Hp Hes Hlen.
  intros Hj. destruct (lookup_lt_is_Some_2 es j Hj) as [e He].
  assert (0 < len e) as Hpos.
  { rewrite Forall_lookup in Hes. destruct (Hes _ _ He) as [q R]. apply (reads_pos _ _ R). }
  assert (m_lastItem (pos_cache es j) = e) as Hi by (simpl; by rewrite He).
  cbn [index_steps]. rewrite decide_False by (rewrite Hi; lia).
  rewrite Hp, bind_ok. cbv zeta. cbn [m_lastEnd m_lastIndex pos_cache].
  rewrite (concat_split (S j)), cropped_from_app.
  destruct (next_item (S j)) as [-> Hc]. rewrite bind_ok, Hc.
  f_equal. unfold pos_cache. f_equal; [lia|].
  rewrite (concat_split (S j)) in Hlen.
  destruct (es !! S j) as [e'|] eqn:E'; simpl.
  - rewrite (take_S_r _ _ _ E'), concat_app, len_app. simpl. rewrite app_nil_r.
    rewrite (drop_S _ _ _ E') in Hlen. simpl in Hlen. apply u64_small. len_lia.
  - apply lookup_ge_None in E'. rewrite !take_ge by lia.
    rewrite take_ge, drop_ge in Hlen by lia. simpl in Hlen. rewrite len_nil, u64_small; len_lia.
Qed.

Lemma index_steps_pos n j :
  (j ≤ length es)%nat →
  index_steps n d (pos_cache es j) = Ok (pos_cache es (min (j + n) (length es))).
Proof using Hp Hes Hlen.
  revert j. induction n as [|n IH]; intros j Hj.
  - simpl. do 2 f_equal. lia.
  - rewrite index_steps_S. destruct (decide (j < length es)%nat) as [Hlt|].
    + rewrite pos_cache_step by done. rewrite bind_ok, IH by lia. do 2 f_equal. lia.
    + cbn [index_steps]. assert (j = length es) as -> by lia.
      assert (len (m_lastItem (pos_cache es (length es))) = 0) as Hz.
      { simpl. by rewrite lookup_ge_None_2. }
      rewrite decide_True by done. rewrite bind_ok.
      destruct n; cbn [index_steps]; [|rewrite decide_True by done]; do 2 f_equal; lia.
Qed.

Lemma index_start :
  cache_start d = Ok (pos_cache es 0).
Proof using Hp Hes Hlen.
  unfold cache_start.
  rewrite Hp, bind_ok. destruct (next_item 0) as [H1 H2]. rewrite drop_0 in H1, H2.
  rewrite H1, bind_ok, H2. f_equal. unfold pos_cache. f_equal.
  destruct es as [|e es']; simpl; [done|]. by rewrite app_nil_r.
Qed.

Definition cache_at (c : rlp_cache) : Prop :=
  c = rlp_cache0 ∨ ∃ j, (j ≤ length es)%nat ∧ c = pos_cache es j.

(** [operator[]] returns the item of the index, an empty RLP past the end,
    from every cache that an earlier access left. *)
Lemma rlp_index_items c i :
  cache_at c → 0 ≤ i < UINT64_MAX →
  rlp_index d c i =
    Ok (default [] (es !! Z.to_nat i), pos_cache es (min (Z.to_nat i) (length es))).
Proof using Hp Hes Hlen.
  intros Hc Hi. rewrite rlp_index_unfold.
  assert (∀ j, (j ≤ length es)%nat → Z.of_nat j ≤ i →
    index_steps (Z.to_nat (i - m_lastIndex (pos_cache es j))) d (pos_cache es j)
      = Ok (pos_cache es (min (Z.to_nat i) (length es)))) as Hloop.
  { intros j Hj Hji. rewrite index_steps_pos by done. do 2 f_equal. simpl. lia. }
  assert (RLP_new (m_lastItem (pos_cache es (min (Z.to_nat i) (length es))))
            (Z.lor ThrowOnFail FailIfTooSmall) = Ok (default [] (es !! Z.to_nat i))) as Hnew.
  { simpl. destruct (es !! Z.to_nat i) as [e|] eqn:E.
    - pose proof (lookup_lt_Some _ _ _ E). rewrite Nat.min_l, E by lia. simpl.
      rewrite Forall_lookup in Hes. destruct (Hes _ _ E) as [q R].
      rewrite <- (app_nil_r e). rewrite (reads_RLP_new_prefix e q R []). done.
    - apply lookup_ge_None in E. rewrite Nat.min_r by lia. by rewrite lookup_ge_None_2. }
  destruct Hc as [->|(j & Hj & ->)].
  - change (m_lastIndex rlp_cache0) with UINT64_MAX. rewrite decide_True by lia.
    rewrite index_start, bind_ok, Hloop, bind_ok, Hnew, bind_ok by lia. done.
  - case_decide as Hij; simpl in Hij.
    + rewrite index_start, bind_ok, Hloop, bind_ok, Hnew, bind_ok by lia. done.
    + rewrite bind_ok, Hloop, bind_ok, Hnew, bind_ok by lia. done.
Qed.

Lemma cache_at_pos j : (j ≤ length es)%nat → cache_at (pos_cache es j).
Proof using. right. by exists j. Qed.

Lemma cache_at_0 : cache_at rlp_cache0.
Proof using. by left. Qed.

Lemma rlp_at_items i :
  0 ≤ i < UINT64_MAX → rlp_at d i = Ok (default [] (es !! Z.to_nat i)).
Proof using Hp Hes Hlen.
  intros Hi. unfold rlp_at. rewrite rlp_index_items; [done|apply cache_at_0|done].
Qed.
End index_items.

(** ** Counting and iterating over the items of a list *)

Lemma isData_cons x d : isData (x :: d) ↔ x < 0xc0.
Proof. unfold isData. rewrite byte_at_0. pose proof (isNull_cons x d). rlp_consts. tauto. Qed.

Lemma isList_cons x d : isList (x :: d) ↔ 0xc0 ≤ x.
Proof. unfold isList. rewrite byte_at_0. pose proof (isNull_cons x d). rlp_consts. tauto. Qed.

Lemma enc_list_isList p rest : isList (enc_list p ++ rest).
Proof.
  unfold enc_list, hdr. pose proof (len_nonneg p).
  case_decide; simpl; apply isList_cons; [lia|].
  pose proof (bytesRequired_nonneg (len p)). lia.
Qed.

Lemma enc_data_isData b rest :
  bytes_ok b → len b < 2 ^ 63 → isData (enc_data b ++ rest).
Proof.
  intros Hok Hb. unfold enc_data, hdr. pose proof (len_nonneg b). case_decide as Hs.
  - destruct Hs as [Hl H0]. destruct b as [|x b]; [done|].
    rewrite byte_at_0 in H0. simpl. apply isData_cons. lia.
  - case_decide; simpl; apply isData_cons; [lia|]. destruct (long_hdr (len b)); lia.
Qed.

Lemma isData_not_isList d : isData d → ¬ isList d.
Proof. unfold isData, isList. lia. Qed.

Lemma isList_not_isData d : isList d → ¬ isData d.
Proof. unfold isData, isList. lia. Qed.

Lemma items_loop_spec es fuel k :
  Forall reads_some es → (length es < fuel)%nat →
  items_loop fuel (concat es) k = Ok (k + Z.of_nat (length es)).
Proof.
  intros Hes. revert fuel k. induction Hes as [|e es [q R] Hes IH]; intros fuel k Hf.
  - destruct fuel; [simpl in Hf; lia|]. simpl. f_equal. lia.
  - destruct fuel as [|fuel]; [simpl in Hf; lia|]. cbn [items_loop concat].
    pose proof (reads_pos _ _ R). rewrite decide_False by len_lia.
    rewrite (reads_sizeAsEncoded e q R), bind_ok, cropped_from_app, IH by (simpl in Hf; lia).
    f_equal. simpl. lia.
Qed.

Lemma length_concat_reads es : Forall reads_some es → (length es ≤ length (concat es))%nat.
Proof.
  induction 1 as [|e es [q R] _ IH]; simpl; [lia|]. rewrite length_app.
  pose proof (reads_pos _ _ R). unfold len in *. lia.
Qed.

Lemma items_enc_list es :
  Forall reads_some es → len (concat es) < 2 ^ 63 →
  items (enc_list (concat es)) = Ok (Z.of_nat (length es)).
Proof.
  intros Hes Hl. unfold items. pose proof (enc_list_isList (concat es) []) as Hlist.
  rewrite app_nil_r in Hlist. rewrite decide_True by done.
  rewrite (reads_payload_self _ _ (reads_list _ Hl)), bind_ok.
  rewrite items_loop_spec; [done|done|]. pose proof (length_concat_reads es Hes). lia.
Qed.

(** [items()] terminates on every input: each item it skips has a positive
    size, so [S (length d)] rounds are enough. *)
Lemma actualSize_bounds d s : actualSize d = Ok s → ¬ isNull d → Forall is_byte d → 0 < s.
Proof.
  intros Ha Hn Hok. destruct d as [|x d]; [by destruct Hn|].
  assert (0 ≤ x < 256) as Hx by (inversion Hok; done).
  rewrite actualSize_cons in Ha. case_decide; [inv_ok; lia|].
  inv_ok. rename r into l.
  assert (0 ≤ payloadOffset (x :: d) - 1) as Ho.
  { rewrite payloadOffset_cons, lengthSize_cons. repeat case_decide; lia. }
  assert (0 ≤ l); [|lia].
  unfold rlp_length in E. rewrite decide_False in E by done. rewrite byte_at_0 in E. rlp_consts.
  apply bind_ok_inv in E as (? & _ & E).
  repeat case_decide; inv_ok; lia.
Qed.

Lemma rlp_length_not_fuel d : rlp_length d ≠ Throw OutOfFuel.
Proof.
  unfold rlp_length, requireGood, throw_if. repeat case_decide; simpl; congruence.
Qed.

Lemma payload_not_fuel d : payload d ≠ Throw OutOfFuel.
Proof.
  pose proof (rlp_length_not_fuel d). unfold payload, throw_if.
  destruct (rlp_length d); simpl; [|congruence]. case_decide; done.
Qed.

Lemma sizeAsEncoded_not_fuel d : sizeAsEncoded d ≠ Throw OutOfFuel.
Proof.
  assert (actualSize d ≠ Throw OutOfFuel) as Ha.
  { pose proof (rlp_length_not_fuel d). unfold actualSize.
    repeat case_decide; try done. destruct (rlp_length d); simpl; congruence. }
  unfold sizeAsEncoded. rewrite RLP_new_prefix.
  destruct (actualSize d) as [a|] eqn:E; simpl; [|congruence]. case_decide; simpl; congruence.
Qed.

Lemma items_loop_terminates fuel d k :
  bytes_ok d → (length d < fuel)%nat → items_loop fuel d k ≠ Throw OutOfFuel.
Proof.
  revert d k. induction fuel as [|fuel IH]; intros d k Hok Hf; [lia|].
  cbn [items_loop]. case_decide as H0; [done|].
  destruct (sizeAsEncoded d) as [s|e] eqn:Es; simpl.
  - unfold sizeAsEncoded in Es. rewrite RLP_new_prefix in Es. inv_ok. case_decide; [done|].
    inv_ok. subst. rename H into Hle. simplify_eq.
    assert (0 < s) by (eapply actualSize_bounds; eauto).
    unfold cropped_from. case_decide.
    + apply IH; [by apply Forall_drop|]. rewrite length_drop. unfold len in *. lia.
    + apply IH; [constructor|]. unfold len in *. simpl. lia.
  - pose proof (sizeAsEncoded_not_fuel d). congruence.
Qed.

(** ** Splitting the loop of [operator[]] *)

Lemma index_steps_add a b d c :
  index_steps (a + b) d c = (c' ← index_steps a d c; index_steps b d c').
Proof.
  revert c. induction a as [|a IH]; intros c; [by destruct (index_steps b d c)|].
  change (S a + b)%nat with (S (a + b)). rewrite (index_steps_S (a + b)), (index_steps_S a).
  destruct (index_steps 1 d c) as [c'|]; [|done]. rewrite !bind_ok. apply IH.
Qed.

(** The loop stops after as many rounds as it advanced [m_lastIndex]. *)
Lemma index_steps_progress n d s c :
  index_steps n d s = Ok c →
  ∃ q, (q ≤ n)%nat ∧ m_lastIndex c = m_lastIndex s + Z.of_nat q ∧ index_steps q d s = Ok c.
Proof.
  revert s. induction n as [|n IH]; intros s H.
  { exists 0%nat. simpl in H. injection H as <-. split; [lia|]. split; [lia|done]. }
  pose proof H as H'. cbn [index_steps] in H. case_decide as Hz.
  - injection H as <-. exists 0%nat. split; [lia|]. split; [lia|done].
  - apply bind_ok_inv in H as (p & Hp & H). apply bind_ok_inv in H as (z & Hs & H).
    destruct (IH _ H) as (q & Hq & Hi & Hl). exists (S q). split; [lia|].
    cbn [m_lastIndex] in Hi. split; [lia|]. cbn [index_steps].
    rewrite decide_False by done. rewrite Hp, bind_ok, Hs, bind_ok. done.
Qed.
