(* ===== verification/RLPStreamFacts.v ===== *)
(** * The RLP writer

    [RLPStream] keeps a stack of the lists that are still open and inserts a
    list's header when its last item arrives. This file proves that the bytes
    it produces are the reference encoding of RLPFacts, and that the reader's
    conversions recover what was written. *)

From S2P Require Import Prelude RLP RLPFacts.

Local Open Scope Z_scope.

(** ** The writer computes the reference encoding *)

(** One complete item written to a stream. *)
Definition add_item (e : bytes) (s : RLPStream) : res RLPStream :=
  noteAppended (Stream (m_out s ++ e) (m_listStack s)) 1.

(** Several items, one after the other. *)
Fixpoint add_items (es : list bytes) (s : RLPStream) : res RLPStream :=
  match es with
  | [] => Ok s
  | e :: es => s' ← add_item e s; add_items es s'
  end.

(** A nested item written the way the clients of [RLPStream] do it. *)
Fixpoint put (i : item) (s : RLPStream) {struct i} : res RLPStream :=
  match i with
  | Data b => append_bytes s b false
  | Items l =>
      s' ← appendList s (Z.of_nat (length l));
      (fix put_all (l : list item) (s : RLPStream) : res RLPStream :=
         match l with
         | [] => Ok s
         | i :: l => s' ← put i s; put_all l s'
         end) l s'
  end.

Lemma listHeader_hdr n : 0 ≤ n < 2 ^ 63 → listHeader n = Ok (hdr 0xc0 0xf7 n).
Proof.
  intros Hn. unfold listHeader, hdr. rlp_consts. change (256 - 192 - 8) with 56.
  case_decide; [by rewrite u8_small by lia|].
  destruct (long_hdr n) as [Hbr _]; [lia|].
  rewrite decide_True by lia. by rewrite u8_small by lia.
Qed.

Lemma pushCount_hdr out n imm ind :
  56 ≤ n < 2 ^ 63 → 0 ≤ ind ≤ 0xf7 → pushCount out n ind = Ok (out ++ hdr imm ind n).
Proof.
  intros Hn Hind. destruct (long_hdr n Hn) as [Hbr _].
  unfold pushCount, hdr, pushInt. rewrite throw_if_false by lia. rewrite bind_ok.
  rewrite decide_False, u8_small by lia. rewrite <- app_assoc. simpl. do 2 f_equal. f_equal. lia.
Qed.

Lemma noteAppended_0 s : noteAppended s 0 = Ok s.
Proof. done. Qed.

Lemma append_bytes_enc s b : len b < 2 ^ 63 → append_bytes s b false = add_item (enc_data b) s.
Proof.
  intros Hb. unfold append_bytes, enc_data, add_item. rlp_consts.
  pose proof (len_nonneg b). change (192 - 128 - 8) with 56. case_decide as Hs.
  - destruct Hs as [Hl _]. destruct b as [|x [|]]; [done|done|unfold len in Hl; simpl in Hl; lia].
  - case_decide.
    + rewrite bind_ok. unfold appendRaw. cbn [m_out m_listStack].
      rewrite noteAppended_0, bind_ok.
      unfold hdr. rewrite decide_True by done. rewrite u8_small, <- app_assoc by lia.
      by rewrite (Z.add_comm (len b)).
    + rewrite (pushCount_hdr _ _ 0x80) by lia. rewrite bind_ok. unfold appendRaw.
      cbn [m_out m_listStack]. rewrite noteAppended_0, bind_ok, <- app_assoc. done.
Qed.

Lemma append_bigint_enc s i :
  0 ≤ i < 256 ^ 55 → append_bigint s i = add_item (enc_data (minimal i)) s.
Proof.
  intros Hi. unfold append_bigint, add_item, enc_data. rlp_consts.
  case_decide as H0; [subst; done|].
  rewrite len_minimal by lia.
  assert (1 ≤ bytesRequired i ≤ 55) as Hbr.
  { pose proof (bytesRequired_pos i). pose proof (bytesRequired_le i 55). lia. }
  case_decide as H1.
  - assert (bytesRequired i = 1) as E by (pose proof (bytesRequired_le i 1); lia).
    assert (minimal i = [i]) as Hm.
    { unfold minimal. rewrite E. simpl. rewrite land_ff, Z.mod_small; [done|lia]. }
    rewrite Hm, byte_at_0, decide_True by lia. rewrite u8_small by lia. done.
  - rewrite (decide_False (P:=bytesRequired i = 1 ∧ byte_at (minimal i) 0 < 0x80)).
    + change (192 - 128 - 8) with 56. unfold hdr.
      rewrite !(decide_True (P:=bytesRequired i < 56)) by lia.
      rewrite !bind_ok. unfold pushInt. fold (minimal i).
      rewrite u8_small by lia. rewrite <- app_assoc.
      by rewrite (Z.add_comm (bytesRequired i)).
    + intros [E Hb]. assert (i < 256) as Hlt.
      { destruct (bytesRequired_spec i) as (_ & Hup & _); [lia|]. rewrite E in Hup. lia. }
      assert (minimal i = [i]) as Hm.
      { unfold minimal. rewrite E. simpl. rewrite land_ff, Z.mod_small; [done|lia]. }
      rewrite Hm, byte_at_0 in Hb. lia.
Qed.

Lemma add_item_open e out n p rest :
  1 < n → add_item e (Stream out ((n, p) :: rest)) = Ok (Stream (out ++ e) ((n - 1, p) :: rest)).
Proof.
  intros Hn. unfold add_item, noteAppended. cbn [m_out m_listStack].
  rewrite decide_False by lia. cbn [note_loop]. rewrite throw_if_false by lia.
  rewrite bind_ok, decide_True by lia. done.
Qed.

Lemma add_item_close e out p stk :
  len e < 2 ^ 63 → len p < 2 ^ 63 - len e →
  add_item e (Stream (out ++ p) ((1, len out) :: stk)) = add_item (enc_list (p ++ e)) (Stream out stk).
Proof.
  intros He Hp. unfold add_item, noteAppended. cbn [m_out m_listStack].
  rewrite !decide_False by lia. cbn [note_loop]. rewrite throw_if_false by lia.
  rewrite bind_ok, decide_False by lia.
  replace (len ((out ++ p) ++ e) - len out) with (len (p ++ e)) by len_lia.
  rewrite listHeader_hdr, bind_ok by len_lia.
  rewrite <- app_assoc, take_len_app, drop_len_app. done.
Qed.

(** The items of an open list, up to and including the last one. *)
Lemma add_items_list es p out stk :
  es ≠ [] → len (p ++ concat es) < 2 ^ 63 →
  add_items es (Stream (out ++ p) ((Z.of_nat (length es), len out) :: stk))
  = add_item (enc_list (p ++ concat es)) (Stream out stk).
Proof.
  revert p. induction es as [|e es IH]; intros p Hne Hl; [done|].
  cbn [add_items]. destruct es as [|e' es].
  - simpl concat in *. rewrite app_nil_r in *. rewrite add_item_close by len_lia.
    destruct (add_item _ _); done.
  - rewrite add_item_open by (simpl; lia). rewrite bind_ok.
    cbn [concat] in *. rewrite <- app_assoc.
    replace (Z.of_nat (length (e :: e' :: es)) - 1) with (Z.of_nat (length (e' :: es)))
      by (simpl; lia).
    rewrite IH; [|done|]; rewrite <- app_assoc in *; done.
Qed.

Lemma appendList_items es s :
  len (concat es) < 2 ^ 63 →
  (s' ← appendList s (Z.of_nat (length es)); add_items es s') = add_item (enc_list (concat es)) s.
Proof.
  intros Hl. unfold appendList. destruct s as [o stk]. cbn [m_out m_listStack].
  destruct es as [|e es].
  - rewrite decide_False by (simpl; lia). unfold appendListRaw.
    cbn [m_out m_listStack]. rlp_consts. rewrite decide_True by (rewrite len_nil; lia).
    rewrite bind_ok. unfold appendRaw, add_item. cbn [m_out m_listStack].
    rewrite app_nil_r. simpl concat. unfold enc_list, hdr. simpl.
    destruct (noteAppended _ _); done.
  - rewrite decide_True by (simpl; lia). rewrite bind_ok.
    rewrite <- (app_nil_r o) at 1. apply add_items_list; [done|]. done.
Qed.

(** Induction over nested items. *)
Section item_ind'.
Context (P : item → Prop).
Hypothesis P_data : ∀ b, P (Data b).
Hypothesis P_items : ∀ l, Forall P l → P (Items l).

Fixpoint item_ind' (i : item) : P i :=
  match i with
  | Data b => P_data b
  | Items l => P_items l
      ((fix all (l : list item) : Forall P l :=
          match l with
          | [] => @List.Forall_nil item P
          | i :: l => @List.Forall_cons item P i l (item_ind' i) (all l)
          end) l)
  end.
End item_ind'.

Lemma len_enc_data_ge b : len b ≤ len (enc_data b).
Proof. unfold enc_data. pose proof (len_nonneg b). case_decide; len_lia. Qed.

Lemma len_hdr_le imm ind n : 0 ≤ n < 2 ^ 63 → 1 ≤ len (hdr imm ind n) ≤ 9.
Proof.
  intros Hn. unfold hdr. case_decide; [done|]. rewrite len_cons, len_toBigEndian.
  pose proof (bytesRequired_pos n). pose proof (bytesRequired_le n 8). lia.
Qed.

Lemma len_enc_data_le b : len b < 2 ^ 63 → len (enc_data b) ≤ len b + 9.
Proof.
  intros Hb. unfold enc_data. pose proof (len_nonneg b). case_decide; [lia|].
  rewrite len_app. pose proof (len_hdr_le 0x80 0xb7 (len b)). lia.
Qed.

Lemma len_enc_list_ge p : len p ≤ len (enc_list p).
Proof. unfold enc_list. pose proof (len_nonneg p). len_lia. Qed.

(** The writer run on a nested item appends its reference encoding. *)
Lemma put_enc i s : len (enc i) < 2 ^ 63 → put i s = add_item (enc i) s.
Proof.
  revert s. induction i as [b|l IH] using item_ind'; intros s Hl; cbn [enc put] in *.
  - apply append_bytes_enc. pose proof (len_enc_data_ge b). lia.
  - pose proof (len_enc_list_ge (concat (enc <$> l))) as Hc.
    rewrite <- (length_fmap enc l). rewrite <- appendList_items by lia.
    destruct (appendList s _) as [s'|]; [|done]. rewrite !bind_ok.
    assert (len (concat (enc <$> l)) < 2 ^ 63) as Hlt by lia. clear Hl Hc. revert s'.
    induction IH as [|i l Hi _ IHl]; intros s'; [done|].
    cbn [fmap list_fmap add_items concat] in *. rewrite len_app in Hlt.
    pose proof (len_nonneg (enc i)). pose proof (len_nonneg (concat (enc <$> l))).
    rewrite Hi by lia. destruct (add_item (enc i) s'); [|done]. apply IHl. lia.
Qed.

(** ** Iterating over a list *)

Lemma cropped_mid a m b n :
  n = len m → len (a ++ m ++ b) < 2 ^ 64 → cropped (a ++ m ++ b) (len a) n = m.
Proof.
  intros -> Hl. unfold cropped. rewrite decide_True by (rewrite u64_small; len_lia).
  by rewrite drop_len_app, take_len_app.
Qed.

Lemma cropped_end a m : len (a ++ m) < 2 ^ 64 → cropped (a ++ m) (len a) (len m) = m.
Proof.
  intros Hl. rewrite <- (app_nil_r m) at 1. apply cropped_mid; [done|]. by rewrite app_nil_r.
Qed.

Lemma iterate_loop_items {T} (f : bytes → res T) es e pre fuel :
  reads_some e → Forall reads_some es → len (pre ++ e ++ concat es) < 2 ^ 64 →
  (length es + 1 < fuel)%nat →
  iterate_loop fuel (pre ++ e ++ concat es) f (len pre) (len e) (len (concat es))
  = mapM f (e :: es).
Proof.
  intros He Hes. revert e pre fuel He.
  induction Hes as [|e' es He' Hes IH]; intros e pre fuel [q R] Hl Hf;
    (destruct fuel as [|fuel]; [lia|]); cbn [iterate_loop];
    pose proof (reads_pos _ _ R); rewrite decide_False by len_lia;
    rewrite cropped_mid by done; rewrite (reads_RLP_new e q R), bind_ok; cbn [mapM];
    (destruct (f e) as [x|]; [|done]); rewrite !bind_ok.
  - simpl concat in *. rewrite app_nil_r in *. rewrite decide_False by (rewrite len_nil; lia).
    rewrite bind_ok. destruct fuel as [|fuel]; [simpl in Hf; lia|]. cbn [iterate_loop].
    rewrite decide_True by len_lia. done.
  - pose proof He' as [q' R']. pose proof (reads_pos _ _ R'). cbn [concat] in *.
    rewrite decide_True by len_lia. cbv zeta.
    replace (len pre + len e) with (len (pre ++ e)) by len_lia.
    rewrite (app_assoc pre e) in *. rewrite cropped_end by done.
    rewrite (reads_sizeAsEncoded e' q' R'), bind_ok, (reads_crop e' q' R'), bind_ok.
    replace (len (e' ++ concat es) - Z.min (len (e' ++ concat es)) (len e'))
      with (len (concat es)) by len_lia.
    rewrite IH; [done|done|done|simpl in Hf; lia].
Qed.

(** Range-based iteration visits the items of a list in order. *)
Lemma iterate_enc_list {T} (f : bytes → res T) es :
  Forall reads_some es → len (concat es) < 2 ^ 63 →
  iterate (enc_list (concat es)) f = mapM f es.
Proof.
  intros Hes Hl. unfold iterate. pose proof (reads_list _ Hl) as R.
  pose proof (enc_list_isList (concat es) []) as Hlist. rewrite app_nil_r in Hlist.
  rewrite decide_True by done. rewrite (reads_length_self _ _ R), bind_ok.
  rewrite (reads_payload_self _ _ R), bind_ok.
  pose proof (reads_offset _ _ R []) as [Ho1 Ho2]. pose proof (reads_payload _ _ R []) as Hd.
  pose proof (reads_bound _ _ R) as Hb. rewrite app_nil_r in Ho1, Ho2, Hd.
  rewrite decide_False by lia. set (d := enc_list (concat es)) in *.
  assert (d = take (Z.to_nat (payloadOffset d)) d ++ concat es) as Hsplit.
  { rewrite <- (take_drop (Z.to_nat (payloadOffset d)) d) at 1. by rewrite Hd. }
  set (h := take (Z.to_nat (payloadOffset d)) d) in *.
  assert (payloadOffset d = len h) as Hoff.
  { apply (f_equal len) in Hsplit. rewrite len_app in Hsplit. lia. }
  clear Hd. destruct Hes as [|e es [q Re] Hes].
  - cbn [concat] in *. rewrite sizeAsEncoded_nil, bind_ok. cbn [iterate_loop].
    rewrite decide_True; [done|]. rewrite len_nil in Ho2. split; [lia|done].
  - cbn [concat]. rewrite (reads_sizeAsEncoded e q Re), bind_ok, (reads_crop e q Re).
    replace (len (e ++ concat es) - len e) with (len (concat es)) by len_lia.
    rewrite Hoff. clearbody h. clearbody d. subst d. cbn [concat]. apply iterate_loop_items.
    + by exists q.
    + done.
    + done.
    + pose proof (length_concat_reads es Hes). pose proof (reads_pos _ _ Re).
      unfold len in *. rewrite !length_app. lia.
Qed.

Lemma toVector_enc_list {T} (conv : bytes → res T) es flags :
  Forall reads_some es → len (concat es) < 2 ^ 63 →
  toVector conv (enc_list (concat es)) flags = mapM conv es.
Proof.
  intros Hes Hl. unfold toVector, itemCount.
  pose proof (enc_list_isList (concat es) []) as Hlist. rewrite app_nil_r in Hlist.
  rewrite !decide_True by done. by rewrite items_enc_list, bind_ok, iterate_enc_list.
Qed.

(** ** Conversions invert the writer *)

Lemma take_len_self b : take (Z.to_nat (len b)) b = b.
Proof. apply take_ge. unfold len. lia. Qed.

Lemma requireGood_enc_data b : bytes_ok b → len b < 2 ^ 63 → requireGood (enc_data b) = Ok tt.
Proof.
  intros Hok Hb. unfold enc_data. pose proof (len_nonneg b). case_decide as Hs.
  - destruct Hs as [Hl H0]. destruct b as [|x b]; [done|]. rewrite byte_at_0 in H0.
    apply requireGood_cons. lia.
  - unfold hdr. case_decide as Hlt; simpl.
    + destruct (decide (len b = 1)) as [H1|]; [|apply requireGood_cons; lia].
      destruct b as [|x b]; [done|]. rewrite H1. rewrite byte_at_0 in Hs.
      apply requireGood_81. lia.
    + apply requireGood_cons. pose proof (bytesRequired_nonneg (len b)). lia.
Qed.

Lemma toBytes_enc_data b flags : bytes_ok b → len b < 2 ^ 63 → toBytes (enc_data b) flags = Ok b.
Proof.
  intros Hok Hb. pose proof (reads_data b Hok Hb) as R.
  pose proof (enc_data_isData b [] Hok Hb) as Hd. rewrite app_nil_r in Hd.
  unfold toBytes. rewrite decide_False by tauto.
  rewrite (reads_payload_self _ _ R), bind_ok, (reads_length_self _ _ R), bind_ok.
  rewrite throw_if_false by lia. by rewrite bind_ok, take_len_self.
Qed.

Lemma toHash_enc_data n h flags :
  bytes_ok h → len h = n → n < 2 ^ 63 → toHash n (enc_data h) flags = Ok h.
Proof.
  intros Hok Hn Hb. rewrite <- Hn in Hb. pose proof (reads_data h Hok Hb) as R.
  pose proof (enc_data_isData h [] Hok Hb) as Hd. rewrite app_nil_r in Hd.
  unfold toHash. rewrite requireGood_enc_data, bind_ok by done.
  rewrite (reads_payload_self _ _ R), bind_ok. rewrite decide_False.
  - rewrite Z.min_l, Z.sub_diag by lia. simpl. by rewrite <- Hn, take_len_self.
  - rewrite Hn. intros [|[[? _]|[? _]]]; [done|lia|lia].
Qed.

Lemma isInt_minimal i : 0 ≤ i < 256 ^ 55 → isInt (enc_data (minimal i)) = Ok true.
Proof.
  intros Hi. destruct (decide (i = 0)) as [->|]; [done|].
  assert (len (minimal i) ≤ 55) as Hle.
  { rewrite len_minimal by lia. apply bytesRequired_le; lia. }
  assert (requireGood (enc_data (minimal i)) = Ok tt) as Hg.
  { apply requireGood_enc_data; [apply toBigEndian_ok|lia]. }
  unfold isInt. revert Hg. destruct (minimal_first i) as (b & bs & E & Hb); [lia|].
  unfold enc_data. rewrite E in *. pose proof (len_nonneg bs). rewrite byte_at_0.
  case_decide as Hs; [|unfold hdr; rewrite decide_True by lia]; cbn [app]; intros Hg;
    rewrite decide_False by apply isNull_cons; rewrite Hg, bind_ok, byte_at_0; rlp_consts; cbv zeta.
  - rewrite decide_True by lia. by rewrite bool_decide_true by lia.
  - rewrite len_cons in *. rewrite !decide_False, decide_True by lia.
    rewrite throw_if_false by len_lia. rewrite bind_ok.
    change 1 with (1 + 0). rewrite byte_at_S, byte_at_0 by lia.
    by rewrite bool_decide_true by lia.
Qed.

Lemma toInt_enc_minimal maxSize wrap i flags :
  0 ≤ maxSize ≤ 55 → 0 ≤ i < 256 ^ maxSize → (∀ z, 0 ≤ z ≤ i → wrap z = z) →
  toInt maxSize wrap (enc_data (minimal i)) flags = Ok i.
Proof.
  intros Hm Hi Hw. assert (256 ^ maxSize ≤ 256 ^ 55) by (apply Z.pow_le_mono_r; lia).
  assert (len (minimal i) ≤ maxSize) as Hle.
  { rewrite len_minimal by lia. apply bytesRequired_le; lia. }
  assert (bytes_ok (minimal i)) as Hok by apply toBigEndian_ok.
  assert (len (minimal i) < 2 ^ 63) as Hl by lia.
  pose proof (reads_data _ Hok Hl) as R.
  pose proof (enc_data_isData (minimal i) [] Hok Hl) as Hd. rewrite app_nil_r in Hd.
  unfold toInt. rewrite requireGood_enc_data, bind_ok by done.
  rewrite isInt_minimal, bind_ok by lia.
  rewrite decide_False.
  - rewrite (reads_payload_self _ _ R), bind_ok, decide_False by lia.
    by rewrite fromBigEndian_minimal by (done || lia).
  - intros [[? _]|[Hl'|Hn]]; [done|by apply isData_not_isList in Hd|]. by destruct Hd.
Qed.

Lemma cropped_all b : len b < 2 ^ 64 → cropped b 0 (len b) = b.
Proof. intros Hb. by apply (cropped_end [] b). Qed.

Lemma toBytesConstRef_enc_data b flags :
  bytes_ok b → len b < 2 ^ 63 → toBytesConstRef (enc_data b) flags = Ok b.
Proof.
  intros Hok Hb. pose proof (reads_data b Hok Hb) as R.
  pose proof (enc_data_isData b [] Hok Hb) as Hd. rewrite app_nil_r in Hd.
  unfold toBytesConstRef. rewrite decide_False by tauto.
  rewrite (reads_payload_self _ _ R), bind_ok, (reads_length_self _ _ R), bind_ok.
  by rewrite cropped_all by lia.
Qed.

Lemma toInt_u8_enc i flags :
  0 ≤ i < 2 ^ 8 → toInt_u8 (enc_data (minimal i)) flags = Ok i.
Proof. intros. apply toInt_enc_minimal; [lia|lia|]. intros. apply u8_small. lia. Qed.

Lemma toInt_u16_enc i flags :
  0 ≤ i < 2 ^ 16 → toInt_u16 (enc_data (minimal i)) flags = Ok i.
Proof. intros. apply toInt_enc_minimal; [lia|lia|]. intros. apply u16_small. lia. Qed.

Lemma toInt_u64_enc i flags :
  0 ≤ i < 2 ^ 64 → toInt_u64 (enc_data (minimal i)) flags = Ok i.
Proof. intros. apply toInt_enc_minimal; [lia|lia|]. intros. apply u64_small. lia. Qed.

Lemma toInt_i64_enc i flags :
  0 ≤ i < 2 ^ 63 → toInt_i64 (enc_data (minimal i)) flags = Ok i.
Proof. intros. apply toInt_enc_minimal; [lia|lia|]. intros. apply i64_small. lia. Qed.

Lemma toInt_u256_enc i flags :
  0 ≤ i < 2 ^ 256 → toInt_u256 (enc_data (minimal i)) flags = Ok i.
Proof. intros. apply toInt_enc_minimal; [lia|lia|]. intros. apply u256_small. lia. Qed.
