(* ===== verification/RLPProps.v ===== *)
(** * Properties of the RLP codec

    What the clients of libdevcore/RLP rely on: the writer and the reader are
    inverse on nested items, the index cache of [operator[]] is transparent,
    and counting items terminates on every input. *)

From S2P Require Import Prelude RLP RLPFacts RLPStreamFacts.

Local Open Scope Z_scope.

(** The recursive reader a client writes with [isList], [toList] and
    [toBytes]; [fuel] bounds the nesting depth. *)
Fixpoint read_item (fuel : nat) (d : bytes) : res item :=
  match fuel with
  | O => Throw OutOfFuel
  | S fuel =>
      if decide (isList d) then
        l ← toList d LaissezFaire; xs ← mapM (read_item fuel) l; Ok (Items xs)
      else b ← toBytes d LaissezFaire; Ok (Data b)
  end.

Fixpoint depth (i : item) : nat :=
  match i with
  | Data _ => 1
  | Items l => S (foldr Nat.max 0%nat (depth <$> l))
  end.

Fixpoint item_ok (i : item) : Prop :=
  match i with
  | Data b => bytes_ok b
  | Items l => foldr and True (item_ok <$> l)
  end.

(** The caches that accesses of one object leave as long as none throws. *)
Inductive cache_reach (d : bytes) : rlp_cache → Prop :=
  | reach_fresh : cache_reach d rlp_cache0
  | reach_index c i x c' :
      cache_reach d c → 0 ≤ i < UINT64_MAX → rlp_index d c i = Ok (x, c') → cache_reach d c'.

(** ** Round trip *)

Lemma enc_reads i : item_ok i → len (enc i) < 2 ^ 63 → reads_some (enc i).
Proof.
  destruct i as [b|l]; intros Hok Hl; cbn [enc] in *.
  - exists b. apply reads_data; [done|]. pose proof (len_enc_data_ge b). lia.
  - eexists. apply reads_list. pose proof (len_enc_list_ge (concat (enc <$> l))). lia.
Qed.

Lemma len_concat_elem e (es : list bytes) : e ∈ es → len e ≤ len (concat es).
Proof.
  induction 1 as [e es|e e' es _ IH]; cbn [concat]; rewrite len_app;
    [pose proof (len_nonneg (concat es))|pose proof (len_nonneg e')]; lia.
Qed.

Lemma items_Forall l :
  foldr and True (item_ok <$> l) → Forall item_ok l.
Proof. induction l; simpl; [constructor|]. intros [??]. constructor; auto. Qed.

Lemma depth_elem i l : i ∈ l → (depth i ≤ foldr Nat.max 0 (depth <$> l))%nat.
Proof. induction 1 as [|???? IH]; cbn [fmap list_fmap foldr] in *; lia. Qed.

Lemma mapM_enc (f : bytes → res item) l :
  (∀ i, i ∈ l → f (enc i) = Ok i) → mapM f (enc <$> l) = Ok l.
Proof.
  induction l as [|i l IH]; intros H; [done|]. rewrite fmap_cons. cbn [mapM].
  rewrite H by left. rewrite bind_ok, IH; [done|].
  intros j Hj. apply H. by right.
Qed.

Lemma read_enc i fuel :
  item_ok i → len (enc i) < 2 ^ 63 → (depth i ≤ fuel)%nat → read_item fuel (enc i) = Ok i.
Proof.
  revert fuel. induction i as [b|l IH] using item_ind'; intros fuel Hok Hl Hf;
    (destruct fuel as [|fuel]; [simpl in Hf; lia|]); cbn [read_item enc] in *.
  - pose proof (len_enc_data_ge b). assert (len b < 2 ^ 63) as Hb by lia.
    pose proof (enc_data_isData b [] Hok Hb) as Hd. rewrite app_nil_r in Hd.
    rewrite decide_False by (by apply isData_not_isList).
    by rewrite toBytes_enc_data, bind_ok.
  - pose proof (len_enc_list_ge (concat (enc <$> l))) as Hge.
    pose proof (enc_list_isList (concat (enc <$> l)) []) as Hd. rewrite app_nil_r in Hd.
    rewrite decide_True by done. unfold toList. rewrite decide_False by tauto.
    apply items_Forall in Hok. rewrite list.Forall_forall in Hok, IH.
    assert (∀ i, i ∈ l → len (enc i) < 2 ^ 63) as Hlen.
    { intros i Hi. pose proof (len_concat_elem (enc i) (enc <$> l)) as Hc.
      assert (enc i ∈ enc <$> l) by (by apply list_elem_of_fmap_2). specialize (Hc ltac:(done)). lia. }
    rewrite iterate_enc_list; [|apply Forall_fmap, list.Forall_forall; intros i Hi; apply enc_reads; auto|lia].
    assert (∀ l : list bytes, mapM (Ok (A := bytes)) l = Ok l) as ->.
    { intros l'. induction l' as [|e l' IH']; [done|]. cbn [mapM]. by rewrite bind_ok, IH'. }
    rewrite bind_ok, mapM_enc; [done|]. intros i Hi. apply IH; auto.
    pose proof (depth_elem i l Hi).
    change (depth (Items l)) with (S (foldr Nat.max 0%nat (depth <$> l))) in Hf. lia.
Qed.

(** ** The index cache *)

(** A reachable cache is fresh or lies on the path of the loop from index 0. *)
Definition on_path (d : bytes) (c : rlp_cache) : Prop :=
  c = rlp_cache0 ∨
  ∃ s q, cache_start d = Ok s ∧ m_lastIndex c = Z.of_nat q ∧ index_steps q d s = Ok c.

Lemma cache_start_index d s : cache_start d = Ok s → m_lastIndex s = 0.
Proof.
  intros H. apply bind_ok_inv in H as (p & _ & H). apply bind_ok_inv in H as (e & _ & H).
  by injection H as <-.
Qed.

Lemma cache_position d c i :
  on_path d c → 0 ≤ i < UINT64_MAX →
  (c1 ← (if decide (i < m_lastIndex c) then cache_start d else Ok c);
   index_steps (Z.to_nat (i - m_lastIndex c1)) d c1)
  = (s ← cache_start d; index_steps (Z.to_nat i) d s).
Proof.
  intros Hp Hi. assert (∀ s, cache_start d = Ok s →
      index_steps (Z.to_nat (i - m_lastIndex s)) d s = index_steps (Z.to_nat i) d s) as H0.
  { intros s Hs. rewrite (cache_start_index d s Hs). f_equal. lia. }
  case_decide as Hlt.
  - destruct (cache_start d) as [s|]; [|done]. rewrite !bind_ok. by apply H0.
  - destruct Hp as [->|(s & q & Hs & Hq & Hl)]; [simpl in Hlt; lia|].
    rewrite Hs, !bind_ok. replace (Z.to_nat i) with (q + Z.to_nat (i - m_lastIndex c))%nat by lia.
    by rewrite index_steps_add, Hl, bind_ok.
Qed.

Lemma cache_reach_on_path d c : cache_reach d c → on_path d c.
Proof.
  induction 1 as [|c i x c' _ IH Hi Hx]; [by left|]. right.
  rewrite rlp_index_unfold, cache_position in Hx by done.
  apply bind_ok_inv in Hx as (c2 & H2 & Hx). apply bind_ok_inv in H2 as (s & Hs & H2).
  apply bind_ok_inv in Hx as (r & Hr & Hx). injection Hx as _ <-.
  destruct (index_steps_progress _ _ _ _ H2) as (q & _ & Hq & Hl).
  exists s, q. rewrite (cache_start_index d s Hs) in Hq. auto.
Qed.

(** ** Properties *)

(** C7. Writer and reader are inverse. Writing any nested item with the
    stack-of-open-lists [RLPStream] succeeds with no list left open, and the
    recursive reader over [isList], [toList] and [toBytes] recovers exactly
    that item from the bytes. *)
Theorem rlp_roundtrip i :
  item_ok i → len (enc i) < 2 ^ 63 →
  ∃ e, (s ← put i RLPStream0; out s) = Ok e ∧ read_item (depth i) e = Ok i.
Proof.
  intros Hok Hl. exists (enc i). split; [|by apply read_enc].
  rewrite put_enc by done. done.
Qed.

Lemma rlp_roundtrip_witness :
  ∃ e, (s ← put (Items [Data [1; 200]; Items []; Items [Data []; Data [5]]]) RLPStream0; out s) = Ok e ∧
       read_item 3 e = Ok (Items [Data [1; 200]; Items []; Items [Data []; Data [5]]]).
Proof.
  apply (rlp_roundtrip (Items [Data [1; 200]; Items []; Items [Data []; Data [5]]])).
  - cbn. unfold bytes_ok, is_byte. repeat (constructor || lia).
  - vm_compute. done.
Defined.

(** C37. As long as no access of an [RLP] object has thrown, the mutable
    position cache inside it is invisible: after any sequence of such accesses
    in any order, access [i] returns the item, or throws the exception, that a
    fresh object would, and when it returns it leaves the same cache. *)
Theorem rlp_index_cache_transparent d c i :
  cache_reach d c → 0 ≤ i < UINT64_MAX →
  fst (rlp_access d c i) = fst (rlp_access d rlp_cache0 i) ∧
  (∀ x, fst (rlp_access d c i) = Ok x → snd (rlp_access d c i) = snd (rlp_access d rlp_cache0 i)).
Proof.
  intros Hc Hi. assert (rlp_index d c i = rlp_index d rlp_cache0 i) as E.
  { rewrite !rlp_index_unfold, !cache_position; auto using cache_reach_on_path. by left. }
  unfold rlp_index in E. destruct (rlp_access d c i) as [[x|e] c1], (rlp_access d rlp_cache0 i) as [[y|e'] c2];
    cbn in *; by simplify_eq.
Qed.

Lemma rlp_index_cache_transparent_witness :
  ∃ c, cache_reach [0xc3; 1; 2; 3] c ∧ c ≠ rlp_cache0 ∧
       fst (rlp_access [0xc3; 1; 2; 3] c 1) = fst (rlp_access [0xc3; 1; 2; 3] rlp_cache0 1).
Proof.
  assert (cache_reach [0xc3; 1; 2; 3] (RLPCache 2 3 [3])) as H.
  { eapply (reach_index _ rlp_cache0 2 [3]); [constructor|unfold UINT64_MAX; lia|vm_compute; done]. }
  exists (RLPCache 2 3 [3]). split; [exact H|]. split; [done|].
  refine (proj1 (rlp_index_cache_transparent _ _ _ H _)). unfold UINT64_MAX. lia.
Defined.

(** After an access that throws it is not: item 0 of this list is readable,
    item 1 is cut short, and once item 1 was asked for item 0 throws as well. *)
Example index_after_throw :
  let d := [0xc2; 1; 0xb8] in
  let '(r0, c0) := rlp_access d rlp_cache0 0 in
  let '(r1, c1) := rlp_access d c0 1 in
  let '(r2, _) := rlp_access d c1 0 in
  r0 = Ok [1] ∧ (∃ e, r1 = Throw e) ∧ ∃ e, r2 = Throw e.
Proof. vm_compute. eauto. Qed.

(** Counting the items of a received RLP always terminates: on every byte
    string [items()] returns a count or throws, in at most one round per byte
    of the payload. *)
Theorem items_terminates d : bytes_ok d → items d ≠ Throw OutOfFuel.
Proof.
  intros Hok. unfold items. case_decide; [|done].
  destruct (payload d) as [p|e] eqn:Hp.
  - rewrite bind_ok. apply items_loop_terminates; [|lia].
    unfold payload in Hp. apply bind_ok_inv in Hp as (l & _ & Hp).
    apply bind_ok_inv in Hp as (? & _ & Hp). injection Hp as <-. unfold cropped.
    case_decide; [|constructor]. by apply Forall_take, Forall_drop.
  - pose proof (payload_not_fuel d). simpl. congruence.
Qed.

Lemma items_terminates_witness : items [0xc3; 1; 2; 3] ≠ Throw OutOfFuel.
Proof. apply items_terminates. repeat (constructor; [unfold is_byte; lia|]). constructor. Defined.
