(* ===== verification/CodecFacts.v ===== *)
(** * Codecs built from RLP fields

    The lemmas and tactics shared by the codecs of messages, transactions,
    headers and blocks: what a sequence of [append] calls writes, and what a
    sequence of [operator[]] reads back. *)

From S2P Require Import Prelude RLP RLPFacts RLPStreamFacts.

Local Open Scope Z_scope.

Lemma add_item_top e o : add_item e (Stream o []) = Ok (Stream (o ++ e) []).
Proof. done. Qed.

Lemma add_items_top es o : add_items es (Stream o []) = Ok (Stream (o ++ concat es) []).
Proof.
  revert o. induction es as [|e es IH]; intros o; [by rewrite app_nil_r|].
  cbn [add_items concat].
  by rewrite add_item_top, bind_ok, IH, <- app_assoc.
Qed.

Lemma add_items_app es es' s :
  add_items (es ++ es') s = (s' ← add_items es s; add_items es' s').
Proof.
  revert s. induction es as [|e es IH]; intros s; [by destruct (add_items es' s)|].
  cbn [app add_items]. destruct (add_item e s); [|done]. by rewrite !bind_ok.
Qed.

Lemma append_unsigned_enc s i : append_unsigned s i = add_item (enc_data (minimal (u32 i))) s.
Proof.
  unfold append_unsigned. apply append_bigint_enc. pose proof (u32_range i). lia.
Qed.

Lemma append_u256_enc s i :
  0 ≤ i < 2 ^ 256 → append_u256 s i = add_item (enc_data (minimal i)) s.
Proof. intros Hi. unfold append_u256. apply append_bigint_enc. lia. Qed.

Lemma bytesRequired_small i n : 0 ≤ n → 0 ≤ i < 256 ^ n → 0 ≤ len (minimal i) ≤ n.
Proof.
  intros Hn Hi. rewrite len_minimal by lia.
  pose proof (bytesRequired_nonneg i). pose proof (bytesRequired_le i n). lia.
Qed.

Lemma reads_some_data b : bytes_ok b → len b < 2 ^ 63 → reads_some (enc_data b).
Proof. intros. exists b. by apply reads_data. Qed.

Lemma reads_some_minimal i : 0 ≤ i < 256 ^ 55 → reads_some (enc_data (minimal i)).
Proof.
  intros Hi. apply reads_some_data; [apply toBigEndian_ok|].
  pose proof (bytesRequired_small i 55). lia.
Qed.

(** Field [j] of an object whose payload holds the items [es]. *)
Lemma rlp_index_field d es :
  payload d = Ok (concat es) → Forall reads_some es → len (concat es) < 2 ^ 63 →
  ∀ j e c, es !! j = Some e → cache_at es c → Z.of_nat j < UINT64_MAX →
  rlp_index d c (Z.of_nat j) = Ok (e, pos_cache es j) ∧ cache_at es (pos_cache es j).
Proof.
  intros Hp Hes Hl j e c He Hc Hj. pose proof (lookup_lt_Some _ _ _ He).
  split; [|apply cache_at_pos; lia].
  rewrite (rlp_index_items d _ Hp Hes Hl) by (done || lia).
  by rewrite Nat2Z.id, He, Nat.min_l by lia.
Qed.

(** [read_field H j]: run the access to field [j] with the fact [H] of the
    lemma above. *)
Ltac read_field H j :=
  let n := eval vm_compute in (Z.to_nat j) in
  let E := fresh "E" in let C := fresh "C" in
  match goal with
  | |- context [rlp_index _ ?c j] =>
      edestruct (H n _ c eq_refl) as [E C]; [first [assumption | apply cache_at_0]|done|];
      change (Z.of_nat n) with j in E; rewrite E, bind_ok; clear E; cbv beta iota
  end.

Lemma len_concat_le (es : list bytes) n :
  Forall (λ e, len e ≤ n) es → len (concat es) ≤ n * Z.of_nat (length es).
Proof.
  induction 1 as [|e es He _ IH]; [simpl; rewrite len_nil; lia|]. cbn [concat length].
  rewrite len_app. lia.
Qed.

Lemma len_enc_minimal_le i : 0 ≤ i < 2 ^ 256 → len (enc_data (minimal i)) ≤ 41.
Proof.
  intros Hi. pose proof (bytesRequired_small i 32).
  pose proof (len_enc_data_le (minimal i)). lia.
Qed.

Lemma enc_data_ok b : bytes_ok b → len b < 2 ^ 63 → bytes_ok (enc_data b).
Proof.
  intros Hok Hb. unfold enc_data, hdr. pose proof (len_nonneg b). case_decide; [done|].
  apply bytes_ok_app. split; [|done]. case_decide.
  - constructor; [unfold is_byte; lia|constructor].
  - constructor; [|apply toBigEndian_ok]. destruct (long_hdr (len b)); [lia|]. unfold is_byte. lia.
Qed.

Lemma enc_minimal_ok i : 0 ≤ i < 256 ^ 55 → bytes_ok (enc_data (minimal i)).
Proof.
  intros Hi. apply enc_data_ok; [apply toBigEndian_ok|]. pose proof (bytesRequired_small i 55). lia.
Qed.

Lemma concat_ok (es : list bytes) : Forall bytes_ok es → bytes_ok (concat es).
Proof. induction 1; [constructor|]. cbn [concat]. apply bytes_ok_app. auto. Qed.

(** A self-delimiting encoding is determined by any string it starts. *)
Lemma reads_prefix e p e' p' r r' :
  reads e p → reads e' p' → e ++ r = e' ++ r' → e = e' ∧ r = r'.
Proof.
  intros R R' E. pose proof (reads_actual _ _ R r) as H1. rewrite E, (reads_actual _ _ R' r') in H1.
  injection H1 as Hl. apply app_inj_1 in E; [done|]. unfold len in Hl. lia.
Qed.

Lemma enc_minimal_prefix i j r r' :
  0 ≤ i < 256 ^ 55 → 0 ≤ j < 256 ^ 55 →
  enc_data (minimal i) ++ r = enc_data (minimal j) ++ r' → i = j ∧ r = r'.
Proof.
  intros Hi Hj E. destruct (reads_some_minimal i Hi) as [p R]. destruct (reads_some_minimal j Hj) as [q R'].
  destruct (reads_prefix _ _ _ _ _ _ R R' E) as [Ee Er]. split; [|done].
  pose proof (toInt_enc_minimal 55 id i Strict) as Ti. pose proof (toInt_enc_minimal 55 id j Strict) as Tj.
  rewrite Ee in Ti. rewrite Ti in Tj by (done || lia). symmetry. injection Tj; done || lia.
Qed.

(** [stream_steps] turns a chain of [append] calls into [add_items]; the side
    conditions are bounds. *)
Ltac stream_step :=
  first [rewrite append_unsigned_enc, u32_small by lia | rewrite append_unsigned_enc
        | rewrite append_u256_enc by lia
        | rewrite append_bigint_enc by lia | rewrite append_bytes_enc by lia];
  match goal with
  | |- context [add_item ?e ?s] => destruct (add_item e s); [rewrite ?bind_ok | done]
  end.
Ltac stream_steps := cbn [add_items]; repeat stream_step; try done.

(** A complete list written into an empty stream. *)
Lemma list_encode es :
  len (concat es) < 2 ^ 63 →
  (s ← appendList RLPStream0 (Z.of_nat (length es)); s ← add_items es s; out s)
  = Ok (enc_list (concat es)).
Proof.
  intros Hl. pose proof (appendList_items es RLPStream0 Hl) as H. unfold RLPStream0 in *.
  rewrite (add_item_top (enc_list _)) in H.
  destruct (appendList (Stream [] []) _) as [s|]; [|done]. rewrite bind_ok in H. rewrite bind_ok.
  by rewrite H, bind_ok.
Qed.

(** Reading a list back: it is a list, and its payload is its items. *)
Lemma list_decode es :
  len (concat es) < 2 ^ 63 →
  isList (enc_list (concat es)) ∧ payload (enc_list (concat es)) = Ok (concat es) ∧
  RLP_new (enc_list (concat es)) VeryStrict = Ok (enc_list (concat es)).
Proof.
  intros Hl. pose proof (reads_list _ Hl) as R.
  pose proof (enc_list_isList (concat es) []) as Hlist. rewrite app_nil_r in Hlist.
  split; [done|]. split; [by apply reads_payload_self|by apply (reads_RLP_new _ _ R)].
Qed.

(** ** Vectors *)

Lemma foldl_add_items {T} (app : RLPStream → T → res RLPStream) (e : T → bytes) l m :
  (∀ x s, x ∈ l → app s x = add_item (e x) s) →
  foldl (λ acc x, s ← acc; app s x) m l = (s ← m; add_items (e <$> l) s).
Proof.
  revert m. induction l as [|x l IH]; intros m Ha; [by destruct m|].
  cbn [foldl]. rewrite IH by (intros y s Hy; apply Ha; by right).
  destruct m as [s|]; [|done]. rewrite !bind_ok, Ha by left. rewrite fmap_cons. cbn [add_items]. done.
Qed.

Lemma appendVector_items {T} (app : RLPStream → T → res RLPStream) (e : T → bytes) l s :
  (∀ x s, x ∈ l → app s x = add_item (e x) s) → len (concat (e <$> l)) < 2 ^ 63 →
  appendVector app s l = add_item (enc_list (concat (e <$> l))) s.
Proof.
  intros Ha Hl. unfold appendVector. rewrite <- appendList_items by done. rewrite length_fmap.
  destruct (appendList s _) as [s'|]; [|done]. rewrite !bind_ok.
  by rewrite (foldl_add_items app e), bind_ok by done.
Qed.

Lemma Forall_reads_data (l : list bytes) :
  Forall (λ b, bytes_ok b ∧ len b < 2 ^ 63) l → Forall reads_some (enc_data <$> l).
Proof. induction 1 as [|b l []]; constructor; [by apply reads_some_data|done]. Qed.

Lemma mapM_decode {T U} (f : T → res U) (e : U → T) l :
  (∀ x, x ∈ l → f (e x) = Ok x) → mapM f (e <$> l) = Ok l.
Proof.
  induction l as [|x l IH]; intros Hf; [done|]. rewrite fmap_cons. cbn [mapM].
  rewrite Hf by left. rewrite bind_ok, IH; [done|]. intros y Hy. apply Hf. by right.
Qed.

Lemma len_enc_list_le p : len p < 2 ^ 63 → len (enc_list p) ≤ len p + 9.
Proof.
  intros Hp. unfold enc_list. pose proof (len_nonneg p).
  rewrite len_app. pose proof (len_hdr_le 0xc0 0xf7 (len p)). lia.
Qed.

Lemma enc_list_ok p : bytes_ok p → len p < 2 ^ 63 → bytes_ok (enc_list p).
Proof.
  intros Hok Hp. unfold enc_list, hdr. pose proof (len_nonneg p).
  apply bytes_ok_app. split; [|done]. case_decide.
  - constructor; [unfold is_byte; lia|constructor].
  - constructor; [|apply toBigEndian_ok]. destruct (long_hdr (len p)); [lia|]. unfold is_byte. lia.
Qed.

Lemma reads_some_list p : len p < 2 ^ 63 → reads_some (enc_list p).
Proof. intros. exists p. by apply reads_list. Qed.

(** ** Views into byte sequences hold bytes *)

Lemma cropped_ok d b c : bytes_ok d → bytes_ok (cropped d b c).
Proof. intros Hd. unfold cropped. repeat case_decide; try apply Forall_nil_2; by apply Forall_take, Forall_drop. Qed.

Lemma cropped_from_ok d b : bytes_ok d → bytes_ok (cropped_from d b).
Proof. intros Hd. unfold cropped_from. case_decide; [by apply Forall_drop|apply Forall_nil_2]. Qed.

Lemma payload_ok d p : bytes_ok d → payload d = Ok p → bytes_ok p.
Proof. intros Hd Hp. unfold payload in Hp. inv_ok. subst. by apply cropped_ok. Qed.

Lemma RLP_new_ok d s r : bytes_ok d → RLP_new d s = Ok r → bytes_ok r.
Proof.
  intros Hd Hr. assert (r = d ∨ r = []) as [->| ->]; [|done|apply Forall_nil_2].
  unfold RLP_new in Hr. repeat (case_decide || inv_ok); subst; auto.
Qed.

Lemma index_steps_ok n d c c' :
  bytes_ok d → bytes_ok (m_lastItem c) → index_steps n d c = Ok c' → bytes_ok (m_lastItem c').
Proof.
  intros Hd. revert c. induction n as [|n IH]; intros c Hc Hl; simpl in Hl; inv_ok; [by subst|].
  case_decide; inv_ok; [by subst|]. apply IH in Hl; [done|]. simpl.
  apply cropped_ok, cropped_from_ok. by apply (payload_ok d).
Qed.

Lemma rlp_index_ok d c i r c' :
  bytes_ok d → bytes_ok (m_lastItem c) → rlp_index d c i = Ok (r, c') →
  bytes_ok r ∧ bytes_ok (m_lastItem c').
Proof.
  intros Hd Hc Hi. rewrite rlp_index_unfold in Hi. apply bind_ok_inv in Hi as (c2 & H2 & Hi).
  apply bind_ok_inv in H2 as (c1 & H1 & H2). apply bind_ok_inv in Hi as (x & Hx & Hi). injection Hi as -> ->.
  assert (bytes_ok (m_lastItem c1)).
  { case_decide; [|by injection H1 as ->]. unfold cache_start in H1. inv_ok. simplify_eq. simpl. apply cropped_ok. by eapply (payload_ok d). }
  assert (bytes_ok (m_lastItem c')) by (by eapply (index_steps_ok _ d c1)).
  split; [|done]. by eapply (RLP_new_ok (m_lastItem c')).
Qed.

Lemma toBytesConstRef_ok d flags r : bytes_ok d → toBytesConstRef d flags = Ok r → bytes_ok r.
Proof.
  intros Hd Hr. unfold toBytesConstRef in Hr. repeat (case_decide || inv_ok); subst; try apply Forall_nil_2.
  apply cropped_ok. by eapply (payload_ok d).
Qed.

Lemma toBytes_ok d flags r : bytes_ok d → toBytes d flags = Ok r → bytes_ok r.
Proof.
  intros Hd Hr. unfold toBytes in Hr. repeat (case_decide || inv_ok); subst; try apply Forall_nil_2.
  apply Forall_take. by eapply (payload_ok d).
Qed.
