(* ===== verification/Hex.v ===== *)
(** * Hexadecimal strings

    Models [toHex], [fromHex], [isHex] and [asNibbles] of
    libdevcore/CommonData.h and CommonData.cpp. A [std::string] is the list of
    its character codes. The consensus caches and the storage key their entries
    by such strings, so injectivity matters as much as the round trip. *)

From S2P Require Import Prelude.

Local Open Scope Z_scope.

(** ** Definitions *)

(** ["0123456789abcdef"]. *)
Definition hexdigits : list Z := [48; 49; 50; 51; 52; 53; 54; 55; 56; 57; 97; 98; 99; 100; 101; 102].

Definition hex_prefix : list Z := [48; 120].  (* 0x *)

Definition hexdigit (n : Z) : Z := byte_at hexdigits n.

(** [toHex(it, end, prefix)]. *)
Definition toHex_with (prefix b : bytes) : bytes :=
  prefix ++ concat ((λ x, [hexdigit (Z.land (Z.shiftr x 4) 0x0f); hexdigit (Z.land x 0x0f)]) <$> b).

Definition toHex (b : bytes) : bytes := toHex_with [] b.
Definition toHexPrefixed (b : bytes) : bytes := toHex_with hex_prefix b.

Definition fromHexChar (c : Z) : Z :=
  if decide (48 ≤ c ∧ c ≤ 57) then c - 48
  else if decide (97 ≤ c ∧ c ≤ 102) then c - 97 + 10
  else if decide (65 ≤ c ∧ c ≤ 70) then c - 65 + 10
  else -1.

Definition isHex (s : bytes) : bool :=
  forallb (λ c, bool_decide (fromHexChar c ≠ -1))
    (if decide (take 2 s = hex_prefix) then drop 2 s else s).

(** [WhenError]. *)
Inductive WhenError := DontThrow | ThrowErr.

(** A bad character: an exception, or the empty result. *)
Definition bad_char (w : WhenError) : res bytes :=
  match w with ThrowErr => Throw BadHexCharacter | DontThrow => Ok [] end.

(** The main loop of [fromHex]; [ret] is what was pushed so far. *)
Fixpoint fromHex_loop (w : WhenError) (s ret : bytes) : res bytes :=
  match s with
  | c1 :: c2 :: s =>
      let h := fromHexChar c1 in
      let l := fromHexChar c2 in
      if decide (h ≠ -1 ∧ l ≠ -1) then fromHex_loop w s (ret ++ [u8 (h * 16 + l)])
      else bad_char w
  | _ => Ok ret
  end.

Definition fromHex (s : bytes) (w : WhenError) : res bytes :=
  let rest := if decide (2 ≤ len s ∧ take 2 s = hex_prefix) then drop 2 s else s in
  if decide (len s `mod` 2 ≠ 0) then
    let h := fromHexChar (byte_at rest 0) in
    if decide (h ≠ -1) then fromHex_loop w (drop 1 rest) [u8 h] else bad_char w
  else fromHex_loop w rest [].

Definition asNibbles (b : bytes) : bytes := concat ((λ x, [x / 16; x `mod` 16]) <$> b).

(** ** Lemmas *)

Lemma hexdigit_char n :
  0 ≤ n < 16 → (48 ≤ hexdigit n ≤ 57 ∨ 97 ≤ hexdigit n ≤ 102) ∧ fromHexChar (hexdigit n) = n.
Proof.
  intros Hn. rewrite <- (Z2Nat.id n) by lia. assert (Z.to_nat n < 16)%nat as Hk by lia.
  revert Hk. generalize (Z.to_nat n). intros k Hk.
  do 16 (destruct k as [|k]; [vm_compute; split; [intuition congruence|done]|]). lia.
Qed.

Lemma nibbles_byte x : is_byte x →
  0 ≤ Z.land (Z.shiftr x 4) 0x0f < 16 ∧ 0 ≤ Z.land x 0x0f < 16 ∧
  Z.land (Z.shiftr x 4) 0x0f * 16 + Z.land x 0x0f = x.
Proof.
  intros Hx. unfold is_byte in Hx. change 0x0f with (Z.ones 4).
  rewrite !Z.land_ones by lia. rewrite Z.shiftr_div_pow2 by lia. change (2 ^ 4) with 16.
  rewrite (Z.mod_small (x / 16)) by (split; [apply Z.div_pos; lia|apply Z.div_lt_upper_bound; lia]).
  pose proof (Z.mod_pos_bound x 16). pose proof (Z.div_mod x 16).
  split; [split; [apply Z.div_pos; lia|apply Z.div_lt_upper_bound; lia]|]. lia.
Qed.

Lemma toHex_cons x b :
  toHex (x :: b) = hexdigit (Z.land (Z.shiftr x 4) 0x0f) :: hexdigit (Z.land x 0x0f) :: toHex b.
Proof. done. Qed.

Lemma length_toHex b : length (toHex b) = (2 * length b)%nat.
Proof. induction b; [done|]. rewrite toHex_cons. cbn [length]. lia. Qed.

Lemma fromHex_loop_toHex w b ret : bytes_ok b → fromHex_loop w (toHex b) ret = Ok (ret ++ b).
Proof.
  intros Hb. revert ret. induction Hb as [|x b Hx _ IH]; intros ret; [simpl; by rewrite app_nil_r|].
  rewrite toHex_cons. cbn [fromHex_loop]. cbv zeta.
  destruct (nibbles_byte x Hx) as (H1 & H2 & H3).
  rewrite !(fun n Hn => proj2 (hexdigit_char n Hn)) by done.
  rewrite decide_True by lia. rewrite H3, u8_small, IH, <- app_assoc; [done|exact Hx].
Qed.

Lemma toHex_not_prefixed b : bytes_ok b → take 2 (toHex b) ≠ hex_prefix.
Proof.
  destruct 1 as [|x b Hx _]; [done|]. rewrite toHex_cons.
  destruct (nibbles_byte x Hx) as (_ & H2 & _). destruct (hexdigit_char _ H2) as [Hc _].
  simpl. intros E. unfold hex_prefix in E. simplify_eq. lia.
Qed.

Lemma fromHex_loop_bad w b c1 c2 rest ret :
  bytes_ok b → fromHexChar c1 = -1 ∨ fromHexChar c2 = -1 →
  fromHex_loop w (toHex b ++ c1 :: c2 :: rest) ret = bad_char w.
Proof.
  intros Hb Hc. revert ret. induction Hb as [|x b Hx _ IH]; intros ret.
  - change (toHex [] ++ c1 :: c2 :: rest) with (c1 :: c2 :: rest). cbn [fromHex_loop]. cbv zeta.
    by rewrite decide_False by lia.
  - rewrite toHex_cons. cbn [app fromHex_loop]. cbv zeta.
    destruct (nibbles_byte x Hx) as (H1 & H2 & _).
    rewrite !(fun n Hn => proj2 (hexdigit_char n Hn)) by done.
    rewrite decide_True by lia. apply IH.
Qed.

(** The hexadecimal key of a byte string determines it. *)
Lemma toHex_inj a b : bytes_ok a → bytes_ok b → toHex a = toHex b → a = b.
Proof.
  intros Ha Hb E. pose proof (fromHex_loop_toHex DontThrow a [] Ha) as Hl.
  rewrite E, fromHex_loop_toHex in Hl by done. by injection Hl.
Qed.

Lemma hex_roundtrips b w :
  bytes_ok b → fromHex (toHex b) w = Ok b ∧ fromHex (toHexPrefixed b) w = Ok b.
Proof.
  intros Hb. assert (len (toHex b) = 2 * len b) as Hl.
  { unfold len. rewrite length_toHex. lia. }
  assert (len (toHexPrefixed b) = 2 * (len b + 1)) as Hl'.
  { change (toHexPrefixed b) with (hex_prefix ++ toHex b). rewrite len_app, Hl.
    change (len hex_prefix) with 2. lia. }
  unfold fromHex. rewrite Hl, Hl', !(Z.mul_comm 2), !Z.mod_mul by lia.
  rewrite !(decide_False (P := 0 ≠ 0)) by lia. split.
  - rewrite decide_False; [by apply fromHex_loop_toHex|]. intros [_ E].
    by apply toHex_not_prefixed in E.
  - pose proof (len_nonneg b). rewrite decide_True by (split; [lia|done]).
    change (drop 2 (toHexPrefixed b)) with (toHex b). by apply fromHex_loop_toHex.
Qed.

Lemma hex_roundtrip b w : bytes_ok b → fromHex (toHex b) w = Ok b.
Proof. intros. by apply hex_roundtrips. Qed.

(** ** Properties *)

(** [fromHex] inverts [toHex] and [toHexPrefixed] on every byte string, in
    both error modes, without throwing. *)
Theorem fromHex_toHex b w :
  bytes_ok b → fromHex (toHex b) w = Ok b ∧ fromHex (toHexPrefixed b) w = Ok b.
Proof. apply hex_roundtrips. Qed.

Lemma fromHex_toHex_witness :
  fromHex (toHex [0x41; 0x69]) ThrowErr = Ok [0x41; 0x69] ∧
  fromHex (toHexPrefixed [0x41; 0x69]) ThrowErr = Ok [0x41; 0x69].
Proof. apply fromHex_toHex. repeat (constructor; [unfold is_byte; lia|]). constructor. Defined.

(** In the mode that does not throw, a single bad character makes [fromHex]
    return the empty byte string: the decoded bytes before it are dropped, not
    kept with the bad character replaced by 0 as the declaration's comment
    says. *)
Theorem fromHex_bad_char_empties b c1 c2 rest :
  bytes_ok b → fromHexChar c1 = -1 ∨ fromHexChar c2 = -1 → Z.of_nat (length rest) `mod` 2 = 0 →
  take 2 (toHex b ++ [c1; c2]) ≠ hex_prefix →
  fromHex (toHex b ++ c1 :: c2 :: rest) DontThrow = Ok [].
Proof.
  intros Hb Hc Hr Hp. unfold fromHex.
  assert (len (toHex b ++ c1 :: c2 :: rest) `mod` 2 = 0) as Hl.
  { unfold len. rewrite length_app, length_toHex. simpl length.
    replace (Z.of_nat (2 * length b + S (S (length rest))))
      with (Z.of_nat (length rest) + (Z.of_nat (length b) + 1) * 2) by lia.
    by rewrite Z.mod_add by lia. }
  rewrite (decide_False (P := 2 ≤ _ ∧ _)), (decide_False (P := _ `mod` 2 ≠ 0)) by
    (rewrite ?Hl; lia || (intros [_ E]; apply Hp; rewrite <- E; destruct b; done)).
  by apply fromHex_loop_bad.
Qed.

Lemma fromHex_bad_char_empties_witness :
  fromHex (toHex [0x41] ++ [103; 48]) DontThrow = Ok [].
Proof.
  apply (fromHex_bad_char_empties [0x41] 103 48 []).
  - repeat (constructor; [unfold is_byte; lia|]). constructor.
  - by left.
  - done.
  - done.
Defined.
