(* ===== verification/Crypto.v ===== *)
(** * Fixed-size hashes and the cryptographic interface

    The parts of libdevcore/FixedHash.h the other files use, and libdevcrypto
    as a class: its operations wrap third-party code, so they are parameters,
    with the behaviour the clients rely on as laws. *)

From S2P Require Import Prelude RLP RLPFacts.

Local Open Scope Z_scope.

(** ** Fixed-size hashes *)

Definition h256_size : Z := 32.
Definition h512_size : Z := 64.
Definition address_size : Z := 20.
(** [dev::Signature] is [h520] in the default build. *)
Definition sig_size : Z := 65.

Definition zero_hash (n : Z) : bytes := replicate (Z.to_nat n) 0.
Definition h256_0 : bytes := zero_hash h256_size.
Definition sig_0 : bytes := zero_hash sig_size.
Definition Address_0 : bytes := zero_hash address_size.

(** [FixedHash<n>(bytesConstRef, FailIfDifferent)]. *)
Definition FixedHash_of (n : Z) (b : bytes) : bytes :=
  if decide (len b = n) then b else zero_hash n.

(** [right160]. *)
Definition right160 (h : bytes) : bytes := drop 12 h.

(** A well-formed hash of [n] bytes. *)
Definition hash_ok (n : Z) (h : bytes) : Prop := bytes_ok h ∧ len h = n.

(** ** The interface of libdevcrypto *)

Class Crypto := {
  sha3 : bytes → bytes;
  sign : bytes → bytes → bytes;            (* secret, hash *)
  verify : bytes → bytes → bytes → bool;   (* public key, signature, hash *)
  pub_of : bytes → bytes;                  (* public key of a secret *)
  recover : bytes → bytes → bytes;         (* signature, hash; 64 zero bytes on failure *)
}.

Class CryptoLaws `{Crypto} := {
  sha3_ok b : hash_ok h256_size (sha3 b);
  sign_ok k h : hash_ok sig_size (sign k h);
  sign_verify k h : verify (pub_of k) (sign k h) h = true;
}.

(** A small concrete instance, used to run the definitions on examples: a
    polynomial hash, and a signature that is the key and the hash as one
    number. *)
Definition example_sha3 (b : bytes) : bytes :=
  toBigEndian 32 (foldl (λ a x, (a * 257 + x + 1) `mod` 18446744073709551616) 7 b).
Definition example_sign (k h : bytes) : bytes :=
  toBigEndian 65 (Z.shiftl (fromBigEndian id k) 256 + fromBigEndian id h).
Definition example_crypto : Crypto := {|
  sha3 := example_sha3;
  sign := example_sign;
  verify p s h := bool_decide (s = example_sign p h);
  pub_of k := k;
  recover s h := toBigEndian 64 (fromBigEndian id s / 2 ^ 256);
|}.

(** ** Lemmas *)

Lemma zero_hash_ok n : 0 ≤ n → hash_ok n (zero_hash n).
Proof.
  intros Hn. split; [apply Forall_replicate; unfold is_byte; lia|].
  unfold len, zero_hash. rewrite length_replicate. lia.
Qed.

Lemma FixedHash_of_id n b : len b = n → FixedHash_of n b = b.
Proof. intros. unfold FixedHash_of. by rewrite decide_True. Qed.

Lemma FixedHash_of_ok n b : 0 ≤ n → bytes_ok b → hash_ok n (FixedHash_of n b).
Proof. intros. unfold FixedHash_of. case_decide; [done|]. by apply zero_hash_ok. Qed.

#[export] Hint Resolve zero_hash_ok : bcos.

Lemma example_crypto_laws : @CryptoLaws example_crypto.
Proof.
  split; cbn [sha3 sign verify pub_of example_crypto].
  - intros b. unfold example_sha3. split; [apply toBigEndian_ok|by rewrite len_toBigEndian].
  - intros k h. unfold example_sign. split; [apply toBigEndian_ok|by rewrite len_toBigEndian].
  - intros k h. by apply bool_decide_true.
Qed.
