(* ===== verification/Bits.v ===== *)
(** * Words and arrays for the hash functions

    What the two hash functions of Hash.cpp share: arrays indexed by number,
    the little-endian view of bytes as words, and the closure of the w-bit
    words under the operations of the macros. *)

From S2P Require Import Prelude.

Local Open Scope Z_scope.

Definition arr (a : list Z) (i : nat) : Z := nth i a 0.

Definition le_decode (b : bytes) : Z := foldr (λ x acc, x + 256 * acc) 0 b.

Fixpoint le_encode (n : nat) (z : Z) : bytes :=
  match n with O => [] | S n => z `mod` 256 :: le_encode n (z / 256) end.

(** The first [n] blocks of [rate] bytes. *)
Fixpoint blocks (n rate : nat) (m : bytes) : list bytes :=
  match n with O => [] | S n => take rate m :: blocks n rate (drop rate m) end.

(** ** Words *)

Definition fits (w x : Z) : Prop := 0 ≤ x < 2 ^ w.

Lemma fits_bits w x : 0 ≤ w → fits w x ↔ 0 ≤ x ∧ ∀ i, w ≤ i → Z.testbit x i = false.
Proof.
  intros Hw. unfold fits. split.
  - intros [H0 Hx]. split; [done|]. intros i Hi. destruct (decide (x = 0)) as [->|]; [apply Z.bits_0|].
    apply Z.bits_above_log2; [done|]. apply Z.lt_le_trans with w; [|done]. apply Z.log2_lt_pow2; lia.
  - intros [H0 Hx]. split; [done|]. destruct (decide (x = 0)) as [->|]; [apply Z.pow_pos_nonneg; lia|].
    apply Z.log2_lt_pow2; [lia|]. destruct (Z.lt_ge_cases (Z.log2 x) w) as [|Hge]; [done|].
    specialize (Hx _ Hge). rewrite Z.bit_log2 in Hx by lia. done.
Qed.

Lemma fits_0 w : 0 ≤ w → fits w 0.
Proof. intros. split; [done|]. apply Z.pow_pos_nonneg; lia. Qed.

Lemma fits_lxor w x y : 0 ≤ w → fits w x → fits w y → fits w (Z.lxor x y).
Proof.
  intros Hw. rewrite !fits_bits by done. intros [Hx Hx'] [Hy Hy']. split; [by apply Z.lxor_nonneg|].
  intros i Hi. by rewrite Z.lxor_spec, Hx', Hy'.
Qed.

Lemma fits_lor w x y : 0 ≤ w → fits w x → fits w y → fits w (Z.lor x y).
Proof.
  intros Hw. rewrite !fits_bits by done. intros [Hx Hx'] [Hy Hy']. split; [by apply Z.lor_nonneg|].
  intros i Hi. by rewrite Z.lor_spec, Hx', Hy'.
Qed.

Lemma fits_land w x y : 0 ≤ w → fits w x → 0 ≤ y → fits w (Z.land x y).
Proof.
  intros Hw Hx Hy. revert Hx. rewrite !fits_bits by done. intros [Hx Hx']. split; [apply Z.land_nonneg; by left|].
  intros i Hi. by rewrite Z.land_spec, Hx'.
Qed.

Lemma fits_mod w x : 0 ≤ w → fits w (x `mod` 2 ^ w).
Proof. intros. apply Z.mod_pos_bound, Z.pow_pos_nonneg; lia. Qed.

Lemma fits_shiftr w x s : 0 ≤ s → fits w x → fits w (Z.shiftr x s).
Proof.
  intros Hs [Hx Hx']. rewrite Z.shiftr_div_pow2 by done. assert (0 < 2 ^ s) by (apply Z.pow_pos_nonneg; lia).
  split; [by apply Z.div_pos|]. apply Z.le_lt_trans with x; [|done]. apply Z.div_le_upper_bound; nia.
Qed.

(** A shift left cut to [w] bits, with the bits shifted out brought back, is a
    rotation. *)
Lemma rotation_testbit w x s i :
  fits w x → 0 ≤ s < w → 0 ≤ i < w →
  Z.testbit (Z.lor (Z.shiftl x s `mod` 2 ^ w) (Z.shiftr x (w - s))) i = Z.testbit x ((i - s) `mod` w).
Proof.
  intros Hx Hs Hi. rewrite Z.lor_spec, Z.mod_pow2_bits_low, Z.shiftl_spec, Z.shiftr_spec by lia.
  apply fits_bits in Hx as [_ Hx]; [|lia]. destruct (decide (i < s)).
  - rewrite Z.testbit_neg_r, orb_false_l by lia. f_equal. apply Zmod_unique with (-1); lia.
  - rewrite Z.mod_small, (Hx (i + (w - s))), orb_false_r by lia. done.
Qed.

(** ** Little-endian bytes *)

Lemma length_le_encode n z : length (le_encode n z) = n.
Proof. revert z. induction n; intros z; cbn; [done|]. by rewrite IHn. Qed.

Lemma le_encode_ok n z : bytes_ok (le_encode n z).
Proof.
  revert z. induction n; intros z; [apply Forall_nil_2|]. cbn. constructor; [|apply IHn].
  unfold is_byte. apply Z.mod_pos_bound. lia.
Qed.

Lemma le_decode_bound b : bytes_ok b → fits (8 * Z.of_nat (length b)) (le_decode b).
Proof.
  induction b as [|x b IH]; intros Hb; [by split|]. apply Forall_cons_1 in Hb as [Hx Hb].
  specialize (IH Hb). unfold fits, is_byte in *. cbn [le_decode foldr length].
  replace (8 * Z.of_nat (S (length b))) with (8 + 8 * Z.of_nat (length b)) by lia.
  rewrite Z.pow_add_r by lia. change (2 ^ 8) with 256. unfold le_decode in IH. lia.
Qed.

Lemma le_decode_encode n z : le_decode (le_encode n z) = z `mod` 2 ^ (8 * Z.of_nat n).
Proof.
  revert z. induction n as [|n IH]; intros z; [by rewrite Z.mod_1_r|].
  cbn [le_encode le_decode foldr]. unfold le_decode in IH. rewrite IH.
  replace (8 * Z.of_nat (S n)) with (8 + 8 * Z.of_nat n) by lia.
  rewrite Z.pow_add_r by lia. change (2 ^ 8) with 256.
  rewrite Z.rem_mul_r by (try lia; apply Z.pow_pos_nonneg; lia). done.
Qed.

Lemma le_encode_decode b : bytes_ok b → le_encode (length b) (le_decode b) = b.
Proof.
  induction b as [|x b IH]; intros Hb; [done|]. apply Forall_cons_1 in Hb as [Hx Hb]. unfold is_byte in Hx.
  cbn [le_encode le_decode foldr length]. fold (le_decode b).
  rewrite (Z.mul_comm 256), Z.mod_add, Z.mod_small, Z.div_add, Z.div_small, Z.add_0_l, IH by (done || lia). done.
Qed.

(** ** Arrays *)

Lemma arr_lookup a i x : a !! i = Some x → arr a i = x.
Proof. intros E. unfold arr. by apply nth_lookup_Some. Qed.

Lemma arr_insert_eq a i x : (i < length a)%nat → arr (<[i := x]> a) i = x.
Proof. intros. apply arr_lookup. by apply list_lookup_insert_eq. Qed.

Lemma arr_insert_ne a i j x : i ≠ j → arr (<[i := x]> a) j = arr a j.
Proof. intros. unfold arr. by rewrite !nth_lookup, list_lookup_insert_ne. Qed.

Lemma arr_ok (P : Z → Prop) a i : P 0 → Forall P a → P (arr a i).
Proof.
  intros H0 Ha. unfold arr. rewrite nth_lookup. destruct (a !! i) eqn:E; [|done].
  by eapply Forall_lookup_1 in E.
Qed.

Lemma arr_ext a b : length a = length b → (∀ i, (i < length a)%nat → arr a i = arr b i) → a = b.
Proof.
  intros Hl Hab. apply (nth_ext a b 0 0); [done|]. exact Hab.
Qed.

Lemma arr_zip_with_lxor a b i :
  length a = length b → arr (zip_with Z.lxor a b) i = Z.lxor (arr a i) (arr b i).
Proof.
  intros Hl. unfold arr. rewrite !nth_lookup, lookup_zip_with.
  destruct (a !! i) as [x|] eqn:Ea; cbn.
  - destruct (b !! i) as [y|] eqn:Eb; [done|]. apply lookup_lt_Some in Ea. apply lookup_ge_None in Eb. lia.
  - assert (b !! i = None) as ->; [|done]. apply lookup_ge_None. apply lookup_ge_None in Ea. lia.
Qed.

Lemma arr_app a b i : arr (a ++ b) i = if decide (i < length a)%nat then arr a i else arr b (i - length a).
Proof. unfold arr. case_decide; [by apply app_nth1|apply app_nth2; lia]. Qed.

Lemma arr_replicate n i : arr (replicate n 0) i = 0.
Proof. unfold arr. rewrite nth_lookup. destruct (replicate n 0 !! i) eqn:E; [|done]. by apply lookup_replicate in E as [-> _]. Qed.

Lemma arr_take n a i : (i < n)%nat → arr (take n a) i = arr a i.
Proof. intros. unfold arr. by rewrite !nth_lookup, lookup_take_lt. Qed.

(** ** Blocks *)

Lemma blocks_S n rate m :
  blocks (S n) rate m = blocks n rate m ++ [take rate (drop (n * rate) m)].
Proof.
  revert m. induction n as [|n IH]; intros m; [done|].
  change (blocks (S (S n)) rate m) with (take rate m :: blocks (S n) rate (drop rate m)).
  rewrite IH. cbn [blocks app]. by rewrite drop_drop.
Qed.

Lemma blocks_app n rate m q : (n * rate ≤ length m)%nat → blocks n rate (m ++ q) = blocks n rate m.
Proof.
  revert m. induction n as [|n IH]; intros m Hn; [done|]. cbn [blocks].
  rewrite take_app_le, drop_app_le by lia. rewrite IH; [done|]. rewrite length_drop. lia.
Qed.

Lemma blocks_split n rate m q :
  length m = (n * rate)%nat → (0 < rate)%nat →
  blocks (length (m ++ q) / rate) rate (m ++ q) = blocks n rate m ++ blocks (length q / rate) rate q.
Proof.
  intros Hm Hr. rewrite length_app, Hm, Nat.add_comm, Nat.div_add by lia. revert m Hm.
  induction n as [|n IH]; intros m Hm.
  - rewrite Nat.add_0_r. by destruct m.
  - rewrite Nat.add_succ_r. cbn [blocks app]. rewrite take_app_le, drop_app_le by lia. f_equal.
    apply IH. rewrite length_drop. lia.
Qed.

(** ** The bits of a little-endian number *)

Lemma testbit_low x y i : is_byte x → 0 ≤ i →
  Z.testbit (x + 256 * y) i = if decide (i < 8) then Z.testbit x i else Z.testbit y (i - 8).
Proof.
  intros Hx Hi. unfold is_byte in Hx. case_decide.
  - rewrite <- (Z.mod_pow2_bits_low (x + 256 * y) 8) by lia. f_equal. change (2 ^ 8) with 256.
    rewrite (Z.mul_comm 256), Z.mod_add, Z.mod_small by lia. done.
  - replace i with (i - 8 + 8) at 1 by lia. rewrite <- Z.div_pow2_bits by lia. f_equal. change (2 ^ 8) with 256.
    rewrite (Z.mul_comm 256), Z.div_add, Z.div_small by lia. lia.
Qed.

Lemma le_decode_testbit b i : bytes_ok b → 0 ≤ i →
  Z.testbit (le_decode b) i = Z.testbit (arr b (Z.to_nat (i / 8))) (i `mod` 8).
Proof.
  intros Hb. revert i. induction b as [|x b IH]; intros i Hi.
  - unfold arr. destruct (Z.to_nat (i / 8)); cbn; by rewrite !Z.bits_0.
  - apply Forall_cons_1 in Hb as [Hx Hb]. cbn [le_decode foldr]. fold (le_decode b).
    rewrite testbit_low by done. case_decide.
    + rewrite Z.div_small, Z.mod_small by lia. done.
    + rewrite IH by (done || lia). replace i with (i - 8 + 1 * 8) at 3 4 by lia.
      rewrite Z.div_add, Z.mod_add by lia. rewrite Z2Nat.inj_add by (try apply Z.div_pos; lia).
      replace (Z.to_nat ((i - 8) / 8) + Z.to_nat 1)%nat with (S (Z.to_nat ((i - 8) / 8))) by lia. done.
Qed.

(** Xoring a byte into a position that holds zero writes it there. *)
Lemma le_decode_set b k x :
  bytes_ok b → is_byte x → (k < length b)%nat → arr b k = 0 →
  le_decode (<[k := x]> b) = Z.lxor (le_decode b) (Z.shiftl x (8 * Z.of_nat k)).
Proof.
  intros Hb Hx Hk H0. apply Z.bits_inj'. intros i Hi.
  rewrite Z.lxor_spec, Z.shiftl_spec, !le_decode_testbit by (try apply Forall_insert; done).
  pose proof (Z.div_mod i 8 ltac:(lia)) as Hdm. pose proof (Z.mod_pos_bound i 8 ltac:(lia)) as Hm.
  assert (0 ≤ i / 8) as Hd by (apply Z.div_pos; lia).
  destruct (decide (Z.to_nat (i / 8) = k)) as [Ek|Ek].
  - rewrite Ek, arr_insert_eq, H0, Z.bits_0, xorb_false_l by done. f_equal. lia.
  - rewrite arr_insert_ne by done. assert (Z.testbit x (i - 8 * Z.of_nat k) = false) as ->; [|by rewrite xorb_false_r].
    destruct (decide (i < 8 * Z.of_nat k)); [apply Z.testbit_neg_r; lia|].
    apply (fits_bits 8) in Hx as [_ Hx]; [|lia]. apply Hx. lia.
Qed.
