(* ===== verification/Keccak.v ===== *)
(** * Keccak (libdevcrypto/Hash.cpp)

    The tiny Keccak of the node: the permutation [keccakf] on an array of 25
    lanes updated in place, the sponge [hash] over a buffer of 200 bytes, and
    [sha3], Keccak-256 with the original padding. The macros that unroll the
    loops ([FOR5], [REPEAT24]) are folds over the indices they visit; the
    arrays are lists updated by index. The state is read as bytes and as
    64-bit words, which the targets of the program order little-endian. *)

From S2P Require Import Prelude Crypto Bits.

Local Open Scope Z_scope.

Module keccak.

(** ** The permutation *)

Definition rho : list Z :=
  [1; 3; 6; 10; 15; 21; 28; 36; 45; 55; 2; 14; 27; 41; 56; 8; 25; 43; 62; 18; 39; 61; 20; 44].

Definition pi : list nat :=
  [10; 7; 11; 17; 18; 3; 5; 16; 8; 21; 24; 4; 15; 23; 19; 13; 12; 2; 20; 14; 22; 9; 6; 1]%nat.

Definition RC : list Z :=
  [1; 0x8082; 0x800000000000808a; 0x8000000080008000;
   0x808b; 0x80000001; 0x8000000080008081; 0x8000000000008009; 0x8a; 0x88;
   0x80008009; 0x8000000a; 0x8000808b; 0x800000000000008b; 0x8000000000008089;
   0x8000000000008003; 0x8000000000008002; 0x8000000000000080; 0x800a;
   0x800000008000000a; 0x8000000080008081; 0x8000000000008080; 0x80000001;
   0x8000000080008008].

Definition rol (x s : Z) : Z := Z.lor (u64 (Z.shiftl x s)) (Z.shiftr x (64 - s)).

(** [FOR5(v, 1, e)] and [FOR5(v, 5, e)]. *)
Definition FOR5 {A} (step : nat) (f : nat → A → A) (a : A) : A :=
  foldl (λ a v, f v a) a ((λ k, k * step)%nat <$> seq 0 5).

Definition theta (a b : list Z) : list Z * list Z :=
  let b := FOR5 1 (λ x b, FOR5 5 (λ y b, <[x := Z.lxor (arr b x) (arr a (x + y))]> b) (<[x := 0]> b)) b in
  let a := FOR5 1 (λ x, FOR5 5 (λ y a,
             <[(y + x)%nat := Z.lxor (arr a (y + x))
                 (Z.lxor (arr b ((x + 4) `mod` 5)) (rol (arr b ((x + 1) `mod` 5)) 1))]> a)) a in
  (a, b).

(** The 24 steps that move and rotate the lanes along one cycle, with the
    displaced lane in [t]. *)
Definition rho_pi_step (x : nat) (st : list Z * list Z * Z) : list Z * list Z * Z :=
  let '(a, b, t) := st in
  let p := nth x pi O in
  let b := <[0%nat := arr a p]> b in
  (<[p := rol t (arr rho x)]> a, b, arr b 0).

Definition rho_pi (a b : list Z) : list Z * list Z :=
  fst (foldl (λ st x, rho_pi_step x st) (a, b, arr a 1) (seq 0 24)).

Definition chi (a b : list Z) : list Z * list Z :=
  FOR5 5 (λ y '(a, b),
    let b := FOR5 1 (λ x, <[x := arr a (y + x)]>) b in
    (FOR5 1 (λ x, <[(y + x)%nat :=
       Z.lxor (arr b x) (Z.land (u64 (Z.lnot (arr b ((x + 1) `mod` 5)))) (arr b ((x + 2) `mod` 5)))]>) a, b))
    (a, b).

Definition iota (i : nat) (a : list Z) : list Z := <[0%nat := Z.lxor (arr a 0) (arr RC i)]> a.

Definition round (st : list Z * list Z) (i : nat) : list Z * list Z :=
  let '(a, b) := st in
  let '(a, b) := theta a b in
  let '(a, b) := rho_pi a b in
  let '(a, b) := chi a b in
  (iota i a, b).

Definition keccakf (a : list Z) : list Z :=
  fst (foldl round (a, replicate 5 0) (seq 0 24)).

(** ** The sponge *)

Definition Plen : nat := 200.

(** The buffer as words and back. *)
Definition words (a : bytes) : list Z := (λ i, le_decode (take 8 (drop (8 * i) a))) <$> seq 0 25.
Definition unwords (w : list Z) : bytes := concat (le_encode 8 <$> w).

Definition P (a : bytes) : bytes := unwords (keccakf (words a)).

Definition xorin (dst src : bytes) (len : nat) : bytes :=
  foldl (λ d i, <[i := Z.lxor (arr d i) (arr src i)]> d) dst (seq 0 len).

(** [setout(a, out, len)] writes the first [len] bytes of the state. *)
Definition setout (src : bytes) (len : nat) : bytes := arr src <$> seq 0 len.

(** [foldP(in, inlen, xorin)]. *)
Fixpoint absorb (fuel : nat) (a inp : bytes) (rate : nat) : res (bytes * bytes) :=
  match fuel with
  | O => Throw OutOfFuel
  | S fuel =>
      if decide (rate ≤ length inp)%nat then absorb fuel (P (xorin a inp rate)) (drop rate inp) rate
      else Ok (a, inp)
  end.

(** [foldP(out, outlen, setout)] and the final [setout]. *)
Fixpoint squeeze (fuel : nat) (a out : bytes) (outlen rate : nat) : res bytes :=
  match fuel with
  | O => Throw OutOfFuel
  | S fuel =>
      if decide (rate ≤ outlen)%nat then squeeze fuel (P a) (out ++ setout a rate) (outlen - rate) rate
      else Ok (out ++ setout a outlen)
  end.

(** [hash(out, outlen, in, inlen, rate, delim)]: [None] is the result -1, on
    which nothing is written. *)
Definition hash (outlen : nat) (inp : bytes) (rate : nat) (delim : Z) : res (option bytes) :=
  if decide (Plen ≤ rate)%nat then Ok None
  else
    '(a, inp) ← absorb (S (length inp)) (replicate Plen 0) inp rate;
    let a := <[length inp := Z.lxor (arr a (length inp)) delim]> a in
    let a := <[(rate - 1)%nat := Z.lxor (arr a (rate - 1)) 0x80]> a in
    let a := P (xorin a inp (length inp)) in
    Some <$> squeeze (S outlen) a [] outlen rate.

Definition shake (bits outlen : nat) (inp : bytes) : res (option bytes) :=
  hash outlen inp (200 - bits / 4) 0x1f.

Definition sha3_bits (bits outlen : nat) (inp : bytes) : res (option bytes) :=
  if decide (bits / 8 < outlen)%nat then Ok None else hash outlen inp (200 - bits / 4) 0x01.

End keccak.

(** [sha3(bytesConstRef)]: the result of the permutation is written over a
    zero [h256]. *)
Definition sha3_keccak (inp : bytes) : res bytes :=
  from_option id h256_0 <$> keccak.sha3_bits 256 32 inp.

(** The digest of "abc". *)
Example sha3_abc :
  sha3_keccak [97; 98; 99] =
  Ok [0x4e;0x03;0x65;0x7a;0xea;0x45;0xa9;0x4f;0xc7;0xd4;0x7b;0xa8;0x26;0xc8;0xd6;0x67;
      0xc0;0xd1;0xe6;0xe3;0x3a;0x64;0xa0;0x36;0xec;0x44;0xf5;0x8f;0xa1;0x2d;0x6c;0x45].
Proof. vm_compute. reflexivity. Qed.
