(* ===== verification/KeccakFacts.v ===== *)
(** * Keccak: the reference definition and its equivalence

    [spec] defines Keccak-f[1600] the way the standard does: the step
    mappings on a matrix of lanes indexed by coordinates, with the rotation
    offsets from their recurrence and the round constants from the linear
    feedback register, and the sponge over the padded message. The file
    proves that the tables of Hash.cpp are those values, that each in-place
    loop computes its step mapping, and that [sha3] is the reference sponge. *)

From S2P Require Import Prelude Crypto Bits Keccak.

Local Open Scope Z_scope.

(** ** The reference *)

Module spec.

(** The lane at column [x] and row [y], coordinates taken modulo 5. *)
Definition lane (A : list Z) (x y : nat) : Z := arr A (x `mod` 5 + 5 * (y `mod` 5)).

Definition matrix (f : nat → nat → Z) : list Z := (λ i, f (i `mod` 5)%nat (i / 5)%nat) <$> seq 0 25.

Definition rot (x s : Z) : Z := Z.lor (u64 (Z.shiftl x s)) (Z.shiftr x (64 - s)).

Definition parity (A : list Z) (x : nat) : Z := foldl Z.lxor 0 (lane A x <$> seq 0 5).

Definition theta (A : list Z) : list Z :=
  matrix (λ x y, Z.lxor (lane A x y) (Z.lxor (parity A (x + 4)) (rot (parity A (x + 1)) 1))).

(** The walk (x, y) -> (y, 2x + 3y) from (1, 0): the t-th lane met is rotated
    by the triangular number (t+1)(t+2)/2. *)
Fixpoint walk (n : nat) (t : Z) (x y : nat) : list (nat * nat * Z) :=
  match n with
  | O => []
  | S n => (x, y, ((t + 1) * (t + 2) / 2) `mod` 64) :: walk n (t + 1) y ((2 * x + 3 * y) `mod` 5)
  end.

Definition offset (x y : nat) : Z :=
  from_option snd 0 (list_find (λ e, fst e = (x `mod` 5, y `mod` 5)%nat) (walk 24 0 1 0) ≫= λ p, Some (snd p)).

Definition rho (A : list Z) : list Z := matrix (λ x y, rot (lane A x y) (offset x y)).

Definition pi (A : list Z) : list Z := matrix (λ x y, lane A (x + 3 * y) x).

Definition chi (A : list Z) : list Z :=
  matrix (λ x y, Z.lxor (lane A x y) (Z.land (u64 (Z.lnot (lane A (x + 1) y))) (lane A (x + 2) y))).

(** The register x^8 + x^6 + x^5 + x^4 + 1 and the bit it outputs after [t]
    steps. *)
Definition lfsr (r : Z) : Z := if Z.testbit r 7 then Z.lxor ((2 * r) `mod` 256) 0x71 else 2 * r.
Definition rc (t : nat) : bool := Z.odd (Nat.iter (t `mod` 255) lfsr 1).

Definition RC (i : nat) : Z :=
  foldl (λ c j, if rc (j + 7 * i) then Z.lxor c (2 ^ (2 ^ Z.of_nat j - 1)) else c) 0 (seq 0 7).

Definition iota (i : nat) (A : list Z) : list Z :=
  matrix (λ x y, if decide (x = 0 ∧ y = 0)%nat then Z.lxor (lane A 0 0) (RC i) else lane A x y).

Definition round (A : list Z) (i : nat) : list Z := iota i (chi (pi (rho (theta A)))).

Definition keccak_f (A : list Z) : list Z := foldl round A (seq 0 24).

(** The padding to a multiple of the rate: the domain bits, zeros and a final
    one bit. *)
Definition pad (rate : nat) (delim : Z) (m : bytes) : bytes :=
  let q := (rate - length m `mod` rate)%nat in
  m ++ if decide (q = 1)%nat then [Z.lxor delim 0x80] else delim :: replicate (q - 2) 0 ++ [0x80].

Definition absorb (s blk : bytes) : bytes :=
  keccak.unwords (keccak_f (keccak.words (zip_with Z.lxor s (blk ++ replicate (200 - length blk) 0)))).

Definition sponge (rate : nat) (delim : Z) (m : bytes) (outlen : nat) : bytes :=
  let p := pad rate delim m in
  take outlen (foldl absorb (replicate 200 0) (blocks (length p / rate) rate p)).

Definition keccak256 (m : bytes) : bytes := sponge 136 0x01 m 32.

End spec.

(** ** The permutation *)

(** The rotation macro is a rotation of the 64 bits. *)
Lemma rol_testbit x s i :
  fits 64 x → 0 ≤ s < 64 → 0 ≤ i < 64 →
  Z.testbit (keccak.rol x s) i = Z.testbit x ((i - s) `mod` 64).
Proof.
  intros Hx. by apply (rotation_testbit 64).
Qed.

(** The tables of the source are the values the standard derives. *)
Lemma RC_table : keccak.RC = spec.RC <$> seq 0 24.
Proof. vm_compute. reflexivity. Qed.

(** Lists of known length, to run the loops on symbolic lanes. *)
Ltac lanes a H :=
  do 25 (destruct a as [|? a]; [discriminate H|]); destruct a; [clear H|discriminate H].

Lemma theta_ok a b :
  length a = 25%nat → length b = 5%nat →
  fst (keccak.theta a b) = spec.theta a ∧ length (snd (keccak.theta a b)) = 5%nat.
Proof.
  intros Ha Hb. lanes a Ha. do 5 (destruct b as [|? b]; [discriminate Hb|]). destruct b; [|discriminate Hb].
  split; reflexivity.
Qed.

Lemma rot_0 x : fits 64 x → spec.rot x 0 = x.
Proof.
  intros Hx. unfold fits in Hx. unfold spec.rot. rewrite Z.shiftl_0_r, Z.shiftr_div_pow2 by lia.
  unfold u64. rewrite Z.mod_small, Z.div_small by (cbn; lia). apply Z.lor_0_r.
Qed.

Lemma rho_pi_ok a b :
  length a = 25%nat → length b = 5%nat → fits 64 (arr a 0) →
  fst (keccak.rho_pi a b) = spec.pi (spec.rho a) ∧ length (snd (keccak.rho_pi a b)) = 5%nat.
Proof.
  intros Ha Hb H0. lanes a Ha. do 5 (destruct b as [|? b]; [discriminate Hb|]). destruct b; [|discriminate Hb].
  cbn [arr nth] in H0. split; [|reflexivity]. apply rot_0 in H0.
  match type of H0 with _ = ?x =>
    transitivity (<[0%nat := x]> (fst (keccak.rho_pi (spec.rot x 0 :: [z0; z1; z2; z3; z4; z5; z6; z7; z8; z9; z10; z11;
      z12; z13; z14; z15; z16; z17; z18; z19; z20; z21; z22; z23]) [z24; z25; z26; z27; z28])))
  end.
  - by rewrite H0.
  - rewrite <- H0 at 1. reflexivity.
Qed.

Lemma chi_ok a b :
  length a = 25%nat → length b = 5%nat →
  fst (keccak.chi a b) = spec.chi a ∧ length (snd (keccak.chi a b)) = 5%nat.
Proof.
  intros Ha Hb. lanes a Ha. do 5 (destruct b as [|? b]; [discriminate Hb|]). destruct b; [|discriminate Hb].
  split; reflexivity.
Qed.

Lemma iota_ok i a :
  length a = 25%nat → (i < 24)%nat → keccak.iota i a = spec.iota i a.
Proof.
  intros Ha Hi. unfold keccak.iota.
  assert (arr keccak.RC i = spec.RC i) as ->.
  { rewrite RC_table. unfold arr. rewrite (nth_indep _ 0 (spec.RC 0)) by (by rewrite length_fmap, length_seq).
    rewrite (map_nth spec.RC), seq_nth by done. done. }
  unfold spec.iota. generalize (spec.RC i) as c. intros c. lanes a Ha. reflexivity.
Qed.

Lemma length_matrix f : length (spec.matrix f) = 25%nat.
Proof. done. Qed.

Lemma matrix_fits f : (∀ x y, fits 64 (f x y)) → Forall (fits 64) (spec.matrix f).
Proof. intros Hf. apply Forall_fmap, Forall_true. intros i. apply Hf. Qed.

Lemma lane_fits A x y : Forall (fits 64) A → fits 64 (spec.lane A x y).
Proof. intros HA. unfold spec.lane. apply arr_ok; [by apply fits_0|done]. Qed.

Lemma rot_fits x s : 0 ≤ s ≤ 64 → fits 64 x → fits 64 (spec.rot x s).
Proof.
  intros Hs Hx. unfold spec.rot. apply fits_lor; [lia|by apply fits_mod|apply fits_shiftr; [lia|done]].
Qed.

Lemma foldl_lxor_fits l x : fits 64 x → Forall (fits 64) l → fits 64 (foldl Z.lxor x l).
Proof.
  intros Hx Hl. revert x Hx. induction Hl as [|y l Hy Hl IH]; intros x Hx; [done|].
  apply IH. by apply fits_lxor.
Qed.

Lemma parity_fits A x : Forall (fits 64) A → fits 64 (spec.parity A x).
Proof.
  intros HA. apply foldl_lxor_fits; [by apply fits_0|]. apply Forall_fmap, Forall_true. intros y. by apply lane_fits.
Qed.

Lemma walk_offsets n t x y : 0 ≤ t → Forall (λ e, 0 ≤ snd e ≤ 64) (spec.walk n t x y).
Proof.
  revert t x y. induction n as [|n IH]; intros t x y Ht; cbn; constructor; [|apply IH; lia].
  cbn. pose proof (Z.mod_pos_bound ((t + 1) * (t + 2) / 2) 64). lia.
Qed.

Lemma offset_range x y : 0 ≤ spec.offset x y ≤ 64.
Proof.
  unfold spec.offset. destruct (list_find _ _) as [[i e]|] eqn:E; [|cbn; lia]. cbn.
  apply list_find_Some in E as (E & _ & _). pose proof (walk_offsets 24 0 1 0 ltac:(lia)) as Hw.
  by apply (Forall_lookup_1 _ _ _ _ Hw) in E.
Qed.

Lemma theta_fits A : Forall (fits 64) A → Forall (fits 64) (spec.theta A).
Proof.
  intros HA. apply matrix_fits. intros x y. apply fits_lxor; [lia|by apply lane_fits|].
  apply fits_lxor; [lia|by apply parity_fits|]. apply rot_fits; [lia|by apply parity_fits].
Qed.

Lemma round_fits A i : (i < 24)%nat → Forall (fits 64) A → Forall (fits 64) (spec.round A i).
Proof.
  intros Hi HA. unfold spec.round.
  assert (fits 64 (spec.RC i)).
  { assert (Forall (fits 64) (spec.RC <$> seq 0 24)) as HF.
    { rewrite <- RC_table. apply (bool_decide_unpack _). vm_compute. done. }
    rewrite Forall_fmap in HF. apply (Forall_lookup_1 _ _ i i HF), lookup_seq. lia. }
  pose proof (theta_fits A HA) as H1.
  assert (Forall (fits 64) (spec.rho (spec.theta A))) as H2.
  { apply matrix_fits. intros x y. apply rot_fits; [apply offset_range|by apply lane_fits]. }
  assert (Forall (fits 64) (spec.pi (spec.rho (spec.theta A)))) as H3.
  { apply matrix_fits. intros x y. by apply lane_fits. }
  assert (Forall (fits 64) (spec.chi (spec.pi (spec.rho (spec.theta A))))) as H4.
  { apply matrix_fits. intros x y. apply fits_lxor; [lia|by apply lane_fits|].
    apply fits_land; [lia|by apply fits_mod|]. by apply lane_fits. }
  apply matrix_fits. intros x y. case_decide; [apply fits_lxor|]; auto using lane_fits; lia.
Qed.

Lemma round_ok a b i :
  (i < 24)%nat → length a = 25%nat → length b = 5%nat → Forall (fits 64) a →
  fst (keccak.round (a, b) i) = spec.round a i ∧ length (snd (keccak.round (a, b) i)) = 5%nat.
Proof.
  intros Hi Ha Hb HF. unfold keccak.round, spec.round.
  destruct (theta_ok a b Ha Hb) as [E1 L1]. destruct (keccak.theta a b) as [a1 b1]; cbn [fst snd] in *. subst a1.
  assert (fits 64 (arr (spec.theta a) 0)) as H0.
  { apply arr_ok; [by apply fits_0|by apply theta_fits]. }
  destruct (rho_pi_ok (spec.theta a) b1 (length_matrix _) L1 H0) as [E2 L2].
  destruct (keccak.rho_pi (spec.theta a) b1) as [a2 b2]; cbn [fst snd] in *. subst a2.
  destruct (chi_ok (spec.pi (spec.rho (spec.theta a))) b2 (length_matrix _) L2) as [E3 L3].
  destruct (keccak.chi _ b2) as [a3 b3]; cbn [fst snd] in *. subst a3.
  split; [by apply iota_ok|done].
Qed.

Lemma rounds_ok l a b :
  Forall (λ i, i < 24)%nat l → length a = 25%nat → length b = 5%nat → Forall (fits 64) a →
  fst (foldl keccak.round (a, b) l) = foldl spec.round a l.
Proof.
  intros Hl. revert a b. induction Hl as [|i l Hi Hl IH]; intros a b Ha Hb HF; [done|].
  cbn [foldl]. destruct (round_ok a b i Hi Ha Hb HF) as [E L].
  destruct (keccak.round (a, b) i) as [a' b']; cbn [fst snd] in *. subst a'.
  apply IH; [apply length_matrix|done|by apply round_fits].
Qed.

(** The permutation of the source is Keccak-f[1600]. *)
Lemma keccakf_ok a : length a = 25%nat → Forall (fits 64) a → keccak.keccakf a = spec.keccak_f a.
Proof.
  intros Ha HF. apply rounds_ok; [|done..]. apply Forall_seq. lia.
Qed.

(** ** The sponge *)

(** A buffer of the sponge. *)
Definition state_ok (a : bytes) : Prop := bytes_ok a ∧ length a = 200%nat.

Lemma words_fits a : bytes_ok a → Forall (fits 64) (keccak.words a).
Proof.
  intros Ha. apply Forall_fmap, Forall_true. intros i. unfold compose.
  assert (bytes_ok (take 8 (drop (8 * i) a))) as Hb by (by apply Forall_take, Forall_drop).
  destruct (le_decode_bound _ Hb) as [H0 H1]. split; [done|]. eapply Z.lt_le_trans; [exact H1|].
  apply Z.pow_le_mono_r; [lia|]. rewrite length_take. lia.
Qed.

Lemma concat_le_encode_ok w : state_ok (keccak.unwords w) ↔ length w = 25%nat.
Proof.
  unfold state_ok, keccak.unwords.
  assert (length (concat (le_encode 8 <$> w)) = (8 * length w)%nat) as ->.
  { induction w as [|x w IH]; [done|]. cbn [fmap list_fmap concat length]. rewrite length_app, length_le_encode, IH. lia. }
  assert (bytes_ok (concat (le_encode 8 <$> w))) as Hok.
  { apply Forall_concat, Forall_fmap, Forall_true. intros x. apply le_encode_ok. }
  split; [intros [_ ?]; lia|intros ->; done].
Qed.

Lemma absorb_state_ok s blk : state_ok (spec.absorb s blk).
Proof.
  apply concat_le_encode_ok. unfold spec.keccak_f. change (seq 0 24) with (seq 0 23 ++ [23%nat]).
  by rewrite foldl_app.
Qed.

Lemma P_ok a : state_ok a → keccak.P a = keccak.unwords (spec.keccak_f (keccak.words a)).
Proof. intros [Ha _]. unfold keccak.P. by rewrite keccakf_ok by (done || by apply words_fits). Qed.

Lemma xorin_spec d s n :
  (n ≤ length d)%nat →
  length (keccak.xorin d s n) = length d ∧
  ∀ i, arr (keccak.xorin d s n) i = if decide (i < n)%nat then Z.lxor (arr d i) (arr s i) else arr d i.
Proof.
  unfold keccak.xorin. induction n as [|n IH]; intros Hn; [by split; [|intros i; rewrite decide_False by lia]|].
  destruct IH as [IHl IHa]; [lia|]. rewrite seq_S, foldl_app. cbn [foldl Nat.add].
  rewrite length_insert. split; [done|]. intros i. destruct (decide (i = n)) as [->|Hi].
  - rewrite arr_insert_eq by lia. rewrite IHa, decide_False, decide_True by lia. done.
  - rewrite arr_insert_ne, IHa by done. destruct (decide (i < n)%nat), (decide (i < S n)%nat); done || lia.
Qed.

Lemma zip_with_lxor_ok a b : bytes_ok a → bytes_ok b → bytes_ok (zip_with Z.lxor a b).
Proof.
  intros Ha Hb. apply Forall_lookup. intros i x E. apply lookup_zip_with_Some in E as (u & v & -> & Eu & Ev).
  apply (fits_lxor 8); [lia|by eapply Forall_lookup_1 in Eu|by eapply Forall_lookup_1 in Ev].
Qed.

Lemma xor_block_ok a blk :
  state_ok a → bytes_ok blk → (length blk ≤ 200)%nat →
  state_ok (zip_with Z.lxor a (blk ++ replicate (200 - length blk) 0)).
Proof.
  intros [Ha Hl] Hb Hlb. split.
  - apply zip_with_lxor_ok; [done|]. apply Forall_app_2; [done|]. apply Forall_replicate. unfold is_byte. lia.
  - rewrite length_zip_with, length_app, length_replicate. lia.
Qed.

(** One full block absorbed by the source. *)
Lemma absorb_block a inp rate :
  state_ok a → bytes_ok inp → (rate < 200)%nat → (rate ≤ length inp)%nat →
  keccak.P (keccak.xorin a inp rate) = spec.absorb a (take rate inp).
Proof.
  intros Ha Hi Hr Hl. pose proof Ha as [_ Hla].
  assert (keccak.xorin a inp rate =
          zip_with Z.lxor a (take rate inp ++ replicate (200 - length (take rate inp)) 0)) as ->.
  { destruct (xorin_spec a inp rate) as [Hlx Hx]; [lia|]. apply arr_ext.
    - rewrite Hlx, length_zip_with, length_app, length_replicate, length_take. lia.
    - intros i _. rewrite Hx, arr_zip_with_lxor by (rewrite length_app, length_replicate, length_take; lia).
      rewrite arr_app, length_take_le by done. case_decide; [by rewrite arr_take|].
      by rewrite arr_replicate, Z.lxor_0_r. }
  apply P_ok, xor_block_ok; [done|by apply Forall_take|]. rewrite length_take. lia.
Qed.

Lemma absorb_ok fuel a inp rate :
  state_ok a → bytes_ok inp → (0 < rate < 200)%nat → (length inp < fuel)%nat →
  keccak.absorb fuel a inp rate =
    Ok (foldl spec.absorb a (blocks (length inp / rate) rate inp),
        drop (length inp / rate * rate) inp).
Proof.
  revert a inp. induction fuel as [|fuel IH]; intros a inp Ha Hi Hr Hf; [lia|]. cbn [keccak.absorb].
  case_decide as Hl.
  - rewrite absorb_block by (done || lia).
    assert (length inp / rate = S (length (drop rate inp) / rate))%nat as Eq.
    { rewrite length_drop. replace (length inp) with (length inp - rate + 1 * rate)%nat at 1 by lia.
      rewrite Nat.div_add by lia. lia. }
    rewrite IH; [|apply absorb_state_ok|by apply Forall_drop|done|rewrite length_drop; lia].
    rewrite Eq. cbn [blocks foldl]. by rewrite drop_drop.
  - rewrite Nat.div_small by lia. done.
Qed.

(** The padding of the last block, as the source writes it into the state. *)
Definition last_pad (rate : nat) (delim : Z) (n : nat) : bytes :=
  if decide (rate - n = 1)%nat then [Z.lxor delim 0x80] else delim :: replicate (rate - n - 2) 0 ++ [0x80].

Lemma length_last_pad rate delim n : (n < rate)%nat → length (last_pad rate delim n) = (rate - n)%nat.
Proof.
  intros. unfold last_pad. case_decide; [cbn; lia|]. cbn. rewrite length_app, length_replicate. cbn. lia.
Qed.

Lemma arr_last_pad rate delim n i :
  (n < rate)%nat → (i < rate - n)%nat →
  arr (last_pad rate delim n) i =
    Z.lxor (if decide (i = 0)%nat then delim else 0) (if decide (i = rate - n - 1)%nat then 0x80 else 0).
Proof.
  intros Hn Hi. unfold last_pad. destruct (decide (rate - n = 1)%nat).
  - replace i with 0%nat by lia. cbn [arr nth]. by rewrite !decide_True by lia.
  - destruct i as [|i]; [rewrite decide_True, decide_False by lia; by rewrite Z.lxor_0_r|].
    change (arr (delim :: ?l) (S i)) with (arr l i). rewrite arr_app, length_replicate.
    rewrite (decide_False (P := (S i = 0)%nat)) by lia. rewrite Z.lxor_0_l.
    destruct (decide (i < rate - n - 2)%nat).
    + rewrite arr_replicate, decide_False by lia. done.
    + replace (i - (rate - n - 2))%nat with 0%nat by lia. rewrite decide_True by lia. done.
Qed.

Lemma absorb_last a rest rate delim :
  state_ok a → bytes_ok rest → is_byte delim → (length rest < rate < 200)%nat →
  let a1 := <[length rest := Z.lxor (arr a (length rest)) delim]> a in
  let a2 := <[(rate - 1)%nat := Z.lxor (arr a1 (rate - 1)) 0x80]> a1 in
  keccak.P (keccak.xorin a2 rest (length rest)) = spec.absorb a (rest ++ last_pad rate delim (length rest)).
Proof.
  intros Ha Hrest Hd Hr a1 a2. pose proof Ha as [_ Hla].
  set (blk := rest ++ last_pad rate delim (length rest)).
  assert (length blk = rate) as Hlb by (unfold blk; rewrite length_app, length_last_pad; lia).
  assert (bytes_ok blk) as Hblk.
  { apply Forall_app_2; [done|]. unfold last_pad. case_decide.
    - repeat constructor; apply (fits_lxor 8); done || lia.
    - constructor; [done|]. apply Forall_app_2; [apply Forall_replicate|repeat constructor]; done. }
  assert (keccak.xorin a2 rest (length rest) = zip_with Z.lxor a (blk ++ replicate (200 - length blk) 0)) as ->.
  { assert (length a2 = 200%nat) as Hl2 by (unfold a2, a1; by rewrite !length_insert).
    destruct (xorin_spec a2 rest (length rest)) as [Hlx Hx]; [lia|]. apply arr_ext.
    - rewrite Hlx, length_zip_with, length_app, length_replicate. lia.
    - intros i Hi. rewrite Hx, arr_zip_with_lxor by (rewrite length_app, length_replicate; lia).
      rewrite arr_app, Hlb. unfold blk. rewrite arr_app.
      destruct (decide (i < length rest)%nat).
      + rewrite decide_True by lia. unfold a2. rewrite arr_insert_ne by lia. unfold a1. by rewrite arr_insert_ne by lia.
      + destruct (decide (i < rate)%nat).
        * rewrite arr_last_pad by lia. unfold a2.
          destruct (decide (i = rate - 1)%nat) as [->|].
          -- rewrite arr_insert_eq by (unfold a1; rewrite length_insert; lia).
             rewrite (decide_True (P := (rate - 1 - length rest = rate - length rest - 1)%nat)) by lia.
             rewrite <- Z.lxor_assoc. f_equal. unfold a1.
             destruct (decide (length rest = rate - 1)%nat) as [E|].
             ++ rewrite <- E, arr_insert_eq, decide_True by lia. done.
             ++ rewrite arr_insert_ne, decide_False, Z.lxor_0_r by lia. done.
          -- rewrite arr_insert_ne by lia.
             rewrite (decide_False (P := (i - length rest = rate - length rest - 1)%nat)), Z.lxor_0_r by lia. unfold a1.
             destruct (decide (length rest = i)) as [E|].
             ++ rewrite <- E, arr_insert_eq, decide_True by lia. done.
             ++ rewrite arr_insert_ne, decide_False, Z.lxor_0_r by lia. done.
        * rewrite arr_replicate, Z.lxor_0_r. unfold a2, a1. by rewrite !arr_insert_ne by lia. }
  apply P_ok, xor_block_ok; [done..|lia].
Qed.

Lemma setout_ok a n : (n ≤ length a)%nat → keccak.setout a n = take n a.
Proof.
  intros Hn. apply arr_ext; unfold keccak.setout.
  - rewrite length_fmap, length_seq, length_take. lia.
  - intros i Hi. rewrite length_fmap, length_seq in Hi. rewrite arr_take by done.
    apply arr_lookup. rewrite list_lookup_fmap, lookup_seq_lt by done. done.
Qed.

Lemma pad_split rate delim m : spec.pad rate delim m = m ++ last_pad rate delim (length m `mod` rate).
Proof. done. Qed.

Lemma foldl_absorb_ok l a : state_ok a → state_ok (foldl spec.absorb a l).
Proof. revert a. induction l; intros a0 Ha; [done|]. apply IHl, absorb_state_ok. Qed.

(** The sponge of the source is the reference sponge, for outputs shorter than
    a block. *)
Lemma hash_ok_sponge outlen inp rate delim :
  bytes_ok inp → is_byte delim → (outlen < rate < 200)%nat →
  keccak.hash outlen inp rate delim = Ok (Some (spec.sponge rate delim inp outlen)).
Proof.
  intros Hi Hd Hr. unfold keccak.hash, keccak.Plen. rewrite decide_False by lia.
  assert (state_ok (replicate 200 0)) as H0.
  { split; [|done]. apply Forall_replicate. unfold is_byte. lia. }
  rewrite absorb_ok by (done || lia). cbv beta iota delta [mbind res_bind].
  set (k := (length inp / rate)%nat). set (rest := drop (k * rate) inp).
  pose proof (Nat.div_mod_eq (length inp) rate) as Hdm. fold k in Hdm.
  assert (length rest = (length inp `mod` rate)%nat) as Hlr by (unfold rest; rewrite length_drop; nia).
  pose proof (Nat.mod_upper_bound (length inp) rate ltac:(lia)) as Hub.
  set (a := foldl spec.absorb (replicate 200 0) (blocks k rate inp)).
  assert (state_ok a) as Ha by (by apply foldl_absorb_ok).
  rewrite absorb_last; [|done|by apply Forall_drop|done|lia].
  cbn [keccak.squeeze]. rewrite decide_False by lia. cbn [fmap res_fmap app]. apply (f_equal (λ x, Ok (Some x))).
  rewrite setout_ok; [|destruct (absorb_state_ok a (rest ++ last_pad rate delim (length rest))) as [_ ->]; lia].
  unfold spec.sponge. f_equal. rewrite pad_split.
  set (p := inp ++ last_pad rate delim (length inp `mod` rate)).
  assert (length p = S k * rate)%nat as Hlp.
  { unfold p. rewrite length_app, length_last_pad by lia. nia. }
  rewrite Hlp, Nat.div_mul, blocks_S, foldl_app by lia. cbn [foldl]. unfold p.
  rewrite blocks_app by nia. fold a. apply (f_equal (spec.absorb a)). rewrite drop_app_le by nia. fold rest. rewrite Hlr.
  symmetry. apply take_ge. rewrite length_app, length_last_pad by lia. lia.
Qed.

(** ** Totality *)

Lemma length_round a b i :
  length a = 25%nat → length b = 5%nat →
  length (fst (keccak.round (a, b) i)) = 25%nat ∧ length (snd (keccak.round (a, b) i)) = 5%nat.
Proof.
  intros Ha Hb. lanes a Ha. do 5 (destruct b as [|? b]; [discriminate Hb|]). destruct b; [|discriminate Hb].
  split; reflexivity.
Qed.

Lemma length_rounds l a b :
  length a = 25%nat → length b = 5%nat → length (fst (foldl keccak.round (a, b) l)) = 25%nat.
Proof.
  revert a b. induction l as [|i l IH]; intros a b Ha Hb; [done|]. cbn [foldl].
  destruct (length_round a b i Ha Hb) as [L1 L2]. destruct (keccak.round (a, b) i) as [a' b']. by apply IH.
Qed.

Lemma P_state_ok a : state_ok (keccak.P a).
Proof. apply concat_le_encode_ok. by apply length_rounds. Qed.

Lemma absorb_total fuel a inp rate :
  (0 < rate)%nat → (length inp < fuel)%nat → ∃ a' rest, keccak.absorb fuel a inp rate = Ok (a', rest).
Proof.
  revert a inp. induction fuel as [|fuel IH]; intros a inp Hr Hf; [lia|]. cbn [keccak.absorb].
  case_decide; [|by eexists _, _]. apply IH; [done|]. rewrite length_drop. lia.
Qed.

(** [sha3] returns a well-formed hash whatever it is given. *)
Lemma sha3_keccak_total inp : ∃ h, sha3_keccak inp = Ok h ∧ hash_ok h256_size h.
Proof.
  unfold sha3_keccak, keccak.sha3_bits. change (256 / 8)%nat with 32%nat. change (200 - 256 / 4)%nat with 136%nat.
  rewrite decide_False by lia. unfold keccak.hash. rewrite decide_False by (unfold keccak.Plen; lia).
  destruct (absorb_total (S (length inp)) (replicate keccak.Plen 0) inp 136 ltac:(lia) ltac:(lia)) as (a & rest & ->).
  cbv beta iota delta [mbind res_bind]. set (b := keccak.P _).
  assert (state_ok b) as [Hb Hl] by apply P_state_ok. clearbody b.
  cbn [keccak.squeeze]. rewrite decide_False by lia. eexists. split; [reflexivity|].
  cbn [app from_option]. rewrite setout_ok by lia. split; [by apply Forall_take|].
  unfold len, id. rewrite length_take. by rewrite Hl.
Qed.

(** The cryptographic interface with the [sha3] of the source in the place of
    its hash function. *)
Definition with_keccak (c : Crypto) : Crypto := {|
  sha3 b := match sha3_keccak b with Ok h => h | Throw _ => h256_0 end;
  sign := @sign c; verify := @verify c; pub_of := @pub_of c; recover := @recover c |}.

Lemma with_keccak_laws c : @CryptoLaws c → @CryptoLaws (with_keccak c).
Proof.
  intros [_ H2 H3]. split; [|done..]. intros b. cbn [sha3 with_keccak].
  by destruct (sha3_keccak_total b) as (h & -> & Hh).
Qed.

(** C12. The [sha3] of the node is Keccak-256: on any bytes it returns the
    first 32 bytes of the reference sponge over the padded message, that is,
    the step mappings of the standard with derived offsets and constants. With
    it in the place of the hash function, the cryptographic interface keeps
    its laws. *)
Theorem sha3_is_keccak256 (m : bytes) (c : Crypto) :
  bytes_ok m → @CryptoLaws c →
  sha3_keccak m = Ok (spec.keccak256 m) ∧ hash_ok h256_size (spec.keccak256 m) ∧
  @sha3 (with_keccak c) m = spec.keccak256 m ∧ @CryptoLaws (with_keccak c).
Proof.
  intros Hm Hc. assert (sha3_keccak m = Ok (spec.keccak256 m)) as E.
  { unfold sha3_keccak, keccak.sha3_bits. rewrite decide_False by (cbn; lia).
    by rewrite hash_ok_sponge by (done || cbn; lia). }
  split; [done|]. cbn [sha3 with_keccak]. rewrite E.
  destruct (sha3_keccak_total m) as (h & Eh & Hh). rewrite E in Eh. injection Eh as ->.
  split; [done|]. split; [done|by apply with_keccak_laws].
Qed.

Lemma sha3_is_keccak256_witness :
  sha3_keccak [1; 2; 3] = Ok (spec.keccak256 [1; 2; 3]) ∧ hash_ok h256_size (spec.keccak256 [1; 2; 3]) ∧
  @sha3 (with_keccak example_crypto) [1; 2; 3] = spec.keccak256 [1; 2; 3] ∧ @CryptoLaws (with_keccak example_crypto).
Proof.
  apply (sha3_is_keccak256 [1; 2; 3] example_crypto); [|apply example_crypto_laws].
  by apply (bool_decide_unpack _).
Defined.

(** [EmptySHA3], as the reference computes it. *)
Example keccak256_empty :
  spec.keccak256 [] =
  [0xc5;0xd2;0x46;0x01;0x86;0xf7;0x23;0x3c;0x92;0x7e;0x7d;0xb2;0xdc;0xc7;0x03;0xc0;
   0xe5;0x00;0xb6;0x53;0xca;0x82;0x27;0x3b;0x7b;0xfa;0xd8;0x04;0x5d;0x85;0xa4;0x70].
Proof. vm_compute. reflexivity. Qed.
