(* ===== verification/Ripemd.v ===== *)
(** * RIPEMD-160 (libdevcrypto/Hash.cpp, namespace rmd160)

    [MDcompress] is 160 macro calls on two sets of five registers. The calls
    are data here, one entry per line of the source: the macro, the five
    registers in the order of its arguments, the message word and the
    rotation; [exec] is the body of the macros. The arithmetic is on
    [uint32_t]. *)

From S2P Require Import Prelude Crypto Bits.

Local Open Scope Z_scope.

Module rmd160.

Definition ROL (x n : Z) : Z := Z.lor (u32 (Z.shiftl x n)) (Z.shiftr x (32 - n)).

Definition not32 (x : Z) : Z := u32 (Z.lnot x).

(** The five functions [F], [G], [H], [I] and [J]. *)
Definition fun_F (x y z : Z) : Z := Z.lxor (Z.lxor x y) z.
Definition fun_G (x y z : Z) : Z := Z.lor (Z.land x y) (Z.land (not32 x) z).
Definition fun_H (x y z : Z) : Z := Z.lxor (Z.lor x (not32 y)) z.
Definition fun_I (x y z : Z) : Z := Z.lor (Z.land x z) (Z.land y (not32 z)).
Definition fun_J (x y z : Z) : Z := Z.lxor x (Z.lor y (not32 z)).

(** A macro call: registers are named by their position. *)
Inductive stmt :=
  | FF (a b c d e x : nat) (s : Z) | GG (a b c d e x : nat) (s : Z) | HH (a b c d e x : nat) (s : Z)
  | II (a b c d e x : nat) (s : Z) | JJ (a b c d e x : nat) (s : Z)
  | FFF (a b c d e x : nat) (s : Z) | GGG (a b c d e x : nat) (s : Z) | HHH (a b c d e x : nat) (s : Z)
  | III (a b c d e x : nat) (s : Z) | JJJ (a b c d e x : nat) (s : Z).

(** [(a) += f((b), (c), (d)) + (x) + k; (a) = ROL((a), (s)) + (e); (c) = ROL((c), 10);] *)
Definition macro (f : Z → Z → Z → Z) (k : Z) (a b c d e : nat) (x s : Z) (r : list Z) : list Z :=
  let r := <[a := u32 (arr r a + (f (arr r b) (arr r c) (arr r d) + x + k))]> r in
  let r := <[a := u32 (ROL (arr r a) s + arr r e)]> r in
  <[c := ROL (arr r c) 10]> r.

Definition exec (X : list Z) (r : list Z) (st : stmt) : list Z :=
  match st with
  | FF a b c d e x s => macro fun_F 0 a b c d e (arr X x) s r
  | GG a b c d e x s => macro fun_G 0x5a827999 a b c d e (arr X x) s r
  | HH a b c d e x s => macro fun_H 0x6ed9eba1 a b c d e (arr X x) s r
  | II a b c d e x s => macro fun_I 0x8f1bbcdc a b c d e (arr X x) s r
  | JJ a b c d e x s => macro fun_J 0xa953fd4e a b c d e (arr X x) s r
  | FFF a b c d e x s => macro fun_F 0 a b c d e (arr X x) s r
  | GGG a b c d e x s => macro fun_G 0x7a6d76e9 a b c d e (arr X x) s r
  | HHH a b c d e x s => macro fun_H 0x6d703ef3 a b c d e (arr X x) s r
  | III a b c d e x s => macro fun_I 0x5c4dd124 a b c d e (arr X x) s r
  | JJJ a b c d e x s => macro fun_J 0x50a28be6 a b c d e (arr X x) s r
  end.

Definition MDinit : list Z := [0x67452301; 0xefcdab89; 0x98badcfe; 0x10325476; 0xc3d2e1f0].

Definition aa : nat := 0.
Definition bb : nat := 1.
Definition cc : nat := 2.
Definition dd : nat := 3.
Definition ee : nat := 4.

(** The rounds on [aa] ... [ee]. *)
Definition line1 : list stmt := [
   FF aa bb cc dd ee 0 11; FF ee aa bb cc dd 1 14; FF dd ee aa bb cc 2 15; FF cc dd ee aa bb 3 12;
   FF bb cc dd ee aa 4 5; FF aa bb cc dd ee 5 8; FF ee aa bb cc dd 6 7; FF dd ee aa bb cc 7 9;
   FF cc dd ee aa bb 8 11; FF bb cc dd ee aa 9 13; FF aa bb cc dd ee 10 14; FF ee aa bb cc dd 11 15;
   FF dd ee aa bb cc 12 6; FF cc dd ee aa bb 13 7; FF bb cc dd ee aa 14 9; FF aa bb cc dd ee 15 8;
   GG ee aa bb cc dd 7 7; GG dd ee aa bb cc 4 6; GG cc dd ee aa bb 13 8; GG bb cc dd ee aa 1 13;
   GG aa bb cc dd ee 10 11; GG ee aa bb cc dd 6 9; GG dd ee aa bb cc 15 7; GG cc dd ee aa bb 3 15;
   GG bb cc dd ee aa 12 7; GG aa bb cc dd ee 0 12; GG ee aa bb cc dd 9 15; GG dd ee aa bb cc 5 9;
   GG cc dd ee aa bb 2 11; GG bb cc dd ee aa 14 7; GG aa bb cc dd ee 11 13; GG ee aa bb cc dd 8 12;
   HH dd ee aa bb cc 3 11; HH cc dd ee aa bb 10 13; HH bb cc dd ee aa 14 6; HH aa bb cc dd ee 4 7;
   HH ee aa bb cc dd 9 14; HH dd ee aa bb cc 15 9; HH cc dd ee aa bb 8 13; HH bb cc dd ee aa 1 15;
   HH aa bb cc dd ee 2 14; HH ee aa bb cc dd 7 8; HH dd ee aa bb cc 0 13; HH cc dd ee aa bb 6 6;
   HH bb cc dd ee aa 13 5; HH aa bb cc dd ee 11 12; HH ee aa bb cc dd 5 7; HH dd ee aa bb cc 12 5;
   II cc dd ee aa bb 1 11; II bb cc dd ee aa 9 12; II aa bb cc dd ee 11 14; II ee aa bb cc dd 10 15;
   II dd ee aa bb cc 0 14; II cc dd ee aa bb 8 15; II bb cc dd ee aa 12 9; II aa bb cc dd ee 4 8;
   II ee aa bb cc dd 13 9; II dd ee aa bb cc 3 14; II cc dd ee aa bb 7 5; II bb cc dd ee aa 15 6;
   II aa bb cc dd ee 14 8; II ee aa bb cc dd 5 6; II dd ee aa bb cc 6 5; II cc dd ee aa bb 2 12;
   JJ bb cc dd ee aa 4 9; JJ aa bb cc dd ee 0 15; JJ ee aa bb cc dd 5 5; JJ dd ee aa bb cc 9 11;
   JJ cc dd ee aa bb 7 6; JJ bb cc dd ee aa 12 8; JJ aa bb cc dd ee 2 13; JJ ee aa bb cc dd 10 12;
   JJ dd ee aa bb cc 14 5; JJ cc dd ee aa bb 1 12; JJ bb cc dd ee aa 3 13; JJ aa bb cc dd ee 8 14;
   JJ ee aa bb cc dd 11 11; JJ dd ee aa bb cc 6 8; JJ cc dd ee aa bb 15 5; JJ bb cc dd ee aa 13 6].

(** The parallel rounds on [aaa] ... [eee]. *)
Definition line2 : list stmt := [
   JJJ aa bb cc dd ee 5 8; JJJ ee aa bb cc dd 14 9; JJJ dd ee aa bb cc 7 9; JJJ cc dd ee aa bb 0 11;
   JJJ bb cc dd ee aa 9 13; JJJ aa bb cc dd ee 2 15; JJJ ee aa bb cc dd 11 15; JJJ dd ee aa bb cc 4 5;
   JJJ cc dd ee aa bb 13 7; JJJ bb cc dd ee aa 6 7; JJJ aa bb cc dd ee 15 8; JJJ ee aa bb cc dd 8 11;
   JJJ dd ee aa bb cc 1 14; JJJ cc dd ee aa bb 10 14; JJJ bb cc dd ee aa 3 12; JJJ aa bb cc dd ee 12 6;
   III ee aa bb cc dd 6 9; III dd ee aa bb cc 11 13; III cc dd ee aa bb 3 15; III bb cc dd ee aa 7 7;
   III aa bb cc dd ee 0 12; III ee aa bb cc dd 13 8; III dd ee aa bb cc 5 9; III cc dd ee aa bb 10 11;
   III bb cc dd ee aa 14 7; III aa bb cc dd ee 15 7; III ee aa bb cc dd 8 12; III dd ee aa bb cc 12 7;
   III cc dd ee aa bb 4 6; III bb cc dd ee aa 9 15; III aa bb cc dd ee 1 13; III ee aa bb cc dd 2 11;
   HHH dd ee aa bb cc 15 9; HHH cc dd ee aa bb 5 7; HHH bb cc dd ee aa 1 15; HHH aa bb cc dd ee 3 11;
   HHH ee aa bb cc dd 7 8; HHH dd ee aa bb cc 14 6; HHH cc dd ee aa bb 6 6; HHH bb cc dd ee aa 9 14;
   HHH aa bb cc dd ee 11 12; HHH ee aa bb cc dd 8 13; HHH dd ee aa bb cc 12 5; HHH cc dd ee aa bb 2 14;
   HHH bb cc dd ee aa 10 13; HHH aa bb cc dd ee 0 13; HHH ee aa bb cc dd 4 7; HHH dd ee aa bb cc 13 5;
   GGG cc dd ee aa bb 8 15; GGG bb cc dd ee aa 6 5; GGG aa bb cc dd ee 4 8; GGG ee aa bb cc dd 1 11;
   GGG dd ee aa bb cc 3 14; GGG cc dd ee aa bb 11 14; GGG bb cc dd ee aa 15 6; GGG aa bb cc dd ee 0 14;
   GGG ee aa bb cc dd 5 6; GGG dd ee aa bb cc 12 9; GGG cc dd ee aa bb 2 12; GGG bb cc dd ee aa 13 9;
   GGG aa bb cc dd ee 9 12; GGG ee aa bb cc dd 7 5; GGG dd ee aa bb cc 10 15; GGG cc dd ee aa bb 14 8;
   FFF bb cc dd ee aa 12 8; FFF aa bb cc dd ee 15 5; FFF ee aa bb cc dd 10 12; FFF dd ee aa bb cc 4 9;
   FFF cc dd ee aa bb 1 12; FFF bb cc dd ee aa 5 5; FFF aa bb cc dd ee 8 14; FFF ee aa bb cc dd 7 6;
   FFF dd ee aa bb cc 6 8; FFF cc dd ee aa bb 2 13; FFF bb cc dd ee aa 13 6; FFF aa bb cc dd ee 14 5;
   FFF ee aa bb cc dd 0 15; FFF dd ee aa bb cc 3 13; FFF cc dd ee aa bb 9 11; FFF bb cc dd ee aa 11 11].

Definition MDcompress (MDbuf X : list Z) : list Z :=
  let l := foldl (exec X) MDbuf line1 in
  let r := foldl (exec X) MDbuf line2 in
  let ddd := u32 (arr r dd + (arr l cc + arr MDbuf 1)) in
  [ddd;
   u32 (arr MDbuf 2 + arr l dd + arr r ee);
   u32 (arr MDbuf 3 + arr l ee + arr r aa);
   u32 (arr MDbuf 4 + arr l aa + arr r bb);
   u32 (arr MDbuf 0 + arr l bb + arr r cc)].

(** [MDfinish]: the last bytes, the one bit and the length; [strptr] is the
    rest of the message. *)
Definition put_byte (strptr : bytes) (X : list Z) (i : nat) : list Z :=
  <[(i / 4)%nat := Z.lxor (arr X (i / 4)) (u32 (Z.shiftl (arr strptr i) (8 * Z.of_nat (i `mod` 4))))]> X.

Definition MDfinish (MDbuf : list Z) (strptr : bytes) (lswlen mswlen : Z) : list Z :=
  let X := foldl (put_byte strptr) (replicate 16 0) (seq 0 (Z.to_nat (Z.land lswlen 63))) in
  let w := Z.to_nat (Z.land (Z.shiftr lswlen 2) 15) in
  let X := <[w := Z.lxor (arr X w) (u32 (Z.shiftl 1 (8 * Z.land lswlen 3 + 7)))]> X in
  let '(MDbuf, X) := if decide (55 < Z.land lswlen 63) then (MDcompress MDbuf X, replicate 16 0) else (MDbuf, X) in
  let X := <[14%nat := u32 (Z.shiftl lswlen 3)]> X in
  let X := <[15%nat := Z.lor (Z.shiftr lswlen 29) (u32 (Z.shiftl mswlen 3))]> X in
  MDcompress MDbuf X.

End rmd160.

(** [BYTES_TO_DWORD]. *)
Definition BYTES_TO_DWORD (p : bytes) : Z :=
  Z.lor (Z.lor (Z.lor (u32 (Z.shiftl (arr p 3) 24)) (u32 (Z.shiftl (arr p 2) 16)))
    (u32 (Z.shiftl (arr p 1) 8))) (arr p 0).

(** The loop over whole chunks of 64 bytes; [remaining] is a [uint32_t]. *)
Fixpoint chunks (fuel : nat) (buffer : list Z) (message : bytes) (remaining : Z) : res (list Z * bytes) :=
  match fuel with
  | O => Throw OutOfFuel
  | S fuel =>
      if decide (64 ≤ remaining) then
        let current := (λ i, BYTES_TO_DWORD (drop (4 * i) message)) <$> seq 0 16 in
        chunks fuel (rmd160.MDcompress buffer current) (drop 64 message) (remaining - 64)
      else Ok (buffer, message)
  end.

Definition ripemd160 (inp : bytes) : res bytes :=
  let size := u32 (len inp) in
  '(buffer, message) ← chunks (S (length inp)) rmd160.MDinit inp size;
  let buffer := rmd160.MDfinish buffer message size 0 in
  Ok (concat ((λ w, [u8 w; u8 (Z.shiftr w 8); u8 (Z.shiftr w 16); u8 (Z.shiftr w 24)]) <$> buffer)).

(** The digest of "abc". *)
Example ripemd160_abc :
  ripemd160 [97; 98; 99] =
  Ok [0x8e;0xb2;0x08;0xf7;0xe0;0x5d;0x98;0x7a;0x9b;0x04;0x4a;0x8e;0x98;0xc6;0xb0;0x87;0xf1;0x5a;0x0b;0xfc].
Proof. vm_compute. reflexivity. Qed.
