(* ===== verification/RipemdFacts.v ===== *)
(** * RIPEMD-160: the reference definition and its equivalence

    [rspec] is the function as its designers define it: one step repeated
    eighty times on each line, the message words chosen by the permutations
    rho and pi, the rotations by round and word, the constants from square
    and cube roots, and the padded message cut into blocks of sixteen words.
    The file proves that the unrolled macro calls of the source are those
    steps and that [ripemd160] computes the reference digest. *)

From S2P Require Import Prelude Crypto Bits Ripemd.

Local Open Scope Z_scope.

Module rspec.

Definition rho : list nat := [7; 4; 13; 1; 10; 6; 15; 3; 12; 0; 9; 5; 2; 14; 11; 8]%nat.
Definition pi (i : nat) : nat := ((9 * i + 5) `mod` 16)%nat.

(** The word used at position [i] of round [k]: rho^k, after pi on the second
    line. *)
Definition word1 (k i : nat) : nat := Nat.iter k (λ j, nth j rho O) i.
Definition word2 (k i : nat) : nat := Nat.iter k (λ j, nth j rho O) (pi i).

(** The rotation of a word in round [k]. *)
Definition shifts : list (list Z) := [
  [11; 14; 15; 12; 5; 8; 7; 9; 11; 13; 14; 15; 6; 7; 9; 8];
  [12; 13; 11; 15; 6; 9; 9; 7; 12; 15; 11; 13; 7; 8; 7; 7];
  [13; 15; 14; 11; 7; 7; 6; 8; 13; 14; 13; 12; 5; 5; 6; 9];
  [14; 11; 12; 14; 8; 6; 5; 5; 15; 12; 15; 14; 9; 9; 8; 6];
  [15; 12; 13; 13; 9; 5; 8; 6; 14; 11; 12; 11; 8; 6; 5; 5]].
Definition shift (k w : nat) : Z := arr (nth k shifts []) w.

(** The integer parts of 2^30 times the square roots of 2, 3, 5, 7, and of
    2^30 times their cube roots. *)
Fixpoint icbrt (bits : nat) (n acc : Z) : Z :=
  match bits with
  | O => acc
  | S b => let t := acc + 2 ^ Z.of_nat b in icbrt b n (if decide (t ^ 3 ≤ n) then t else acc)
  end.
Definition primes : list Z := [0; 2; 3; 5; 7].
Definition K1 (k : nat) : Z := Z.sqrt (arr primes k * 2 ^ 60).
Definition K2 (k : nat) : Z := icbrt 32 (arr primes ((k + 1) `mod` 5) * 2 ^ 90) 0.

Definition f (k : nat) (x y z : Z) : Z :=
  match k with
  | O => rmd160.fun_F x y z
  | 1%nat => rmd160.fun_G x y z
  | 2%nat => rmd160.fun_H x y z
  | 3%nat => rmd160.fun_I x y z
  | _ => rmd160.fun_J x y z
  end.

(** One step on the five chaining variables. *)
Definition step (g : Z → Z → Z → Z) (k x s : Z) (v : list Z) : list Z :=
  match v with
  | [A; B; C; D; E] => [E; u32 (rmd160.ROL (u32 (A + (g B C D + x + k))) s + E); B; rmd160.ROL C 10; D]
  | _ => v
  end.

Definition step1 (X : list Z) (v : list Z) (j : nat) : list Z :=
  let k := (j / 16)%nat in let w := word1 k (j `mod` 16) in step (f k) (K1 k) (arr X w) (shift k w) v.
Definition step2 (X : list Z) (v : list Z) (j : nat) : list Z :=
  let k := (j / 16)%nat in let w := word2 k (j `mod` 16) in step (f (4 - k)) (K2 k) (arr X w) (shift k w) v.

(** The compression function: both lines and the combination. *)
Definition compress (h X : list Z) : list Z :=
  let l := foldl (step1 X) h (seq 0 80) in
  let r := foldl (step2 X) h (seq 0 80) in
  [u32 (arr h 1 + arr l 2 + arr r 3); u32 (arr h 2 + arr l 3 + arr r 4); u32 (arr h 3 + arr l 4 + arr r 0);
   u32 (arr h 4 + arr l 0 + arr r 1); u32 (arr h 0 + arr l 1 + arr r 2)].

(** The sixteen words of a block. *)
Definition words (b : bytes) : list Z := (λ i, le_decode (take 4 (drop (4 * i) b))) <$> seq 0 16.

(** A one bit, zeros up to 56 modulo 64 bytes, and the length in bits. *)
Definition pad (m : bytes) : bytes :=
  m ++ 0x80 :: replicate (Z.to_nat ((55 - len m) `mod` 64)) 0 ++ le_encode 8 (8 * len m).

Definition digest (m : bytes) : bytes :=
  let p := pad m in
  concat (le_encode 4 <$> foldl compress rmd160.MDinit (words <$> blocks (length p / 64) 64 p)).

End rspec.

(** ** The compression function *)

(** The register that plays the part of variable [k] at step [j]. *)
Definition reg (j k : nat) : nat := ((k + 4 * j) `mod` 5)%nat.

Definition call1 (j : nat) : rmd160.stmt :=
  let k := (j / 16)%nat in let w := rspec.word1 k (j `mod` 16) in
  let c := match k with O => rmd160.FF | 1 => rmd160.GG | 2 => rmd160.HH | 3 => rmd160.II | _ => rmd160.JJ end%nat in
  c (reg j 0) (reg j 1) (reg j 2) (reg j 3) (reg j 4) w (rspec.shift k w).

Definition call2 (j : nat) : rmd160.stmt :=
  let k := (j / 16)%nat in let w := rspec.word2 k (j `mod` 16) in
  let c := match k with O => rmd160.JJJ | 1 => rmd160.III | 2 => rmd160.HHH | 3 => rmd160.GGG | _ => rmd160.FFF end%nat in
  c (reg j 0) (reg j 1) (reg j 2) (reg j 3) (reg j 4) w (rspec.shift k w).

(** The calls of the source are the steps, in order. *)
Lemma line1_calls : rmd160.line1 = call1 <$> seq 0 80.
Proof. vm_compute. reflexivity. Qed.

Lemma line2_calls : rmd160.line2 = call2 <$> seq 0 80.
Proof. vm_compute. reflexivity. Qed.

(** The variables of step [j], read from the registers. *)
Definition view (j : nat) (r : list Z) : list Z := (λ k, arr r (reg j k)) <$> seq 0 5.

Lemma reg_mod j k : reg j k = reg (j `mod` 5) k.
Proof.
  unfold reg. rewrite (Nat.div_mod_eq j 5) at 1.
  replace (k + 4 * (5 * (j / 5) + j `mod` 5))%nat with (k + 4 * (j `mod` 5) + (4 * (j / 5)) * 5)%nat by lia.
  apply Nat.Div0.mod_add.
Qed.

Lemma view_mod j r : view j r = view (j `mod` 5) r.
Proof. unfold view. apply list_fmap_ext. intros i k _. by rewrite reg_mod. Qed.

Lemma macro_step f k x s j r :
  length r = 5%nat →
  let r' := rmd160.macro f k (reg j 0) (reg j 1) (reg j 2) (reg j 3) (reg j 4) x s r in
  view (S j) r' = rspec.step f k x s (view j r) ∧ length r' = 5%nat.
Proof.
  intros Hr. cbv zeta. rewrite (view_mod (S j)), (view_mod j), !(reg_mod j).
  assert (S j `mod` 5 = S (j `mod` 5) `mod` 5)%nat as -> by (rewrite <- Nat.Div0.add_mod_idemp_r with (a := 1%nat); done).
  pose proof (Nat.mod_upper_bound j 5 ltac:(lia)) as Hj. generalize dependent (j `mod` 5)%nat. intros q Hq.
  do 5 (destruct r as [|? r]; [discriminate Hr|]). destruct r; [|discriminate Hr].
  do 5 (destruct q as [|q]; [split; reflexivity|]). lia.
Qed.

Lemma round_cases j : (j < 80)%nat → (j / 16 = 0 ∨ j / 16 = 1 ∨ j / 16 = 2 ∨ j / 16 = 3 ∨ j / 16 = 4)%nat.
Proof. intros Hj. assert (j / 16 < 5)%nat; [|lia]. apply Nat.Div0.div_lt_upper_bound. lia. Qed.

Lemma K1_values :
  rspec.K1 0 = 0 ∧ rspec.K1 1 = 0x5a827999 ∧ rspec.K1 2 = 0x6ed9eba1 ∧ rspec.K1 3 = 0x8f1bbcdc ∧ rspec.K1 4 = 0xa953fd4e.
Proof. vm_compute. repeat split; reflexivity. Qed.

Lemma K2_values :
  rspec.K2 0 = 0x50a28be6 ∧ rspec.K2 1 = 0x5c4dd124 ∧ rspec.K2 2 = 0x6d703ef3 ∧ rspec.K2 3 = 0x7a6d76e9 ∧ rspec.K2 4 = 0.
Proof. vm_compute. repeat split; reflexivity. Qed.

Lemma exec_call1 X r j :
  (j < 80)%nat → length r = 5%nat →
  view (S j) (rmd160.exec X r (call1 j)) = rspec.step1 X (view j r) j ∧
  length (rmd160.exec X r (call1 j)) = 5%nat.
Proof.
  intros Hj Hr. destruct K1_values as (H0 & H1 & H2 & H3 & H4).
  unfold call1, rspec.step1. destruct (round_cases j Hj) as [E|[E|[E|[E|E]]]]; rewrite E; cbn [rmd160.exec rspec.f];
    rewrite ?H0, ?H1, ?H2, ?H3, ?H4; by apply macro_step.
Qed.

Lemma exec_call2 X r j :
  (j < 80)%nat → length r = 5%nat →
  view (S j) (rmd160.exec X r (call2 j)) = rspec.step2 X (view j r) j ∧
  length (rmd160.exec X r (call2 j)) = 5%nat.
Proof.
  intros Hj Hr. destruct K2_values as (H0 & H1 & H2 & H3 & H4).
  unfold call2, rspec.step2. destruct (round_cases j Hj) as [E|[E|[E|[E|E]]]]; rewrite E; cbn [rmd160.exec rspec.f Nat.sub];
    rewrite ?H0, ?H1, ?H2, ?H3, ?H4; by apply macro_step.
Qed.

Lemma view_0 r : length r = 5%nat → view 0 r = r.
Proof. intros Hr. do 5 (destruct r as [|? r]; [discriminate Hr|]). by destruct r. Qed.

(** Eighty calls from a register file are eighty steps from its values. *)
Lemma calls_ok (X : list Z) (call : nat → rmd160.stmt) (stp : list Z → list Z → nat → list Z) r :
  (∀ r j, (j < 80)%nat → length r = 5%nat →
    view (S j) (rmd160.exec X r (call j)) = stp X (view j r) j ∧ length (rmd160.exec X r (call j)) = 5%nat) →
  length r = 5%nat →
  foldl (rmd160.exec X) r (call <$> seq 0 80) = foldl (stp X) r (seq 0 80) ∧
  length (foldl (rmd160.exec X) r (call <$> seq 0 80)) = 5%nat.
Proof.
  intros Hstep Hr.
  assert (∀ n, (n ≤ 80)%nat →
    view n (foldl (rmd160.exec X) r (call <$> seq 0 n)) = foldl (stp X) r (seq 0 n) ∧
    length (foldl (rmd160.exec X) r (call <$> seq 0 n)) = 5%nat) as Hn.
  { induction n as [|n IH]; intros Hn; [split; [by apply view_0|done]|].
    destruct IH as [IHv IHl]; [lia|]. rewrite seq_S, fmap_app, !foldl_app. cbn [foldl fmap list_fmap Nat.add].
    rewrite <- IHv. by apply Hstep. }
  destruct (Hn 80%nat ltac:(lia)) as [Hv Hl]. split; [|done]. rewrite <- Hv, view_mod.
  change (80 `mod` 5)%nat with 0%nat. by rewrite view_0.
Qed.

(** The unrolled compression function is the reference one. *)
Lemma MDcompress_ok h X : length h = 5%nat → rmd160.MDcompress h X = rspec.compress h X.
Proof.
  intros Hh. unfold rmd160.MDcompress, rspec.compress. rewrite line1_calls, line2_calls.
  destruct (calls_ok X call1 rspec.step1 h (exec_call1 X) Hh) as [-> _].
  destruct (calls_ok X call2 rspec.step2 h (exec_call2 X) Hh) as [-> _].
  cbv zeta. unfold rmd160.aa, rmd160.bb, rmd160.cc, rmd160.dd, rmd160.ee. f_equal. f_equal. lia.
Qed.

(** ** The message *)

Lemma byte_bit x i : is_byte x → 8 ≤ i → Z.testbit x i = false.
Proof. intros Hx Hi. apply (fits_bits 8) in Hx as [_ Hx]; [|lia]. by apply Hx. Qed.

Lemma BYTES_TO_DWORD_ok p :
  bytes_ok p → (4 ≤ length p)%nat → BYTES_TO_DWORD p = le_decode (take 4 p).
Proof.
  intros Hp Hl. do 4 (destruct p as [|? p]; [cbn in Hl; lia|]).
  do 4 (apply Forall_cons_1 in Hp as [? Hp]). unfold is_byte in *.
  unfold BYTES_TO_DWORD. cbn [arr nth take le_decode foldr].
  assert (∀ x n, is_byte x → 0 ≤ n ≤ 24 → u32 (Z.shiftl x n) = Z.shiftl x n) as Hu.
  { intros x n Hx Hn. unfold is_byte in Hx. rewrite Z.shiftl_mul_pow2 by lia. apply Z.mod_small.
    assert (0 < 2 ^ n) by (apply Z.pow_pos_nonneg; lia). assert (2 ^ n ≤ 2 ^ 24) by (apply Z.pow_le_mono_r; lia).
    split; [nia|]. change (2 ^ 32) with (256 * 2 ^ 24). nia. }
  rewrite !Hu by (done || lia).
  apply Z.bits_inj'. intros i Hi. rewrite !Z.lor_spec, !Z.shiftl_spec by done. rewrite testbit_low by done.
  destruct (decide (i < 8)); [rewrite !Z.testbit_neg_r by lia; by rewrite ?orb_false_l|].
  rewrite (byte_bit z i), orb_false_r by (done || lia). rewrite testbit_low by (done || lia).
  destruct (decide (i - 8 < 8)); [rewrite !(Z.testbit_neg_r _ (i - _)) by lia; by rewrite ?orb_false_l|].
  rewrite (byte_bit z0), orb_false_r by (done || lia). rewrite testbit_low by (done || lia).
  replace (i - 8 - 8) with (i - 16) by lia.
  destruct (decide (i - 16 < 8)); [rewrite (Z.testbit_neg_r _ (i - 24)) by lia; by rewrite ?orb_false_l|].
  rewrite (byte_bit z1), orb_false_r by (done || lia). rewrite testbit_low by (done || lia).
  replace (i - 16 - 8) with (i - 24) by lia. case_decide; [done|]. rewrite Z.bits_0. apply byte_bit; [done|lia].
Qed.

Lemma length_compress h X : length (rspec.compress h X) = 5%nat.
Proof. done. Qed.

Lemma length_foldl_compress l h : length h = 5%nat → length (foldl rspec.compress h l) = 5%nat.
Proof. revert h. induction l; intros h Hh; [done|]. by apply IHl. Qed.

Lemma take_drop_take {A} (k j n : nat) (l : list A) : (k + j ≤ n)%nat → take j (drop k (take n l)) = take j (drop k l).
Proof. intros. rewrite skipn_firstn_comm, take_take, Nat.min_l by lia. done. Qed.

Lemma words_take m : rspec.words (take 64 m) = rspec.words m.
Proof.
  unfold rspec.words. apply list_fmap_ext. intros i x Hx. apply lookup_seq in Hx as [-> Hi].
  by rewrite take_drop_take by lia.
Qed.

Lemma current_words m :
  bytes_ok m → (64 ≤ length m)%nat →
  (λ i, BYTES_TO_DWORD (drop (4 * i) m)) <$> seq 0 16 = rspec.words m.
Proof.
  intros Hm Hl. unfold rspec.words. apply list_fmap_ext. intros i x Hx. apply lookup_seq in Hx as [-> Hi].
  apply BYTES_TO_DWORD_ok; [by apply Forall_drop|]. rewrite length_drop. lia.
Qed.

Lemma chunks_ok fuel h m :
  length h = 5%nat → bytes_ok m → (length m < fuel)%nat →
  chunks fuel h m (len m) =
    Ok (foldl rspec.compress h (rspec.words <$> blocks (length m / 64) 64 m), drop (length m / 64 * 64) m).
Proof.
  revert h m. induction fuel as [|fuel IH]; intros h m Hh Hm Hf; [lia|]. cbn [chunks]. unfold len.
  case_decide as Hl.
  - rewrite current_words, MDcompress_ok by (done || lia).
    replace (Z.of_nat (length m) - 64) with (len (drop 64 m)) by (unfold len; rewrite length_drop; lia).
    rewrite IH; [|apply length_compress|by apply Forall_drop|rewrite length_drop; lia].
    assert (length m / 64 = S (length (drop 64 m) / 64))%nat as Eq.
    { rewrite length_drop. replace (length m) with (length m - 64 + 1 * 64)%nat at 1 by lia.
      rewrite Nat.div_add by lia. lia. }
    rewrite Eq. cbn [blocks fmap list_fmap foldl]. rewrite words_take, drop_drop. done.
  - rewrite Nat.div_small by lia. done.
Qed.

(** ** The last block *)

Lemma length_words b : length (rspec.words b) = 16%nat.
Proof. done. Qed.

Lemma words_lookup b i : (i < 16)%nat → rspec.words b !! i = Some (le_decode (take 4 (drop (4 * i) b))).
Proof. intros. unfold rspec.words. by rewrite list_lookup_fmap, lookup_seq_lt. Qed.

Lemma insert_take_drop' (b : bytes) k j x :
  (j < 4)%nat → <[j := x]> (take 4 (drop k b)) = take 4 (drop k (<[(k + j)%nat := x]> b)).
Proof.
  intros Hj. apply list_eq. intros i. destruct (decide (i < 4)%nat) as [Hi|].
  - destruct (decide (i = j)) as [->|].
    + rewrite lookup_take_lt, lookup_drop by done. rewrite !list_lookup_insert.
      rewrite length_take, length_drop. repeat case_decide; try lia; try done.
      by rewrite lookup_take_lt, lookup_drop by done.
    + rewrite list_lookup_insert_ne, !lookup_take_lt, !lookup_drop, list_lookup_insert_ne by (done || lia). done.
  - rewrite lookup_take_ge by lia. apply lookup_ge_None. rewrite length_insert, length_take. lia.
Qed.

Lemma words_set b i x :
  bytes_ok b → is_byte x → length b = 64%nat → (i < 64)%nat → arr b i = 0 →
  rspec.words (<[i := x]> b) =
    <[(i / 4)%nat := Z.lxor (arr (rspec.words b) (i / 4)) (Z.shiftl x (8 * Z.of_nat (i `mod` 4)))]> (rspec.words b).
Proof.
  intros Hb Hx Hl Hi H0. pose proof (Nat.div_mod_eq i 4) as Hdm. pose proof (Nat.mod_upper_bound i 4 ltac:(lia)) as Hm.
  assert (i / 4 < 16)%nat as Hd by (apply Nat.Div0.div_lt_upper_bound; lia).
  apply list_eq. intros j. destruct (decide (j < 16)%nat) as [Hj|Hj].
  2: { by rewrite !lookup_ge_None_2 by (rewrite ?length_insert, length_words; lia). }
  rewrite words_lookup by done. destruct (decide (j = i / 4)%nat) as [->|Hne].
  - rewrite list_lookup_insert_eq by (rewrite ?length_words; lia). f_equal.
    rewrite (arr_lookup _ _ _ (words_lookup b (i / 4) Hd)).
    rewrite <- le_decode_set.
    + f_equal. rewrite (insert_take_drop' b (4 * (i / 4)) (i `mod` 4) x) by lia. do 3 f_equal. lia.
    + by apply Forall_take, Forall_drop.
    + done.
    + rewrite length_take, length_drop. lia.
    + unfold arr. rewrite nth_lookup, lookup_take_lt, lookup_drop by done. unfold arr in H0. rewrite nth_lookup in H0.
      by replace (4 * (i / 4) + i `mod` 4)%nat with i by lia.
  - rewrite list_lookup_insert_ne, words_lookup by done. do 2 f_equal. apply list_eq. intros k.
    destruct (decide (k < 4)%nat); [|by rewrite !lookup_take_ge by lia].
    rewrite !lookup_take_lt, !lookup_drop, list_lookup_insert_ne by (done || lia). done.
Qed.

Lemma shiftl_u32 x k : is_byte x → (k < 4)%nat → u32 (Z.shiftl x (8 * Z.of_nat k)) = Z.shiftl x (8 * Z.of_nat k).
Proof.
  intros Hx Hk. unfold is_byte in Hx. rewrite Z.shiftl_mul_pow2 by lia. apply Z.mod_small.
  assert (0 < 2 ^ (8 * Z.of_nat k)) by (apply Z.pow_pos_nonneg; lia).
  assert (2 ^ (8 * Z.of_nat k) ≤ 2 ^ 24) by (apply Z.pow_le_mono_r; lia).
  change (2 ^ 32) with (256 * 2 ^ 24). nia.
Qed.

Lemma zeros_ok n : bytes_ok (replicate n 0).
Proof. apply Forall_replicate. unfold is_byte. lia. Qed.

(** [MDfinish] copies the rest of the message into a zero block. *)
Lemma put_bytes rest n :
  bytes_ok rest → (n ≤ length rest)%nat → (length rest ≤ 64)%nat →
  foldl (rmd160.put_byte rest) (replicate 16 0) (seq 0 n) = rspec.words (take n rest ++ replicate (64 - n) 0).
Proof.
  intros Hr. induction n as [|n IH]; intros Hn Hl; [done|].
  rewrite seq_S, foldl_app, IH by lia. cbn [foldl Nat.add]. unfold rmd160.put_byte.
  assert (is_byte (arr rest n)) as Hb by (apply arr_ok; [unfold is_byte; lia|done]).
  rewrite shiftl_u32 by (try apply Nat.mod_upper_bound; done).
  rewrite <- words_set; [|by apply Forall_app_2; [apply Forall_take|apply zeros_ok]|done
    |rewrite length_app, length_take, length_replicate; lia|lia|].
  - f_equal. rewrite insert_app_r_alt by (rewrite length_take; lia).
    rewrite length_take_le by lia. rewrite Nat.sub_diag. replace (64 - n)%nat with (S (64 - S n)) by lia.
    cbn [replicate insert list_insert]. assert (rest !! n = Some (arr rest n)) as E.
    { unfold arr. rewrite nth_lookup. destruct (rest !! n) eqn:E; [done|]. apply lookup_ge_None in E. lia. }
    rewrite (take_S_r _ _ _ E), <- app_assoc. done.
  - rewrite arr_app, length_take_le, decide_False by lia. apply arr_replicate.
Qed.

(** The last two words of a block are the 64-bit number it ends with. *)
Lemma words_tail c v :
  length c = 56%nat →
  <[15%nat := (v / 2 ^ 32) `mod` 2 ^ 32]> (<[14%nat := v `mod` 2 ^ 32]> (rspec.words (c ++ replicate 8 0))) =
  rspec.words (c ++ le_encode 8 v).
Proof.
  intros Hc. apply list_eq. intros j. destruct (decide (j < 16)%nat) as [Hj|Hj].
  2: { by rewrite !lookup_ge_None_2 by (rewrite ?length_insert, length_words; lia). }
  rewrite (words_lookup (c ++ le_encode 8 v)) by done.
  destruct (decide (j = 15)%nat) as [->|]; [|destruct (decide (j = 14)%nat) as [->|]].
  - rewrite list_lookup_insert_eq by (rewrite length_insert, length_words; lia). f_equal.
    rewrite drop_app_ge by lia. rewrite Hc. change (drop (4 * 15 - 56) (le_encode 8 v)) with
      (le_encode 4 (v / 256 / 256 / 256 / 256)).
    rewrite take_ge by (by rewrite length_le_encode). rewrite le_decode_encode. f_equal.
    rewrite !Z.div_div by lia. done.
  - rewrite list_lookup_insert_ne, list_lookup_insert_eq by (rewrite ?length_words; lia). f_equal.
    rewrite drop_app_ge by lia. rewrite Hc. change (drop (4 * 14 - 56) (le_encode 8 v)) with (le_encode 8 v).
    change (take 4 (le_encode 8 v)) with (le_encode 4 v). by rewrite le_decode_encode.
  - rewrite !list_lookup_insert_ne, words_lookup by lia. do 2 f_equal.
    rewrite !drop_app_le, !take_app_le by (rewrite ?length_drop; lia). done.
Qed.

Definition tail (n : Z) : bytes :=
  0x80 :: replicate (Z.to_nat ((55 - n) `mod` 64)) 0 ++ le_encode 8 (8 * n).

Lemma one_bit rest n :
  bytes_ok rest → 0 ≤ n → Z.of_nat (length rest) = n `mod` 64 →
  let X := foldl (rmd160.put_byte rest) (replicate 16 0) (seq 0 (Z.to_nat (Z.land n 63))) in
  let w := Z.to_nat (Z.land (Z.shiftr n 2) 15) in
  <[w := Z.lxor (arr X w) (u32 (Z.shiftl 1 (8 * Z.land n 3 + 7)))]> X =
  rspec.words (rest ++ 0x80 :: replicate (63 - length rest) 0).
Proof.
  intros Hr Hn Hl. cbv zeta. change 63 with (Z.ones 6). change 15 with (Z.ones 4). change 3 with (Z.ones 2).
  rewrite !Z.land_ones, Z.shiftr_div_pow2 by lia. change (2 ^ 6) with 64. change (2 ^ 4) with 16. change (2 ^ 2) with 4.
  rewrite <- Hl, Nat2Z.id. pose proof (Z.mod_pos_bound n 64 ltac:(lia)) as Hb.
  rewrite put_bytes, firstn_all by (done || lia). set (r := length rest) in *.
  assert ((n / 4) `mod` 16 = Z.of_nat (r / 4)) as ->.
  { rewrite Nat2Z.inj_div, Hl. change (Z.of_nat 4) with 4.
    rewrite (Z.div_mod n 64) at 1 by lia. replace (64 * (n / 64) + n `mod` 64) with (n `mod` 64 + 16 * (n / 64) * 4) by lia.
    rewrite Z.div_add, Z.add_comm, (Z.mul_comm 16), Z.add_comm, Z.mod_add by lia. apply Z.mod_small.
    split; [apply Z.div_pos; lia|apply Z.div_lt_upper_bound; lia]. }
  assert (n `mod` 4 = Z.of_nat (r `mod` 4)) as ->.
  { rewrite Nat2Z.inj_mod, Hl. change (Z.of_nat 4) with 4.
    rewrite (Z.div_mod n 64) at 1 by lia. replace (64 * (n / 64) + n `mod` 64) with (n `mod` 64 + 16 * (n / 64) * 4) by lia.
    by rewrite Z.mod_add by lia. }
  rewrite Nat2Z.id, Z.add_comm, <- Z.shiftl_shiftl by lia. change (Z.shiftl 1 7) with 0x80.
  rewrite shiftl_u32 by (try apply Nat.mod_upper_bound; done).
  rewrite <- words_set; [|apply Forall_app_2; [done|apply zeros_ok]|done
    |rewrite length_app, length_replicate; lia|lia|].
  - f_equal. rewrite insert_app_r_alt by done. fold r. rewrite Nat.sub_diag.
    by replace (64 - r)%nat with (S (63 - r)) by lia.
  - rewrite arr_app, decide_False by lia. apply arr_replicate.
Qed.

Lemma MDfinish_ok h rest n :
  length h = 5%nat → bytes_ok rest → 0 ≤ n < 2 ^ 32 → Z.of_nat (length rest) = n `mod` 64 →
  rmd160.MDfinish h rest n 0 =
  foldl rspec.compress h (rspec.words <$> blocks (length (rest ++ tail n) / 64) 64 (rest ++ tail n)).
Proof.
  intros Hh Hr Hn Hl. unfold rmd160.MDfinish. rewrite (one_bit rest n) by (done || lia).
  pose proof (Z.mod_pos_bound n 64 ltac:(lia)) as Hb. set (r := length rest) in *.
  assert (Z.land n 63 = Z.of_nat r) as -> by (change 63 with (Z.ones 6); rewrite Z.land_ones by lia; done).
  assert (u32 (Z.shiftl n 3) = (8 * n) `mod` 2 ^ 32) as ->.
  { unfold u32. rewrite Z.shiftl_mul_pow2 by lia. f_equal. lia. }
  assert (Z.lor (Z.shiftr n 29) (u32 (Z.shiftl 0 3)) = (8 * n / 2 ^ 32) `mod` 2 ^ 32) as ->.
  { change (u32 (Z.shiftl 0 3)) with 0. rewrite Z.lor_0_r, Z.shiftr_div_pow2 by lia.
    change (2 ^ 32) with (8 * 2 ^ 29). rewrite Z.div_mul_cancel_l by lia. rewrite Z.mod_small; [done|].
    split; [apply Z.div_pos; lia|]. apply Z.div_lt_upper_bound; lia. }
  assert ((55 - n) `mod` 64 = (55 - Z.of_nat r) `mod` 64) as Em.
  { rewrite Hl. by rewrite Zminus_mod_idemp_r. }
  unfold tail. rewrite Em. case_decide as Hc.
  - assert ((55 - Z.of_nat r) `mod` 64 = 119 - Z.of_nat r) as ->.
    { symmetry. apply Zmod_unique with (-1); lia. }
    replace (Z.to_nat (119 - Z.of_nat r)) with (63 - r + 56)%nat by lia. rewrite replicate_add.
    set (b1 := rest ++ 128 :: replicate (63 - r) 0).
    assert (length b1 = 64%nat) as Hb1 by (unfold b1; rewrite length_app; cbn; rewrite length_replicate; lia).
    replace (rest ++ 128 :: (replicate (63 - r) 0 ++ replicate 56 0) ++ le_encode 8 (8 * n))
      with (b1 ++ (replicate 56 0 ++ le_encode 8 (8 * n))) by (unfold b1; by rewrite <- !app_assoc).
    assert (Nat.div (length (b1 ++ replicate 56 0 ++ le_encode 8 (8 * n))) 64 = 2%nat) as ->.
    { rewrite !length_app, Hb1, length_replicate, length_le_encode. done. }
    cbn [blocks fmap list_fmap foldl]. rewrite !words_take.
    assert (rspec.words (b1 ++ replicate 56 0 ++ le_encode 8 (8 * n)) = rspec.words b1) as ->.
    { rewrite <- (words_take (b1 ++ _)), take_app_length' by done. done. }
    rewrite drop_app_length' by done.
    change (replicate 16 0) with (rspec.words (replicate 56 0 ++ replicate 8 0)).
    rewrite words_tail by done. rewrite !MDcompress_ok by done. done.
  - assert ((55 - Z.of_nat r) `mod` 64 = 55 - Z.of_nat r) as -> by (apply Z.mod_small; lia).
    replace (Z.to_nat (55 - Z.of_nat r)) with (55 - r)%nat by lia.
    set (c := rest ++ 128 :: replicate (55 - r) 0).
    assert (length c = 56%nat) as Hlc by (unfold c; rewrite length_app; cbn; rewrite length_replicate; lia).
    replace (rest ++ 128 :: replicate (55 - r) 0 ++ le_encode 8 (8 * n)) with (c ++ le_encode 8 (8 * n))
      by (unfold c; by rewrite <- app_assoc).
    replace (rest ++ 128 :: replicate (63 - r) 0) with (c ++ replicate 8 0).
    2: { unfold c. rewrite <- app_assoc. cbn [app]. rewrite <- replicate_add. do 3 f_equal. lia. }
    assert (Nat.div (length (c ++ le_encode 8 (8 * n))) 64 = 1%nat) as ->.
    { rewrite length_app, Hlc, length_le_encode. done. }
    cbn [blocks fmap list_fmap foldl]. rewrite words_take, words_tail by done. by rewrite MDcompress_ok.
Qed.

Lemma bytes_of_word w :
  0 ≤ w → [u8 w; u8 (Z.shiftr w 8); u8 (Z.shiftr w 16); u8 (Z.shiftr w 24)] = le_encode 4 w.
Proof.
  intros Hw. cbn [le_encode]. rewrite !Z.shiftr_div_pow2 by lia. unfold u8.
  by rewrite !Z.div_div by lia.
Qed.

Lemma compress_nonneg h X : Forall (λ w, 0 ≤ w) (rspec.compress h X).
Proof. repeat constructor; apply Z.mod_pos_bound; lia. Qed.

Lemma foldl_compress_nonneg l h : Forall (λ w, 0 ≤ w) h → Forall (λ w, 0 ≤ w) (foldl rspec.compress h l).
Proof. revert h. induction l; intros h Hh; [done|]. apply IHl, compress_nonneg. Qed.

(** C38. [ripemd160] of the node is RIPEMD-160: for messages shorter than 4
    GiB it returns the reference digest, twenty bytes, although the source
    unrolls both lines of the compression function with renamed registers and
    builds the last block by xor. *)
Theorem ripemd160_is_reference (m : bytes) :
  bytes_ok m → len m < 2 ^ 32 →
  ripemd160 m = Ok (rspec.digest m) ∧ hash_ok 20 (rspec.digest m).
Proof.
  intros Hm Hl. assert (0 ≤ len m) as H0 by (unfold len; lia).
  assert (u32 (len m) = len m) as Eu by (apply Z.mod_small; lia).
  pose proof (Nat.div_mod_eq (length m) 64) as Hdm.
  pose proof (Nat.mod_upper_bound (length m) 64 ltac:(lia)) as Hmod.
  set (k := (length m / 64)%nat) in *. set (rest := drop (k * 64) m).
  assert (length rest = length m `mod` 64)%nat as Hrest by (unfold rest; rewrite length_drop; lia).
  set (h := foldl rspec.compress rmd160.MDinit (rspec.words <$> blocks k 64 m)).
  assert (length h = 5%nat) as Hh by (by apply length_foldl_compress).
  assert (rmd160.MDfinish h rest (len m) 0 =
    foldl rspec.compress rmd160.MDinit (rspec.words <$> blocks (length (rspec.pad m) / 64) 64 (rspec.pad m))) as Ef.
  { rewrite MDfinish_ok; [|done|by apply Forall_drop|lia|].
    2: { rewrite Hrest, Nat2Z.inj_mod. done. }
    change (rspec.pad m) with (m ++ tail (len m)). set (t := tail (len m)).
    replace (m ++ t) with (take (k * 64) m ++ (rest ++ t)) by (unfold rest; by rewrite app_assoc, take_drop).
    assert (length (take (k * 64) m) = k * 64)%nat as Hlt by (rewrite length_take; lia).
    rewrite (blocks_split k 64 (take (k * 64) m) (rest ++ t)), fmap_app, foldl_app by lia. f_equal. unfold h.
    rewrite <- (blocks_app k 64 (take (k * 64) m) rest) by lia. unfold rest. by rewrite take_drop. }
  assert (ripemd160 m = Ok (rspec.digest m)) as E.
  { unfold ripemd160. rewrite Eu, chunks_ok by (done || lia). cbv beta iota delta [mbind res_bind]. fold k rest h.
    rewrite Ef. apply (f_equal Ok). unfold rspec.digest. f_equal. apply list_fmap_ext.
    intros i w Hw. apply bytes_of_word. eapply (Forall_lookup_1 (λ w, 0 ≤ w)); [|exact Hw].
    apply foldl_compress_nonneg. repeat constructor; lia. }
  split; [done|]. unfold rspec.digest. set (l := foldl _ _ _).
  assert (length l = 5%nat) as Hl5 by (by apply length_foldl_compress). clearbody l.
  split; [apply Forall_concat, Forall_fmap, Forall_true; intros w; apply le_encode_ok|].
  do 5 (destruct l as [|? l]; [discriminate Hl5|]). by destruct l.
Qed.

Lemma ripemd160_is_reference_witness :
  ripemd160 [1; 2; 3] = Ok (rspec.digest [1; 2; 3]) ∧ hash_ok 20 (rspec.digest [1; 2; 3]).
Proof. apply (ripemd160_is_reference [1; 2; 3]); [by apply (bool_decide_unpack _)|by vm_compute]. Defined.
