(* ===== verification/PBFTMsg.v ===== *)
(** * PBFT messages

    Models libconsensus/pbft/Common.h: the packet every PBFT message travels
    in, the base message [PBFTMsg], and the prepare, sign, commit and
    view-change requests, with their RLP codecs. The wall clock is an argument
    of the constructors that read it. *)

From S2P Require Import Prelude RLP Hex Crypto.

Local Open Scope Z_scope.

(** ** Types and constants *)

Definition MAXIDX : Z := UINT16_MAX.
Definition MAXVIEW : Z := INT64_MAX.
Definition MAXTTL : Z := 2.

(** [PBFTPacketType]. *)
Definition PrepareReqPacket : Z := 0.
Definition SignReqPacket : Z := 1.
Definition CommitReqPacket : Z := 2.
Definition ViewChangeReqPacket : Z := 3.
Definition PBFTPacketCount : Z := 4.

(** ** PBFTMsgPacket *)

(** The fields that travel and those [setOtherField] fills in on receipt. *)
Record PBFTMsgPacket := MkPacket {
  node_idx : Z;
  node_id : bytes;
  packet_id : Z;
  ttl : Z;
  data : bytes;
  pkt_timestamp : Z;
  endpoint : bytes;
}.

Definition PBFTMsgPacket_new (now : Z) : PBFTMsgPacket :=
  MkPacket 0 (zero_hash 64) 0 MAXTTL [] (u256 now) [].

Definition packet_streamRLPFields (p : PBFTMsgPacket) (s : RLPStream) : res RLPStream :=
  s ← append_unsigned s (packet_id p);
  s ← append_unsigned s (ttl p);
  append_bytes s (data p) false.

(** [list_rlp.appendList(1).append(tmp.out()); list_rlp.swapOut(encodedBytes)]. *)
Definition wrap_fields (fields : RLPStream → res RLPStream) : res bytes :=
  tmp ← fields RLPStream0;
  b ← out tmp;
  s ← appendList RLPStream0 1;
  s ← append_bytes s b false;
  out s.

Definition packet_encode (p : PBFTMsgPacket) : res bytes := wrap_fields (packet_streamRLPFields p).

Definition packet_populate (p : PBFTMsgPacket) (rlp : bytes) : res PBFTMsgPacket :=
  '(f0, c) ← rlp_index rlp rlp_cache0 0;
  id ← toInt_u8 f0 Strict;
  '(f1, c) ← rlp_index rlp c 1;
  t ← toInt_u8 f1 Strict;
  '(f2, _) ← rlp_index rlp c 2;
  d ← toBytes f2 LaissezFaire;
  Ok (MkPacket (node_idx p) (node_id p) id t d (pkt_timestamp p) (endpoint p)).

Definition packet_decode (p : PBFTMsgPacket) (d : bytes) : res PBFTMsgPacket :=
  rlp ← RLP_new d VeryStrict;
  '(r, _) ← rlp_index rlp rlp_cache0 0;
  packet_populate p r.

Definition setOtherField (p : PBFTMsgPacket) (i : Z) (nodeId ep : bytes) (now : Z) : PBFTMsgPacket :=
  MkPacket i nodeId (packet_id p) (ttl p) (data p) (u256 now) ep.

(** ** PBFTMsg *)

Record PBFTMsg := MkMsg {
  height : Z;        (* int64_t *)
  view : Z;          (* VIEWTYPE = int64_t *)
  idx : Z;           (* IDXTYPE = uint16_t *)
  timestamp : Z;     (* u256 *)
  block_hash : bytes;
  sig : bytes;
  sig2 : bytes;
}.

#[global] Instance PBFTMsg_eq_dec : EqDecision PBFTMsg.
Proof. solve_decision. Defined.

(** The default member values, also what [clear] restores. *)
Definition PBFTMsg0 : PBFTMsg := MkMsg (-1) MAXVIEW MAXIDX Invalid256 h256_0 sig_0 sig_0.
Definition msg_clear (_ : PBFTMsg) : PBFTMsg := MkMsg (-1) MAXVIEW MAXIDX Invalid256 h256_0 sig_0 sig_0.

(** [PBFTMsg::operator==]: [idx] is not compared. *)
Definition msg_eq (a b : PBFTMsg) : bool :=
  bool_decide (height a = height b) && bool_decide (view a = view b) &&
  bool_decide (timestamp a = timestamp b) && bool_decide (block_hash a = block_hash b) &&
  bool_decide (sig a = sig b) && bool_decide (sig2 a = sig2 b).

(** [uniqueKey]. *)
Definition uniqueKey (m : PBFTMsg) : bytes := toHex (sig m) ++ toHex (sig2 m).

Definition msg_streamRLPFields (m : PBFTMsg) (s : RLPStream) : res RLPStream :=
  s ← append_unsigned s (height m);
  s ← append_unsigned s (view m);
  s ← append_unsigned s (idx m);
  s ← append_u256 s (timestamp m);
  s ← append_bytes s (block_hash m) false;
  s ← append_bytes s (sig m) false;
  append_bytes s (sig2 m) false.

Definition msg_encode (m : PBFTMsg) : res bytes := wrap_fields (msg_streamRLPFields m).

(** [populate]; the index cache of the RLP object is returned, because a
    [PrepareReq] goes on reading from the same object. *)
Definition msg_populate (rlp : bytes) : res (PBFTMsg * rlp_cache) :=
  '(f0, c) ← rlp_index rlp rlp_cache0 0;
  h ← toInt_i64 f0 Strict;
  '(f1, c) ← rlp_index rlp c 1;
  v ← toInt_i64 f1 Strict;
  '(f2, c) ← rlp_index rlp c 2;
  i ← toInt_u16 f2 Strict;
  '(f3, c) ← rlp_index rlp c 3;
  t ← toInt_u256 f3 Strict;
  '(f4, c) ← rlp_index rlp c 4;
  bh ← toHash h256_size f4 VeryStrict;
  '(f5, c) ← rlp_index rlp c 5;
  s1 ← toBytesConstRef f5 LaissezFaire;
  '(f6, c) ← rlp_index rlp c 6;
  s2 ← toBytesConstRef f6 LaissezFaire;
  Ok (MkMsg h v i t bh (FixedHash_of sig_size s1) (FixedHash_of sig_size s2), c).

Definition msg_decode (d : bytes) (index : Z) : res PBFTMsg :=
  rlp ← RLP_new d VeryStrict;
  '(r, _) ← rlp_index rlp rlp_cache0 index;
  '(m, _) ← msg_populate r;
  Ok m.

(** The bytes hashed by [fieldsWithoutBlock]. *)
Definition fields_bytes (h v i t : Z) : res bytes :=
  s ← append_unsigned RLPStream0 h;
  s ← append_unsigned s v;
  s ← append_unsigned s i;
  s ← append_u256 s t;
  out s.

(** ** The requests *)

(** A pointer to an execution context; [None] is [nullptr]. *)
Definition ExecPtr : Type := option nat.

Record PrepareReq := MkPrepare {
  pr_msg : PBFTMsg;
  pr_block : bytes;
  p_execContext : ExecPtr;
}.

#[global] Instance PrepareReq_eq_dec : EqDecision PrepareReq.
Proof. solve_decision. Defined.

Definition PrepareReq0 : PrepareReq := MkPrepare PBFTMsg0 [] None.

Definition prepare_streamRLPFields (r : PrepareReq) (s : RLPStream) : res RLPStream :=
  s ← msg_streamRLPFields (pr_msg r) s;
  append_bytes s (pr_block r) false.

Definition prepare_encode (r : PrepareReq) : res bytes := wrap_fields (prepare_streamRLPFields r).

Definition prepare_populate (ctx : ExecPtr) (rlp : bytes) : res PrepareReq :=
  '(m, c) ← msg_populate rlp;
  '(f7, _) ← rlp_index rlp c 7;
  b ← toBytes f7 LaissezFaire;
  Ok (MkPrepare m b ctx).

(** [decode] into a default-constructed request. *)
Definition prepare_decode (d : bytes) (index : Z) : res PrepareReq :=
  rlp ← RLP_new d VeryStrict;
  '(r, _) ← rlp_index rlp rlp_cache0 index;
  prepare_populate None r.

Section construct.
Context `{Crypto}.

Definition fieldsWithoutBlock (h v i t : Z) : res bytes := sha3 <$> fields_bytes h v i t.

(** The constructor shared by the base class and every request: sign the block
    hash, then the other fields. *)
Definition PBFTMsg_new (key : bytes) (h v i : Z) (blockHash : bytes) (now : Z) : res PBFTMsg :=
  let t := u256 now in
  f ← fieldsWithoutBlock h v i t;
  Ok (MkMsg h v i t blockHash (sign key blockHash) (sign key f)).

(** [PrepareReq(req, keyPair, view, idx)]: re-send a committed prepare. *)
Definition PrepareReq_resend (req : PrepareReq) (key : bytes) (v i now : Z) : res PrepareReq :=
  m ← PBFTMsg_new key (height (pr_msg req)) v i (block_hash (pr_msg req)) now;
  Ok (MkPrepare m (pr_block req) None).

(** [PrepareReq(blockStruct, keyPair, view, idx)], given the block's number,
    hash and encoding. *)
Definition PrepareReq_of_block (number : Z) (hash encoded key : bytes) (v i now : Z) :
    res PrepareReq :=
  m ← PBFTMsg_new key number v i hash now;
  Ok (MkPrepare m encoded None).

(** [PrepareReq(req, sealing, keyPair)]: the request of the executed block. *)
Definition PrepareReq_executed (req : PrepareReq) (hash encoded : bytes) (ctx : ExecPtr)
    (key : bytes) (now : Z) : res PrepareReq :=
  m ← PBFTMsg_new key (height (pr_msg req)) (view (pr_msg req)) (idx (pr_msg req)) hash now;
  Ok (MkPrepare m encoded ctx).

(** [SignReq(req, keyPair, idx)]. *)
Definition SignReq_new (req : PrepareReq) (key : bytes) (i now : Z) : res PBFTMsg :=
  PBFTMsg_new key (height (pr_msg req)) (view (pr_msg req)) i (block_hash (pr_msg req)) now.

(** [CommitReq(req, keyPair, idx)]. *)
Definition CommitReq_new (req : PrepareReq) (key : bytes) (i now : Z) : res PBFTMsg :=
  PBFTMsg_new key (height (pr_msg req)) (view (pr_msg req)) i (block_hash (pr_msg req)) now.

(** [ViewChangeReq(keyPair, height, view, idx, hash)]. *)
Definition ViewChangeReq_new (key : bytes) (h v i : Z) (hash : bytes) (now : Z) : res PBFTMsg :=
  PBFTMsg_new key h v i hash now.
End construct.
