(* ===== verification/PBFTMsgFacts.v ===== *)
(** * The PBFT message codec

    Encoding a message and decoding the bytes gives the message back, up to the
    32-bit truncation of [height] and [view] that [RLPStream::append(unsigned)]
    performs. *)

From S2P Require Import Prelude RLP RLPFacts RLPStreamFacts CodecFacts Hex Crypto PBFTMsg.

Local Open Scope Z_scope.

(** ** Definitions *)

(** The field types of a message. *)
Definition msg_ok (m : PBFTMsg) : Prop :=
  - 2 ^ 63 ≤ height m < 2 ^ 63 ∧ - 2 ^ 63 ≤ view m < 2 ^ 63 ∧ 0 ≤ idx m < 2 ^ 16 ∧
  0 ≤ timestamp m < 2 ^ 256 ∧
  hash_ok h256_size (block_hash m) ∧ hash_ok sig_size (sig m) ∧ hash_ok sig_size (sig2 m).

(** What travels of [height] and [view]. *)
Definition truncate (m : PBFTMsg) : PBFTMsg :=
  MkMsg (u32 (height m)) (u32 (view m)) (idx m) (timestamp m) (block_hash m) (sig m) (sig2 m).

(** The encodings of the fields, in order. *)
Definition msg_items (m : PBFTMsg) : list bytes :=
  [enc_data (minimal (u32 (height m))); enc_data (minimal (u32 (view m)));
   enc_data (minimal (idx m)); enc_data (minimal (timestamp m));
   enc_data (block_hash m); enc_data (sig m); enc_data (sig2 m)].

Definition packet_ok (p : PBFTMsgPacket) : Prop :=
  0 ≤ packet_id p < 256 ∧ 0 ≤ ttl p < 256 ∧ bytes_ok (data p) ∧ len (data p) < 2 ^ 32.

Definition packet_items (p : PBFTMsgPacket) : list bytes :=
  [enc_data (minimal (packet_id p)); enc_data (minimal (ttl p)); enc_data (data p)].

(** ** Writing *)

Lemma wrap_fields_enc fields es :
  fields RLPStream0 = add_items es RLPStream0 → len (concat es) < 2 ^ 62 →
  wrap_fields fields = Ok (enc_list (enc_data (concat es))).
Proof.
  intros Hf Hl. unfold wrap_fields. rewrite Hf. unfold RLPStream0. rewrite add_items_top, bind_ok.
  simpl app. change (out (Stream (concat es) [])) with (Ok (concat es)). rewrite bind_ok.
  assert (len (enc_data (concat es)) < 2 ^ 63) as He.
  { pose proof (len_enc_data_le (concat es)). lia. }
  pose proof (appendList_items [enc_data (concat es)] RLPStream0) as H.
  simpl concat in H. rewrite app_nil_r in H. specialize (H He).
  change (Z.of_nat (length [enc_data (concat es)])) with 1 in H. unfold RLPStream0 in *.
  rewrite (add_item_top (enc_list _)) in H.
  destruct (appendList (Stream [] []) 1) as [s|] eqn:E; [|done]. rewrite bind_ok in H. rewrite bind_ok.
  cbn [add_items] in H. rewrite append_bytes_enc by lia.
  destruct (add_item (enc_data (concat es)) s) as [s'|]; [|done]. rewrite bind_ok in H. rewrite bind_ok.
  by injection H as ->.
Qed.

(** ** Reading *)

Lemma read_wrapped D :
  bytes_ok D → len D < 2 ^ 62 →
  RLP_new (enc_list (enc_data D)) VeryStrict = Ok (enc_list (enc_data D)) ∧
  rlp_at (enc_list (enc_data D)) 0 = Ok (enc_data D).
Proof.
  intros Hok Hl. assert (len (enc_data D) < 2 ^ 63) as He by (pose proof (len_enc_data_le D); lia).
  assert (reads (enc_data D) D) as Rd by (apply reads_data; [done|lia]).
  pose proof (reads_list _ He) as R. split; [by apply (reads_RLP_new _ _ R)|].
  rewrite (rlp_at_items _ [enc_data D]); [done| | |simpl concat; by rewrite app_nil_r|done].
  - rewrite (reads_payload_self _ _ R). simpl. by rewrite app_nil_r.
  - constructor; [by exists D|constructor].
Qed.

Lemma msg_items_reads m : msg_ok m → Forall reads_some (msg_items m).
Proof.
  intros (_ & _ & Hi & Ht & [Hb1 Hb2] & [Hs1 Hs2] & [Hs3 Hs4]).
  pose proof (u32_range (height m)). pose proof (u32_range (view m)).
  unfold h256_size, sig_size in *.
  repeat constructor; (apply reads_some_minimal; lia) || (apply reads_some_data; [done|lia]).
Qed.

(** An RLP object whose payload starts with the fields of [m] is read as
    [truncate m], and the object's cache is left at the last field read. *)
Lemma msg_populate_items d m more :
  msg_ok m → payload d = Ok (concat (msg_items m ++ more)) → Forall reads_some more →
  len (concat (msg_items m ++ more)) < 2 ^ 63 →
  msg_populate d = Ok (truncate m, pos_cache (msg_items m ++ more) 6).
Proof.
  intros Hm Hp Hmore Hl.
  assert (Forall reads_some (msg_items m ++ more)) as Hes.
  { apply Forall_app. split; [by apply msg_items_reads|done]. }
  pose proof (rlp_index_field d _ Hp Hes Hl) as H. clear Hp Hes Hl.
  destruct Hm as (Hh & Hv & Hi & Ht & [Hb1 Hb2] & [Hs1 Hs2] & [Hs3 Hs4]).
  pose proof (u32_range (height m)). pose proof (u32_range (view m)).
  unfold msg_populate. unfold h256_size, sig_size in *.
  read_field H 0. rewrite toInt_i64_enc, bind_ok by lia.
  read_field H 1. rewrite toInt_i64_enc, bind_ok by lia.
  read_field H 2. rewrite toInt_u16_enc, bind_ok by lia.
  read_field H 3. rewrite toInt_u256_enc, bind_ok by lia.
  read_field H 4. rewrite toHash_enc_data, bind_ok by (done || lia).
  read_field H 5. rewrite toBytesConstRef_enc_data, bind_ok by (done || lia).
  read_field H 6. rewrite toBytesConstRef_enc_data, bind_ok by (done || lia).
  by rewrite !FixedHash_of_id.
Qed.

Lemma len_msg_items m : msg_ok m → len (concat (msg_items m)) ≤ 1000.
Proof.
  intros (_ & _ & Hi & Ht & [Hb1 Hb2] & [Hs1 Hs2] & [Hs3 Hs4]).
  pose proof (u32_range (height m)). pose proof (u32_range (view m)).
  unfold h256_size, sig_size in *.
  pose proof (len_concat_le (msg_items m) 100) as H'. etrans; [apply H'|simpl; lia].
  assert (∀ b, len b ≤ 65 → len (enc_data b) ≤ 100) as Hd.
  { intros b Hb. pose proof (len_enc_data_le b). lia. }
  assert (∀ i, 0 ≤ i < 2 ^ 256 → len (enc_data (minimal i)) ≤ 100) as Hm.
  { intros i Hi'. pose proof (len_enc_minimal_le i). lia. }
  repeat constructor; (apply Hm; lia) || (apply Hd; lia).
Qed.

Lemma msg_stream_items m s :
  msg_ok m → msg_streamRLPFields m s = add_items (msg_items m) s.
Proof.
  intros (_ & _ & Hi & Ht & [Hb1 Hb2] & [Hs1 Hs2] & [Hs3 Hs4]).
  unfold h256_size, sig_size in *. unfold msg_streamRLPFields, msg_items.
  stream_steps.
Qed.

Lemma msg_items_ok m : msg_ok m → Forall bytes_ok (msg_items m).
Proof.
  intros (_ & _ & Hi & Ht & [Hb1 Hb2] & [Hs1 Hs2] & [Hs3 Hs4]).
  pose proof (u32_range (height m)). pose proof (u32_range (view m)).
  unfold h256_size, sig_size in *.
  repeat constructor; (apply enc_minimal_ok; lia) || (apply enc_data_ok; [done|lia]).
Qed.

(** Decoding the wrapped fields hands [populate] the data item, whose payload
    is the concatenation of the field encodings. *)
Lemma decode_wrapped {A} (es : list bytes) (k : bytes → res A) :
  Forall bytes_ok es → len (concat es) < 2 ^ 62 →
  (rlp ← RLP_new (enc_list (enc_data (concat es))) VeryStrict;
   '(r, _) ← rlp_index rlp rlp_cache0 0; k r) = k (enc_data (concat es)) ∧
  payload (enc_data (concat es)) = Ok (concat es).
Proof.
  intros Hok Hl. apply concat_ok in Hok. destruct (read_wrapped _ Hok Hl) as [-> Hr].
  split; [|apply reads_payload_self, reads_data; [done|lia]].
  rewrite bind_ok. unfold rlp_at in Hr.
  destruct (rlp_index _ rlp_cache0 0) as [[r c]|]; [|done].
  cbn in Hr. injection Hr as ->. done.
Qed.

Lemma prepare_stream_items r s :
  msg_ok (pr_msg r) → len (pr_block r) < 2 ^ 61 →
  prepare_streamRLPFields r s = add_items (msg_items (pr_msg r) ++ [enc_data (pr_block r)]) s.
Proof.
  intros Hm Hb. unfold prepare_streamRLPFields. rewrite msg_stream_items by done.
  rewrite add_items_app. destruct (add_items (msg_items _) s) as [s'|]; [|done].
  rewrite !bind_ok. cbn [add_items]. rewrite append_bytes_enc by lia. by destruct (add_item _ s').
Qed.

Lemma packet_stream_items p s :
  packet_ok p → packet_streamRLPFields p s = add_items (packet_items p) s.
Proof.
  intros (Hi & Ht & Hd & Hl). unfold packet_streamRLPFields, packet_items.
  stream_steps.
Qed.

(** ** The signed fields *)

Lemma fields_bytes_enc h v i t :
  0 ≤ i < 2 ^ 16 → 0 ≤ t < 2 ^ 256 →
  fields_bytes h v i t =
    Ok (concat [enc_data (minimal (u32 h)); enc_data (minimal (u32 v)); enc_data (minimal i);
                enc_data (minimal t)]).
Proof.
  intros Hi Ht. unfold fields_bytes, RLPStream0.
  rewrite append_unsigned_enc, add_item_top, bind_ok, append_unsigned_enc, add_item_top, bind_ok.
  rewrite append_unsigned_enc, add_item_top, bind_ok, (u32_small i) by lia.
  rewrite append_u256_enc, add_item_top, bind_ok by lia. cbn [concat].
  rewrite !app_nil_l, app_nil_r, <- !app_assoc. done.
Qed.

Lemma msg_roundtrip m :
  msg_ok m → ∃ e, msg_encode m = Ok e ∧ msg_decode e 0 = Ok (truncate m).
Proof.
  intros Hm. pose proof (len_msg_items m Hm) as Hl. pose proof (msg_items_ok m Hm) as Hok.
  exists (enc_list (enc_data (concat (msg_items m)))). split.
  - apply wrap_fields_enc; [by apply msg_stream_items|lia].
  - unfold msg_decode.
    destruct (decode_wrapped (msg_items m) (λ r, '(m, _) ← msg_populate r; Ok m) Hok) as [-> Hp]; [lia|].
    rewrite (msg_populate_items _ m []); [done|done| | |]; rewrite ?app_nil_r; [done|constructor|lia].
Qed.

Lemma prepare_roundtrip r :
  msg_ok (pr_msg r) → bytes_ok (pr_block r) → len (pr_block r) < 2 ^ 61 →
  ∃ e, prepare_encode r = Ok e ∧
       prepare_decode e 0 = Ok (MkPrepare (truncate (pr_msg r)) (pr_block r) None) ∧ bytes_ok e ∧ e ≠ [].
Proof.
  intros Hm Hb Hl. pose proof (len_msg_items _ Hm) as Hl'.
  set (es := msg_items (pr_msg r) ++ [enc_data (pr_block r)]).
  assert (Forall bytes_ok es) as Hok.
  { apply Forall_app. split; [by apply msg_items_ok|]. constructor; [apply enc_data_ok; [done|lia]|constructor]. }
  assert (len (concat es) < 2 ^ 62) as Hles.
  { unfold es. rewrite concat_app, len_app. cbn [concat]. rewrite app_nil_r.
    pose proof (len_enc_data_le (pr_block r)). lia. }
  assert (Forall reads_some [enc_data (pr_block r)]) as Hmore.
  { constructor; [apply reads_some_data; [done|lia]|constructor]. }
  exists (enc_list (enc_data (concat es))). split_and!.
  - apply wrap_fields_enc; [by apply prepare_stream_items|done].
  - unfold prepare_decode. destruct (decode_wrapped es (prepare_populate None) Hok Hles) as [-> Hp].
    unfold prepare_populate. rewrite (msg_populate_items _ _ _ Hm Hp Hmore), bind_ok by (unfold es in *; lia).
    assert (Forall reads_some es) as Hes.
    { apply Forall_app. split; [by apply msg_items_reads|done]. }
    assert (len (concat es) < 2 ^ 63) as Hles' by lia.
    pose proof (rlp_index_field _ es Hp Hes Hles') as H.
    assert (cache_at es (pos_cache es 6)) by (apply cache_at_pos; unfold es; rewrite length_app; simpl; lia).
    fold es. read_field H 7. by rewrite toBytes_enc_data, bind_ok by (done || lia).
  - pose proof (len_enc_data_le (concat es)). apply enc_list_ok; [|lia].
    apply enc_data_ok; [by apply concat_ok|lia].
  - unfold enc_list, hdr. by case_decide.
Qed.

Lemma truncate_id_iff m : truncate m = m ↔ 0 ≤ height m < 2 ^ 32 ∧ 0 ≤ view m < 2 ^ 32.
Proof.
  destruct m as [h v i t b s1 s2]. unfold truncate. cbn [height view idx timestamp block_hash sig sig2].
  split.
  - intros E. injection E as E1 E2. pose proof (u32_range h). pose proof (u32_range v). lia.
  - intros [H1 H2]. by rewrite !u32_small.
Qed.

(** ** Properties *)

(** Round trip of sign, commit and view-change requests: for every message
    within its field types, encoding succeeds and decoding the bytes gives the
    message with [height] and [view] reduced modulo 2^32. *)
Theorem msg_codec m :
  msg_ok m → ∃ e, msg_encode m = Ok e ∧ msg_decode e 0 = Ok (truncate m).
Proof. apply msg_roundtrip. Qed.

Lemma msg_codec_witness :
  ∃ e, msg_encode (MkMsg 5 (2 ^ 32 + 7) 3 1542000000000 h256_0 sig_0 sig_0) = Ok e ∧
       msg_decode e 0 = Ok (MkMsg 5 7 3 1542000000000 h256_0 sig_0 sig_0).
Proof.
  apply (msg_codec (MkMsg 5 (2 ^ 32 + 7) 3 1542000000000 h256_0 sig_0 sig_0)).
  unfold msg_ok. cbn [height view idx timestamp block_hash sig sig2].
  assert (∀ n, bytes_ok (replicate n 0)) by (intros n; apply Forall_replicate; unfold is_byte; lia).
  repeat split; try lia; try (vm_compute; done); apply H.
Defined.

(** The round trip gives the message back exactly when [height] and [view] fit
    in 32 bits; larger ones come back changed. *)
Theorem msg_codec_identity_iff m :
  msg_ok m →
  (∃ e, msg_encode m = Ok e ∧ msg_decode e 0 = Ok m) ↔
  0 ≤ height m < 2 ^ 32 ∧ 0 ≤ view m < 2 ^ 32.
Proof.
  intros Hm. destruct (msg_roundtrip m Hm) as (e & He & Hd). rewrite <- truncate_id_iff. split.
  - intros (e' & He' & Hd'). rewrite He in He'. injection He' as <-. rewrite Hd in Hd'. by injection Hd'.
  - intros Ht. exists e. by rewrite Hd, Ht.
Qed.

Lemma msg_codec_identity_iff_witness :
  (∃ e, msg_encode (MkMsg 5 (2 ^ 32 + 7) 3 9 h256_0 sig_0 sig_0) = Ok e ∧
        msg_decode e 0 = Ok (MkMsg 5 (2 ^ 32 + 7) 3 9 h256_0 sig_0 sig_0)) ↔ False.
Proof.
  rewrite (msg_codec_identity_iff (MkMsg 5 (2 ^ 32 + 7) 3 9 h256_0 sig_0 sig_0)).
  - cbn [height view]. split; [lia|done].
  - unfold msg_ok. cbn [height view idx timestamp block_hash sig sig2].
    assert (∀ n, bytes_ok (replicate n 0)) as Hz by (intros n; apply Forall_replicate; unfold is_byte; lia).
    repeat split; try lia; try (vm_compute; done); apply Hz.
Defined.

(** Round trip of prepare requests, block included: the block bytes come
    back unchanged and the execution context, which does not travel, is null. *)
Theorem prepare_codec r :
  msg_ok (pr_msg r) → bytes_ok (pr_block r) → len (pr_block r) < 2 ^ 61 →
  ∃ e, prepare_encode r = Ok e ∧
       prepare_decode e 0 = Ok (MkPrepare (truncate (pr_msg r)) (pr_block r) None).
Proof. intros. destruct (prepare_roundtrip r) as (e & ? & ? & _); [done..|]. by exists e. Qed.

Lemma prepare_codec_witness :
  ∃ e, prepare_encode (MkPrepare (MkMsg 5 1 3 9 h256_0 sig_0 sig_0) [1; 2; 3] (Some 1%nat)) = Ok e ∧
       prepare_decode e 0 = Ok (MkPrepare (MkMsg 5 1 3 9 h256_0 sig_0 sig_0) [1; 2; 3] None).
Proof.
  apply (prepare_codec (MkPrepare (MkMsg 5 1 3 9 h256_0 sig_0 sig_0) [1; 2; 3] (Some 1%nat))).
  - unfold msg_ok. cbn [pr_msg height view idx timestamp block_hash sig sig2].
    assert (∀ n, bytes_ok (replicate n 0)) by (intros n; apply Forall_replicate; unfold is_byte; lia).
    repeat split; try lia; try (vm_compute; done); apply H.
  - repeat (constructor; [unfold is_byte; lia|]). constructor.
  - done.
Defined.

(** Round trip of the packet around every request: packet type, ttl and
    payload arrive; the sender fields keep the receiver's values. *)
Theorem packet_codec p q :
  packet_ok p →
  ∃ e, packet_encode p = Ok e ∧
       packet_decode q e = Ok (MkPacket (node_idx q) (node_id q) (packet_id p) (ttl p) (data p)
                                 (pkt_timestamp q) (endpoint q)).
Proof.
  intros Hp. pose proof Hp as (Hi & Ht & Hd & Hl).
  assert (Forall bytes_ok (packet_items p)) as Hok.
  { repeat constructor; [apply enc_minimal_ok; lia|apply enc_minimal_ok; lia|apply enc_data_ok; [done|lia]]. }
  assert (len (concat (packet_items p)) < 2 ^ 62) as Hlen.
  { pose proof (len_concat_le (packet_items p) (2 ^ 60)) as H. simpl length in H.
    assert (len (concat (packet_items p)) ≤ 2 ^ 60 * 3); [|lia]. apply H.
    pose proof (len_enc_minimal_le (packet_id p)). pose proof (len_enc_minimal_le (ttl p)).
    pose proof (len_enc_data_le (data p)). repeat constructor; lia. }
  assert (Forall reads_some (packet_items p)) as Hes.
  { repeat constructor; [apply reads_some_minimal; lia|apply reads_some_minimal; lia|].
    apply reads_some_data; [done|lia]. }
  exists (enc_list (enc_data (concat (packet_items p)))). split.
  - apply wrap_fields_enc; [by apply packet_stream_items|done].
  - unfold packet_decode. destruct (decode_wrapped (packet_items p) (packet_populate q) Hok Hlen) as [-> Hpl].
    assert (len (concat (packet_items p)) < 2 ^ 63) as Hlen' by lia.
    pose proof (rlp_index_field _ _ Hpl Hes Hlen') as H. unfold packet_populate.
    read_field H 0. rewrite toInt_u8_enc, bind_ok by lia.
    read_field H 1. rewrite toInt_u8_enc, bind_ok by lia.
    read_field H 2. by rewrite toBytes_enc_data, bind_ok by (done || lia).
Qed.

Lemma packet_codec_witness :
  ∃ e, packet_encode (MkPacket 0 [] 2 1 [7; 8] 0 []) = Ok e ∧
       packet_decode (PBFTMsgPacket_new 9) e = Ok (MkPacket 0 (zero_hash 64) 2 1 [7; 8] 9 []).
Proof.
  apply (packet_codec (MkPacket 0 [] 2 1 [7; 8] 0 []) (PBFTMsgPacket_new 9)).
  repeat split; try (cbn; lia). repeat (constructor; [unfold is_byte; lia|]). constructor.
Defined.

(** The second signature of a message covers exactly its index, its
    timestamp and the low 32 bits of height and view: two messages hash the
    same bytes iff they agree on these. *)
Theorem signed_fields_injective h v i t h' v' i' t' :
  0 ≤ i < 2 ^ 16 → 0 ≤ i' < 2 ^ 16 → 0 ≤ t < 2 ^ 256 → 0 ≤ t' < 2 ^ 256 →
  fields_bytes h v i t = fields_bytes h' v' i' t' ↔
  u32 h = u32 h' ∧ u32 v = u32 v' ∧ i = i' ∧ t = t'.
Proof.
  intros Hi Hi' Ht Ht'. rewrite !fields_bytes_enc by done. cbn [concat].
  pose proof (u32_range h). pose proof (u32_range h'). pose proof (u32_range v). pose proof (u32_range v').
  split; [|by intros (-> & -> & -> & ->)]. intros E. injection E as E.
  apply enc_minimal_prefix in E as [E1 E]; [|lia|lia]. apply enc_minimal_prefix in E as [E2 E]; [|lia|lia].
  apply enc_minimal_prefix in E as [E3 E]; [|lia|lia]. apply enc_minimal_prefix in E as [E4 _]; [|lia|lia].
  done.
Qed.

Lemma signed_fields_injective_witness :
  fields_bytes 1 2 3 4 = fields_bytes (2 ^ 32 + 1) 2 3 4.
Proof. apply signed_fields_injective; [lia|lia|lia|lia|done]. Defined.
