(* ===== verification/Transaction.v ===== *)
(** * Transactions and receipts

    Models libethcore/Transaction.h/.cpp, libethcore/TransactionReceipt.cpp,
    libethcore/LogEntry.cpp and [SignatureStruct] of libdevcrypto/Common.h/.cpp:
    the data, the RLP codecs, the memoised hash and the memoised sender. The
    [h256] halves of a signature are the numbers they encode. The RPC callback
    of a transaction is not modelled. *)

From S2P Require Import Prelude RLP Crypto.

Local Open Scope Z_scope.

(** ** SignatureStruct *)

Record SignatureStruct := MkSig { sig_r : Z; sig_s : Z; sig_v : Z }.

Definition VBase : Z := 27.

#[global] Instance SignatureStruct_eq_dec : EqDecision SignatureStruct.
Proof. solve_decision. Defined.

Definition SignatureStruct0 : SignatureStruct := MkSig 0 0 0.

(** The memory of the struct: [operator Signature]. *)
Definition sig_bytes (s : SignatureStruct) : bytes :=
  toBigEndian 32 (sig_r s) ++ toBigEndian 32 (sig_s s) ++ [sig_v s].

Definition sig_encode (v : SignatureStruct) (s : RLPStream) : res RLPStream :=
  s ← append_unsigned s (u8 (sig_v v + VBase));
  s ← append_u256 s (sig_r v);
  append_u256 s (sig_s v).

Definition secp256k1_max : Z := 0xfffffffffffffffffffffffffffffffebaaedce6af48a03bbfd25e8cd0364141.

Definition sig_isValid (s : SignatureStruct) : bool :=
  bool_decide (sig_v s ≤ 1 ∧ sig_r s > 0 ∧ sig_s s > 0 ∧
               sig_r s < secp256k1_max ∧ sig_s s < secp256k1_max).

(** ** Transaction *)

Inductive tx_type := NullTransaction | ContractCreation | MessageCall.
Inductive IncludeSignature := WithoutSignature | WithSignature.
Inductive CheckTransaction := CheckNone | CheckCheap | CheckEverything.

#[global] Instance tx_type_eq_dec : EqDecision tx_type.
Proof. solve_decision. Defined.

#[global] Instance CheckTransaction_eq_dec : EqDecision CheckTransaction.
Proof. solve_decision. Defined.

Record Transaction := MkTx {
  m_type : tx_type;
  m_nonce : Z;
  m_value : Z;
  m_receiveAddress : bytes;
  m_gasPrice : Z;
  m_gas : Z;
  m_data : bytes;
  m_vrs : option SignatureStruct;
  m_hashWith : bytes;
  m_sender : bytes;
  m_blockLimit : Z;
  m_importTime : Z;
}.

#[global] Instance Transaction_eq_dec : EqDecision Transaction.
Proof. solve_decision. Defined.

(** [Transaction()]. *)
Definition Transaction0 : Transaction :=
  MkTx NullTransaction 0 0 Address_0 0 0 [] None h256_0 Address_0 0 0.

(** [operator==]. *)
Definition tx_eq (a b : Transaction) : bool :=
  bool_decide (m_type a = m_type b) &&
  (bool_decide (m_type a = ContractCreation) ||
   bool_decide (m_receiveAddress a = m_receiveAddress b)) &&
  bool_decide (m_value a = m_value b) && bool_decide (m_data a = m_data b).

(** The fields before the signature. *)
Definition tx_stream (t : Transaction) (s : RLPStream) : res RLPStream :=
  s ← append_u256 s (m_nonce t);
  s ← append_u256 s (m_gasPrice t);
  s ← append_u256 s (m_gas t);
  s ← append_u256 s (m_blockLimit t);
  s ← append_bytes s (if decide (m_type t = MessageCall) then m_receiveAddress t else []) false;
  s ← append_u256 s (m_value t);
  append_bytes s (m_data t) false.

(** [encode(trans, sig)]; a null transaction leaves the output untouched. *)
Definition tx_encode (t : Transaction) (sg : IncludeSignature) : res bytes :=
  if decide (m_type t = NullTransaction) then Ok []
  else
    s ← appendList RLPStream0 (match sg with WithSignature => 10 | WithoutSignature => 7 end);
    s ← tx_stream t s;
    s ← (match sg with
         | WithoutSignature => Ok s
         | WithSignature =>
             match m_vrs t with
             | None => Throw TransactionIsUnsigned
             | Some v => sig_encode v s
             end
         end);
    out s.

Section crypto.
Context `{Crypto}.

(** [sha3(sig)]: with the signature the hash is memoised in [m_hashWith]. *)
Definition tx_sha3 (t : Transaction) (sg : IncludeSignature) : res (bytes * Transaction) :=
  match sg with
  | WithSignature =>
      if decide (m_hashWith t ≠ h256_0) then Ok (m_hashWith t, t)
      else
        s ← tx_encode t WithSignature;
        let ret := sha3 s in
        Ok (ret, MkTx (m_type t) (m_nonce t) (m_value t) (m_receiveAddress t) (m_gasPrice t)
                   (m_gas t) (m_data t) (m_vrs t) ret (m_sender t) (m_blockLimit t)
                   (m_importTime t))
  | WithoutSignature => s ← tx_encode t WithoutSignature; Ok (sha3 s, t)
  end.

Definition set_sender (t : Transaction) (a : bytes) : Transaction :=
  MkTx (m_type t) (m_nonce t) (m_value t) (m_receiveAddress t) (m_gasPrice t) (m_gas t) (m_data t)
    (m_vrs t) (m_hashWith t) a (m_blockLimit t) (m_importTime t).

(** [sender()]: recovered once, then memoised in [m_sender]. *)
Definition tx_sender (t : Transaction) : res (bytes * Transaction) :=
  if decide (m_sender t ≠ Address_0) then Ok (m_sender t, t)
  else
    match m_vrs t with
    | None => Throw TransactionIsUnsigned
    | Some v =>
        '(h, _) ← tx_sha3 t WithoutSignature;
        let p := recover (sig_bytes v) h in
        throw_if (p = zero_hash h512_size) InvalidSignature;;
        let a := right160 (sha3 p) in
        Ok (a, set_sender t a)
    end.

(** [safeSender()]. *)
Definition tx_safeSender (t : Transaction) : bytes :=
  match tx_sender t with Ok (a, _) => a | Throw _ => Address_0 end.

(** [decode(rlp, check)] into [t0]; fields that are not decoded keep their
    values. *)
Definition tx_decode (t0 : Transaction) (rlp : bytes) (check : CheckTransaction) : res Transaction :=
  throw_if (¬ isList rlp) InvalidTransactionFormat;;
  '(f0, c) ← rlp_index rlp rlp_cache0 0;
  nonce ← toInt_u256 f0 Strict;
  '(f1, c) ← rlp_index rlp c 1;
  gasPrice ← toInt_u256 f1 Strict;
  '(f2, c) ← rlp_index rlp c 2;
  gas ← toInt_u256 f2 Strict;
  '(f3, c) ← rlp_index rlp c 3;
  blockLimit ← toInt_u256 f3 Strict;
  '(f4, c) ← rlp_index rlp c 4;
  addr ← (if decide (isEmpty f4) then Ok Address_0 else toHash address_size f4 VeryStrict);
  '(f5, c) ← rlp_index rlp c 5;
  value ← toInt_u256 f5 Strict;
  '(f6, c) ← rlp_index rlp c 6;
  throw_if (¬ isData f6) InvalidTransactionFormat;;
  d ← toBytes f6 LaissezFaire;
  '(f8, c) ← rlp_index rlp c 8;
  r ← toInt_u256 f8 Strict;
  '(f9, c) ← rlp_index rlp c 9;
  s ← toInt_u256 f9 Strict;
  '(f7, c) ← rlp_index rlp c 7;
  v ← toInt_u8 f7 Strict;
  let vrs := MkSig r s (u8 (v - VBase)) in
  throw_if (check ≠ CheckNone ∧ sig_isValid vrs = false) InvalidSignature;;
  let t := MkTx (if decide (isEmpty f4) then ContractCreation else MessageCall) nonce value addr
             gasPrice gas d (Some vrs) (m_hashWith t0) (m_sender t0) blockLimit (m_importTime t0) in
  match check with
  | CheckEverything => '(_, t) ← tx_sender t; Ok t
  | _ => Ok t
  end.
End crypto.

(** The setters that change what is signed: they clear the signature, the
    sender and the memoised hash. *)
Definition setNonce (t : Transaction) (n : Z) : Transaction :=
  MkTx (m_type t) n (m_value t) (m_receiveAddress t) (m_gasPrice t) (m_gas t) (m_data t)
    (Some SignatureStruct0) h256_0 Address_0 (m_blockLimit t) (m_importTime t).
Definition setBlockLimit (t : Transaction) (l : Z) : Transaction :=
  MkTx (m_type t) (m_nonce t) (m_value t) (m_receiveAddress t) (m_gasPrice t) (m_gas t) (m_data t)
    (Some SignatureStruct0) h256_0 Address_0 l (m_importTime t).
Definition updateSignature (t : Transaction) (sg : option SignatureStruct) : Transaction :=
  MkTx (m_type t) (m_nonce t) (m_value t) (m_receiveAddress t) (m_gasPrice t) (m_gas t) (m_data t)
    sg h256_0 Address_0 (m_blockLimit t) (m_importTime t).
Definition setImportTime (t : Transaction) (now : Z) : Transaction :=
  MkTx (m_type t) (m_nonce t) (m_value t) (m_receiveAddress t) (m_gasPrice t) (m_gas t) (m_data t)
    (m_vrs t) (m_hashWith t) (m_sender t) (m_blockLimit t) now.

(** [baseGasRequired]: the schedule's constants are arguments. *)
Definition baseGasRequired (creation : bool) (d : bytes)
    (txCreateGas txGas txDataNonZeroGas txDataZeroGas : Z) : Z :=
  foldl (λ g i, i64 (g + (if decide (i ≠ 0) then txDataNonZeroGas else txDataZeroGas)))
    (if creation then txCreateGas else txGas) d.

(** ** LogEntry *)

Record LogEntry := MkLog { log_address : bytes; log_topics : list bytes; log_data : bytes }.

(** [appendVector] of fixed-size hashes. *)
Definition append_hashes (s : RLPStream) (l : list bytes) : res RLPStream :=
  appendVector (λ s h, append_bytes s h false) s l.

Definition log_stream (l : LogEntry) (s : RLPStream) : res RLPStream :=
  s ← appendList s 3;
  s ← append_bytes s (log_address l) false;
  s ← append_hashes s (log_topics l);
  append_bytes s (log_data l) false.

Definition log_of_rlp (r : bytes) : res LogEntry :=
  n ← itemCount r;
  throw_if (n ≠ 3) AssertFail;;
  '(f0, c) ← rlp_index r rlp_cache0 0;
  a ← toHash address_size f0 Strict;
  '(f1, c) ← rlp_index r c 1;
  ts ← toVector (λ x, toHash h256_size x LaissezFaire) f1 LaissezFaire;
  '(f2, _) ← rlp_index r c 2;
  d ← toBytes f2 LaissezFaire;
  Ok (MkLog a ts d).

(** ** TransactionReceipt *)

Definition bloom_size : Z := 256.

Record TransactionReceipt := MkReceipt {
  rc_stateRoot : bytes;
  rc_gasUsed : Z;
  rc_contractAddress : bytes;
  rc_bloom : bytes;
  rc_status : Z;
  rc_outputBytes : bytes;
  rc_log : list LogEntry;
}.

Definition TransactionReceipt0 : TransactionReceipt :=
  MkReceipt h256_0 0 Address_0 (zero_hash bloom_size) 0 [] [].

Definition receipt_stream (r : TransactionReceipt) (s : RLPStream) : res RLPStream :=
  s ← appendList s 7;
  s ← append_bytes s (rc_stateRoot r) false;
  s ← append_u256 s (rc_gasUsed r);
  s ← append_bytes s (rc_contractAddress r) false;
  s ← append_bytes s (rc_bloom r) false;
  s ← append_u256 s (rc_status r);
  s ← append_bytes s (rc_outputBytes r) false;
  s ← appendList s (Z.of_nat (length (rc_log r)));
  foldl (λ acc l, s ← acc; log_stream l s) (Ok s) (rc_log r).

Definition receipt_encode (r : TransactionReceipt) : res bytes :=
  s ← receipt_stream r RLPStream0; out s.

(** [decode(rlp)] into [r0]: the decoded logs are appended to those present. *)
Definition receipt_decode (r0 : TransactionReceipt) (r : bytes) : res TransactionReceipt :=
  throw_if (¬ isList r) InvalidTransactionFormat;;
  '(f0, c) ← rlp_index r rlp_cache0 0;
  root ← toHash h256_size f0 Strict;
  '(f1, c) ← rlp_index r c 1;
  gas ← toInt_u256 f1 Strict;
  '(f2, c) ← rlp_index r c 2;
  addr ← toHash address_size f2 Strict;
  '(f3, c) ← rlp_index r c 3;
  bl ← toHash bloom_size f3 Strict;
  '(f4, c) ← rlp_index r c 4;
  st ← toInt_u256 f4 Strict;
  '(f5, c) ← rlp_index r c 5;
  o ← (if decide (isData f5) then toBytes f5 LaissezFaire else Ok (rc_outputBytes r0));
  '(f6, _) ← rlp_index r c 6;
  logs ← iterate f6 log_of_rlp;
  Ok (MkReceipt root gas addr bl st o (rc_log r0 ++ logs)).
