(* ===== verification/TransactionFacts.v ===== *)
(** * Properties of transactions and receipts

    Round trips of the transaction and receipt codecs, and the coherence of
    the memoised hash and sender. *)

From S2P Require Import Prelude RLP RLPFacts RLPStreamFacts CodecFacts Crypto Transaction.

Local Open Scope Z_scope.

(** ** Definitions *)

Definition u256_ok (z : Z) : Prop := 0 ≤ z < 2 ^ 256.

Definition vrs_ok (v : SignatureStruct) : Prop :=
  u256_ok (sig_r v) ∧ u256_ok (sig_s v) ∧ 0 ≤ sig_v v < 256.

(** A transaction within its field types that can be encoded. *)
Definition tx_ok (t : Transaction) : Prop :=
  m_type t ≠ NullTransaction ∧ u256_ok (m_nonce t) ∧ u256_ok (m_gasPrice t) ∧ u256_ok (m_gas t) ∧
  u256_ok (m_blockLimit t) ∧ u256_ok (m_value t) ∧ hash_ok address_size (m_receiveAddress t) ∧
  bytes_ok (m_data t) ∧ len (m_data t) < 2 ^ 58.

(** The destination as it travels: empty for a contract creation. *)
Definition tx_to (t : Transaction) : bytes :=
  if decide (m_type t = MessageCall) then m_receiveAddress t else [].

Definition tx_items (t : Transaction) : list bytes :=
  [enc_data (minimal (m_nonce t)); enc_data (minimal (m_gasPrice t)); enc_data (minimal (m_gas t));
   enc_data (minimal (m_blockLimit t)); enc_data (tx_to t); enc_data (minimal (m_value t));
   enc_data (m_data t)].

Definition sig_items (v : SignatureStruct) : list bytes :=
  [enc_data (minimal (u8 (sig_v v + VBase))); enc_data (minimal (sig_r v));
   enc_data (minimal (sig_s v))].

(** What the receiver of an encoded transaction holds. *)
Definition tx_received (t : Transaction) : Transaction :=
  MkTx (m_type t) (m_nonce t) (m_value t)
    (if decide (m_type t = MessageCall) then m_receiveAddress t else Address_0)
    (m_gasPrice t) (m_gas t) (m_data t) (m_vrs t) h256_0 Address_0 (m_blockLimit t) 0.

(** ** Lemmas *)

Lemma tx_to_ok t : tx_ok t → bytes_ok (tx_to t) ∧ len (tx_to t) ≤ 20.
Proof.
  intros (_ & _ & _ & _ & _ & _ & [Ha1 Ha2] & _). unfold tx_to, address_size in *.
  case_decide; [split; [done|lia]|split; [constructor|done]].
Qed.

Lemma tx_stream_items t s : tx_ok t → tx_stream t s = add_items (tx_items t) s.
Proof.
  intros Ht. pose proof (tx_to_ok t Ht) as [_ Hto].
  destruct Ht as (_ & Hn & Hp & Hg & Hb & Hv & _ & Hd & Hl). unfold u256_ok in *.
  unfold tx_stream, tx_items. fold (tx_to t). stream_steps.
Qed.

Lemma sig_encode_items v s : vrs_ok v → sig_encode v s = add_items (sig_items v) s.
Proof.
  intros (Hr & Hs & Hv). unfold u256_ok in *. unfold sig_encode, sig_items.
  pose proof (u8_range (sig_v v + VBase)). stream_steps.
Qed.

Lemma tx_items_facts t v :
  tx_ok t → vrs_ok v →
  Forall reads_some (tx_items t ++ sig_items v) ∧ Forall bytes_ok (tx_items t ++ sig_items v) ∧
  len (concat (tx_items t ++ sig_items v)) < 2 ^ 62.
Proof.
  intros Ht (Hr & Hs & Hv). pose proof (tx_to_ok t Ht) as [Hto1 Hto2].
  destruct Ht as (_ & Hn & Hp & Hg & Hb & Hval & _ & Hd & Hl). unfold u256_ok in *.
  pose proof (u8_range (sig_v v + VBase)). split; [|split].
  - repeat constructor; (apply reads_some_minimal; lia) || (apply reads_some_data; [done|lia]).
  - repeat constructor; (apply enc_minimal_ok; lia) || (apply enc_data_ok; [done|lia]).
  - enough (len (concat (tx_items t ++ sig_items v)) ≤ (2 ^ 58 + 41) * 10) by lia.
    apply (len_concat_le (tx_items t ++ sig_items v) (2 ^ 58 + 41)).
    assert (∀ b, len b < 2 ^ 58 → len (enc_data b) ≤ 2 ^ 58 + 41) as He.
    { intros b Hb'. pose proof (len_enc_data_le b). lia. }
    assert (∀ i, 0 ≤ i < 2 ^ 256 → len (enc_data (minimal i)) ≤ 2 ^ 58 + 41) as Hm.
    { intros i Hi. pose proof (len_enc_minimal_le i). lia. }
    repeat constructor; (apply Hm; lia) || (apply He; lia).
Qed.

Lemma tx_encode_items t v :
  tx_ok t → m_vrs t = Some v → vrs_ok v →
  tx_encode t WithSignature = Ok (enc_list (concat (tx_items t ++ sig_items v))).
Proof.
  intros Ht Hv Hvo. destruct (tx_items_facts t v Ht Hvo) as (_ & _ & Hl).
  unfold tx_encode. rewrite decide_False by (by destruct Ht). rewrite Hv.
  rewrite <- list_encode by lia. change (Z.of_nat (length (tx_items t ++ sig_items v))) with 10.
  destruct (appendList RLPStream0 10) as [s|]; [|done]. rewrite !bind_ok.
  rewrite tx_stream_items, add_items_app by done.
  destruct (add_items (tx_items t) s) as [s'|]; [|done]. rewrite !bind_ok.
  by rewrite sig_encode_items.
Qed.

Lemma u8_sub_add v : 0 ≤ v < 256 → u8 (u8 (v + VBase) - VBase) = v.
Proof.
  intros Hv. unfold u8. rewrite Zminus_mod_idemp_l. replace (v + VBase - VBase) with v by lia.
  by apply Z.mod_small.
Qed.

Lemma isEmpty_tx_to t : tx_ok t → isEmpty (enc_data (tx_to t)) ↔ m_type t = ContractCreation.
Proof.
  intros (Hty & _ & _ & _ & _ & _ & [Ha1 Ha2] & _). unfold tx_to. case_decide as Hm.
  - rewrite Hm. split; [|done]. unfold enc_data, address_size in *.
    rewrite Ha2, decide_False by lia. unfold hdr. rewrite decide_True by lia. simpl.
    unfold isEmpty. rewrite byte_at_0. rlp_consts. intros [_ []]; lia.
  - split; [intros _; by destruct (m_type t)|]. intros _. split; [done|by left].
Qed.

Section crypto.
Context `{Crypto}.

Lemma tx_decode_items t v check :
  tx_ok t → m_vrs t = Some v → vrs_ok v →
  tx_decode Transaction0 (enc_list (concat (tx_items t ++ sig_items v))) check
  = (throw_if (check ≠ CheckNone ∧ sig_isValid v = false) InvalidSignature;;
     match check with
     | CheckEverything => '(_, t') ← tx_sender (tx_received t); Ok t'
     | _ => Ok (tx_received t)
     end).
Proof.
  intros Ht Hv Hvo. destruct (tx_items_facts t v Ht Hvo) as (Hr & Hok & Hl).
  assert (len (concat (tx_items t ++ sig_items v)) < 2 ^ 63) as Hl' by lia.
  destruct (list_decode _ Hl') as (Hlist & Hp & _).
  pose proof (rlp_index_field _ _ Hp Hr Hl') as F. unfold tx_decode.
  rewrite throw_if_false by tauto. rewrite bind_ok. clear Hp Hr Hl Hl' Hlist Hok.
  pose proof (tx_to_ok t Ht) as [Hto1 Hto2]. pose proof (isEmpty_tx_to t Ht) as He.
  destruct Ht as (Hty & Hn & Hpr & Hg & Hb & Hval & [Ha1 Ha2] & Hd & Hl). unfold u256_ok in *.
  destruct Hvo as (Hvr & Hvs & Hvv). pose proof (u8_range (sig_v v + VBase)). unfold u256_ok in *.
  read_field F 0. rewrite toInt_u256_enc, bind_ok by lia.
  read_field F 1. rewrite toInt_u256_enc, bind_ok by lia.
  read_field F 2. rewrite toInt_u256_enc, bind_ok by lia.
  read_field F 3. rewrite toInt_u256_enc, bind_ok by lia.
  read_field F 4.
  assert ((if decide (isEmpty (enc_data (tx_to t))) then Ok Address_0
           else toHash address_size (enc_data (tx_to t)) VeryStrict)
          = Ok (if decide (m_type t = MessageCall) then m_receiveAddress t else Address_0)) as ->.
  { case_decide as He'; [apply He in He'; by rewrite He'|].
    destruct (decide (m_type t = MessageCall)) as [Hm|]; [|by destruct (m_type t); tauto].
    unfold tx_to. rewrite decide_True by done. apply toHash_enc_data; [done|done|unfold address_size; lia]. }
  rewrite bind_ok.
  read_field F 5. rewrite toInt_u256_enc, bind_ok by lia.
  read_field F 6. pose proof (enc_data_isData (m_data t) [] Hd) as Hdat. rewrite app_nil_r in Hdat.
  rewrite throw_if_false by (intros Hx; apply Hx, Hdat; lia). rewrite bind_ok.
  rewrite toBytes_enc_data, bind_ok by (done || lia).
  read_field F 8. rewrite toInt_u256_enc, bind_ok by lia.
  read_field F 9. rewrite toInt_u256_enc, bind_ok by lia.
  read_field F 7. rewrite toInt_u8_enc, bind_ok by lia.
  cbv zeta. rewrite u8_sub_add by lia.
  assert (MkTx (if decide (isEmpty (enc_data (tx_to t))) then ContractCreation else MessageCall)
            (m_nonce t) (m_value t)
            (if decide (m_type t = MessageCall) then m_receiveAddress t else Address_0)
            (m_gasPrice t) (m_gas t) (m_data t) (Some (MkSig (sig_r v) (sig_s v) (sig_v v)))
            (m_hashWith Transaction0) (m_sender Transaction0) (m_blockLimit t)
            (m_importTime Transaction0) = tx_received t) as ->; [|by destruct v].
  unfold tx_received. rewrite Hv. destruct v. f_equal.
  case_decide as He'; [by apply He in He'|]. destruct (m_type t); tauto.
Qed.
End crypto.

(** ** Receipts *)

(** Fields within their types, and a bound that keeps every length below
    2^63. *)
Definition log_ok (l : LogEntry) : Prop :=
  hash_ok address_size (log_address l) ∧ Forall (hash_ok h256_size) (log_topics l) ∧
  bytes_ok (log_data l) ∧ Z.of_nat (length (log_topics l)) < 2 ^ 32 ∧ len (log_data l) < 2 ^ 32.

Definition log_items (l : LogEntry) : list bytes :=
  [enc_data (log_address l); enc_list (concat (enc_data <$> log_topics l)); enc_data (log_data l)].
Definition log_enc (l : LogEntry) : bytes := enc_list (concat (log_items l)).

Definition receipt_ok (r : TransactionReceipt) : Prop :=
  hash_ok h256_size (rc_stateRoot r) ∧ u256_ok (rc_gasUsed r) ∧
  hash_ok address_size (rc_contractAddress r) ∧ hash_ok bloom_size (rc_bloom r) ∧
  u256_ok (rc_status r) ∧ bytes_ok (rc_outputBytes r) ∧ len (rc_outputBytes r) < 2 ^ 32 ∧
  Forall log_ok (rc_log r) ∧ Z.of_nat (length (rc_log r)) < 2 ^ 20.

Definition receipt_items (r : TransactionReceipt) : list bytes :=
  [enc_data (rc_stateRoot r); enc_data (minimal (rc_gasUsed r)); enc_data (rc_contractAddress r);
   enc_data (rc_bloom r); enc_data (minimal (rc_status r)); enc_data (rc_outputBytes r);
   enc_list (concat (log_enc <$> rc_log r))].
Definition receipt_enc (r : TransactionReceipt) : bytes := enc_list (concat (receipt_items r)).

Lemma topics_facts l :
  log_ok l →
  len (concat (enc_data <$> log_topics l)) ≤ 41 * 2 ^ 32 ∧
  Forall reads_some (enc_data <$> log_topics l) ∧ bytes_ok (concat (enc_data <$> log_topics l)).
Proof.
  intros (_ & Ht & _ & Hn & _). unfold h256_size in Ht. split; [|split].
  - etrans; [apply (len_concat_le _ 41)|rewrite length_fmap; lia].
    apply Forall_fmap. eapply list.Forall_impl; [exact Ht|]. intros b [_ Hb]. simpl.
    pose proof (len_enc_data_le b). lia.
  - apply Forall_reads_data. eapply list.Forall_impl; [exact Ht|]. intros b [? Hb]. split; [done|lia].
  - apply concat_ok, Forall_fmap. eapply list.Forall_impl; [exact Ht|]. intros b [? Hb]. simpl.
    apply enc_data_ok; [done|lia].
Qed.

Lemma log_items_facts l :
  log_ok l →
  Forall reads_some (log_items l) ∧ Forall bytes_ok (log_items l) ∧
  len (concat (log_items l)) ≤ 2 ^ 39.
Proof.
  intros Hl. pose proof (topics_facts l Hl) as (Ht1 & Ht2 & Ht3).
  destruct Hl as ([Ha1 Ha2] & _ & Hd & _ & Hd2). unfold address_size in *. split; [|split].
  - repeat constructor; (apply reads_some_data; [done|lia]) || (apply reads_some_list; lia).
  - repeat constructor; (apply enc_data_ok; [done|lia]) || (apply enc_list_ok; [done|lia]).
  - cbn [log_items concat]. rewrite !len_app, len_nil.
    pose proof (len_enc_data_le (log_address l)). pose proof (len_enc_data_le (log_data l)).
    pose proof (len_enc_list_le (concat (enc_data <$> log_topics l))). lia.
Qed.

Lemma log_stream_items l s : log_ok l → log_stream l s = add_item (log_enc l) s.
Proof.
  intros Hl. pose proof (topics_facts l Hl) as (Ht1 & _). pose proof (log_items_facts l Hl) as (_ & _ & Hi).
  destruct Hl as ([_ Ha2] & Ht & _ & _ & Hd2). unfold log_enc, address_size, h256_size in *.
  rewrite <- appendList_items by lia. unfold log_stream. simpl length.
  change (Z.of_nat 3) with 3. destruct (appendList s 3) as [s'|]; [|done]. rewrite !bind_ok.
  unfold log_items. cbn [add_items]. rewrite append_bytes_enc by lia.
  destruct (add_item _ s') as [s''|]; [|done]. rewrite !bind_ok.
  unfold append_hashes. rewrite (appendVector_items _ enc_data); [| |lia].
  - destruct (add_item _ s'') as [s3|]; [|done]. rewrite !bind_ok.
    rewrite append_bytes_enc by lia. by destruct (add_item _ s3).
  - intros b s0 Hb. rewrite list.Forall_forall in Ht. destruct (Ht b Hb) as [_ Hlb].
    apply append_bytes_enc. lia.
Qed.

Lemma items_enc_count es r :
  r = enc_list (concat es) → Forall reads_some es → len (concat es) < 2 ^ 63 →
  itemCount r = Ok (Z.of_nat (length es)).
Proof.
  intros -> Hes Hl. unfold itemCount. pose proof (enc_list_isList (concat es) []) as Hd.
  rewrite app_nil_r in Hd. rewrite decide_True by done. by apply items_enc_list.
Qed.

Lemma log_roundtrip l : log_ok l → log_of_rlp (log_enc l) = Ok l.
Proof.
  intros Hl. pose proof (topics_facts l Hl) as (Ht1 & Ht2 & _).
  pose proof (log_items_facts l Hl) as (Hr & _ & Hi).
  assert (len (concat (log_items l)) < 2 ^ 63) as Hl' by lia.
  destruct (list_decode _ Hl') as (_ & Hp & _). pose proof (rlp_index_field _ _ Hp Hr Hl') as F.
  destruct Hl as ([Ha1 Ha2] & Ht & Hd & _ & Hd2). unfold log_of_rlp, log_enc.
  rewrite (items_enc_count (log_items l)) by done. rewrite bind_ok, throw_if_false by (simpl; lia).
  rewrite bind_ok. unfold address_size, h256_size in *.
  read_field F 0. rewrite toHash_enc_data, bind_ok by (done || lia).
  read_field F 1. rewrite toVector_enc_list by (done || lia).
  rewrite mapM_decode, bind_ok.
  - read_field F 2. rewrite toBytes_enc_data, bind_ok by (done || lia). by destruct l.
  - intros b Hb. rewrite list.Forall_forall in Ht. destruct (Ht b Hb) as [? Hlb].
    apply toHash_enc_data; [done|done|lia].
Qed.

Lemma logs_facts r :
  receipt_ok r →
  Forall reads_some (log_enc <$> rc_log r) ∧ len (concat (log_enc <$> rc_log r)) ≤ 2 ^ 61 ∧
  bytes_ok (concat (log_enc <$> rc_log r)).
Proof.
  intros (_ & _ & _ & _ & _ & _ & _ & Hl & Hn).
  assert (∀ l, l ∈ rc_log r → reads_some (log_enc l) ∧ len (log_enc l) ≤ 2 ^ 40 ∧ bytes_ok (log_enc l)) as Hall.
  { intros l Hin. rewrite list.Forall_forall in Hl. pose proof (log_items_facts l (Hl l Hin)) as (H1 & H2 & H3).
    unfold log_enc. pose proof (len_enc_list_le (concat (log_items l))). split; [apply reads_some_list; lia|].
    split; [lia|]. apply enc_list_ok; [by apply concat_ok|lia]. }
  split; [apply Forall_fmap, list.Forall_forall; intros; by apply Hall|]. split.
  - etrans; [apply (len_concat_le _ (2 ^ 40))|rewrite length_fmap; lia].
    apply Forall_fmap, list.Forall_forall. intros. by apply Hall.
  - apply concat_ok, Forall_fmap, list.Forall_forall. intros. by apply Hall.
Qed.

Lemma receipt_items_facts r :
  receipt_ok r →
  Forall reads_some (receipt_items r) ∧ Forall bytes_ok (receipt_items r) ∧
  len (concat (receipt_items r)) ≤ 2 ^ 62.
Proof.
  intros Hr. pose proof (logs_facts r Hr) as (_ & Hl1 & Hl2).
  destruct Hr as ([Hs1 Hs2] & Hg & [Hc1 Hc2] & [Hb1 Hb2] & Hst & Ho & Ho2 & _).
  unfold u256_ok, address_size, h256_size, bloom_size in *. split; [|split].
  - repeat constructor; (apply reads_some_data; [done|lia]) || (apply reads_some_list; lia)
      || (apply reads_some_minimal; lia).
  - repeat constructor; (apply enc_data_ok; [done|lia]) || (apply enc_list_ok; [done|lia])
      || (apply enc_minimal_ok; lia).
  - cbn [receipt_items concat]. rewrite !len_app, len_nil.
    pose proof (len_enc_data_le (rc_stateRoot r)). pose proof (len_enc_data_le (rc_outputBytes r)).
    pose proof (len_enc_data_le (rc_contractAddress r)). pose proof (len_enc_data_le (rc_bloom r)).
    pose proof (len_enc_minimal_le (rc_gasUsed r)). pose proof (len_enc_minimal_le (rc_status r)).
    pose proof (len_enc_list_le (concat (log_enc <$> rc_log r))). lia.
Qed.

Lemma receipt_stream_items r s : receipt_ok r → receipt_stream r s = add_item (receipt_enc r) s.
Proof.
  intros Hr. pose proof (logs_facts r Hr) as (_ & Hl1 & _).
  pose proof (receipt_items_facts r Hr) as (_ & _ & Hi).
  destruct Hr as ([Hs1 Hs2] & Hg & [Hc1 Hc2] & [Hb1 Hb2] & Hst & Ho & Ho2 & Hlog & _).
  unfold u256_ok, address_size, h256_size, bloom_size in *.
  unfold receipt_enc. rewrite <- appendList_items by lia. unfold receipt_stream.
  change (Z.of_nat (length (receipt_items r))) with 7.
  destruct (appendList s 7) as [s'|]; [|done]. rewrite !bind_ok. unfold receipt_items.
  cbn [add_items]. do 6 stream_step. rewrite <- appendList_items by lia. rewrite length_fmap.
  destruct (appendList _ (Z.of_nat _)) as [s2|]; [|done]. rewrite !bind_ok.
  rewrite (foldl_add_items (λ s l, log_stream l s) log_enc).
  - rewrite bind_ok. by destruct (add_items _ s2).
  - intros l s0 Hl. apply log_stream_items. rewrite list.Forall_forall in Hlog. auto.
Qed.

Lemma receipt_roundtrip r : receipt_ok r → receipt_decode TransactionReceipt0 (receipt_enc r) = Ok r.
Proof.
  intros Hr. pose proof (logs_facts r Hr) as (Hlr & Hl1 & _).
  pose proof (receipt_items_facts r Hr) as (Hre & _ & Hi).
  assert (len (concat (receipt_items r)) < 2 ^ 63) as Hl' by lia.
  destruct (list_decode _ Hl') as (Hlist & Hp & _). pose proof (rlp_index_field _ _ Hp Hre Hl') as F.
  destruct Hr as ([Hs1 Hs2] & Hg & [Hc1 Hc2] & [Hb1 Hb2] & Hst & Ho & Ho2 & Hlog & _).
  unfold u256_ok, address_size, h256_size, bloom_size in *. unfold receipt_decode, receipt_enc.
  rewrite throw_if_false by tauto. rewrite bind_ok.
  read_field F 0. rewrite toHash_enc_data, bind_ok by (done || (unfold h256_size; lia)).
  read_field F 1. rewrite toInt_u256_enc, bind_ok by lia.
  read_field F 2. rewrite toHash_enc_data, bind_ok by (done || (unfold address_size; lia)).
  read_field F 3. rewrite toHash_enc_data, bind_ok by (done || (unfold bloom_size; lia)).
  read_field F 4. rewrite toInt_u256_enc, bind_ok by lia.
  read_field F 5. pose proof (enc_data_isData (rc_outputBytes r) [] Ho) as Hd. rewrite app_nil_r in Hd.
  rewrite decide_True by (apply Hd; lia). rewrite toBytes_enc_data, bind_ok by (done || lia).
  read_field F 6. rewrite iterate_enc_list by (done || lia).
  rewrite mapM_decode, bind_ok; [by destruct r|].
  intros l Hl. apply log_roundtrip. rewrite list.Forall_forall in Hlog. auto.
Qed.

Lemma receipt_encode_enc r : receipt_ok r → receipt_encode r = Ok (receipt_enc r).
Proof.
  intros Hr. unfold receipt_encode. rewrite receipt_stream_items by done. unfold RLPStream0.
  by rewrite add_item_top, bind_ok.
Qed.

(** ** Memoised hash and sender *)

Section memo.
Context `{Crypto}.

(** The memoised hash is unset or the hash of the encoding. *)
Definition hash_memo_ok (t : Transaction) : Prop :=
  m_hashWith t = h256_0 ∨
  ∃ e, tx_encode t WithSignature = Ok e ∧ m_hashWith t = sha3 e.

(** The memoised sender is unset or the one recovered from the signature. *)
Definition sender_memo_ok (t : Transaction) : Prop :=
  m_sender t = Address_0 ∨
  ∃ v e, m_vrs t = Some v ∧ tx_encode t WithoutSignature = Ok e ∧
    recover (sig_bytes v) (sha3 e) ≠ zero_hash h512_size ∧
    m_sender t = right160 (sha3 (recover (sig_bytes v) (sha3 e))).

(** The operations on a transaction object after it was decoded or built. *)
Inductive tx_step : Transaction → Transaction → Prop :=
  | step_sha3 t sg h t' : tx_sha3 t sg = Ok (h, t') → tx_step t t'
  | step_sender t a t' : tx_sender t = Ok (a, t') → tx_step t t'
  | step_setNonce t n : tx_step t (setNonce t n)
  | step_setBlockLimit t l : tx_step t (setBlockLimit t l)
  | step_updateSignature t sg : tx_step t (updateSignature t sg)
  | step_setImportTime t now : tx_step t (setImportTime t now).

Lemma tx_encode_memo t h a it sg :
  tx_encode (MkTx (m_type t) (m_nonce t) (m_value t) (m_receiveAddress t) (m_gasPrice t) (m_gas t)
    (m_data t) (m_vrs t) h a (m_blockLimit t) it) sg = tx_encode t sg.
Proof. by destruct t. Qed.

Lemma tx_step_memo t t' :
  tx_step t t' → hash_memo_ok t → sender_memo_ok t → hash_memo_ok t' ∧ sender_memo_ok t'.
Proof.
  intros Hs Hh Ha. destruct Hs as [t sg h t' E|t a t' E|t n|t l|t sg|t now].
  - unfold tx_sha3 in E. destruct sg.
    + inv_ok. simplify_eq. done.
    + case_decide; [by simplify_eq|]. apply bind_ok_inv in E as (e & He & E). simplify_eq.
      split; [|exact Ha]. right. exists e. by rewrite tx_encode_memo.
  - unfold tx_sender in E. case_decide as Hz; [by simplify_eq|].
    destruct (m_vrs t) as [v|] eqn:Hv; [|done].
    unfold tx_sha3 in E. apply bind_ok_inv in E as ([h' t''] & Hsh & E).
    apply bind_ok_inv in Hsh as (e & He & Hsh). simplify_eq.
    apply bind_ok_inv in E as (? & Hp & E). apply throw_if_ok_inv in Hp. simplify_eq.
    split; [exact Hh|]. right. exists v, e. unfold set_sender. by rewrite tx_encode_memo.
  - split; by left.
  - split; by left.
  - split; by left.
  - split; [exact Hh|exact Ha].
Qed.
End memo.

(** ** Properties *)

(** A transaction used in the examples. *)
Definition example_tx : Transaction :=
  MkTx MessageCall 7 1 (zero_hash 20) 2 30000 [1; 2; 3] (Some (MkSig 5 6 1)) h256_0 Address_0 500 9.

Lemma example_tx_ok : tx_ok example_tx ∧ vrs_ok (MkSig 5 6 1).
Proof.
  unfold tx_ok, vrs_ok, u256_ok. cbn. split; [|lia].
  repeat split; try done; try lia; apply Forall_fold_right; vm_compute; intuition congruence.
Qed.

(** Round trip of signed transactions: encoding succeeds, and decoding the
    bytes into a fresh object gives the transaction back, with the
    destination of a contract creation, the memoised hash and sender and the
    import time reset. *)
Theorem tx_codec `{Crypto} t v :
  tx_ok t → m_vrs t = Some v → vrs_ok v →
  ∃ e, tx_encode t WithSignature = Ok e ∧ tx_decode Transaction0 e CheckNone = Ok (tx_received t).
Proof.
  intros Ht Hv Hvo. eexists. split; [by apply tx_encode_items|].
  rewrite tx_decode_items by done. by rewrite throw_if_false by tauto.
Qed.

Lemma tx_codec_witness :
  ∃ e, tx_encode example_tx WithSignature = Ok e ∧
       @tx_decode example_crypto Transaction0 e CheckNone = Ok (tx_received example_tx).
Proof.
  apply (@tx_codec example_crypto example_tx (MkSig 5 6 1)); [apply example_tx_ok|done|apply example_tx_ok].
Defined.

(** An unsigned transaction is never encoded with a signature, whatever
    its other fields. *)
Theorem tx_encode_unsigned t :
  m_vrs t = None → m_type t ≠ NullTransaction → ∀ e, tx_encode t WithSignature ≠ Ok e.
Proof.
  intros Hv Ht e. unfold tx_encode. rewrite decide_False, Hv by done.
  destruct (appendList RLPStream0 10) as [s|]; [|done]. rewrite bind_ok.
  by destruct (tx_stream t s).
Qed.

Lemma tx_encode_unsigned_witness :
  is_ok (tx_encode (updateSignature example_tx None) WithSignature) = false.
Proof.
  destruct (tx_encode (updateSignature example_tx None) WithSignature) as [e|x] eqn:E; [|done].
  destruct (tx_encode_unsigned (updateSignature example_tx None) eq_refl ltac:(done) e E).
Defined.

(** The memoised transaction hash and sender never go stale: from a freshly
    decoded or built transaction, after any sequence of hash, sender and setter
    calls, the hash returned is the hash of the current encoding and the sender
    returned is the one recovered from the current signature. *)
Theorem tx_memo_coherent `{Crypto} t0 t :
  m_hashWith t0 = h256_0 → m_sender t0 = Address_0 → star tx_step t0 t →
  (∀ h t', tx_sha3 t WithSignature = Ok (h, t') →
     ∃ e, tx_encode t WithSignature = Ok e ∧ h = sha3 e) ∧
  (∀ a t', tx_sender t = Ok (a, t') →
     ∃ v e, m_vrs t = Some v ∧ tx_encode t WithoutSignature = Ok e ∧
            a = right160 (sha3 (recover (sig_bytes v) (sha3 e)))).
Proof.
  intros Hh Ha Hs.
  assert (hash_memo_ok t ∧ sender_memo_ok t) as [Hmh Hma].
  { apply (star_invariant tx_step (λ t, hash_memo_ok t ∧ sender_memo_ok t)
      ltac:(intros x y [H1 H2] Hxy; by apply (tx_step_memo x y)) t0 t); [done|split; by left]. }
  split.
  - intros h t' E. unfold tx_sha3 in E. case_decide as Hz.
    + simplify_eq. destruct Hmh as [?|(e & He & Hm)]; [done|]. by exists e.
    + apply bind_ok_inv in E as (e & He & E). simplify_eq. by exists e.
  - intros a t' E. unfold tx_sender in E. case_decide as Hz.
    + simplify_eq. destruct Hma as [?|(v & e & Hv & He & _ & Hm)]; [done|]. by exists v, e.
    + destruct (m_vrs t) as [v|]; [|done]. unfold tx_sha3 in E.
      apply bind_ok_inv in E as ([h' t''] & Hsh & E). apply bind_ok_inv in Hsh as (e & He & Hsh).
      simplify_eq. apply bind_ok_inv in E as (? & _ & E). simplify_eq. by exists v, e.
Qed.

Lemma tx_memo_coherent_witness :
  ∃ t, @star Transaction (@tx_step example_crypto) example_tx t ∧ m_hashWith t ≠ h256_0 ∧
    (∀ h t', @tx_sha3 example_crypto t WithSignature = Ok (h, t') →
       ∃ e, tx_encode t WithSignature = Ok e ∧ h = @sha3 example_crypto e) ∧
    (∀ a t', @tx_sender example_crypto t = Ok (a, t') →
       ∃ v e, m_vrs t = Some v ∧ tx_encode t WithoutSignature = Ok e ∧
              a = right160 (@sha3 example_crypto
                    (@recover example_crypto (sig_bytes v) (@sha3 example_crypto e)))).
Proof.
  destruct (@tx_sha3 example_crypto example_tx WithSignature) as [[h t]|] eqn:E; [|by vm_compute in E].
  assert (@star Transaction (@tx_step example_crypto) example_tx t) as Hs.
  { apply star_one. by apply (step_sha3 _ WithSignature h). }
  exists t. split; [exact Hs|]. split.
  - vm_compute in E. injection E as _ <-. done.
  - apply (@tx_memo_coherent example_crypto example_tx t); [done|done|exact Hs].
Defined.

(** Round trip of transaction receipts with their event logs. *)
Theorem receipt_codec r :
  receipt_ok r →
  ∃ e, receipt_encode r = Ok e ∧ receipt_decode TransactionReceipt0 e = Ok r.
Proof.
  intros Hr. exists (receipt_enc r). split; [by apply receipt_encode_enc|by apply receipt_roundtrip].
Qed.

Definition example_receipt : TransactionReceipt :=
  MkReceipt h256_0 21000 Address_0 (zero_hash 256) 0 [9; 200]
    [MkLog (zero_hash 20) [zero_hash 32; zero_hash 32] [1]; MkLog (zero_hash 20) [] []].

Lemma example_receipt_ok : receipt_ok example_receipt.
Proof.
  assert (∀ n, 0 ≤ n → hash_ok n (zero_hash n)) as Hz by (intros; by apply zero_hash_ok).
  unfold receipt_ok, log_ok, u256_ok. repeat split; try (apply Hz; done); try done; try (cbn; lia).
  - repeat (constructor; [unfold is_byte; lia|]). constructor.
  - repeat constructor; cbn; try (apply Hz; done); try lia; unfold is_byte; lia.
Qed.

Lemma receipt_codec_witness :
  ∃ e, receipt_encode example_receipt = Ok e ∧
       receipt_decode TransactionReceipt0 e = Ok example_receipt.
Proof. apply (receipt_codec example_receipt). exact example_receipt_ok. Defined.
