(* ===== verification/TrieHash.v ===== *)
(** * The root hash of a map

    Models libdevcore/TrieHash.cpp and the key encoding of
    libdevcore/TrieCommon.h/.cpp: the root of the Merkle Patricia tree over a
    sorted map of byte strings, computed without building a database. A
    [std::map<bytes, bytes>] is its list of entries in key order; an iterator
    range is the sublist it spans. *)

From S2P Require Import Prelude RLP RLPFacts RLPStreamFacts CodecFacts Hex Crypto.

Local Open Scope Z_scope.

(** ** Sorted maps *)

Fixpoint bytes_lt (a b : bytes) : bool :=
  match a, b with
  | [], [] => false
  | [], _ :: _ => true
  | _ :: _, [] => false
  | x :: a, y :: b => bool_decide (x < y) || (bool_decide (x = y) && bytes_lt a b)
  end.

Abbreviation BytesMap := (list (bytes * bytes)).

(** [m[k] = v]. *)
Fixpoint map_set (k v : bytes) (m : BytesMap) : BytesMap :=
  match m with
  | [] => [(k, v)]
  | (k', v') :: m' =>
      if bytes_lt k k' then (k, v) :: m
      else if decide (k = k') then (k, v) :: m'
      else (k', v') :: map_set k v m'
  end.

(** [m.insert(make_pair(k, v))]: an existing entry is kept. *)
Fixpoint map_add (k v : bytes) (m : BytesMap) : BytesMap :=
  match m with
  | [] => [(k, v)]
  | (k', v') :: m' =>
      if bytes_lt k k' then (k, v) :: m
      else if decide (k = k') then m
      else (k', v') :: map_add k v m'
  end.

(** ** Keys *)

(** The pairs of nibbles of [hexPrefixEncode], packed; a last odd nibble would
    be read past the end and does not occur. *)
Fixpoint pack (n : bytes) : bytes :=
  match n with
  | x :: y :: n => u8 (x * 16 + y) :: pack n
  | _ => []
  end.

(** [hexPrefixEncode(hexVector, leaf, begin, end)] for [begin ≤ end]. *)
Definition hexPrefixEncode (hv : bytes) (leaf : bool) (b e : nat) : bytes :=
  let n := take (e - b) (drop b hv) in
  let odd := Nat.odd (e - b) in
  let flag := Z.lor (if leaf then 2 else 0) (if odd then 1 else 0) * 16 in
  if odd then Z.lor flag (byte_at n 0) :: pack (drop 1 n) else flag :: pack n.

(** [nibble]. *)
Definition nibble (d : bytes) (i : Z) : Z :=
  if decide (Z.land i 1 ≠ 0) then Z.land (byte_at d (i / 2)) 15 else Z.shiftr (byte_at d (i / 2)) 4.

(** [keyOf(hpe)]: the nibbles after the flag. *)
Definition keyOf (hpe : bytes) : bytes :=
  if decide (len hpe = 0) then []
  else
    let off := if decide (Z.land (byte_at hpe 0) 0x10 ≠ 0) then 1 else 2 in
    nibble hpe <$> seqZ off (len hpe * 2 - off).

(** [isLeaf] of the first item's payload. *)
Definition hp_isLeaf (hpe : bytes) : bool := bool_decide (Z.land (byte_at hpe 0) 0x20 ≠ 0).

(** ** The root *)

(** How many leading elements agree, at most [limit]. *)
Fixpoint common (a b : bytes) (limit : nat) : nat :=
  match limit, a, b with
  | S l, x :: a, y :: b => if decide (x = y) then S (common a b l) else 0%nat
  | _, _, _ => 0%nat
  end.

(** One round of the loop that computes [sharedPre]. *)
Definition shared_step (pre : nat) (k : bytes) (sharedPre : Z) (k' : bytes) : Z :=
  if decide (sharedPre = 0) then sharedPre
  else
    let x := Z.min sharedPre (Z.min (len k) (len k')) in
    Z.min (Z.of_nat (pre + common (drop pre k) (drop pre k') (Z.to_nat x - pre))) sharedPre.

(** The prefix [n->first[preLen] == i] of a range, and the rest. *)
Fixpoint span_nibble (pre : nat) (i : Z) (l : BytesMap) : BytesMap * BytesMap :=
  match l with
  | [] => ([], [])
  | (k, v) :: l' =>
      if decide (byte_at k (Z.of_nat pre) = i) then
        let '(a, b) := span_nibble pre i l' in ((k, v) :: a, b)
      else ([], l)
  end.

Section crypto.
Context `{Crypto}.

(** [hash256rlp] and [hash256aux]; each level fixes at least one more nibble, so
    one unit of fuel per nibble of the longest key, and one more, is enough. *)
Fixpoint hash256rlp (fuel : nat) (seg : BytesMap) (pre : nat) (s : RLPStream) {struct fuel} :
    res RLPStream :=
  match fuel with
  | O => Throw OutOfFuel
  | S fuel =>
      let hash256aux seg pre s :=
        r ← hash256rlp fuel seg pre RLPStream0;
        o ← out r;
        if decide (len o < 32) then appendRaw s o 1 else append_bytes s (sha3 o) false in
      match seg with
      | [] => append_bytes s [] false
      | [(k, v)] =>
          s ← appendList s 2;
          s ← append_bytes s (hexPrefixEncode k true pre (length k)) false;
          append_bytes s v false
      | (k, v) :: rest =>
          let sharedPre := Z.to_nat (foldl (shared_step pre k) UINT32_MAX (fst <$> rest)) in
          if decide (pre < sharedPre)%nat then
            s ← appendList s 2;
            s ← append_bytes s (hexPrefixEncode k false pre sharedPre) false;
            hash256aux seg sharedPre s
          else
            s ← appendList s 17;
            let b := if decide (pre = length k) then rest else seg in
            '(s, _) ← foldl (λ acc i,
                         '(s, b) ← acc;
                         let '(m, n) := span_nibble pre i b in
                         s ← (if decide (m = []) then append_bytes s [] false
                              else hash256aux m (S pre) s);
                         Ok (s, n)) (Ok (s, b)) (seqZ 0 16);
            append_bytes s (if decide (pre = length k) then v else []) false
      end
  end.

(** The number of nibbles of the longest key. *)
Definition max_key (m : BytesMap) : nat := foldr Nat.max 0%nat (length ∘ fst <$> m).

Definition rlp256 (m : BytesMap) : res bytes :=
  if decide (m = []) then s ← append_bytes RLPStream0 [] false; out s
  else
    let hexMap := foldr (λ kv acc, map_set (asNibbles (fst kv)) (snd kv) acc) [] m in
    s ← hash256rlp (S (S (max_key hexMap))) hexMap 0 RLPStream0;
    out s.

Definition hash256 (m : BytesMap) : res bytes := sha3 <$> rlp256 m.

(** [rlp(j)] for an [unsigned]. *)
Definition rlp_unsigned (j : Z) : res bytes := s ← append_unsigned RLPStream0 j; out s.

(** [orderedTrieRoot]. *)
Definition orderedTrieRoot (d : list bytes) : res bytes :=
  m ← foldl (λ acc jb, m ← acc; k ← rlp_unsigned (fst jb); Ok (map_set k (snd jb) m)) (Ok [])
        (zip (seqZ 0 (Z.of_nat (length d))) d);
  hash256 m.
End crypto.
