(* ===== verification/TrieHashFacts.v ===== *)
(** * Properties of the root hash

    Sorted maps stay sorted under insertion, the key encoding can be decoded,
    and the computation of a root always succeeds within its fuel. *)

From S2P Require Import Prelude RLP RLPFacts RLPStreamFacts CodecFacts Hex Crypto TrieHash.
From Stdlib Require Import Sorting.Sorted.

Local Open Scope Z_scope.

(** ** The order on keys *)

Lemma bytes_lt_irrefl a : bytes_lt a a = false.
Proof.
  induction a as [|x a IH]; simpl; [done|]. rewrite bool_decide_false by lia.
  by rewrite bool_decide_true by done.
Qed.

Lemma bytes_lt_cons x y a b :
  bytes_lt (x :: a) (y :: b) = true ↔ x < y ∨ (x = y ∧ bytes_lt a b = true).
Proof. simpl. rewrite orb_true_iff, andb_true_iff, !bool_decide_eq_true. done. Qed.

Lemma bytes_lt_trans a b c : bytes_lt a b = true → bytes_lt b c = true → bytes_lt a c = true.
Proof.
  revert b c. induction a as [|x a IH]; intros [|y b] [|z c]; try done.
  rewrite !bytes_lt_cons. intros [?|[-> ?]] [?|[-> ?]]; [left; lia|left; lia|left; lia|right; eauto].
Qed.

Lemma bytes_lt_total a b : bytes_lt a b = true ∨ a = b ∨ bytes_lt b a = true.
Proof.
  revert b. induction a as [|x a IH]; intros [|y b]; simpl; auto. rewrite !orb_true_iff, !andb_true_iff.
  rewrite !bool_decide_eq_true. destruct (Z.lt_trichotomy x y) as [?|[->|?]]; auto.
  destruct (IH b) as [?|[->|?]]; auto.
Qed.

(** A prefix comes first. *)
Lemma bytes_lt_prefix a b : bytes_lt (a ++ b) a = false.
Proof.
  induction a as [|x a IH]; simpl; [by destruct b|]. rewrite bool_decide_false by lia.
  by rewrite bool_decide_true, IH by done.
Qed.

Definition key_lt (p q : bytes * bytes) : Prop := bytes_lt (fst p) (fst q) = true.
Definition sorted (m : BytesMap) : Prop := StronglySorted key_lt m.

Lemma Forall_key_lt k k' (v v' : bytes) m :
  bytes_lt k k' = true → Forall (key_lt (k', v')) m → Forall (key_lt (k, v)) m.
Proof.
  intros Hlt. apply List.Forall_impl. intros [k2 v2] Hk. unfold key_lt in *. simpl in *.
  by eapply bytes_lt_trans.
Qed.

Lemma map_set_Forall (P : bytes * bytes → Prop) k v m :
  P (k, v) → Forall P m → Forall P (map_set k v m).
Proof.
  intros Hk. induction 1 as [|[k' v'] m Hp Hm IH]; simpl; [by constructor|].
  destruct (bytes_lt k k'); [by repeat constructor|]. case_decide; by constructor.
Qed.

Lemma map_set_sorted k v m : sorted m → sorted (map_set k v m).
Proof.
  unfold sorted. induction 1 as [|[k' v'] m Hs IH Hf]; simpl; [repeat constructor|].
  destruct (bytes_lt k k') eqn:E.
  - constructor; [by constructor|]. constructor; [done|]. by apply (Forall_key_lt k k' v v').
  - case_decide as Hk; [subst; by constructor|]. constructor; [done|].
    apply map_set_Forall; [|done]. unfold key_lt. simpl.
    destruct (bytes_lt_total k k') as [?|[?|?]]; congruence.
Qed.

(** ** The shared prefix of a range *)

Lemma common_spec a b n :
  (common a b n ≤ n)%nat ∧ take (common a b n) a = take (common a b n) b ∧
  (common a b n ≤ length a)%nat ∧ (common a b n ≤ length b)%nat.
Proof.
  revert a b. induction n as [|n IH]; intros [|x a] [|y b]; simpl; try (split; [lia|split; [done|lia]]).
  case_decide; simpl; [|split; [lia|split; [done|lia]]].
  destruct (IH a b) as (? & Ht & ? & ?). subst. rewrite Ht. split; [lia|split; [done|lia]].
Qed.

(** Two keys that agree on their first [r] nibbles. *)
Definition agree (r : nat) (k k' : bytes) : Prop :=
  take r k = take r k' ∧ (r ≤ length k)%nat ∧ (r ≤ length k')%nat.

Lemma agree_le r r' k k' : agree r k k' → (r' ≤ r)%nat → agree r' k k'.
Proof.
  intros (Ht & H1 & H2) Hr. split; [|lia].
  rewrite <- (Nat.min_l r' r Hr), <- !take_take, Ht. done.
Qed.

Lemma agree_extend pre k k' n :
  agree pre k k' → agree (pre + common (drop pre k) (drop pre k') n) k k'.
Proof.
  intros (Ht & H1 & H2). destruct (common_spec (drop pre k) (drop pre k') n) as (_ & Hc & H3 & H4).
  rewrite !length_drop in H3, H4. split; [|lia].
  rewrite <- !take_take_drop. by rewrite Ht, Hc.
Qed.

Lemma shared_step_spec pre k k' z r :
  agree pre k k' → (pre < r)%nat → Z.of_nat r ≤ shared_step pre k z k' →
  Z.of_nat r ≤ z ∧ agree r k k'.
Proof.
  intros Ha Hr. unfold shared_step. case_decide; [lia|]. intros Hle. split; [lia|].
  apply Z.min_glb_l in Hle. eapply agree_le; [by apply agree_extend|]. apply Nat2Z.inj_le. exact Hle.
Qed.

Lemma shared_fold_spec pre k ks z r :
  Forall (agree pre k) ks → (pre < r)%nat → Z.of_nat r ≤ foldl (shared_step pre k) z ks →
  Z.of_nat r ≤ z ∧ Forall (agree r k) ks.
Proof.
  intros Hks Hr. revert z. induction Hks as [|k' ks Hk _ IH]; intros z Hle; simpl in *; [done|].
  destruct (IH _ Hle) as [H1 H2]. destruct (shared_step_spec _ _ _ _ _ Hk Hr H1). auto.
Qed.

(** ** The computation succeeds *)

(** A range as [hash256rlp] receives it: sorted, the keys agree on the first
    [pre] nibbles, keys and values are of bounded size. *)
Definition seg_ok (K : nat) (pre : nat) (seg : BytesMap) : Prop :=
  sorted seg ∧
  (∀ p q, p ∈ seg → q ∈ seg → agree pre (fst p) (fst q)) ∧
  (∀ p, p ∈ seg → (length (fst p) ≤ K)%nat ∧ len (snd p) < 2 ^ 56).

Lemma seg_ok_tail K pre p seg : seg_ok K pre (p :: seg) → seg_ok K pre seg.
Proof.
  intros (Hs & Ha & Hk). split; [by inversion Hs|]. split; intros; [apply Ha|apply Hk]; by right.
Qed.

(** The span of one nibble: a sublist, in order, with that nibble next. *)
Lemma span_nibble_spec pre i l :
  let '(a, b) := span_nibble pre i l in
  l = a ++ b ∧ Forall (λ p, byte_at (fst p) (Z.of_nat pre) = i) a.
Proof.
  induction l as [|[k v] l IH]; simpl; [by split|].
  case_decide; [|by split]. destruct (span_nibble pre i l) as [a b]. destruct IH as [-> Hf].
  split; [done|by constructor].
Qed.

Lemma sorted_app_l a b : sorted (a ++ b) → sorted a.
Proof.
  unfold sorted. induction a as [|p a IH]; [constructor|]. simpl. intros Hs. inversion Hs; subst.
  constructor; [by apply IH|]. by apply Forall_app_1_l in H2 || by (apply Forall_app in H2 as [? _]).
Qed.

Lemma sorted_app_r a b : sorted (a ++ b) → sorted b.
Proof. induction a as [|p a IH]; [done|]. simpl. intros Hs. apply IH. by inversion Hs. Qed.

(** Beyond the first entry, every key of a range is longer than the shared
    prefix; so is the first one unless it is exactly the prefix. *)
Lemma seg_longer K pre k v rest p :
  seg_ok K pre ((k, v) :: rest) → p ∈ rest → (pre < length (fst p))%nat.
Proof.
  intros (Hs & Ha & _) Hp. inversion Hs as [|? ? _ Hf]; subst.
  rewrite list.Forall_forall in Hf. specialize (Hf p Hp). unfold key_lt in Hf. simpl in Hf.
  destruct (Ha (k, v) p) as (Ht & H1 & H2); [left|by right|]. simpl in *.
  destruct (decide (length (fst p) = pre)) as [E|]; [|lia].
  rewrite (take_ge (fst p)) in Ht by lia. rewrite <- (take_drop pre k), Ht, bytes_lt_prefix in Hf. done.
Qed.

Lemma agree_next pre k k' i :
  agree pre k k' → (pre < length k)%nat → (pre < length k')%nat →
  byte_at k (Z.of_nat pre) = i → byte_at k' (Z.of_nat pre) = i → agree (S pre) k k'.
Proof.
  intros (Ht & _ & _) H1 H2 E1 E2. split; [|lia].
  destruct (lookup_lt_is_Some_2 k pre H1) as [x Hx]. destruct (lookup_lt_is_Some_2 k' pre H2) as [y Hy].
  rewrite (take_S_r _ _ _ Hx), (take_S_r _ _ _ Hy), Ht. unfold byte_at in E1, E2.
  rewrite Nat2Z.id in E1, E2.
  rewrite (nth_lookup_Some _ _ _ _ Hx) in E1. rewrite (nth_lookup_Some _ _ _ _ Hy) in E2. by subst.
Qed.

(** The part of a branch for nibble [i] is again a range, one nibble deeper. *)
Lemma seg_ok_span K pre i b m n :
  seg_ok K pre b → (∀ p, p ∈ b → (pre < length (fst p))%nat) → span_nibble pre i b = (m, n) →
  seg_ok K (S pre) m ∧ seg_ok K pre n ∧ (∀ p, p ∈ n → (pre < length (fst p))%nat).
Proof.
  intros (Hs & Ha & Hk) Hlong E. pose proof (span_nibble_spec pre i b) as H. rewrite E in H.
  destruct H as [-> Hf]. rewrite list.Forall_forall in Hf. split; [|split; [split|]].
  - split; [by eapply sorted_app_l|]. split; [|intros p Hp; apply Hk; apply elem_of_app; by left].
    intros p q Hp Hq. eapply agree_next; [apply Ha| | |by apply Hf|by apply Hf];
      try apply Hlong; apply elem_of_app; by left.
  - by eapply sorted_app_r.
  - split; intros; [apply Ha|apply Hk]; apply elem_of_app; by right.
  - intros p Hp. apply Hlong, elem_of_app. by right.
Qed.

Lemma length_pack n : (length (pack n) ≤ length n)%nat.
Proof.
  enough (∀ k n, (length n ≤ k)%nat → (length (pack n) ≤ length n)%nat) by eauto.
  clear n. induction k as [|k IH]; intros [|x [|y n]] Hl; simpl in *; try lia.
  specialize (IH n ltac:(lia)). lia.
Qed.

Lemma len_hexPrefixEncode hv leaf b e : len (hexPrefixEncode hv leaf b e) ≤ len hv + 1.
Proof.
  unfold hexPrefixEncode. pose proof (length_pack (take (e - b) (drop b hv))) as H1.
  pose proof (length_pack (drop 1 (take (e - b) (drop b hv)))) as H2.
  rewrite !length_drop, length_take in H2. rewrite length_take, length_drop in *.
  destruct (Nat.odd (e - b)); rewrite len_cons; unfold len; lia.
Qed.

Section crypto.
Context `{CryptoLaws}.

(** The code of [hash256aux] around the node [R] computes. *)
Lemma aux_total (R : RLPStream → res RLPStream) e :
  (∀ s, R s = add_item e s) →
  ∃ e', len e' ≤ 41 ∧ ∀ s,
    (r ← R RLPStream0; o ← out r;
     if decide (len o < 32) then appendRaw s o 1 else append_bytes s (sha3 o) false) = add_item e' s.
Proof.
  intros HR.
  assert (∀ s, (r ← R RLPStream0; o ← out r;
     if decide (len o < 32) then appendRaw s o 1 else append_bytes s (sha3 o) false)
     = if decide (len e < 32) then add_item e s else append_bytes s (sha3 e) false) as Hrun.
  { intros s. rewrite HR. unfold RLPStream0. by rewrite add_item_top, bind_ok. }
  destruct (decide (len e < 32)) as [Hs|Hs].
  - exists e. split; [lia|done].
  - destruct (sha3_ok e) as [_ Hl]. unfold h256_size in Hl.
    exists (enc_data (sha3 e)). split; [pose proof (len_enc_data_le (sha3 e)); lia|].
    intros s. rewrite Hrun. apply append_bytes_enc. lia.
Qed.

(** The loop over the nibbles of a branch, for any [aux] that succeeds on the
    ranges one nibble deeper. *)
Lemma branch_total K pre (aux : BytesMap → RLPStream → res RLPStream) :
  (∀ m, seg_ok K (S pre) m → m ≠ [] → ∃ e, len e ≤ 41 ∧ ∀ s, aux m s = add_item e s) →
  ∀ idx b, seg_ok K pre b → (∀ p, p ∈ b → (pre < length (fst p))%nat) →
  ∃ es b', length es = length idx ∧ Forall (λ e, len e ≤ 41) es ∧ ∀ m,
    foldl (λ acc i,
       '(s, b) ← acc;
       let '(m, n) := span_nibble pre i b in
       s ← (if decide (m = []) then append_bytes s [] false else aux m s);
       Ok (s, n)) (s ← m; Ok (s, b)) idx
    = (s ← m; s ← add_items es s; Ok (s, b')).
Proof.
  intros Haux. induction idx as [|i idx IH]; intros b Hb Hlong.
  { exists [], b. split; [done|]. split; [constructor|]. intros m. by destruct m. }
  destruct (span_nibble pre i b) as [m n] eqn:E.
  destruct (seg_ok_span _ _ _ _ _ _ Hb Hlong E) as (Hm & Hn & Hln).
  assert (∃ e, len e ≤ 41 ∧ ∀ s, (if decide (m = []) then append_bytes s [] false else aux m s)
                                 = add_item e s) as (e & He & Hstep).
  { case_decide as Hz; [|by apply Haux]. exists (enc_data []). split; [done|]. intros s.
    by apply append_bytes_enc. }
  destruct (IH n Hn Hln) as (es & b' & Hlen & Hes & Hfold).
  exists (e :: es), b'. split; [simpl; lia|]. split; [by constructor|]. intros [s|x]; cbn [foldl].
  - rewrite !bind_ok. cbv beta iota. rewrite E, Hstep, Hfold. cbn [add_items].
    by destruct (add_item e s).
  - clear. simpl. induction idx; simpl; done.
Qed.

Lemma shared_seg K pre k v rest r :
  seg_ok K pre ((k, v) :: rest) → (pre < r)%nat →
  Z.of_nat r ≤ foldl (shared_step pre k) UINT32_MAX (fst <$> rest) → rest ≠ [] →
  seg_ok K r ((k, v) :: rest).
Proof.
  intros (Hs & Ha & Hk) Hr Hle Hne. split; [done|]. split; [|done].
  destruct (shared_fold_spec pre k (fst <$> rest) UINT32_MAX r) as [_ Hf]; [|done|done|].
  { apply Forall_fmap, list.Forall_forall. intros p Hp. simpl. apply (Ha (k, v)); [left|by right]. }
  rewrite Forall_fmap, list.Forall_forall in Hf.
  assert (∀ p, p ∈ (k, v) :: rest → agree r k (fst p)) as Hag.
  { intros p Hp. apply elem_of_cons in Hp as [->|Hp]; [|by apply Hf].
    destruct rest as [|q rest]; [done|]. destruct (Hf q) as (_ & ? & _); [left|]. split; [done|simpl; lia]. }
  intros p q Hp Hq. destruct (Hag p Hp) as (E1 & _ & ?), (Hag q Hq) as (E2 & _ & ?).
  split; [congruence|lia].
Qed.

Lemma leaf_total k v pre s :
  len k < 2 ^ 50 → len v < 2 ^ 56 →
  (s ← appendList s 2;
   s ← append_bytes s (hexPrefixEncode k true pre (length k)) false;
   append_bytes s v false)
  = add_item (enc_list (concat [enc_data (hexPrefixEncode k true pre (length k)); enc_data v])) s.
Proof.
  intros Hk Hv. pose proof (len_hexPrefixEncode k true pre (length k)) as Hh.
  rewrite <- appendList_items.
  - change (Z.of_nat (length [_; _])) with 2. destruct (appendList s 2) as [s'|]; [|done].
    rewrite !bind_ok. stream_steps.
  - cbn [concat]. rewrite !len_app, len_nil. pose proof (len_enc_data_le v).
    pose proof (len_enc_data_le (hexPrefixEncode k true pre (length k))). lia.
Qed.

(** A node with its extension key and child. *)
Lemma ext_total k pre r (aux : RLPStream → res RLPStream) e s :
  len k < 2 ^ 50 → len e ≤ 41 → (∀ s, aux s = add_item e s) →
  (s ← appendList s 2; s ← append_bytes s (hexPrefixEncode k false pre r) false; aux s)
  = add_item (enc_list (concat [enc_data (hexPrefixEncode k false pre r); e])) s.
Proof.
  intros Hk He Ha. pose proof (len_hexPrefixEncode k false pre r) as Hh.
  rewrite <- appendList_items.
  - change (Z.of_nat (length [_; _])) with 2. destruct (appendList s 2) as [s'|]; [|done].
    rewrite !bind_ok. cbn [add_items]. stream_step. rewrite Ha. by destruct (add_item e _).
  - cbn [concat]. rewrite !len_app, len_nil.
    pose proof (len_enc_data_le (hexPrefixEncode k false pre r)). lia.
Qed.

(** A branch node: sixteen children and a value. *)
Lemma branch_node K pre k v rest (aux : BytesMap → RLPStream → res RLPStream) :
  (∀ m, seg_ok K (S pre) m → m ≠ [] → ∃ e, len e ≤ 41 ∧ ∀ s, aux m s = add_item e s) →
  seg_ok K pre ((k, v) :: rest) → len v < 2 ^ 56 →
  ∃ e, len e < 2 ^ 60 ∧ ∀ s,
    (s ← appendList s 17;
     '(s, _) ← foldl (λ acc i,
         '(s, b) ← acc;
         let '(m, n) := span_nibble pre i b in
         s ← (if decide (m = []) then append_bytes s [] false else aux m s);
         Ok (s, n)) (Ok (s, if decide (pre = length k) then rest else (k, v) :: rest)) (seqZ 0 16);
     append_bytes s (if decide (pre = length k) then v else []) false) = add_item e s.
Proof.
  intros Haux Hseg Hvl. pose proof Hseg as (_ & Ha & _).
  set (b := if decide (pre = length k) then rest else (k, v) :: rest).
  assert (seg_ok K pre b ∧ ∀ p, p ∈ b → (pre < length (fst p))%nat) as [Hb Hlong].
  { unfold b. case_decide; (split; [done || by eapply seg_ok_tail|]); intros p Hp.
    - by eapply seg_longer.
    - apply elem_of_cons in Hp as [->|Hp]; [|by eapply seg_longer]. simpl.
      destruct (Ha (k, v) (k, v)) as (_ & ? & _); [left|left|]. simpl in *. lia. }
  destruct (branch_total K pre _ Haux (seqZ 0 16) b Hb Hlong) as (es & b' & Hlen & Hes & Hfold).
  exists (enc_list (concat (es ++ [enc_data (if decide (pre = length k) then v else [])]))).
  set (w := if decide (pre = length k) then v else []).
  assert (len w < 2 ^ 56) as Hw by (unfold w; case_decide; [done|by rewrite len_nil]).
  assert (len (concat (es ++ [enc_data w])) < 2 ^ 59) as Hl.
  { rewrite concat_app, len_app. cbn [concat]. rewrite app_nil_r.
    pose proof (len_concat_le es 41 Hes). pose proof (len_enc_data_le w).
    rewrite Hlen, length_seqZ in *. lia. }
  split; [pose proof (len_enc_list_le (concat (es ++ [enc_data w]))); lia|]. intros s.
  rewrite <- appendList_items by lia. rewrite length_app, Hlen, length_seqZ.
  change (Z.of_nat (Z.to_nat 16 + length [_])) with 17.
  destruct (appendList s 17) as [s'|]; [|done]. rewrite !bind_ok.
  rewrite add_items_app. specialize (Hfold (Ok s')). rewrite !bind_ok in Hfold. fold b. rewrite Hfold.
  destruct (add_items es s') as [s2|]; [|done]. rewrite !bind_ok. cbv beta iota. cbn [add_items].
  rewrite append_bytes_enc by (fold w; lia). fold w. by destruct (add_item _ s2).
Qed.

Lemma node_total K fuel seg pre :
  Z.of_nat K < 2 ^ 50 → seg_ok K pre seg → seg ≠ [] → (K < fuel + pre)%nat →
  ∃ e, len e < 2 ^ 60 ∧ ∀ s, hash256rlp fuel seg pre s = add_item e s.
Proof.
  intros HK. revert seg pre. induction fuel as [|fuel IH]; intros seg pre Hseg Hne Hf.
  { destruct seg as [|p seg]; [done|]. destruct Hseg as (_ & Ha & Hk).
    destruct (Ha p p) as (_ & ? & _); [left|left|]. destruct (Hk p); [left|]. lia. }
  assert (∀ m pre', seg_ok K pre' m → m ≠ [] → (pre < pre')%nat →
    ∃ e, len e ≤ 41 ∧ ∀ s, (r ← hash256rlp fuel m pre' RLPStream0; o ← out r;
      if decide (len o < 32) then appendRaw s o 1 else append_bytes s (sha3 o) false) = add_item e s) as Haux.
  { intros m pre' Hm Hm0 Hp. destruct (IH m pre' Hm Hm0) as (e & _ & He); [lia|]. by eapply aux_total. }
  destruct seg as [|[k v] rest]; [done|]. pose proof Hseg as (_ & Ha & Hk).
  destruct (Hk (k, v)) as [Hkl Hvl]; [left|]. simpl in Hkl, Hvl.
  assert (len k < 2 ^ 50) as Hkl' by (unfold len; lia).
  destruct rest as [|q rest].
  { eexists. split; [|intros s; by apply leaf_total].
    pose proof (len_hexPrefixEncode k true pre (length k)).
    eapply Z.le_lt_trans; [apply len_enc_list_le|]; cbn [concat]; rewrite !len_app, len_nil;
      pose proof (len_enc_data_le v); pose proof (len_enc_data_le (hexPrefixEncode k true pre (length k))); lia. }
  cbn [hash256rlp]. set (r := Z.to_nat (foldl (shared_step pre k) UINT32_MAX (fst <$> q :: rest))).
  destruct (decide (pre < r)%nat) as [Hr|Hr].
  - destruct (Haux ((k, v) :: q :: rest) r) as (e & He & Hrun); [|done|done|].
    { apply (shared_seg K pre k v (q :: rest) r Hseg Hr); [unfold r; lia|done]. }
    eexists. split; [|intros s; by apply (ext_total k pre r _ e)].
    pose proof (len_hexPrefixEncode k false pre r).
    eapply Z.le_lt_trans; [apply len_enc_list_le|]; cbn [concat]; rewrite !len_app, len_nil;
      pose proof (len_enc_data_le (hexPrefixEncode k false pre r)); lia.
  - apply (branch_node K pre k v (q :: rest) _
      (λ m Hm Hm0, Haux m (S pre) Hm Hm0 (Nat.lt_succ_diag_r pre)) Hseg Hvl).
Qed.
End crypto.

(** ** Reading back a key *)

Definition nibbles (d : bytes) : bytes := concat ((λ x, [Z.shiftr x 4; Z.land x 15]) <$> d).

Lemma nibble_cons x d i : 0 ≤ i → nibble (x :: d) (i + 2) = nibble d i.
Proof.
  intros Hi. assert (∀ j, Z.land j 1 = j `mod` 2) as Hl.
  { intros j. change 1 with (Z.ones 1). by rewrite Z.land_ones by lia. }
  assert (Z.land (i + 2) 1 = Z.land i 1) as E1.
  { rewrite !Hl. replace (i + 2) with (i + 1 * 2) by lia. by rewrite Z.mod_add by lia. }
  assert ((i + 2) / 2 = 1 + i / 2) as E2.
  { replace (i + 2) with (i + 1 * 2) by lia. rewrite Z.div_add by lia. lia. }
  assert (0 ≤ i / 2) by (apply Z.div_pos; lia).
  unfold nibble. rewrite E2, byte_at_S by lia. repeat case_decide; congruence.
Qed.

Lemma nibble_shift x d k :
  nibble (x :: d) <$> seqZ 2 k = nibble d <$> seqZ 0 k.
Proof.
  change (seqZ 2 k) with (seqZ (2 + 0) k). rewrite <- fmap_add_seqZ, <- list_fmap_compose.
  apply list_fmap_ext. intros j i Hi. apply lookup_seqZ in Hi as [-> _]. simpl.
  rewrite Z.add_comm. apply nibble_cons. lia.
Qed.

Lemma nibbles_spec d : nibble d <$> seqZ 0 (len d * 2) = nibbles d.
Proof.
  induction d as [|x d IH]; [done|].
  rewrite len_cons. pose proof (len_nonneg d).
  replace ((1 + len d) * 2) with (2 + len d * 2) by lia.
  rewrite seqZ_app by lia. rewrite fmap_app. change (0 + 2) with 2. rewrite nibble_shift, IH. done.
Qed.

Definition is_nibble (x : Z) : Prop := 0 ≤ x < 16.

Lemma pack_byte x y :
  is_nibble x → is_nibble y →
  Z.shiftr (u8 (x * 16 + y)) 4 = x ∧ Z.land (u8 (x * 16 + y)) 15 = y.
Proof.
  unfold is_nibble. intros Hx Hy. rewrite u8_small by lia. change 15 with (Z.ones 4).
  rewrite Z.shiftr_div_pow2, Z.land_ones by lia. change (2 ^ 4) with 16. split.
  - rewrite Z.div_add_l by lia. rewrite Z.div_small by lia. lia.
  - rewrite Z.add_comm, Z.mod_add by lia. by apply Z.mod_small.
Qed.

Lemma nibbles_pack n : Forall is_nibble n → Nat.even (length n) = true → nibbles (pack n) = n.
Proof.
  enough (∀ k n, (length n ≤ k)%nat → Forall is_nibble n → Nat.even (length n) = true →
    nibbles (pack n) = n) by eauto.
  clear n. induction k as [|k IH]; intros [|x [|y n]] Hl Hn He; simpl in *; try done; try lia.
  inversion Hn as [|? ? Hx Hn']; subst. inversion Hn' as [|? ? Hy Hn'']; subst.
  unfold nibbles. cbn [fmap list_fmap concat]. destruct (pack_byte x y Hx Hy) as [-> ->].
  fold (nibbles (pack n)). simpl. do 2 f_equal. apply IH; [lia|done|done].
Qed.

Lemma hex_flag (leaf odd : bool) x :
  is_nibble x →
  let f := Z.lor (Z.lor (if leaf then 2 else 0) (if odd then 1 else 0) * 16) x in
  Z.land f 15 = x ∧ (Z.land f 0x10 ≠ 0 ↔ odd = true) ∧ (Z.land f 0x20 ≠ 0 ↔ leaf = true).
Proof.
  intros Hx. rewrite <- (Z2Nat.id x) by (unfold is_nibble in Hx; lia).
  assert (Z.to_nat x < 16)%nat as Hk by (unfold is_nibble in Hx; lia).
  revert Hk. generalize (Z.to_nat x). intros k Hk. clear x Hx.
  do 16 (destruct k as [|k]; [destruct leaf, odd; vm_compute; intuition congruence|]). lia.
Qed.

Lemma keyOf_cons x d :
  keyOf (x :: d) = (if decide (Z.land x 0x10 ≠ 0) then [Z.land x 15] else []) ++ nibbles d.
Proof.
  unfold keyOf. pose proof (len_nonneg d). rewrite decide_False by (rewrite len_cons; lia).
  rewrite byte_at_0, len_cons. rewrite <- nibbles_spec, <- (nibble_shift x). case_decide.
  - replace ((1 + len d) * 2 - 1) with (1 + len d * 2) by lia. rewrite seqZ_app by lia.
    rewrite fmap_app. done.
  - by replace ((1 + len d) * 2 - 2) with (len d * 2) by lia.
Qed.

Lemma len_asNibbles k : len (asNibbles k) = 2 * len k.
Proof.
  induction k as [|x k IH]; [done|]. change (asNibbles (x :: k)) with ([x / 16; x `mod` 16] ++ asNibbles k).
  rewrite len_app, (len_cons x), IH. change (len [x / 16; x `mod` 16]) with 2. lia.
Qed.

(** The map of nibble keys [rlp256] builds. *)
Lemma hex_map_ok m :
  Forall (λ p, len (fst p) < 2 ^ 48 ∧ len (snd p) < 2 ^ 56) m →
  let hm := foldr (λ kv acc, map_set (asNibbles (fst kv)) (snd kv) acc) [] m in
  sorted hm ∧ Forall (λ p, len (fst p) < 2 ^ 49 ∧ len (snd p) < 2 ^ 56) hm.
Proof.
  induction 1 as [|[k v] m [Hk Hv] Hm [IH1 IH2]]; [split; constructor|]. cbn [foldr fst snd].
  split; [by apply map_set_sorted|]. apply map_set_Forall; [|done]. simpl in *.
  rewrite len_asNibbles. split; [lia|done].
Qed.

Lemma map_set_nonempty k v m : map_set k v m ≠ [].
Proof. destruct m as [|[k' v'] m]; simpl; [done|]. destruct (bytes_lt k k'); [done|]. by case_decide. Qed.

Lemma max_key_ge m p : p ∈ m → (length (fst p) ≤ max_key m)%nat.
Proof. unfold max_key. induction 1 as [|???? IH]; cbn [fmap list_fmap foldr compose] in *; lia. Qed.

Lemma max_key_le m n : (∀ p, p ∈ m → (length (fst p) ≤ n)%nat) → (max_key m ≤ n)%nat.
Proof.
  induction m as [|p m IH]; intros Hm; [unfold max_key; simpl; lia|].
  change (max_key (p :: m)) with (Nat.max (length (fst p)) (max_key m)).
  assert (max_key m ≤ n)%nat by (apply IH; intros; apply Hm; by right).
  pose proof (Hm p ltac:(left)). lia.
Qed.

Lemma trie_total `{CryptoLaws} m :
  Forall (λ p, len (fst p) < 2 ^ 48 ∧ len (snd p) < 2 ^ 56) m → ∃ e, rlp256 m = Ok e.
Proof.
  intros Hm. unfold rlp256. case_decide as Hne; [eexists; reflexivity|].
  destruct (hex_map_ok m Hm) as [Hs Hb]. set (hm := foldr _ [] m) in *.
  assert (hm ≠ []) as Hn by (destruct m as [|[k v] m]; [done|apply map_set_nonempty]).
  clearbody hm. rewrite list.Forall_forall in Hb.
  assert (max_key hm ≤ Z.to_nat (2 ^ 49))%nat as HK.
  { apply max_key_le. intros p Hp. destruct (Hb p Hp). unfold len in *. lia. }
  destruct (node_total (max_key hm) (S (S (max_key hm))) hm 0) as (e & _ & He); [lia| |done|lia|].
  { split; [done|]. split; [intros; split; [by rewrite !take_0|lia]|]. intros p Hp.
    split; [by apply max_key_ge|by apply Hb]. }
  rewrite He. exists e. unfold RLPStream0. by rewrite add_item_top, bind_ok.
Qed.

(** ** Properties *)

(** The hex-prefix encoding of a nibble string can be read back: [keyOf]
    returns exactly the encoded nibbles and [isLeaf] the leaf flag, for every
    slice of a key, of even or odd length. *)
Theorem hexPrefix_roundtrip hv leaf b e :
  Forall is_nibble hv → (b ≤ e ≤ length hv)%nat →
  keyOf (hexPrefixEncode hv leaf b e) = take (e - b) (drop b hv) ∧
  hp_isLeaf (hexPrefixEncode hv leaf b e) = leaf.
Proof.
  intros Hhv Hbe. set (n := take (e - b) (drop b hv)).
  assert (Forall is_nibble n) as Hn by (by apply Forall_take, Forall_drop).
  assert (length n = (e - b)%nat) as Hlen by (unfold n; rewrite length_take, length_drop; lia).
  unfold hexPrefixEncode. fold n. destruct (Nat.odd (e - b)) eqn:Hodd.
  - destruct n as [|x n']; [simpl in Hlen; rewrite <- Hlen in Hodd; done|].
    inversion Hn as [|? ? Hx Hn']; subst. rewrite byte_at_0.
    destruct (hex_flag leaf true x Hx) as (H1 & H2 & H3). simpl drop. rewrite drop_0.
    rewrite keyOf_cons, decide_True by (by apply H2). rewrite H1. split.
    + rewrite nibbles_pack; [done|done|]. simpl in Hlen. rewrite <- Hlen, Nat.odd_succ in Hodd. done.
    + unfold hp_isLeaf. rewrite byte_at_0. destruct leaf; [by apply bool_decide_true, H3|].
      apply bool_decide_false. intros Hc. by apply H3 in Hc.
  - destruct (hex_flag leaf false 0) as (_ & H2 & H3); [done|]. rewrite Z.lor_0_r in H2, H3.
    rewrite keyOf_cons, decide_False by (intros Hc; by apply H2 in Hc). split.
    + simpl. apply nibbles_pack; [done|]. rewrite Hlen. unfold Nat.odd in Hodd.
      by apply negb_false_iff in Hodd.
    + unfold hp_isLeaf. rewrite byte_at_0. destruct leaf; [by apply bool_decide_true, H3|].
      apply bool_decide_false. intros Hc. by apply H3 in Hc.
Qed.

Lemma hexPrefix_roundtrip_witness :
  keyOf (hexPrefixEncode [1; 2; 3; 4; 5] true 1 4) = [2; 3; 4] ∧
  hp_isLeaf (hexPrefixEncode [1; 2; 3; 4; 5] true 1 4) = true.
Proof.
  apply (hexPrefix_roundtrip [1; 2; 3; 4; 5] true 1 4).
  - repeat (constructor; [unfold is_nibble; lia|]). constructor.
  - simpl. lia.
Defined.

(** The root of a map is always computed: for every map with keys and
    values of bounded size, and every hash function with 32-byte results,
    [rlp256] returns, so [hash256] neither throws nor fails to terminate. *)
Theorem rlp256_total `{CryptoLaws} m :
  Forall (λ p, len (fst p) < 2 ^ 48 ∧ len (snd p) < 2 ^ 56) m → ∃ e, rlp256 m = Ok e.
Proof. apply trie_total. Qed.

Lemma rlp256_total_witness :
  ∃ e, @rlp256 example_crypto [([1; 2], [9; 9]); ([1; 3], [8])] = Ok e.
Proof.
  apply (@rlp256_total example_crypto example_crypto_laws). repeat constructor; done.
Defined.
