(* ===== verification/Block.v ===== *)
(** * Block headers and blocks

    Models libethcore/BlockHeader.h/.cpp and libethcore/Block.h/.cpp: the
    header with its memoised hash, every setter, the RLP codec and [verify];
    the block with its cached encodings of the transactions and receipts and
    their roots. Locks and the unused [m_dbHash] are not modelled. *)

From S2P Require Import Prelude RLP Crypto Transaction TrieHash.

Local Open Scope Z_scope.

(** ** BlockHeader *)

Record BlockHeader := MkHeader {
  m_parentHash : bytes;
  m_stateRoot : bytes;
  m_transactionsRoot : bytes;
  m_receiptsRoot : bytes;
  m_logBloom : bytes;
  m_number : Z;               (* int64_t *)
  m_gasLimit : Z;
  m_gasUsed : Z;
  m_timestamp : Z;            (* uint64_t *)
  m_extraData : list bytes;
  m_sealer : Z;
  m_sealerList : list bytes;
  m_hash : bytes;             (* memoised, h256() when dirty *)
}.

#[global] Instance BlockHeader_eq_dec : EqDecision BlockHeader.
Proof. solve_decision. Defined.

Definition MaxBlockNumber : Z := INT64_MAX.
Definition BasicFields : Z := 12.

(** [BlockHeader()]. *)
Definition BlockHeader0 : BlockHeader :=
  MkHeader h256_0 h256_0 h256_0 h256_0 (zero_hash bloom_size) 0 0 0 UINT64_MAX [] Invalid256 []
    h256_0.

(** [operator bool]. *)
Definition header_bool (h : BlockHeader) : bool := bool_decide (m_timestamp h ≠ UINT64_MAX).

(** [operator==]. *)
Definition header_eq (a b : BlockHeader) : bool :=
  bool_decide (m_parentHash a = m_parentHash b) && bool_decide (m_logBloom a = m_logBloom b) &&
  bool_decide (m_number a = m_number b) && bool_decide (m_gasLimit a = m_gasLimit b) &&
  bool_decide (m_gasUsed a = m_gasUsed b) && bool_decide (m_timestamp a = m_timestamp b) &&
  bool_decide (m_extraData a = m_extraData b) && bool_decide (m_sealer a = m_sealer b) &&
  bool_decide (m_sealerList a = m_sealerList a).

Definition noteDirty (h : BlockHeader) : BlockHeader :=
  MkHeader (m_parentHash h) (m_stateRoot h) (m_transactionsRoot h) (m_receiptsRoot h)
    (m_logBloom h) (m_number h) (m_gasLimit h) (m_gasUsed h) (m_timestamp h) (m_extraData h)
    (m_sealer h) (m_sealerList h) h256_0.

Definition header_set_hash (h : BlockHeader) (x : bytes) : BlockHeader :=
  MkHeader (m_parentHash h) (m_stateRoot h) (m_transactionsRoot h) (m_receiptsRoot h)
    (m_logBloom h) (m_number h) (m_gasLimit h) (m_gasUsed h) (m_timestamp h) (m_extraData h)
    (m_sealer h) (m_sealerList h) x.

Definition setParentHash (h : BlockHeader) (x : bytes) : BlockHeader :=
  MkHeader x (m_stateRoot h) (m_transactionsRoot h) (m_receiptsRoot h) (m_logBloom h) (m_number h)
    (m_gasLimit h) (m_gasUsed h) (m_timestamp h) (m_extraData h) (m_sealer h) (m_sealerList h) h256_0.
Definition setRoots (h : BlockHeader) (t r s : bytes) : BlockHeader :=
  MkHeader (m_parentHash h) s t r (m_logBloom h) (m_number h)
    (m_gasLimit h) (m_gasUsed h) (m_timestamp h) (m_extraData h) (m_sealer h) (m_sealerList h) h256_0.
Definition setStateRoot (h : BlockHeader) (x : bytes) : BlockHeader :=
  MkHeader (m_parentHash h) x (m_transactionsRoot h) (m_receiptsRoot h) (m_logBloom h) (m_number h)
    (m_gasLimit h) (m_gasUsed h) (m_timestamp h) (m_extraData h) (m_sealer h) (m_sealerList h) h256_0.
Definition setTransactionsRoot (h : BlockHeader) (x : bytes) : BlockHeader :=
  MkHeader (m_parentHash h) (m_stateRoot h) x (m_receiptsRoot h) (m_logBloom h) (m_number h)
    (m_gasLimit h) (m_gasUsed h) (m_timestamp h) (m_extraData h) (m_sealer h) (m_sealerList h) h256_0.
Definition setReceiptsRoot (h : BlockHeader) (x : bytes) : BlockHeader :=
  MkHeader (m_parentHash h) (m_stateRoot h) (m_transactionsRoot h) x (m_logBloom h) (m_number h)
    (m_gasLimit h) (m_gasUsed h) (m_timestamp h) (m_extraData h) (m_sealer h) (m_sealerList h) h256_0.
Definition setLogBloom (h : BlockHeader) (x : bytes) : BlockHeader :=
  MkHeader (m_parentHash h) (m_stateRoot h) (m_transactionsRoot h) (m_receiptsRoot h) x (m_number h)
    (m_gasLimit h) (m_gasUsed h) (m_timestamp h) (m_extraData h) (m_sealer h) (m_sealerList h) h256_0.
Definition setNumber (h : BlockHeader) (x : Z) : BlockHeader :=
  MkHeader (m_parentHash h) (m_stateRoot h) (m_transactionsRoot h) (m_receiptsRoot h) (m_logBloom h) x
    (m_gasLimit h) (m_gasUsed h) (m_timestamp h) (m_extraData h) (m_sealer h) (m_sealerList h) h256_0.
Definition setGasLimit (h : BlockHeader) (x : Z) : BlockHeader :=
  MkHeader (m_parentHash h) (m_stateRoot h) (m_transactionsRoot h) (m_receiptsRoot h) (m_logBloom h)
    (m_number h) x (m_gasUsed h) (m_timestamp h) (m_extraData h) (m_sealer h) (m_sealerList h) h256_0.
Definition setGasUsed (h : BlockHeader) (x : Z) : BlockHeader :=
  MkHeader (m_parentHash h) (m_stateRoot h) (m_transactionsRoot h) (m_receiptsRoot h) (m_logBloom h)
    (m_number h) (m_gasLimit h) x (m_timestamp h) (m_extraData h) (m_sealer h) (m_sealerList h) h256_0.
Definition setTimestamp (h : BlockHeader) (x : Z) : BlockHeader :=
  MkHeader (m_parentHash h) (m_stateRoot h) (m_transactionsRoot h) (m_receiptsRoot h) (m_logBloom h)
    (m_number h) (m_gasLimit h) (m_gasUsed h) x (m_extraData h) (m_sealer h) (m_sealerList h) h256_0.
Definition setExtraData (h : BlockHeader) (x : list bytes) : BlockHeader :=
  MkHeader (m_parentHash h) (m_stateRoot h) (m_transactionsRoot h) (m_receiptsRoot h) (m_logBloom h)
    (m_number h) (m_gasLimit h) (m_gasUsed h) (m_timestamp h) x (m_sealer h) (m_sealerList h) h256_0.
Definition setSealer (h : BlockHeader) (x : Z) : BlockHeader :=
  MkHeader (m_parentHash h) (m_stateRoot h) (m_transactionsRoot h) (m_receiptsRoot h) (m_logBloom h)
    (m_number h) (m_gasLimit h) (m_gasUsed h) (m_timestamp h) (m_extraData h) x (m_sealerList h) h256_0.
Definition setSealerList (h : BlockHeader) (x : list bytes) : BlockHeader :=
  MkHeader (m_parentHash h) (m_stateRoot h) (m_transactionsRoot h) (m_receiptsRoot h) (m_logBloom h)
    (m_number h) (m_gasLimit h) (m_gasUsed h) (m_timestamp h) (m_extraData h) (m_sealer h) x h256_0.

Definition appendExtraDataArray (h : BlockHeader) (x : bytes) : BlockHeader :=
  setExtraData h (m_extraData h ++ [x]).

(** [appendExtraDataItem]: [None] is the result [false]. The memoised hash is
    not invalidated. *)
Definition appendExtraDataItem (h : BlockHeader) (x : bytes) (i : nat) : option BlockHeader :=
  if decide (length (m_extraData h) ≤ i)%nat then None
  else Some (header_set_hash (setExtraData h (<[i := x]> (m_extraData h))) (m_hash h)).

(** [setExtraData(content, index)]. *)
Definition setExtraDataItem (h : BlockHeader) (x : bytes) (i : nat) : option BlockHeader :=
  if decide (length (m_extraData h) ≤ i)%nat then None
  else Some (setExtraData h (<[i := x]> (m_extraData h))).

(** *** Codec *)

Definition header_stream (h : BlockHeader) (s : RLPStream) : res RLPStream :=
  s ← append_bytes s (m_parentHash h) false;
  s ← append_bytes s (m_stateRoot h) false;
  s ← append_bytes s (m_transactionsRoot h) false;
  s ← append_bytes s (m_receiptsRoot h) false;
  s ← append_bytes s (m_logBloom h) false;
  s ← append_bigint s (m_number h);
  s ← append_u256 s (m_gasLimit h);
  s ← append_u256 s (m_gasUsed h);
  s ← append_bigint s (m_timestamp h);
  s ← append_hashes s (m_extraData h);
  s ← append_u256 s (m_sealer h);
  append_hashes s (m_sealerList h).

Definition header_encode (h : BlockHeader) : res bytes :=
  s ← appendList RLPStream0 BasicFields;
  s ← header_stream h s;
  out s.

(** [populate]: the memoised hash is not touched. *)
Definition header_populate (h0 : BlockHeader) (r : bytes) : res BlockHeader :=
  '(f0, c) ← rlp_index r rlp_cache0 0;
  ph ← toHash h256_size f0 VeryStrict;
  '(f1, c) ← rlp_index r c 1;
  sr ← toHash h256_size f1 VeryStrict;
  '(f2, c) ← rlp_index r c 2;
  tr ← toHash h256_size f2 VeryStrict;
  '(f3, c) ← rlp_index r c 3;
  rr ← toHash h256_size f3 VeryStrict;
  '(f4, c) ← rlp_index r c 4;
  lb ← toHash bloom_size f4 VeryStrict;
  '(f5, c) ← rlp_index r c 5;
  n ← toPositiveInt64 f5 Strict;
  '(f6, c) ← rlp_index r c 6;
  gl ← toInt_u256 f6 Strict;
  '(f7, c) ← rlp_index r c 7;
  gu ← toInt_u256 f7 Strict;
  '(f8, c) ← rlp_index r c 8;
  ts ← toInt_u64 f8 Strict;
  '(f9, c) ← rlp_index r c 9;
  ex ← toVector (λ x, toBytes x LaissezFaire) f9 LaissezFaire;
  '(f10, c) ← rlp_index r c 10;
  se ← toInt_u256 f10 Strict;
  '(f11, _) ← rlp_index r c 11;
  sl ← toVector (λ x, toHash h512_size x LaissezFaire) f11 LaissezFaire;
  Ok (MkHeader ph sr tr rr lb n gl gu ts ex se sl (m_hash h0)).

(** [populateFromParent]; the parent's hash is the caller's [hash()]. *)
Definition populateFromParent (h parent : BlockHeader) (parentHash : bytes) : BlockHeader :=
  MkHeader parentHash (m_stateRoot parent) (m_transactionsRoot h) (m_receiptsRoot h) (m_logBloom h)
    (i64 (m_number parent + 1)) (m_gasLimit parent) 0 (m_timestamp h) (m_extraData h) Invalid256
    (m_sealerList h) h256_0.

(** [extractBlock]: the block must be a list whose first two items are lists. *)
Definition extractBlock (d : bytes) : res bytes :=
  root ← RLP_new d VeryStrict;
  throw_if (¬ isList root) InvalidBlockFormat;;
  '(f0, c) ← rlp_index root rlp_cache0 0;
  throw_if (¬ isList f0) InvalidBlockFormat;;
  '(f1, _) ← rlp_index root c 1;
  throw_if (¬ isList f1) InvalidBlockFormat;;
  Ok root.

Inductive Strictness := CheckAll | QuickNonce | CheckNothingNew.

#[global] Instance Strictness_eq_dec : EqDecision Strictness.
Proof. solve_decision. Defined.

Section crypto.
Context `{Crypto}.

(** [hash()]: computed once, then memoised. *)
Definition header_hash (h : BlockHeader) : res (bytes * BlockHeader) :=
  if decide (m_hash h = h256_0) then
    e ← header_encode h;
    Ok (sha3 e, header_set_hash h (sha3 e))
  else Ok (m_hash h, h).

(** [clear]; [EmptyTrie] is [sha3(rlp(''))], the hash of the single byte
    [0x80]. *)
Definition EmptyTrie : bytes := sha3 [0x80].
Definition header_clear (_ : BlockHeader) : BlockHeader :=
  MkHeader h256_0 EmptyTrie EmptyTrie EmptyTrie (zero_hash bloom_size) 0 0 0 UINT64_MAX [] Invalid256
    [] h256_0.

(** [headerHashFromBlock]. *)
Definition headerHashFromBlock (d : bytes) : res bytes :=
  root ← RLP_new d VeryStrict;
  f0 ← rlp_at root 0;
  Ok (sha3 f0).

(** The transactions root of an encoded block, as [verify] recomputes it. *)
Definition expected_tx_root (d : bytes) : res bytes :=
  root ← RLP_new d VeryStrict;
  txList ← rlp_at root 1;
  n ← itemCount txList;
  m ← foldl (λ acc i, m ← acc; k ← rlp_unsigned i; v ← rlp_at txList i; Ok (map_set k v m)) (Ok [])
        (seqZ 0 n);
  hash256 m.

(** [verify(strictness, parent, block)]; [block = None] is the empty view. *)
Definition header_verify (h : BlockHeader) (s : Strictness) (parent : BlockHeader)
    (block : option bytes) : res unit :=
  throw_if (MaxBlockNumber ≤ m_number h ∨ m_number h < 0) InvalidNumber;;
  throw_if (s ≠ CheckNothingNew ∧ m_gasUsed h > m_gasLimit h) TooMuchGasUsed;;
  (if header_bool parent then
     '(ph, _) ← header_hash parent;
     throw_if (m_parentHash h ≠ h256_0 ∧ ph ≠ m_parentHash h) InvalidParentHash;;
     throw_if (m_timestamp h ≤ m_timestamp parent) InvalidTimestamp;;
     throw_if (m_number h ≠ m_number parent + 1) InvalidNumber
   else Ok tt);;
  match block with
  | None => Ok tt
  | Some d =>
      e ← expected_tx_root d;
      throw_if (m_transactionsRoot h ≠ e) InvalidTransactionsRoot
  end.
End crypto.

(** ** Block *)

Record Block := MkBlock {
  m_blockHeader : BlockHeader;
  m_transactions : list Transaction;
  m_transactionReceipts : list TransactionReceipt;
  m_sigList : list (Z * bytes);
  m_txsCache : bytes;
  m_tReceiptsCache : bytes;
  m_transRootCache : bytes;
  m_receiptRootCache : bytes;
}.

(** [Block()]. *)
Definition Block0 : Block := MkBlock BlockHeader0 [] [] [] [] [] h256_0 h256_0.

(** [noteChange]: the cached encodings are dropped, the cached roots stay. *)
Definition noteChange (b : Block) : Block :=
  MkBlock (m_blockHeader b) (m_transactions b) (m_transactionReceipts b) (m_sigList b) [] []
    (m_transRootCache b) (m_receiptRootCache b).

Definition block_set_header (b : Block) (h : BlockHeader) : Block :=
  MkBlock h (m_transactions b) (m_transactionReceipts b) (m_sigList b) (m_txsCache b)
    (m_tReceiptsCache b) (m_transRootCache b) (m_receiptRootCache b).

Definition setTransactions (b : Block) (l : list Transaction) : Block :=
  noteChange (MkBlock (m_blockHeader b) l (m_transactionReceipts b) (m_sigList b) (m_txsCache b)
    (m_tReceiptsCache b) (m_transRootCache b) (m_receiptRootCache b)).
Definition appendTransactions (b : Block) (l : list Transaction) : Block :=
  setTransactions b (m_transactions b ++ l).
Definition setTransactionReceipts (b : Block) (l : list TransactionReceipt) : Block :=
  noteChange (MkBlock (m_blockHeader b) (m_transactions b) l (m_sigList b) (m_txsCache b)
    (m_tReceiptsCache b) (m_transRootCache b) (m_receiptRootCache b)).
Definition appendTransactionReceipt (b : Block) (r : TransactionReceipt) : Block :=
  setTransactionReceipts b (m_transactionReceipts b ++ [r]).
Definition clearAllReceipts (b : Block) : Block := setTransactionReceipts b [].
(** [setSigList]: does not touch the caches. *)
Definition setSigList (b : Block) (l : list (Z * bytes)) : Block :=
  MkBlock (m_blockHeader b) (m_transactions b) (m_transactionReceipts b) l (m_txsCache b)
    (m_tReceiptsCache b) (m_transRootCache b) (m_receiptRootCache b).

(** [equalAll], [equalWithoutSig], [equalHeader]. *)
Definition tx_list_eq (a b : list Transaction) : bool :=
  bool_decide (length a = length b) && forallb (λ p, tx_eq (fst p) (snd p)) (zip a b).
Definition equalHeader (a b : Block) : bool := header_eq (m_blockHeader a) (m_blockHeader b).
Definition equalWithoutSig (a b : Block) : bool :=
  header_eq (m_blockHeader a) (m_blockHeader b) && tx_list_eq (m_transactions a) (m_transactions b).
Definition equalAll (a b : Block) : bool :=
  header_eq (m_blockHeader a) (m_blockHeader b) && bool_decide (m_sigList a = m_sigList b) &&
  tx_list_eq (m_transactions a) (m_transactions b).

(** [resetCurrentBlock(parent)]. *)
Definition resetCurrentBlock (b : Block) (parent : BlockHeader) (parentHash : bytes) : Block :=
  MkBlock (populateFromParent (m_blockHeader b) parent parentHash) [] [] [] [] []
    (m_transRootCache b) (m_receiptRootCache b).

(** [setEmptyBlock]. *)
Definition setEmptyBlock (b : Block) : Block :=
  noteChange (block_set_header b (setSealer (setGasUsed (setNumber (m_blockHeader b) 0) 0) 0)).

Definition isSealed (b : Block) : bool := bool_decide (m_sealer (m_blockHeader b) ≠ Invalid256).

(** One element of the signature list: [append(std::pair<u256, Signature>)]. *)
Definition append_sig (s : RLPStream) (p : Z * bytes) : res RLPStream :=
  s ← appendList s 2;
  s ← append_u256 s (fst p);
  append_bytes s (snd p) false.

(** [convert<std::pair<u256, Signature>>(LaissezFaire)]. *)
Definition sig_of_rlp (r : bytes) : res (Z * bytes) :=
  toPair (λ x, toInt_u256 x LaissezFaire) (λ x, toHash sig_size x LaissezFaire) (0, sig_0) r
    LaissezFaire.

(** The loop over the elements of a list [for i < itemCount], decoding each from
    the same object. *)
Fixpoint decode_each {T} (f : bytes → res T) (r : bytes) (c : rlp_cache) (idx : list Z) :
    res (list T) :=
  match idx with
  | [] => Ok []
  | i :: idx =>
      '(x, c) ← rlp_index r c i;
      y ← f x;
      ys ← decode_each f r c idx;
      Ok (y :: ys)
  end.

(** The list of encodings written with [appendRaw], and the map from [rlp(i)]
    to them. *)
Definition raw_list (es : list bytes) : res bytes :=
  s ← appendList RLPStream0 (Z.of_nat (length es));
  s ← foldl (λ acc e, s ← acc; appendRaw s e 1) (Ok s) es;
  out s.
Definition index_map (es : list bytes) : res BytesMap :=
  foldl (λ acc p, m ← acc; k ← rlp_unsigned (fst p); Ok (map_add k (snd p) m)) (Ok [])
    (zip (seqZ 0 (Z.of_nat (length es))) es).

Section block_crypto.
Context `{Crypto}.

(** [BlockHeader(BlockHeader const&)] and [operator=] copy the fields and take
    the other's [hash()], which memoises it. *)
Definition header_copy (h : BlockHeader) : res BlockHeader := snd <$> header_hash h.

(** [Block(Block const&)]: the cached roots are not copied. *)
Definition block_copy (b : Block) : res Block :=
  hd ← header_copy (m_blockHeader b);
  Ok (MkBlock hd (m_transactions b) (m_transactionReceipts b) (m_sigList b) [] [] h256_0 h256_0).

(** [operator=]: the cached roots of the target stay. *)
Definition block_assign (target b : Block) : res Block :=
  hd ← header_copy (m_blockHeader b);
  Ok (MkBlock hd (m_transactions b) (m_transactionReceipts b) (m_sigList b) [] []
        (m_transRootCache target) (m_receiptRootCache target)).

(** [setBlockHeader]. *)
Definition setBlockHeader (b : Block) (h : BlockHeader) : res Block :=
  hd ← header_copy h; Ok (block_set_header b hd).

(** [calTransactionRoot(update)]. *)
Definition calTransactionRoot (b : Block) (update : bool) : res Block :=
  b1 ← (if decide (m_txsCache b = []) then
          es ← mapM (λ t, tx_encode t WithSignature) (m_transactions b);
          m ← index_map es;
          c ← raw_list es;
          r ← hash256 m;
          Ok (MkBlock (m_blockHeader b) (m_transactions b) (m_transactionReceipts b) (m_sigList b) c
                (m_tReceiptsCache b) r (m_receiptRootCache b))
        else Ok b);
  if update then
    Ok (block_set_header b1 (setTransactionsRoot (m_blockHeader b1) (m_transRootCache b1)))
  else Ok b1.

(** [calReceiptRoot(update)]. *)
Definition calReceiptRoot (b : Block) (update : bool) : res Block :=
  b1 ← (if decide (m_tReceiptsCache b = []) then
          es ← mapM receipt_encode (m_transactionReceipts b);
          m ← index_map es;
          c ← raw_list es;
          r ← hash256 m;
          Ok (MkBlock (m_blockHeader b) (m_transactions b) (m_transactionReceipts b) (m_sigList b)
                (m_txsCache b) c (m_transRootCache b) r)
        else Ok b);
  if update then
    Ok (block_set_header b1 (setReceiptsRoot (m_blockHeader b1) (m_receiptRootCache b1)))
  else Ok b1.

(** [encode]: the bytes, and the block with its caches filled in. *)
Definition block_encode (b : Block) : res (bytes * Block) :=
  header_verify (m_blockHeader b) CheckAll BlockHeader0 None;;
  b ← calTransactionRoot b false;
  b ← calReceiptRoot b false;
  headerData ← header_encode (m_blockHeader b);
  s ← appendList RLPStream0 5;
  s ← appendRaw s headerData 1;
  s ← appendRaw s (m_txsCache b) 1;
  s ← appendRaw s (m_tReceiptsCache b) 1;
  '(h, hd) ← header_hash (m_blockHeader b);
  s ← append_bytes s h false;
  s ← appendVector append_sig s (m_sigList b);
  o ← out s;
  Ok (o, block_set_header b hd).

(** [decode] into a fresh block. *)
Definition block_decode (d : bytes) : res Block :=
  rlp ← extractBlock d;
  '(f0, c) ← rlp_index rlp rlp_cache0 0;
  hd ← header_populate BlockHeader0 f0;
  '(f1, c) ← rlp_index rlp c 1;
  nt ← itemCount f1;
  txs ← decode_each (λ x, tx_decode Transaction0 x CheckEverything) f1 rlp_cache0 (seqZ 0 nt);
  '(f2, c) ← rlp_index rlp c 2;
  nr ← itemCount f2;
  rs ← decode_each (receipt_decode TransactionReceipt0) f2 rlp_cache0 (seqZ 0 nr);
  '(f3, c) ← rlp_index rlp c 3;
  h ← toHash h256_size f3 Strict;
  '(h', hd) ← header_hash hd;
  throw_if (h ≠ h') ErrorBlockHash;;
  '(f4, _) ← rlp_index rlp c 4;
  sl ← toVector sig_of_rlp f4 LaissezFaire;
  Ok (MkBlock hd txs rs sl [] [] h256_0 h256_0).
End block_crypto.
