(* ===== verification/BlockFacts.v ===== *)
(** * Properties of headers and blocks

    The header and block codecs round-trip, the memoised header hash is
    coherent under every setter but [appendExtraDataItem], and the cached
    encodings of a block are those of its contents. *)

From S2P Require Import Prelude RLP RLPFacts RLPStreamFacts CodecFacts Crypto.
From S2P Require Import Transaction TransactionFacts TrieHash TrieHashFacts Block.

Local Open Scope Z_scope.

(** ** Definitions *)

(** Fields within their types, and bounds that keep the encoding below 2^62
    bytes. *)
Definition header_ok (h : BlockHeader) : Prop :=
  hash_ok h256_size (m_parentHash h) ∧ hash_ok h256_size (m_stateRoot h) ∧
  hash_ok h256_size (m_transactionsRoot h) ∧ hash_ok h256_size (m_receiptsRoot h) ∧
  hash_ok bloom_size (m_logBloom h) ∧ 0 ≤ m_number h < 2 ^ 63 ∧ u256_ok (m_gasLimit h) ∧
  u256_ok (m_gasUsed h) ∧ 0 ≤ m_timestamp h < 2 ^ 64 ∧
  Forall (λ b, bytes_ok b ∧ len b < 2 ^ 32) (m_extraData h) ∧
  Z.of_nat (length (m_extraData h)) < 2 ^ 20 ∧ u256_ok (m_sealer h) ∧
  Forall (hash_ok h512_size) (m_sealerList h) ∧ Z.of_nat (length (m_sealerList h)) < 2 ^ 20.

Definition header_items (h : BlockHeader) : list bytes :=
  [enc_data (m_parentHash h); enc_data (m_stateRoot h); enc_data (m_transactionsRoot h);
   enc_data (m_receiptsRoot h); enc_data (m_logBloom h); enc_data (minimal (m_number h));
   enc_data (minimal (m_gasLimit h)); enc_data (minimal (m_gasUsed h));
   enc_data (minimal (m_timestamp h)); enc_list (concat (enc_data <$> m_extraData h));
   enc_data (minimal (m_sealer h)); enc_list (concat (enc_data <$> m_sealerList h))].
Definition header_enc (h : BlockHeader) : bytes := enc_list (concat (header_items h)).

(** ** The header codec *)

(** A vector of byte strings of at most [n] bytes each. *)
Lemma vector_facts (l : list bytes) n :
  Forall (λ b, bytes_ok b ∧ len b ≤ n) l → 0 ≤ n ≤ 2 ^ 32 → Z.of_nat (length l) < 2 ^ 20 →
  Forall reads_some (enc_data <$> l) ∧ bytes_ok (concat (enc_data <$> l)) ∧
  len (concat (enc_data <$> l)) ≤ 2 ^ 53.
Proof.
  intros Hl Hn Hc. rewrite list.Forall_forall in Hl. split; [|split].
  - apply Forall_reads_data, list.Forall_forall. intros b Hb. destruct (Hl b Hb). split; [done|lia].
  - apply concat_ok, Forall_fmap, list.Forall_forall. intros b Hb. destruct (Hl b Hb).
    apply enc_data_ok; [done|lia].
  - etrans; [apply (len_concat_le _ (n + 9))|rewrite length_fmap; nia].
    apply Forall_fmap, list.Forall_forall. intros b Hb. destruct (Hl b Hb). simpl.
    pose proof (len_enc_data_le b). lia.
Qed.

Lemma header_vectors h :
  header_ok h →
  (Forall reads_some (enc_data <$> m_extraData h) ∧ bytes_ok (concat (enc_data <$> m_extraData h)) ∧
   len (concat (enc_data <$> m_extraData h)) ≤ 2 ^ 53) ∧
  (Forall reads_some (enc_data <$> m_sealerList h) ∧ bytes_ok (concat (enc_data <$> m_sealerList h)) ∧
   len (concat (enc_data <$> m_sealerList h)) ≤ 2 ^ 53).
Proof.
  intros (_ & _ & _ & _ & _ & _ & _ & _ & _ & He & Hen & _ & Hs & Hsn). split.
  - apply (vector_facts _ (2 ^ 32)); [|lia|done]. eapply list.Forall_impl; [exact He|]. intros b [??].
    split; [done|lia].
  - apply (vector_facts _ 64); [|lia|done]. eapply list.Forall_impl; [exact Hs|]. intros b [? Hb].
    split; [done|]. unfold h512_size in Hb. lia.
Qed.

Lemma header_items_facts h :
  header_ok h →
  Forall reads_some (header_items h) ∧ Forall bytes_ok (header_items h) ∧
  len (concat (header_items h)) ≤ 2 ^ 55.
Proof.
  intros Hh. destruct (header_vectors h Hh) as [(_ & He1 & He2) (_ & Hs1 & Hs2)].
  destruct Hh as ([P1 P2] & [S1 S2] & [T1 T2] & [R1 R2] & [B1 B2] & Hn & Hgl & Hgu & Ht & _ & _ & Hse & _).
  unfold u256_ok, h256_size, bloom_size in *. split; [|split].
  - repeat constructor; (apply reads_some_minimal; lia) || (apply reads_some_data; [done|lia])
      || (apply reads_some_list; lia).
  - repeat constructor; (apply enc_minimal_ok; lia) || (apply enc_data_ok; [done|lia])
      || (apply enc_list_ok; [done|lia]).
  - cbn [header_items concat]. rewrite !len_app, len_nil.
    pose proof (len_enc_data_le (m_parentHash h)). pose proof (len_enc_data_le (m_stateRoot h)).
    pose proof (len_enc_data_le (m_transactionsRoot h)). pose proof (len_enc_data_le (m_receiptsRoot h)).
    pose proof (len_enc_data_le (m_logBloom h)). pose proof (len_enc_minimal_le (m_number h)).
    pose proof (len_enc_minimal_le (m_gasLimit h)). pose proof (len_enc_minimal_le (m_gasUsed h)).
    pose proof (len_enc_minimal_le (m_timestamp h)). pose proof (len_enc_minimal_le (m_sealer h)).
    pose proof (len_enc_list_le (concat (enc_data <$> m_extraData h))).
    pose proof (len_enc_list_le (concat (enc_data <$> m_sealerList h))). lia.
Qed.

Lemma append_hashes_items l s :
  Forall (λ b, len b < 2 ^ 63) l → len (concat (enc_data <$> l)) < 2 ^ 63 →
  append_hashes s l = add_item (enc_list (concat (enc_data <$> l))) s.
Proof.
  intros Hl Hc. apply appendVector_items; [|done]. intros b s' Hb.
  rewrite list.Forall_forall in Hl. by apply append_bytes_enc, Hl.
Qed.

Lemma header_stream_items h s : header_ok h → header_stream h s = add_items (header_items h) s.
Proof.
  intros Hh. destruct (header_vectors h Hh) as [(_ & _ & He) (_ & _ & Hs)].
  destruct Hh as ([P1 P2] & [S1 S2] & [T1 T2] & [R1 R2] & [B1 B2] & Hn & Hgl & Hgu & Ht & Hex & _ & Hse & Hsl & _).
  unfold u256_ok, h256_size, bloom_size in *. unfold header_stream, header_items.
  cbn [add_items]. do 9 stream_step.
  rewrite append_hashes_items; [|eapply list.Forall_impl; [exact Hex|]; intros b [??]; lia|lia].
  match goal with |- context [add_item ?e ?s] => destruct (add_item e s) as [s1|]; [|done] end.
  rewrite !bind_ok. stream_step.
  rewrite append_hashes_items; [|eapply list.Forall_impl; [exact Hsl|]; intros b [? Hb]; unfold h512_size in Hb; lia|lia].
  by destruct (add_item _ _).
Qed.

Lemma header_encode_enc h : header_ok h → header_encode h = Ok (header_enc h).
Proof.
  intros Hh. destruct (header_items_facts h Hh) as (_ & _ & Hl). unfold header_enc.
  rewrite <- list_encode by lia. unfold header_encode.
  change (Z.of_nat (length (header_items h))) with BasicFields.
  destruct (appendList RLPStream0 BasicFields) as [s|]; [|done]. rewrite !bind_ok.
  by rewrite header_stream_items.
Qed.

Lemma toPositiveInt64_enc i : 0 ≤ i < 2 ^ 63 → toPositiveInt64 (enc_data (minimal i)) Strict = Ok i.
Proof.
  intros Hi. unfold toPositiveInt64. rewrite toInt_i64_enc, bind_ok by lia.
  by rewrite throw_if_false by lia.
Qed.

Lemma header_populate_enc h0 h :
  header_ok h → header_populate h0 (header_enc h) = Ok (header_set_hash h (m_hash h0)).
Proof.
  intros Hh. destruct (header_items_facts h Hh) as (Hr & _ & Hl).
  destruct (header_vectors h Hh) as [(Her & _ & He) (Hsr & _ & Hs)].
  assert (len (concat (header_items h)) < 2 ^ 63) as Hl' by lia.
  destruct (list_decode _ Hl') as (_ & Hp & _). pose proof (rlp_index_field _ _ Hp Hr Hl') as F.
  destruct Hh as ([P1 P2] & [S1 S2] & [T1 T2] & [R1 R2] & [B1 B2] & Hn & Hgl & Hgu & Ht & Hex & _ & Hse & Hsl & _).
  unfold header_populate, header_enc. unfold u256_ok in *.
  assert (h256_size < 2 ^ 63 ∧ bloom_size < 2 ^ 63 ∧ h512_size < 2 ^ 63) as (? & ? & ?) by done.
  read_field F 0. rewrite toHash_enc_data, bind_ok by done.
  read_field F 1. rewrite toHash_enc_data, bind_ok by done.
  read_field F 2. rewrite toHash_enc_data, bind_ok by done.
  read_field F 3. rewrite toHash_enc_data, bind_ok by done.
  read_field F 4. rewrite toHash_enc_data, bind_ok by done.
  read_field F 5. rewrite toPositiveInt64_enc, bind_ok by lia.
  read_field F 6. rewrite toInt_u256_enc, bind_ok by lia.
  read_field F 7. rewrite toInt_u256_enc, bind_ok by lia.
  read_field F 8. rewrite toInt_u64_enc, bind_ok by lia.
  read_field F 9. rewrite toVector_enc_list, mapM_decode, bind_ok;
    [|intros b Hb; rewrite list.Forall_forall in Hex; destruct (Hex b Hb); apply toBytes_enc_data; [done|lia]
     |done|lia].
  read_field F 10. rewrite toInt_u256_enc, bind_ok by lia.
  read_field F 11. rewrite toVector_enc_list, mapM_decode, bind_ok;
    [done|intros b Hb; rewrite list.Forall_forall in Hsl; destruct (Hsl b Hb); by apply toHash_enc_data
     |done|lia].
Qed.

(** ** The memoised header hash *)

Section memo.
Context `{Crypto}.

(** The memoised hash is unset or the hash of the encoding. *)
Definition hash_coherent (h : BlockHeader) : Prop :=
  m_hash h = h256_0 ∨ ∃ e, header_encode h = Ok e ∧ m_hash h = sha3 e.

(** The operations on a header object, [appendExtraDataItem] and [populate]
    excepted. *)
Inductive header_step : BlockHeader → BlockHeader → Prop :=
  | hs_hash h x h' : header_hash h = Ok (x, h') → header_step h h'
  | hs_parentHash h x : header_step h (setParentHash h x)
  | hs_roots h t r s : header_step h (setRoots h t r s)
  | hs_stateRoot h x : header_step h (setStateRoot h x)
  | hs_transactionsRoot h x : header_step h (setTransactionsRoot h x)
  | hs_receiptsRoot h x : header_step h (setReceiptsRoot h x)
  | hs_logBloom h x : header_step h (setLogBloom h x)
  | hs_number h x : header_step h (setNumber h x)
  | hs_gasLimit h x : header_step h (setGasLimit h x)
  | hs_gasUsed h x : header_step h (setGasUsed h x)
  | hs_timestamp h x : header_step h (setTimestamp h x)
  | hs_extraData h x : header_step h (setExtraData h x)
  | hs_extraDataItem h x i h' : setExtraDataItem h x i = Some h' → header_step h h'
  | hs_extraDataArray h x : header_step h (appendExtraDataArray h x)
  | hs_sealer h x : header_step h (setSealer h x)
  | hs_sealerList h x : header_step h (setSealerList h x)
  | hs_fromParent h p ph : header_step h (populateFromParent h p ph)
  | hs_clear h : header_step h (header_clear h).

Lemma header_encode_set_hash h x : header_encode (header_set_hash h x) = header_encode h.
Proof. by destruct h. Qed.

Lemma header_step_coherent h h' : header_step h h' → hash_coherent h → hash_coherent h'.
Proof.
  intros Hs Hc. destruct Hs; try (by left).
  - unfold header_hash in H0. case_decide; [|by simplify_eq].
    apply bind_ok_inv in H0 as (e & He & H0). simplify_eq. right. exists e.
    by rewrite header_encode_set_hash.
  - unfold setExtraDataItem in H0. case_decide; [done|]. simplify_eq. by left.
Qed.

Lemma header_hash_of_coherent h x h' :
  hash_coherent h → header_hash h = Ok (x, h') → ∃ e, header_encode h = Ok e ∧ x = sha3 e.
Proof.
  intros Hc E. unfold header_hash in E. case_decide.
  - apply bind_ok_inv in E as (e & He & E). simplify_eq. by exists e.
  - simplify_eq. destruct Hc as [?|(e & He & Hm)]; [done|]. by exists e.
Qed.
End memo.

(** ** Blocks *)

Lemma raw_list_items es : len (concat es) < 2 ^ 63 → raw_list es = Ok (enc_list (concat es)).
Proof.
  intros Hl. rewrite <- list_encode by done. unfold raw_list.
  destruct (appendList RLPStream0 _) as [s|]; [|done]. rewrite !bind_ok.
  rewrite (foldl_add_items (λ s e, appendRaw s e 1) id) by done. by rewrite bind_ok, list_fmap_id.
Qed.

Lemma rlp_unsigned_enc i : rlp_unsigned i = Ok (enc_data (minimal (u32 i))).
Proof.
  unfold rlp_unsigned, RLPStream0. by rewrite append_unsigned_enc, add_item_top, bind_ok.
Qed.

Lemma map_add_Forall (P : bytes * bytes → Prop) k v m :
  P (k, v) → Forall P m → Forall P (map_add k v m).
Proof.
  intros Hk. induction 1 as [|[k' v'] m Hp Hm IH]; simpl; [by constructor|].
  destruct (bytes_lt k k'); [by repeat constructor|]. case_decide; by constructor.
Qed.

Lemma index_map_total es :
  Forall (λ e, len e < 2 ^ 56) es →
  ∃ m, index_map es = Ok m ∧ Forall (λ p, len (fst p) < 2 ^ 48 ∧ len (snd p) < 2 ^ 56) m.
Proof.
  intros Hes. unfold index_map.
  enough (∀ l m, Forall (λ p, len (snd p) < 2 ^ 56) l →
    Forall (λ p, len (fst p) < 2 ^ 48 ∧ len (snd p) < 2 ^ 56) m →
    ∃ m', foldl (λ acc p, m ← acc; k ← rlp_unsigned (fst p); Ok (map_add k (snd p) m)) (Ok m) l = Ok m' ∧
          Forall (λ p, len (fst p) < 2 ^ 48 ∧ len (snd p) < 2 ^ 56) m') as H.
  { apply H; [|constructor]. revert Hes. generalize 0. induction es as [|e es IH]; intros z Hes.
    - constructor.
    - inversion Hes; subst. rewrite seqZ_cons by (cbn [length]; lia). cbn [zip_with].
      constructor; [done|].
      replace (Z.pred (Z.of_nat (length (e :: es)))) with (Z.of_nat (length es)) by (cbn [length]; lia).
      by apply IH. }
  induction l as [|[i e] l IH]; intros m Hl Hm; [by exists m|]. inversion Hl; subst. cbn [foldl fst snd].
  rewrite bind_ok, rlp_unsigned_enc, bind_ok. apply IH; [done|].
  apply map_add_Forall; [|done]. simpl in *. split; [|done]. pose proof (u32_range i).
  pose proof (len_enc_minimal_le (u32 i)). lia.
Qed.

Lemma decode_each_items {T} (f : bytes → res T) r es j c :
  payload r = Ok (concat es) → Forall reads_some es → len (concat es) < 2 ^ 63 →
  cache_at es c → (j ≤ length es)%nat → Z.of_nat (length es) < UINT64_MAX →
  decode_each f r c (seqZ (Z.of_nat j) (Z.of_nat (length es) - Z.of_nat j)) = mapM f (drop j es).
Proof.
  intros Hp Hr Hl Hc Hj Hn. remember (length es - j)%nat as n eqn:En.
  revert j c Hc Hj En. induction n as [|n IH]; intros j c Hc Hj En.
  - rewrite seqZ_nil, drop_ge by lia. done.
  - rewrite seqZ_cons by lia. cbn [decode_each].
    destruct (lookup_lt_is_Some_2 es j ltac:(lia)) as [e He].
    destruct (rlp_index_field r es Hp Hr Hl j e c He Hc ltac:(lia)) as [-> Hc'].
    rewrite bind_ok. cbv beta iota. rewrite (drop_S _ _ _ He). cbn [mapM].
    destruct (f e) as [y|]; [|done]. rewrite !bind_ok.
    replace (Z.succ (Z.of_nat j)) with (Z.of_nat (S j)) by lia.
    replace (Z.pred (Z.of_nat (length es) - Z.of_nat j)) with (Z.of_nat (length es) - Z.of_nat (S j)) by lia.
    rewrite IH by (done || lia). done.
Qed.

Lemma decode_list_items {T} (f : bytes → res T) es :
  Forall reads_some es → len (concat es) < 2 ^ 63 →
  (n ← itemCount (enc_list (concat es));
   decode_each f (enc_list (concat es)) rlp_cache0 (seqZ 0 n)) = mapM f es.
Proof.
  intros Hr Hl. destruct (list_decode _ Hl) as (_ & Hp & _).
  rewrite (items_enc_count es), bind_ok by done.
  assert (Z.of_nat (length es) < UINT64_MAX).
  { pose proof (length_concat_reads es Hr). unfold len, UINT64_MAX in *. lia. }
  pose proof (decode_each_items f _ es 0 rlp_cache0 Hp Hr Hl (cache_at_0 es) ltac:(lia) H) as E.
  rewrite Z.sub_0_r in E. exact E.
Qed.

(** *** The signature list *)

Definition sigpair_ok (p : Z * bytes) : Prop := u256_ok (fst p) ∧ hash_ok sig_size (snd p).
Definition sigpair_items (p : Z * bytes) : list bytes := [enc_data (minimal (fst p)); enc_data (snd p)].
Definition sigpair_enc (p : Z * bytes) : bytes := enc_list (concat (sigpair_items p)).

Lemma sigpair_facts p :
  sigpair_ok p → Forall reads_some (sigpair_items p) ∧ len (concat (sigpair_items p)) ≤ 200 ∧
  bytes_ok (concat (sigpair_items p)).
Proof.
  intros [Hi [H1 H2]]. unfold u256_ok, sig_size in *. split; [|split].
  - repeat constructor; [apply reads_some_minimal; lia|apply reads_some_data; [done|lia]].
  - cbn [sigpair_items concat]. rewrite !len_app, len_nil.
    pose proof (len_enc_minimal_le (fst p)). pose proof (len_enc_data_le (snd p)). lia.
  - apply concat_ok. repeat constructor; [apply enc_minimal_ok; lia|apply enc_data_ok; [done|lia]].
Qed.

Lemma append_sig_items s p : sigpair_ok p → append_sig s p = add_item (sigpair_enc p) s.
Proof.
  intros Hp. destruct (sigpair_facts p Hp) as (_ & Hl & _). destruct Hp as [Hi [H1 H2]].
  unfold u256_ok, sig_size in *. unfold sigpair_enc. rewrite <- appendList_items by lia.
  unfold append_sig. change (Z.of_nat (length (sigpair_items p))) with 2.
  destruct (appendList s 2) as [s'|]; [|done]. rewrite !bind_ok. unfold sigpair_items. stream_steps.
Qed.

Lemma sig_of_rlp_enc p : sigpair_ok p → sig_of_rlp (sigpair_enc p) = Ok p.
Proof.
  intros Hp. destruct (sigpair_facts p Hp) as (Hr & Hl & _). destruct Hp as [Hi [H1 H2]].
  assert (len (concat (sigpair_items p)) < 2 ^ 63) as Hl' by lia.
  destruct (list_decode _ Hl') as (Hlist & Hpl & _). pose proof (rlp_index_field _ _ Hpl Hr Hl') as F.
  unfold sig_of_rlp, toPair, itemCountStrict, sigpair_enc.
  rewrite throw_if_false by tauto. rewrite bind_ok, items_enc_list, bind_ok by done.
  rewrite decide_False by (simpl; lia). unfold u256_ok in Hi.
  read_field F 0. rewrite toInt_u256_enc, bind_ok by lia.
  read_field F 1. rewrite toHash_enc_data, bind_ok by done. by destruct p.
Qed.

(** *** The block codec *)

Section block.
Context `{CryptoLaws}.

(** A transaction whose encoding [e] is accepted by full checking as [t']. *)
Definition tx_accepted (t : Transaction) (e : bytes) (t' : Transaction) : Prop :=
  tx_ok t ∧ ∃ v a, m_vrs t = Some v ∧ vrs_ok v ∧ sig_isValid v = true ∧
    e = enc_list (concat (tx_items t ++ sig_items v)) ∧ tx_sender (tx_received t) = Ok (a, t').

Lemma tx_accepted_facts t e t' :
  tx_accepted t e t' →
  tx_encode t WithSignature = Ok e ∧ tx_decode Transaction0 e CheckEverything = Ok t' ∧ reads_some e ∧
  bytes_ok e.
Proof.
  intros (Ht & v & a & Hv & Hvo & Hval & -> & Hs). destruct (tx_items_facts t v Ht Hvo) as (_ & Hok & Hl).
  split; [by apply tx_encode_items|]. split.
  - rewrite tx_decode_items by done. rewrite throw_if_false by (rewrite Hval; naive_solver).
    by rewrite bind_ok, Hs.
  - split; [apply reads_some_list; lia|apply enc_list_ok; [by apply concat_ok|lia]].
Qed.

(** A block ready to be encoded: its transactions encode to [es] and are
    accepted as [txs'], and nothing is cached. *)
Record block_ok (b : Block) (es : list bytes) (txs' : list Transaction) : Prop := BlockOk {
  bo_header : header_ok (m_blockHeader b);
  bo_number : m_number (m_blockHeader b) < MaxBlockNumber;
  bo_gas : m_gasUsed (m_blockHeader b) ≤ m_gasLimit (m_blockHeader b);
  bo_hash : hash_coherent (m_blockHeader b);
  bo_caches : m_txsCache b = [] ∧ m_tReceiptsCache b = [];
  bo_txs : Forall3 tx_accepted (m_transactions b) es txs';
  bo_tx_size : Forall (λ e, len e < 2 ^ 56) es ∧ len (concat es) < 2 ^ 60;
  bo_receipts : Forall receipt_ok (m_transactionReceipts b);
  bo_receipt_size : Forall (λ r, len (receipt_enc r) < 2 ^ 56) (m_transactionReceipts b) ∧
                    len (concat (receipt_enc <$> m_transactionReceipts b)) < 2 ^ 60;
  bo_sigs : Forall sigpair_ok (m_sigList b) ∧ Z.of_nat (length (m_sigList b)) < 2 ^ 20;
}.

Lemma accepted_lists txs es txs' :
  Forall3 tx_accepted txs es txs' →
  mapM (λ t, tx_encode t WithSignature) txs = Ok es ∧
  mapM (λ x, tx_decode Transaction0 x CheckEverything) es = Ok txs' ∧ Forall reads_some es ∧
  Forall bytes_ok es.
Proof.
  induction 1 as [|t e t' txs es txs' Ha _ (IH1 & IH2 & IH3 & IH4)]; [done|].
  destruct (tx_accepted_facts _ _ _ Ha) as (E1 & E2 & E3 & E4). cbn [mapM].
  rewrite E1, bind_ok, IH1, bind_ok, E2, bind_ok, IH2, bind_ok. split_and!; try done; by constructor.
Qed.

Lemma receipts_lists rs :
  Forall receipt_ok rs → len (concat (receipt_enc <$> rs)) < 2 ^ 60 →
  mapM receipt_encode rs = Ok (receipt_enc <$> rs) ∧
  mapM (receipt_decode TransactionReceipt0) (receipt_enc <$> rs) = Ok rs ∧
  Forall reads_some (receipt_enc <$> rs) ∧ Forall bytes_ok (receipt_enc <$> rs).
Proof.
  intros Hrs _. rewrite list.Forall_forall in Hrs. split; [|split; [|split]].
  - clear -Hrs. induction rs as [|r rs IH]; [done|]. rewrite fmap_cons. cbn [mapM].
    rewrite receipt_encode_enc by (apply Hrs; left). rewrite bind_ok, IH; [done|].
    intros; apply Hrs; by right.
  - apply mapM_decode. intros r Hr. by apply receipt_roundtrip, Hrs.
  - apply Forall_fmap, list.Forall_forall. intros r Hr.
    destruct (receipt_items_facts r (Hrs r Hr)) as (_ & _ & Hl). apply reads_some_list. lia.
  - apply Forall_fmap, list.Forall_forall. intros r Hr.
    destruct (receipt_items_facts r (Hrs r Hr)) as (_ & Hok & Hl). apply enc_list_ok; [by apply concat_ok|lia].
Qed.

Lemma roots_total es : Forall (λ e, len e < 2 ^ 56) es → ∃ m r, index_map es = Ok m ∧ hash256 m = Ok r.
Proof.
  intros Hes. destruct (index_map_total es Hes) as (m & Hm & Hb).
  destruct (trie_total m Hb) as [e He]. exists m, (sha3 e). split; [done|].
  unfold hash256. by rewrite He.
Qed.

(** The items of an encoded block. *)
Definition block_items (b : Block) (es : list bytes) : list bytes :=
  [header_enc (m_blockHeader b); enc_list (concat es);
   enc_list (concat (receipt_enc <$> m_transactionReceipts b));
   enc_data (sha3 (header_enc (m_blockHeader b))); enc_list (concat (sigpair_enc <$> m_sigList b))].

Lemma sigs_facts l :
  Forall sigpair_ok l → Z.of_nat (length l) < 2 ^ 20 →
  Forall reads_some (sigpair_enc <$> l) ∧ len (concat (sigpair_enc <$> l)) < 2 ^ 40 ∧
  mapM sig_of_rlp (sigpair_enc <$> l) = Ok l ∧ bytes_ok (concat (sigpair_enc <$> l)).
Proof.
  intros Hl Hn. rewrite list.Forall_forall in Hl. split_and!.
  - apply Forall_fmap, list.Forall_forall. intros p Hp.
    destruct (sigpair_facts p (Hl p Hp)) as (_ & ? & _). apply reads_some_list. lia.
  - eapply Z.le_lt_trans; [apply (len_concat_le _ 209)|rewrite length_fmap; lia].
    apply Forall_fmap, list.Forall_forall. intros p Hp. simpl.
    destruct (sigpair_facts p (Hl p Hp)) as (_ & ? & _).
    pose proof (len_enc_list_le (concat (sigpair_items p))). unfold sigpair_enc. lia.
  - apply mapM_decode. intros p Hp. by apply sig_of_rlp_enc, Hl.
  - apply concat_ok, Forall_fmap, list.Forall_forall. intros p Hp. simpl.
    destruct (sigpair_facts p (Hl p Hp)) as (_ & ? & ?). apply enc_list_ok; [done|lia].
Qed.

Lemma len_header_enc h : header_ok h → len (header_enc h) ≤ 2 ^ 56 ∧ bytes_ok (header_enc h).
Proof.
  intros Hh. destruct (header_items_facts h Hh) as (_ & Hok & Hl).
  pose proof (len_enc_list_le (concat (header_items h))). unfold header_enc.
  split; [lia|]. apply enc_list_ok; [by apply concat_ok|lia].
Qed.

Lemma block_items_facts b es txs' :
  block_ok b es txs' →
  Forall reads_some (block_items b es) ∧ len (concat (block_items b es)) < 2 ^ 62.
Proof.
  intros [Hh _ _ _ _ Ht [_ Hts] Hr [_ Hrs] [Hsg Hsn]].
  destruct (sigs_facts _ Hsg Hsn) as (_ & Hsl & _). destruct (len_header_enc _ Hh) as [Hhl _].
  destruct (sha3_ok (header_enc (m_blockHeader b))) as [Hs1 Hs2]. unfold h256_size in Hs2. split.
  - destruct (header_items_facts _ Hh) as (_ & _ & Hhi).
    repeat constructor; (apply reads_some_list; lia) || (apply reads_some_data; [done|lia]).
  - cbn [block_items concat]. rewrite !len_app, len_nil.
    pose proof (len_enc_list_le (concat es)).
    pose proof (len_enc_list_le (concat (receipt_enc <$> m_transactionReceipts b))).
    pose proof (len_enc_list_le (concat (sigpair_enc <$> m_sigList b))).
    pose proof (len_enc_data_le (sha3 (header_enc (m_blockHeader b)))). lia.
Qed.

Lemma header_hash_value h :
  header_ok h → hash_coherent h → ∃ h', header_hash h = Ok (sha3 (header_enc h), h').
Proof.
  intros Hh Hc. unfold header_hash. rewrite header_encode_enc by done. case_decide as Hz.
  - rewrite bind_ok. eauto.
  - destruct Hc as [?|(e & He & Hm)]; [done|]. rewrite header_encode_enc in He by done.
    simplify_eq. rewrite Hm. eauto.
Qed.

(** What the roots and caches become when the block is encoded. *)
Lemma block_roots b es txs' :
  block_ok b es txs' →
  ∃ r1 r2,
    (b ← calTransactionRoot b false; calReceiptRoot b false)
    = Ok (MkBlock (m_blockHeader b) (m_transactions b) (m_transactionReceipts b) (m_sigList b)
            (enc_list (concat es)) (enc_list (concat (receipt_enc <$> m_transactionReceipts b))) r1 r2).
Proof.
  intros [_ _ _ _ [Hc1 Hc2] Ht [Hts1 Hts2] Hr [Hrs1 Hrs2] _].
  destruct (accepted_lists _ _ _ Ht) as (Henc & _). destruct (receipts_lists _ Hr Hrs2) as (Hrenc & _).
  destruct (roots_total es Hts1) as (m & r1 & Hm & Hr1).
  destruct (roots_total (receipt_enc <$> m_transactionReceipts b)) as (m' & r2 & Hm' & Hr2).
  { by apply Forall_fmap. }
  exists r1, r2. unfold calTransactionRoot. rewrite decide_True by done.
  rewrite Henc, bind_ok, Hm, bind_ok, raw_list_items, bind_ok, Hr1, !bind_ok by lia.
  unfold calReceiptRoot. cbn [m_tReceiptsCache m_transactionReceipts]. rewrite decide_True by done.
  by rewrite Hrenc, bind_ok, Hm', bind_ok, raw_list_items, bind_ok, Hr2, bind_ok by lia.
Qed.

Lemma header_verify_alone h :
  0 ≤ m_number h < MaxBlockNumber → m_gasUsed h ≤ m_gasLimit h →
  header_verify h CheckAll BlockHeader0 None = Ok tt.
Proof.
  intros Hn Hg. unfold header_verify. rewrite (throw_if_false (_ ∨ _)) by lia. rewrite bind_ok.
  by rewrite (throw_if_false (_ ∧ _)) by (intros [_ ?]; lia).
Qed.

Lemma block_encode_items b es txs' :
  block_ok b es txs' → ∃ b', block_encode b = Ok (enc_list (concat (block_items b es)), b').
Proof.
  intros Hb. destruct (block_items_facts _ _ _ Hb) as (_ & Hl).
  destruct (block_roots _ _ _ Hb) as (r1 & r2 & Hroots).
  destruct Hb as [Hh Hn Hg Hc _ _ _ _ _ [Hsg Hsn]].
  destruct (sigs_facts _ Hsg Hsn) as (_ & Hsl & _). destruct (header_hash_value _ Hh Hc) as [hd Hhash].
  destruct (sha3_ok (header_enc (m_blockHeader b))) as [_ Hs2]. unfold h256_size in Hs2.
  unfold block_encode.
  assert (0 ≤ m_number (m_blockHeader b)) by (destruct Hh as (_ & _ & _ & _ & _ & ? & _); lia).
  rewrite header_verify_alone, bind_ok by lia.
  destruct (calTransactionRoot b false) as [b1|]; [|done]. rewrite bind_ok in Hroots. rewrite bind_ok, Hroots, bind_ok.
  cbn [m_blockHeader m_txsCache m_tReceiptsCache m_sigList]. rewrite header_encode_enc, bind_ok by done.
  pose proof (list_encode (block_items b es) ltac:(lia)) as Hle. change (Z.of_nat (length (block_items b es))) with 5 in Hle.
  destruct (appendList RLPStream0 5) as [s|]; [|discriminate Hle].
  rewrite bind_ok in Hle. rewrite bind_ok. unfold block_items in Hle. cbn [add_items] in Hle.
  do 3 (match goal with |- context [appendRaw ?s ?e 1] => change (appendRaw s e 1) with (add_item e s);
     destruct (add_item e s); [|discriminate Hle]; rewrite bind_ok in Hle; rewrite bind_ok end).
  rewrite Hhash, bind_ok. cbv beta iota. rewrite append_bytes_enc by lia.
  match goal with |- context [add_item ?e ?s] =>
     destruct (add_item e s); [|discriminate Hle]; rewrite bind_ok in Hle; rewrite bind_ok end.
  rewrite (appendVector_items append_sig sigpair_enc);
    [|intros p s' Hp; rewrite list.Forall_forall in Hsg; by apply append_sig_items, Hsg|lia].
  match goal with |- context [add_item ?e ?s] =>
     destruct (add_item e s); [|discriminate Hle]; rewrite !bind_ok in Hle; rewrite bind_ok end.
  unfold block_items. rewrite Hle, bind_ok. eauto.
Qed.

(** The block a receiver holds: the header with its hash memoised, no caches. *)
Definition block_received (b : Block) (txs' : list Transaction) : Block :=
  MkBlock (header_set_hash (m_blockHeader b) (sha3 (header_enc (m_blockHeader b)))) txs'
    (m_transactionReceipts b) (m_sigList b) [] [] h256_0 h256_0.

Lemma extractBlock_items b es txs' :
  block_ok b es txs' →
  extractBlock (enc_list (concat (block_items b es))) = Ok (enc_list (concat (block_items b es))).
Proof.
  intros Hb. destruct (block_items_facts _ _ _ Hb) as (Hr & Hl).
  assert (len (concat (block_items b es)) < 2 ^ 63) as Hl' by lia.
  destruct (list_decode _ Hl') as (Hlist & Hp & Hnew). pose proof (rlp_index_field _ _ Hp Hr Hl') as F.
  unfold extractBlock. rewrite Hnew, bind_ok, throw_if_false by tauto. rewrite bind_ok.
  assert (∀ p, isList (enc_list p)) as Hil.
  { intros p. pose proof (enc_list_isList p []) as Hx. by rewrite app_nil_r in Hx. }
  read_field F 0. rewrite throw_if_false by (intros Hn; apply Hn, Hil). rewrite bind_ok.
  read_field F 1. rewrite throw_if_false by (intros Hn; apply Hn, Hil). done.
Qed.

Lemma block_decode_items b es txs' :
  block_ok b es txs' →
  block_decode (enc_list (concat (block_items b es))) = Ok (block_received b txs').
Proof.
  intros Hb. unfold block_decode. rewrite (extractBlock_items _ _ _ Hb), bind_ok.
  destruct (block_items_facts _ _ _ Hb) as (Hr & Hl).
  assert (len (concat (block_items b es)) < 2 ^ 63) as Hl' by lia.
  destruct (list_decode _ Hl') as (_ & Hp & _). pose proof (rlp_index_field _ _ Hp Hr Hl') as F.
  clear Hr Hl Hl' Hp. destruct Hb as [Hh _ _ Hc _ Ht [_ Hts] Hrc [_ Hrs] [Hsg Hsn]].
  destruct (accepted_lists _ _ _ Ht) as (_ & Hdt & Hrt & _).
  destruct (receipts_lists _ Hrc Hrs) as (_ & Hdr & Hrr & _).
  destruct (sigs_facts _ Hsg Hsn) as (Hsr & Hsl & Hds & _).
  destruct (sha3_ok (header_enc (m_blockHeader b))) as [Hs1 Hs2].
  read_field F 0. rewrite header_populate_enc, bind_ok by done.
  read_field F 1. pose proof (decode_list_items (λ x, tx_decode Transaction0 x CheckEverything) es Hrt ltac:(lia)) as E1.
  destruct (itemCount (enc_list (concat es))) as [nt|]; [|by rewrite Hdt in E1].
  rewrite bind_ok in E1. rewrite bind_ok, E1, Hdt, bind_ok.
  read_field F 2. pose proof (decode_list_items (receipt_decode TransactionReceipt0) _ Hrr ltac:(lia)) as E2.
  destruct (itemCount (enc_list (concat (receipt_enc <$> _)))) as [nr|]; [|by rewrite Hdr in E2].
  rewrite bind_ok in E2. rewrite bind_ok, E2, Hdr, bind_ok.
  read_field F 3. rewrite toHash_enc_data, bind_ok by done.
  unfold header_hash. cbn [m_hash header_set_hash]. rewrite decide_True by done.
  rewrite header_encode_set_hash, header_encode_enc, !bind_ok by done. cbv beta iota.
  rewrite throw_if_false by tauto. rewrite bind_ok.
  read_field F 4. rewrite toVector_enc_list, Hds, bind_ok by (done || lia). done.
Qed.
End block.

(** ** Properties *)

(** A block used in the examples: the signature is accepted by
    [example_crypto]. *)
Definition example_header : BlockHeader :=
  MkHeader h256_0 h256_0 h256_0 h256_0 (zero_hash 256) 5 100 50 1542000000 [[1; 2]] 1 [zero_hash 64] h256_0.
Definition example_block : Block :=
  MkBlock example_header [example_tx] [example_receipt] [(0, sig_0)] [] [] h256_0 h256_0.

Lemma example_header_ok : header_ok example_header.
Proof.
  assert (∀ n, 0 ≤ n → hash_ok n (zero_hash n)) as Hz by (intros; by apply zero_hash_ok).
  unfold header_ok, u256_ok. split_and!; try (apply Hz; done); try done.
  - constructor; [|constructor]. split; [|done]. repeat constructor; unfold is_byte; lia.
  - constructor; [apply Hz; done|constructor].
Qed.

Definition example_hash (h : BlockHeader) : bytes := example_sha3 (header_enc h).

Lemma example_header_hash :
  @header_hash example_crypto example_header
  = Ok (example_hash example_header, header_set_hash example_header (example_hash example_header)).
Proof. vm_compute. reflexivity. Qed.

(** Round trip of block headers: encoding succeeds and decoding gives every
    field back; the memoised hash of the receiving object is not touched. *)
Theorem header_codec h h0 :
  header_ok h →
  ∃ e, header_encode h = Ok e ∧ header_populate h0 e = Ok (header_set_hash h (m_hash h0)).
Proof.
  intros Hh. exists (header_enc h). split; [by apply header_encode_enc|by apply header_populate_enc].
Qed.

Lemma header_codec_witness :
  ∃ e, header_encode example_header = Ok e ∧
       header_populate BlockHeader0 e = Ok (header_set_hash example_header h256_0).
Proof. apply (header_codec example_header BlockHeader0). exact example_header_ok. Defined.

(** The memoised header hash never goes stale under the setters: from a
    header with no memoised hash, after any sequence of setter, hash, clear and
    populate-from-parent calls, [hash()] is the hash of the current encoding. *)
Theorem header_hash_coherent `{Crypto} h0 h x h' :
  m_hash h0 = h256_0 → star header_step h0 h → header_hash h = Ok (x, h') →
  ∃ e, header_encode h = Ok e ∧ x = sha3 e.
Proof.
  intros H0 Hs E. apply (header_hash_of_coherent h x h'); [|done].
  apply (star_invariant header_step hash_coherent
    (λ a b Ha Hab, header_step_coherent a b Hab Ha) h0 h Hs). by left.
Qed.

Lemma header_hash_coherent_witness :
  ∃ h x h', @header_hash example_crypto h = Ok (x, h') ∧ m_number h = 9 ∧
    ∃ e, header_encode h = Ok e ∧ x = @sha3 example_crypto e.
Proof.
  exists (setNumber (header_set_hash example_header (example_hash example_header)) 9). eexists _, _.
  split; [|split; [reflexivity|]].
  - vm_compute. reflexivity.
  - eapply (@header_hash_coherent example_crypto example_header); [done| |vm_compute; reflexivity].
    eapply star_trans; [apply star_one|apply star_one, hs_number].
    apply (hs_hash _ (example_hash example_header)). apply example_header_hash.
Defined.

(** [appendExtraDataItem] is the exception: it replaces an item of the
    extra data but leaves the memoised hash, so [hash()] keeps returning the
    hash of the header before the change. *)
Theorem appendExtraDataItem_stale `{Crypto} h x i y h1 h2 :
  header_hash h = Ok (y, h1) → y ≠ h256_0 → appendExtraDataItem h1 x i = Some h2 →
  m_extraData h2 !! i = Some x ∧ header_hash h2 = Ok (y, h2).
Proof.
  intros E Hy Ha. unfold appendExtraDataItem in Ha. case_decide; [done|]. injection Ha as <-.
  split; [simpl; apply list_lookup_insert_eq; lia|].
  assert (m_hash h1 = y) as Hm.
  { unfold header_hash in E. case_decide; [|by simplify_eq]. apply bind_ok_inv in E as (e & _ & E).
    by simplify_eq. }
  subst y. unfold header_hash. by rewrite decide_False.
Qed.

Lemma appendExtraDataItem_stale_witness :
  ∃ y h1 h2, @header_hash example_crypto example_header = Ok (y, h1) ∧
    appendExtraDataItem h1 [9; 9] 0 = Some h2 ∧
    m_extraData h2 !! 0%nat = Some [9; 9] ∧ @header_hash example_crypto h2 = Ok (y, h2).
Proof.
  eexists _, _, _. split; [apply example_header_hash|]. split; [reflexivity|].
  eapply (@appendExtraDataItem_stale example_crypto example_header).
  - apply example_header_hash.
  - vm_compute. discriminate.
  - reflexivity.
Defined.

(** Two headers that differ only in roots or sealer list compare equal
    with [operator==]. *)
Theorem header_eq_ignores_roots h s t r l :
  header_eq h (setSealerList (setRoots h t r s) l) = true.
Proof.
  unfold header_eq. cbn. by rewrite !bool_decide_true by done.
Qed.

(** C9. Round trip of blocks: a well-formed block whose transactions carry
    accepted signatures encodes, and decoding the bytes with full transaction
    checks and the header-hash comparison gives back its header, transactions,
    receipts and signature list. *)
Theorem block_codec `{CryptoLaws} b es txs' :
  block_ok b es txs' →
  ∃ e b', block_encode b = Ok (e, b') ∧ block_decode e = Ok (block_received b txs').
Proof.
  intros Hb. destruct (block_encode_items b es txs' Hb) as [b' Hb']. eexists _, b'.
  split; [exact Hb'|by apply block_decode_items].
Qed.

Lemma block_codec_witness :
  ∃ e b' txs', @block_encode example_crypto example_block = Ok (e, b') ∧ length txs' = 1%nat ∧
    @block_decode example_crypto e = Ok (@block_received example_crypto example_block txs').
Proof.
  destruct (@tx_sender example_crypto (tx_received example_tx)) as [[a t']|] eqn:Es;
    [|vm_compute in Es; discriminate Es].
  destruct (@block_codec example_crypto example_crypto_laws example_block
              [enc_list (concat (tx_items example_tx ++ sig_items (MkSig 5 6 1)))] [t']) as (o & b' & H1 & H2).
  { constructor.
    - exact example_header_ok.
    - vm_compute. reflexivity.
    - vm_compute. discriminate.
    - left. reflexivity.
    - split; reflexivity.
    - constructor; [|constructor]. split; [apply example_tx_ok|]. exists (MkSig 5 6 1), a.
      split_and!; [reflexivity|apply example_tx_ok|vm_compute; reflexivity|reflexivity|exact Es].
    - split; [constructor; [|constructor]|]; vm_compute; reflexivity.
    - constructor; [exact example_receipt_ok|constructor].
    - split; [constructor; [|constructor]|]; vm_compute; reflexivity.
    - split; [|vm_compute; reflexivity]. constructor; [|constructor]. split.
      + split; [vm_compute; discriminate|vm_compute; reflexivity].
      + apply zero_hash_ok. vm_compute. discriminate. }
  exists o, b', [t']. split; [exact H1|]. split; [reflexivity|exact H2].
Defined.
