(* ===== verification/PBFTReqCache.v ===== *)
(** * The PBFT request cache

    Models libconsensus/pbft/PBFTReqCache.h and PBFTReqCache.cpp. The caches
    that are [unordered_map]s of [unordered_map]s are maps of maps; where the
    result of an operation depends on the iteration order of such a map, the
    order is an argument. The current block header enters as its number and
    its hash. The JSON status report is not modelled. *)

From S2P Require Import Prelude RLP Hex Crypto PBFTMsg.

Local Open Scope Z_scope.

(** ** State *)

Abbreviation sig_cache := (gmap bytes (gmap bytes PBFTMsg)).   (* block hash, then hex of the signature *)
Abbreviation view_cache := (gmap Z (gmap Z PBFTMsg)).          (* view, then node index *)

Record PBFTReqCache := MkCache {
  m_prepareCache : PrepareReq;
  m_rawPrepareCache : PrepareReq;
  m_signCache : sig_cache;
  m_recvViewChangeReq : view_cache;
  m_commitCache : sig_cache;
  m_committedPrepareCache : PrepareReq;
  m_futurePrepareCache : PrepareReq;
}.

Definition PBFTReqCache0 : PBFTReqCache :=
  MkCache PrepareReq0 PrepareReq0 ∅ ∅ ∅ PrepareReq0 PrepareReq0.

(** [PBFTMsg::clear] on a [PrepareReq]: the block and the execution context
    stay. *)
Definition prepare_clear (r : PrepareReq) : PrepareReq :=
  MkPrepare (msg_clear (pr_msg r)) (pr_block r) (p_execContext r).

Definition pr_hash (r : PrepareReq) : bytes := block_hash (pr_msg r).
Definition pr_height (r : PrepareReq) : Z := height (pr_msg r).
Definition pr_view (r : PrepareReq) : Z := view (pr_msg r).

(** Updates of one field. *)
Definition set_prepare (c : PBFTReqCache) (r : PrepareReq) : PBFTReqCache :=
  MkCache r (m_rawPrepareCache c) (m_signCache c) (m_recvViewChangeReq c) (m_commitCache c)
    (m_committedPrepareCache c) (m_futurePrepareCache c).
Definition set_raw (c : PBFTReqCache) (r : PrepareReq) : PBFTReqCache :=
  MkCache (m_prepareCache c) r (m_signCache c) (m_recvViewChangeReq c) (m_commitCache c)
    (m_committedPrepareCache c) (m_futurePrepareCache c).
Definition set_sign (c : PBFTReqCache) (m : sig_cache) : PBFTReqCache :=
  MkCache (m_prepareCache c) (m_rawPrepareCache c) m (m_recvViewChangeReq c) (m_commitCache c)
    (m_committedPrepareCache c) (m_futurePrepareCache c).
Definition set_viewChange (c : PBFTReqCache) (m : view_cache) : PBFTReqCache :=
  MkCache (m_prepareCache c) (m_rawPrepareCache c) (m_signCache c) m (m_commitCache c)
    (m_committedPrepareCache c) (m_futurePrepareCache c).
Definition set_commit (c : PBFTReqCache) (m : sig_cache) : PBFTReqCache :=
  MkCache (m_prepareCache c) (m_rawPrepareCache c) (m_signCache c) (m_recvViewChangeReq c) m
    (m_committedPrepareCache c) (m_futurePrepareCache c).
Definition set_committed (c : PBFTReqCache) (r : PrepareReq) : PBFTReqCache :=
  MkCache (m_prepareCache c) (m_rawPrepareCache c) (m_signCache c) (m_recvViewChangeReq c)
    (m_commitCache c) r (m_futurePrepareCache c).
Definition set_future (c : PBFTReqCache) (r : PrepareReq) : PBFTReqCache :=
  MkCache (m_prepareCache c) (m_rawPrepareCache c) (m_signCache c) (m_recvViewChangeReq c)
    (m_commitCache c) (m_committedPrepareCache c) r.

(** ** Queries *)

Definition cacheExists {K L} `{Countable K, Countable L} {A} (cache : gmap K (gmap L A)) (k : K) (l : L) :
    bool :=
  match cache !! k with
  | None => false
  | Some m => bool_decide (is_Some (m !! l))
  end.

Definition getSizeFromCache {K L} `{Countable K, Countable L} {A} (k : K) (cache : gmap K (gmap L A)) : Z :=
  match cache !! k with
  | None => 0
  | Some m => Z.of_nat (size m)
  end.

Definition isExistPrepare (c : PBFTReqCache) (r : PrepareReq) : bool :=
  bool_decide (pr_hash (m_rawPrepareCache c) = pr_hash r).
Definition isExistSign (c : PBFTReqCache) (r : PBFTMsg) : bool :=
  cacheExists (m_signCache c) (block_hash r) (toHex (sig r)).
Definition isExistCommit (c : PBFTReqCache) (r : PBFTMsg) : bool :=
  cacheExists (m_commitCache c) (block_hash r) (toHex (sig r)).
Definition isExistViewChange (c : PBFTReqCache) (r : PBFTMsg) : bool :=
  cacheExists (m_recvViewChangeReq c) (view r) (idx r).

Definition getSigCacheSize (c : PBFTReqCache) (h : bytes) : Z := getSizeFromCache h (m_signCache c).
Definition getCommitCacheSize (c : PBFTReqCache) (h : bytes) : Z := getSizeFromCache h (m_commitCache c).
Definition getViewChangeSize (c : PBFTReqCache) (v : Z) : Z := getSizeFromCache v (m_recvViewChangeReq c).

(** ** Removal *)

(** [cache[k][l] = a]. *)
Definition cache_add {K L} `{Countable K, Countable L} {A} (k : K) (l : L) (a : A)
    (cache : gmap K (gmap L A)) : gmap K (gmap L A) :=
  <[k := <[l := a]> (default ∅ (cache !! k))]> cache.

(** A request that the block [(number, hash)] outdates. *)
Definition outdated (number : Z) (hash : bytes) (r : PBFTMsg) : Prop :=
  height r < number ∨ (height r = number ∧ block_hash r ≠ hash).
#[global] Instance outdated_dec number hash r : Decision (outdated number hash r) := _.

(** [removeInvalidEntryFromCache]: outdated entries go, and so do entries of the
    outer map that are or become empty. *)
Definition removeInvalidEntryFromCache {K L} `{Countable K, Countable L} (number : Z) (hash : bytes)
    (cache : gmap K (gmap L PBFTMsg)) : gmap K (gmap L PBFTMsg) :=
  omap (λ m, let m' := filter (λ p, ¬ outdated number hash (snd p)) m in
             if decide (m' = ∅) then None else Some m') cache.

(** [removeInvalidSignCache], [removeInvalidCommitCache]: on the requests of one
    block, those of another view go. *)
Definition removeInvalidView (h : bytes) (v : Z) (cache : sig_cache) : sig_cache :=
  alter (filter (λ p, view (snd p) = v)) h cache.

(** [removeInvalidViewChange(view, highestBlock)]. *)
Definition removeInvalidViewChange_at (v number : Z) (hash : bytes) (cache : view_cache) : view_cache :=
  alter (filter (λ p, ¬ outdated number hash (snd p))) v cache.

(** [removeInvalidViewChange(curView)]. *)
Definition removeInvalidViewChange_upto (curView : Z) (cache : view_cache) : view_cache :=
  filter (λ p, curView < fst p) cache.

(** ** Operations *)

Definition addRawPrepare (c : PBFTReqCache) (r : PrepareReq) : PBFTReqCache :=
  set_prepare (set_raw c r) PrepareReq0.

Definition addPrepareReq (c : PBFTReqCache) (r : PrepareReq) : PBFTReqCache :=
  let c := set_prepare c r in
  let c := set_sign c (removeInvalidView (pr_hash r) (pr_view r) (m_signCache c)) in
  set_commit c (removeInvalidView (pr_hash r) (pr_view r) (m_commitCache c)).

Definition addSignReq (c : PBFTReqCache) (r : PBFTMsg) : PBFTReqCache :=
  set_sign c (cache_add (block_hash r) (toHex (sig r)) r (m_signCache c)).
Definition addCommitReq (c : PBFTReqCache) (r : PBFTMsg) : PBFTReqCache :=
  set_commit c (cache_add (block_hash r) (toHex (sig r)) r (m_commitCache c)).

(** [addViewChangeReq]: the three branches of the code all store the request
    under its view and index. *)
Definition addViewChangeReq (c : PBFTReqCache) (r : PBFTMsg) : PBFTReqCache :=
  set_viewChange c
    (match m_recvViewChangeReq c !! view r with
     | Some m =>
         match m !! idx r with
         | Some _ => <[view r := <[idx r := r]> m]> (m_recvViewChangeReq c)
         | None => <[view r := <[idx r := r]> m]> (m_recvViewChangeReq c)
         end
     | None => <[view r := {[idx r := r]}]> (m_recvViewChangeReq c)
     end).

Definition addFuturePrepareCache (c : PBFTReqCache) (r : PrepareReq) : PBFTReqCache :=
  if decide (pr_hash (m_futurePrepareCache c) ≠ pr_hash r) then set_future c r else c.

Definition updateCommittedPrepare (c : PBFTReqCache) : PBFTReqCache :=
  set_committed c (m_rawPrepareCache c).

Definition resetFuturePrepare (c : PBFTReqCache) : PBFTReqCache := set_future c PrepareReq0.

(** [triggerViewChange]. *)
Definition cache_triggerViewChange (c : PBFTReqCache) (curView : Z) : PBFTReqCache :=
  MkCache (prepare_clear (m_prepareCache c)) (prepare_clear (m_rawPrepareCache c)) ∅
    (removeInvalidViewChange_upto curView (m_recvViewChangeReq c)) ∅
    (m_committedPrepareCache c) (m_futurePrepareCache c).

Definition delCache (c : PBFTReqCache) (h : bytes) : PBFTReqCache :=
  let c := set_sign c (delete h (m_signCache c)) in
  let c := set_commit c (delete h (m_commitCache c)) in
  if decide (h = pr_hash (m_prepareCache c)) then set_prepare c (prepare_clear (m_prepareCache c)) else c.

Definition collectGarbage_cache (c : PBFTReqCache) (number : Z) (hash : bytes) : PBFTReqCache :=
  set_commit (set_sign c (removeInvalidEntryFromCache number hash (m_signCache c)))
    (removeInvalidEntryFromCache number hash (m_commitCache c)).

Definition removeInvalidViewChange (c : PBFTReqCache) (v number : Z) (hash : bytes) : PBFTReqCache :=
  set_viewChange c (removeInvalidViewChange_at v number hash (m_recvViewChangeReq c)).

Definition delInvalidViewChange (c : PBFTReqCache) (number : Z) (hash : bytes) : PBFTReqCache :=
  set_viewChange c (removeInvalidEntryFromCache number hash (m_recvViewChangeReq c)).

Definition clearAllExceptCommitCache (c : PBFTReqCache) : PBFTReqCache :=
  MkCache (prepare_clear (m_prepareCache c)) (m_rawPrepareCache c) ∅ ∅ (m_commitCache c)
    (m_committedPrepareCache c) (m_futurePrepareCache c).

Definition clearAll (c : PBFTReqCache) : PBFTReqCache :=
  set_commit (clearAllExceptCommitCache (set_raw c (prepare_clear (m_rawPrepareCache c)))) ∅.

(** ** The signature list *)

(** [std::make_pair(u256(item.second.idx), Signature(item.first.c_str()))]. *)
Definition sig_entry (p : bytes * PBFTMsg) : res (Z * bytes) :=
  b ← fromHex (fst p) ThrowErr;
  Ok (idx (snd p), FixedHash_of sig_size b).

(** [generateAndSetSigList]: the list that is set in the block, [None] for
    [false]. [order] gives the order in which the inner map is iterated. *)
Definition generateAndSetSigList (order : gmap bytes PBFTMsg → list (bytes * PBFTMsg))
    (c : PBFTReqCache) (minSigSize : Z) : res (option (list (Z * bytes))) :=
  match m_commitCache c !! pr_hash (m_prepareCache c) with
  | None => Ok None
  | Some m =>
      l ← mapM sig_entry (order m);
      throw_if (Z.of_nat (length l) < minSigSize) AssertFail;;
      Ok (Some l)
  end.

(** ** View change *)

(** The loop state of [canTriggerViewChange]: [idx_view_map], [minView] and
    [min_height]. *)
Record vc_scan := MkScan { sc_map : gmap Z Z; sc_view : Z; sc_height : Z }.

Definition vc_scan0 : vc_scan := MkScan ∅ MAXVIEW INT64_MAX.

(** One entry of the inner loop. *)
Definition vc_entry (number v : Z) (s : vc_scan) (e : Z * PBFTMsg) : vc_scan :=
  let it := sc_map s !! fst e in
  if decide ((it = None ∨ default 0 it < v) ∧ number ≤ height (snd e)) then
    MkScan (<[fst e := v]> (sc_map s)) (Z.min (sc_view s) v) (Z.min (sc_height s) (height (snd e)))
  else s.

(** One entry of the outer loop. *)
Definition vc_view (toView number : Z) (s : vc_scan) (p : Z * list (Z * PBFTMsg)) : vc_scan :=
  if decide (toView < fst p) then foldl (vc_entry number (fst p)) s (snd p) else s.

Definition vc_scan_all (toView number : Z) (order : list (Z * list (Z * PBFTMsg))) : vc_scan :=
  foldl (vc_view toView number) vc_scan0 order.

(** [canTriggerViewChange]: the result and [minView]. [order] is the order in
    which the iterators visit [m_recvViewChangeReq]. *)
Definition canTriggerViewChange (order : list (Z * list (Z * PBFTMsg)))
    (maxInvalidNodeNum toView number consensusBlockNumber committedHeight : Z) : bool * Z :=
  let s := vc_scan_all toView number order in
  let count := u16 (Z.of_nat (size (sc_map s))) in
  let flag := bool_decide (sc_height s = consensusBlockNumber ∧ sc_height s = committedHeight) in
  (bool_decide (maxInvalidNodeNum < count) && negb flag, sc_view s).

(** The order of [map_to_list], used where any order will do. *)
Definition vc_order (c : PBFTReqCache) : list (Z * list (Z * PBFTMsg)) :=
  (λ p, (fst p, map_to_list (snd p))) <$> map_to_list (m_recvViewChangeReq c).
