(* ===== verification/PBFTReqCacheFacts.v ===== *)
(** * Properties of the PBFT request cache

    Every entry is stored under the key its own fields determine; removal
    removes exactly what it should; the signature list put into a block is the
    list of commit signatures; the view-change trigger counts distinct nodes
    whatever the iteration order. *)

From S2P Require Import Prelude RLP Hex Crypto PBFTMsg PBFTReqCache.

Local Open Scope Z_scope.

(** ** Entries of a two-level map *)

Section cached.
Context {K L} `{Countable K, Countable L} {A : Type}.

Definition cached (cache : gmap K (gmap L A)) (k : K) (l : L) (a : A) : Prop :=
  ∃ m, cache !! k = Some m ∧ m !! l = Some a.

Lemma cached_empty k l a : ¬ cached ∅ k l a.
Proof. intros (m & Hm & _). by rewrite lookup_empty in Hm. Qed.

Lemma cached_add cache k l a k' l' a' :
  cached (cache_add k l a cache) k' l' a' ↔
  (k' = k ∧ l' = l ∧ a' = a) ∨ (¬ (k' = k ∧ l' = l) ∧ cached cache k' l' a').
Proof.
  unfold cached, cache_add. destruct (decide (k' = k)) as [->|Hk].
  - destruct (decide (l' = l)) as [->|Hl].
    + split; [|intros [(_ & _ & ->)|[[] _]]; [|done]].
      * intros (m & Hm & Hl). rewrite lookup_insert_eq in Hm. injection Hm as <-.
        rewrite lookup_insert_eq in Hl. naive_solver.
      * eexists. split; [by rewrite lookup_insert_eq|by rewrite lookup_insert_eq].
    + rewrite lookup_insert_eq. split.
      * intros (m & [= <-] & Hm). rewrite lookup_insert_ne in Hm by done. right. split; [naive_solver|].
        destruct (cache !! k) as [m'|]; simpl in Hm; [by exists m'|]. by rewrite lookup_empty in Hm.
      * intros [(_ & ? & _)|(_ & m & Hm & Ha)]; [done|]. eexists. split; [done|].
        rewrite lookup_insert_ne by done. by rewrite Hm.
  - rewrite lookup_insert_ne by done. naive_solver.
Qed.

Lemma cached_delete cache k k' l a :
  cached (delete k cache) k' l a ↔ k' ≠ k ∧ cached cache k' l a.
Proof. unfold cached. setoid_rewrite lookup_delete_Some. naive_solver. Qed.

Lemma cached_alter_filter cache (P : L * A → Prop) `{!∀ x, Decision (P x)} k k' l a :
  cached (alter (filter P) k cache) k' l a ↔ cached cache k' l a ∧ (k' = k → P (l, a)).
Proof.
  unfold cached. destruct (decide (k' = k)) as [->|Hk].
  - rewrite lookup_alter_eq. split.
    + intros (m & Hm & Ha). apply fmap_Some in Hm as (m0 & Hm0 & ->).
      apply map_lookup_filter_Some in Ha as [? ?]. split; [by exists m0|done].
    + intros [(m & Hm & Ha) HP]. rewrite Hm. eexists. split; [done|].
      apply map_lookup_filter_Some. auto.
  - rewrite lookup_alter_ne by done. naive_solver.
Qed.

Lemma getSize_pos cache k : 0 < getSizeFromCache k cache ↔ ∃ l a, cached cache k l a.
Proof.
  unfold getSizeFromCache, cached. destruct (cache !! k) as [m|].
  - split.
    + intros Hs. destruct (map_choose m) as (l & a & Hl); [intros ->; by rewrite map_size_empty in Hs|].
      by exists l, a, m.
    + intros (l & a & m' & [= <-] & Ha). assert (size m ≠ 0%nat); [|lia].
      intros Hz. apply map_size_empty_inv in Hz. subst. by rewrite lookup_empty in Ha.
  - split; [lia|]. intros (? & ? & ? & ? & _). done.
Qed.

Lemma cacheExists_spec cache k l :
  cacheExists cache k l = true ↔ ∃ a, cached cache k l a.
Proof.
  unfold cacheExists, cached. destruct (cache !! k) as [m|]; [|naive_solver].
  rewrite bool_decide_eq_true. unfold is_Some. naive_solver.
Qed.
End cached.

Lemma cached_removeInvalid {K L} `{Countable K, Countable L} number hash
    (cache : gmap K (gmap L PBFTMsg)) k l a :
  cached (removeInvalidEntryFromCache number hash cache) k l a ↔
  cached cache k l a ∧ ¬ outdated number hash a.
Proof.
  unfold cached, removeInvalidEntryFromCache. setoid_rewrite lookup_omap_Some. split.
  - intros (m & (m0 & Hf & Hm0) & Ha). case_decide; [done|]. injection Hf as <-.
    apply map_lookup_filter_Some in Ha as [? ?]. split; [by exists m0|done].
  - intros [(m & Hm & Ha) Ho]. assert (filter (λ p, ¬ outdated number hash (snd p)) m !! l = Some a) as Hf.
    { apply map_lookup_filter_Some. auto. }
    eexists. split; [|exact Hf]. exists m. split; [|done]. case_decide as Hz; [|done].
    by rewrite Hz, lookup_empty in Hf.
Qed.

Lemma cached_upto curView cache v i r :
  cached (removeInvalidViewChange_upto curView cache) v i r ↔ cached cache v i r ∧ curView < v.
Proof.
  unfold cached, removeInvalidViewChange_upto. setoid_rewrite map_lookup_filter_Some. simpl. naive_solver.
Qed.

(** ** The invariant *)

(** Entries sit under the key that their own fields determine. *)
Definition sig_wf (cache : sig_cache) : Prop :=
  ∀ h k r, cached cache h k r → block_hash r = h ∧ k = toHex (sig r) ∧ hash_ok sig_size (sig r).
Definition view_wf (cache : view_cache) : Prop :=
  ∀ v i r, cached cache v i r → view r = v ∧ idx r = i.
Definition cache_wf (c : PBFTReqCache) : Prop :=
  sig_wf (m_signCache c) ∧ sig_wf (m_commitCache c) ∧ view_wf (m_recvViewChangeReq c).

(** The operations the engine performs on the cache; the requests stored carry
    signatures of the right size. *)
Inductive cache_step : PBFTReqCache → PBFTReqCache → Prop :=
  | cs_addRawPrepare c r : cache_step c (addRawPrepare c r)
  | cs_addPrepareReq c r : cache_step c (addPrepareReq c r)
  | cs_addSignReq c r : hash_ok sig_size (sig r) → cache_step c (addSignReq c r)
  | cs_addCommitReq c r : hash_ok sig_size (sig r) → cache_step c (addCommitReq c r)
  | cs_addViewChangeReq c r : cache_step c (addViewChangeReq c r)
  | cs_addFuturePrepare c r : cache_step c (addFuturePrepareCache c r)
  | cs_updateCommitted c : cache_step c (updateCommittedPrepare c)
  | cs_resetFuture c : cache_step c (resetFuturePrepare c)
  | cs_trigger c v : cache_step c (cache_triggerViewChange c v)
  | cs_delCache c h : cache_step c (delCache c h)
  | cs_collectGarbage c n h : cache_step c (collectGarbage_cache c n h)
  | cs_removeViewChange c v n h : cache_step c (removeInvalidViewChange c v n h)
  | cs_delViewChange c n h : cache_step c (delInvalidViewChange c n h)
  | cs_clearExceptCommit c : cache_step c (clearAllExceptCommitCache c)
  | cs_clearAll c : cache_step c (clearAll c).

Lemma addViewChangeReq_eq c r :
  m_recvViewChangeReq (addViewChangeReq c r) = cache_add (view r) (idx r) r (m_recvViewChangeReq c).
Proof.
  unfold addViewChangeReq, cache_add. simpl.
  destruct (m_recvViewChangeReq c !! view r) as [m|]; [by destruct (m !! idx r)|].
  simpl. by rewrite insert_empty.
Qed.

Lemma sig_wf_sub (c c' : sig_cache) :
  (∀ h k r, cached c' h k r → cached c h k r) → sig_wf c → sig_wf c'.
Proof. intros Hsub Hw h k r Hc. by apply Hw, Hsub. Qed.

Lemma view_wf_sub (c c' : view_cache) :
  (∀ h k r, cached c' h k r → cached c h k r) → view_wf c → view_wf c'.
Proof. intros Hsub Hw h k r Hc. by apply Hw, Hsub. Qed.

Lemma sig_wf_add c r :
  hash_ok sig_size (sig r) → sig_wf c → sig_wf (cache_add (block_hash r) (toHex (sig r)) r c).
Proof. intros Hs Hw h k r'. rewrite cached_add. intros [(-> & -> & ->)|[_ Hc]]; [done|by apply Hw]. Qed.

Lemma cache_step_wf c c' : cache_step c c' → cache_wf c → cache_wf c'.
Proof.
  intros Hst (Hs & Hc & Hv). destruct Hst; unfold cache_wf; simpl; try (by split_and!).
  - split_and!; [apply (sig_wf_sub (m_signCache c)); [|done]|apply (sig_wf_sub (m_commitCache c)); [|done]|done];
      intros h k r0; unfold removeInvalidView; rewrite cached_alter_filter; tauto.
  - split_and!; [by apply sig_wf_add|done|done].
  - split_and!; [done|by apply sig_wf_add|done].
  - split_and!; [done|done|]. change (view_wf (m_recvViewChangeReq (addViewChangeReq c r))).
    rewrite addViewChangeReq_eq. intros v i r'. rewrite cached_add.
    intros [(-> & -> & ->)|[_ ?]]; [done|by apply Hv].
  - unfold addFuturePrepareCache. case_decide; done.
  - split_and!; try (intros ? ? ? Hx; by apply cached_empty in Hx).
    eapply view_wf_sub; [|done]. intros ? ? ?. rewrite cached_upto. tauto.
  - assert (sig_wf (delete h (m_signCache c)) ∧ sig_wf (delete h (m_commitCache c))) as [? ?].
    { split; [apply (sig_wf_sub (m_signCache c)); [|done]|apply (sig_wf_sub (m_commitCache c)); [|done]];
        intros ? ? ?; rewrite cached_delete; tauto. }
    unfold delCache. by case_decide.
  - split_and!; [apply (sig_wf_sub (m_signCache c)); [|done]|apply (sig_wf_sub (m_commitCache c)); [|done]|done];
      intros ? ? ?; rewrite cached_removeInvalid; tauto.
  - split_and!; [done|done|]. eapply view_wf_sub; [|done]. intros ? ? ?.
    unfold removeInvalidViewChange_at. rewrite cached_alter_filter. tauto.
  - split_and!; [done|done|]. eapply view_wf_sub; [|done]. intros ? ? ?. rewrite cached_removeInvalid. tauto.
  - split_and!; [|done|]; intros ? ? ? Hx; by apply cached_empty in Hx.
  - split_and!; intros ? ? ? Hx; by apply cached_empty in Hx.
Qed.

Lemma cache0_wf : cache_wf PBFTReqCache0.
Proof. split_and!; intros ? ? ? Hx; by apply cached_empty in Hx. Qed.

(** ** The signature list *)

Lemma sig_entries cache h m l :
  sig_wf cache → cache !! h = Some m → l ≡ₚ map_to_list m →
  mapM sig_entry l = Ok ((λ p, (idx (snd p), sig (snd p))) <$> l).
Proof.
  intros Hw Hm Hl.
  assert (∀ p, p ∈ l → sig_entry p = Ok (idx (snd p), sig (snd p))) as He.
  { intros [k r] Hp. rewrite Hl in Hp. apply elem_of_map_to_list in Hp.
    destruct (Hw h k r) as (_ & -> & [Hok Hlen]); [by exists m|]. unfold sig_entry. simpl.
    rewrite hex_roundtrip, bind_ok by done. by rewrite FixedHash_of_id. }
  clear Hl. revert He. intros He. induction l as [|p l IH]; [done|].
  cbn [mapM]. rewrite He, bind_ok, IH by (left || (intros; apply He; by right)). done.
Qed.

Lemma generateAndSetSigList_wf order c n m :
  sig_wf (m_commitCache c) → m_commitCache c !! pr_hash (m_prepareCache c) = Some m →
  order m ≡ₚ map_to_list m →
  generateAndSetSigList order c n =
    if decide (Z.of_nat (size m) < n) then Throw AssertFail
    else Ok (Some ((λ p, (idx (snd p), sig (snd p))) <$> order m)).
Proof.
  intros Hw Hm Ho. unfold generateAndSetSigList.
  rewrite Hm, (sig_entries _ _ _ _ Hw Hm Ho), bind_ok, length_fmap.
  assert (length (order m) = size m) as -> by by rewrite <- length_map_to_list; apply Permutation_length.
  unfold throw_if. by case_decide.
Qed.

(** ** Scanning the view changes *)

(** [order] lists the entries of the view-change cache in some order. *)
Definition is_order (cache : view_cache) (order : list (Z * list (Z * PBFTMsg))) : Prop :=
  ∃ l, l ≡ₚ map_to_list cache ∧
       Forall2 (λ p q, fst q = fst p ∧ snd q ≡ₚ map_to_list (snd p)) l order.

(** Node [i] sent a view change above [toView] for a block not below
    [number]. *)
Definition eligible (cache : view_cache) (toView number i : Z) : Prop :=
  ∃ v r, cached cache v i r ∧ toView < v ∧ number ≤ height r.

(** The same in terms of an order. *)
Definition listed (order : list (Z * list (Z * PBFTMsg))) (toView number i : Z) : Prop :=
  ∃ v es r, (v, es) ∈ order ∧ (i, r) ∈ es ∧ toView < v ∧ number ≤ height r.

Lemma is_order_entries cache order v i r :
  is_order cache order → (∃ es, (v, es) ∈ order ∧ (i, r) ∈ es) ↔ cached cache v i r.
Proof.
  intros (l & Hl & Hf). unfold cached. split.
  - intros (es & Hes & Hr). apply list_elem_of_lookup in Hes as [n Hn].
    destruct (Forall2_lookup_r _ _ _ _ _ Hf Hn) as ([v' m] & Hm & Hv & Hp). simpl in *. subst v'.
    apply list_elem_of_lookup_2 in Hm. rewrite Hl in Hm. apply elem_of_map_to_list in Hm.
    exists m. split; [done|]. rewrite Hp in Hr. by apply elem_of_map_to_list.
  - intros (m & Hm & Hr). apply elem_of_map_to_list in Hm. rewrite <- Hl in Hm.
    apply list_elem_of_lookup in Hm as [n Hn].
    destruct (Forall2_lookup_l _ _ _ _ _ Hf Hn) as ([v' es] & Hes & Hv & Hp). simpl in *. subst v'.
    exists es. split; [by eapply list_elem_of_lookup_2|]. rewrite Hp. by apply elem_of_map_to_list.
Qed.

Lemma listed_eligible cache order toView number i :
  is_order cache order → listed order toView number i ↔ eligible cache toView number i.
Proof.
  intros Ho. unfold listed, eligible. split.
  - intros (v & es & r & H1 & H2 & H3 & H4). exists v, r. split; [|done].
    apply (is_order_entries _ _ _ _ _ Ho). by exists es.
  - intros (v & r & Hc & H3 & H4). apply (is_order_entries _ _ _ _ _ Ho) in Hc as (es & H1 & H2).
    by exists v, es, r.
Qed.

Lemma is_order_perm cache o o' : is_order cache o → o ≡ₚ o' → is_order cache o'.
Proof.
  intros (l & Hl & Hf%Forall2_flip) Hp. destruct (Permutation_Forall2 Hp Hf) as (l' & Hl' & Hf').
  exists l'. split; [by rewrite <- Hl'|by apply Forall2_flip].
Qed.

(** The invariant of the scan: the map holds views above [toView], which bound
    [minView] from above. *)
Definition scan_ok (toView : Z) (s : vc_scan) : Prop :=
  map_Forall (λ _ v, toView < v) (sc_map s) ∧
  (sc_map s = ∅ → sc_view s = MAXVIEW) ∧ (sc_map s ≠ ∅ → toView < sc_view s).

Lemma vc_entry_spec toView number v s e :
  toView < v → toView < MAXVIEW → scan_ok toView s →
  let s' := vc_entry number v s e in
  scan_ok toView s' ∧
  ∀ i, is_Some (sc_map s' !! i) ↔
       is_Some (sc_map s !! i) ∨ (i = fst e ∧ number ≤ height (snd e)).
Proof.
  intros Hv Hmax (H1 & H2 & H3). unfold vc_entry. case_decide as Hd; cbv zeta.
  - cbn [sc_map sc_view sc_height]. split; [split; [|split]|].
    + apply map_Forall_insert_2; done.
    + intros Hz. simpl in Hz. by apply insert_non_empty in Hz.
    + intros _. destruct (decide (sc_map s = ∅)) as [Hz|Hz].
      * rewrite (H2 Hz). simpl. lia.
      * specialize (H3 Hz). simpl. lia.
    + intros i. rewrite lookup_insert_is_Some. destruct (decide (i = fst e)) as [->|]; naive_solver.
  - split; [done|]. intros i. split; [auto|]. intros [?|[-> Hh]]; [done|].
    destruct (sc_map s !! fst e) as [w|] eqn:E; [eauto|]. exfalso. apply Hd. auto.
Qed.

Lemma vc_inner_spec toView number v es s :
  toView < v → toView < MAXVIEW → scan_ok toView s →
  let s' := foldl (vc_entry number v) s es in
  scan_ok toView s' ∧
  ∀ i, is_Some (sc_map s' !! i) ↔
       is_Some (sc_map s !! i) ∨ ∃ r, (i, r) ∈ es ∧ number ≤ height r.
Proof.
  intros Hv Hmax. revert s. induction es as [|e es IH]; intros s Hs; simpl.
  - split; [done|]. intros i. split; [auto|]. intros [?|(r & Hr & _)]; [done|]. by apply elem_of_nil in Hr.
  - destruct (vc_entry_spec toView number v s e Hv Hmax Hs) as [Hs' He].
    destruct (IH _ Hs') as [Hs'' Hi]. split; [done|]. intros i. rewrite Hi, He. split.
    + intros [[?|[-> ?]]|(r & Hr & ?)]; [auto| |right; exists r; split; [by right|done]].
      right. exists (snd e). split; [|done]. destruct e. left.
    + intros [?|(r & Hr & ?)]; [auto|]. apply elem_of_cons in Hr as [<-|Hr]; [auto|]. right. by exists r.
Qed.

Lemma vc_scan_spec toView number order s :
  toView < MAXVIEW → scan_ok toView s →
  let s' := foldl (vc_view toView number) s order in
  scan_ok toView s' ∧
  ∀ i, is_Some (sc_map s' !! i) ↔ is_Some (sc_map s !! i) ∨ listed order toView number i.
Proof.
  intros Hmax. revert s. induction order as [|[v es] order IH]; intros s Hs; cbn [foldl].
  - split; [done|]. intros i. split; [auto|]. intros [?|(? & ? & ? & Hx & _)]; [done|]. by apply elem_of_nil in Hx.
  - assert (scan_ok toView (vc_view toView number s (v, es)) ∧
      ∀ i, is_Some (sc_map (vc_view toView number s (v, es)) !! i) ↔
        is_Some (sc_map s !! i) ∨ (toView < v ∧ ∃ r, (i, r) ∈ es ∧ number ≤ height r)) as [Hs' He].
    { unfold vc_view. simpl. case_decide as Hv; [|split; [done|naive_solver]].
      destruct (vc_inner_spec toView number v es s Hv Hmax Hs) as [? Hi]. split; [done|].
      intros i. rewrite Hi. naive_solver. }
    destruct (IH _ Hs') as [Hs'' Hi]. split; [done|]. intros i. rewrite Hi, He. unfold listed.
    setoid_rewrite elem_of_cons. naive_solver.
Qed.

Lemma scan0_ok toView : scan_ok toView vc_scan0.
Proof. split; [apply map_Forall_empty|]. by split. Qed.

(** The nodes counted are the eligible ones. *)
Lemma vc_counted cache order toView number :
  is_order cache order → toView < MAXVIEW →
  ∀ i, i ∈ dom (sc_map (vc_scan_all toView number order)) ↔ eligible cache toView number i.
Proof.
  intros Ho Hmax i. rewrite elem_of_dom.
  destruct (vc_scan_spec toView number order vc_scan0 Hmax (scan0_ok toView)) as [_ Hi].
  unfold vc_scan_all. rewrite Hi, (listed_eligible cache) by done. simpl.
  rewrite lookup_empty. split; [intros [[? ?]|?]; done|auto].
Qed.

(** Concrete requests for the examples. *)
Definition ex_sig (b : Z) : bytes := repeat b (Z.to_nat sig_size).
Definition ex_req (i v h : Z) : PBFTMsg := MkMsg h v i 0 h256_0 (ex_sig i) sig_0.

(** View changes of two nodes, one of which sent two. *)
Definition ex_views : PBFTReqCache :=
  addViewChangeReq (addViewChangeReq (addViewChangeReq PBFTReqCache0 (ex_req 1 5 5)) (ex_req 2 3 5)) (ex_req 2 4 5).

Lemma vc_order_is_order c : is_order (m_recvViewChangeReq c) (vc_order c).
Proof.
  exists (map_to_list (m_recvViewChangeReq c)). split; [done|]. unfold vc_order.
  apply Forall2_fmap_r, Forall_Forall2_diag, Forall_true. by intros [v m].
Qed.

(** ** Properties *)

(** C25. Along every sequence of operations on an initially empty request cache,
    a sign or commit request is stored under its own block hash and the hex of
    its own 65-byte signature, and a view-change request under its own view and
    node index. *)
Theorem req_cache_keys c : star cache_step PBFTReqCache0 c → cache_wf c.
Proof. intros Hst. by eapply (star_invariant cache_step cache_wf), cache0_wf; [intros; eapply cache_step_wf|]. Qed.

Lemma req_cache_keys_witness :
  cache_wf (addCommitReq (addSignReq PBFTReqCache0 (ex_req 1 0 5)) (ex_req 2 0 5)).
Proof.
  apply req_cache_keys. eapply star_trans; [apply star_one, cs_addSignReq|apply star_one, cs_addCommitReq];
    (split; [repeat constructor; lia|reflexivity]).
Defined.

(** [addPrepareReq] stores the request and drops exactly the sign and commit
    requests of the same block that were made in another view. *)
Theorem addPrepareReq_purges c r h k m :
  let c' := addPrepareReq c r in
  m_prepareCache c' = r ∧
  (cached (m_signCache c') h k m ↔
     cached (m_signCache c) h k m ∧ (h = pr_hash r → view m = pr_view r)) ∧
  (cached (m_commitCache c') h k m ↔
     cached (m_commitCache c) h k m ∧ (h = pr_hash r → view m = pr_view r)) ∧
  m_recvViewChangeReq c' = m_recvViewChangeReq c.
Proof. simpl. unfold removeInvalidView. rewrite !cached_alter_filter. simpl. split_and!; tauto. Qed.

(** C26. On a reachable cache, [generateAndSetSigList] puts into the block exactly
    the pairs (node index, signature) of the commit requests collected for the
    prepared block, one for each distinct signature, provided there are at least
    [minSigSize] of them; with fewer, the assertion fails. *)
Theorem sig_list_exact order c minSigSize m :
  star cache_step PBFTReqCache0 c →
  m_commitCache c !! pr_hash (m_prepareCache c) = Some m →
  order m ≡ₚ map_to_list m →
  generateAndSetSigList order c minSigSize =
    if decide (Z.of_nat (size m) < minSigSize) then Throw AssertFail
    else Ok (Some ((λ p, (idx (snd p), sig (snd p))) <$> order m)).
Proof.
  intros Hst Hm Ho.
  assert (cache_wf c) as (_ & Hw & _).
  { by eapply (star_invariant cache_step cache_wf), cache0_wf; [intros; eapply cache_step_wf|]. }
  by apply generateAndSetSigList_wf.
Qed.

Lemma sig_list_exact_witness :
  let c := addCommitReq (addCommitReq PBFTReqCache0 (ex_req 1 0 5)) (ex_req 2 0 5) in
  ∃ l, generateAndSetSigList map_to_list c 2 = Ok (Some l) ∧ length l = 2%nat.
Proof.
  set (c := addCommitReq (addCommitReq PBFTReqCache0 (ex_req 1 0 5)) (ex_req 2 0 5)).
  assert (size <$> m_commitCache c !! pr_hash (m_prepareCache c) = Some 2%nat) as Hs
    by (vm_compute; reflexivity).
  apply fmap_Some in Hs as (m & E & Hs). symmetry in Hs.
  assert (star cache_step PBFTReqCache0 c) as Hst.
  { eapply star_trans; apply star_one, cs_addCommitReq; (split; [repeat constructor; lia|reflexivity]). }
  pose proof (sig_list_exact map_to_list c 2 m Hst E ltac:(reflexivity)) as Hx. rewrite Hs in Hx.
  eexists. split; [exact Hx|]. rewrite length_fmap, length_map_to_list. exact Hs.
Defined.

(** [collectGarbage] removes exactly the sign and commit requests for a block
    below the highest one, or for the highest block number under another hash,
    and leaves no other component changed. *)
Theorem collectGarbage_exact c number hash h k m :
  let c' := collectGarbage_cache c number hash in
  (cached (m_signCache c') h k m ↔ cached (m_signCache c) h k m ∧ ¬ outdated number hash m) ∧
  (cached (m_commitCache c') h k m ↔ cached (m_commitCache c) h k m ∧ ¬ outdated number hash m) ∧
  m_prepareCache c' = m_prepareCache c ∧ m_rawPrepareCache c' = m_rawPrepareCache c ∧
  m_recvViewChangeReq c' = m_recvViewChangeReq c.
Proof. simpl. rewrite !cached_removeInvalid. split_and!; tauto. Qed.

(** C27. Whatever order the hash maps are iterated in, the view-change trigger
    counts each node at most once and exactly the nodes with a request above
    [toView] for a current block; when it fires, more than [maxInvalidNodeNum]
    such nodes exist and the view chosen is above [toView]. *)
Theorem view_change_trigger cache order (nodes : gset Z) f toView number cn ch :
  is_order cache order → toView < MAXVIEW → 0 ≤ f →
  (∀ i, i ∈ nodes ↔ eligible cache toView number i) →
  Z.of_nat (size nodes) ≤ MAXIDX →
  let r := canTriggerViewChange order f toView number cn ch in
  (size (sc_map (vc_scan_all toView number order)) = size nodes) ∧
  (fst r = true → f < Z.of_nat (size nodes) ∧ toView < snd r) ∧
  (f < Z.of_nat (size nodes) → cn ≠ ch → fst r = true).
Proof.
  intros Ho Hmax Hf Hn Hs.
  assert (size (sc_map (vc_scan_all toView number order)) = size nodes) as Hsz.
  { rewrite <- (size_dom (D:=gset Z)). apply set_size_proper. intros i. by rewrite Hn, (vc_counted cache). }
  destruct (vc_scan_spec toView number order vc_scan0 Hmax (scan0_ok toView)) as [(_ & _ & Hv) _].
  unfold canTriggerViewChange. cbv zeta. rewrite Hsz. simpl.
  rewrite (u16_small (Z.of_nat (size nodes))) by (unfold MAXIDX, UINT16_MAX in Hs; lia).
  split; [done|split].
  - intros [Hlt%bool_decide_eq_true _]%andb_true_iff. split; [done|]. apply Hv. intros Hz.
    unfold vc_scan_all in Hsz. rewrite Hz, map_size_empty in Hsz. lia.
  - intros Hlt Hne. rewrite bool_decide_eq_true_2 by done. simpl. rewrite bool_decide_eq_false_2; [done|]. lia.
Qed.


Lemma view_change_trigger_witness :
  fst (canTriggerViewChange (vc_order ex_views) 1 2 5 4 3) = true.
Proof.
  assert (∀ i, i ∈ ({[1; 2]} : gset Z) ↔ eligible (m_recvViewChangeReq ex_views) 2 5 i) as Hn.
  { assert (dom (sc_map (vc_scan_all 2 5 (vc_order ex_views))) = ({[1; 2]} : gset Z)) as <-
      by (vm_compute; reflexivity).
    intros i. rewrite (vc_counted (m_recvViewChangeReq ex_views)); [reflexivity|apply vc_order_is_order|reflexivity]. }
  apply (view_change_trigger (m_recvViewChangeReq ex_views) (vc_order ex_views) {[1; 2]} 1 2 5 4 3
           (vc_order_is_order ex_views) eq_refl ltac:(lia) Hn ltac:(vm_compute; discriminate));
    vm_compute; congruence.
Defined.

(** When a node has sent several view changes, the view that the trigger
    chooses depends on the iteration order of the hash map: two orders of the
    same cache both fire, with different views. *)
Theorem view_change_order_dependent :
  ∃ c o1 o2, star cache_step PBFTReqCache0 c ∧
    is_order (m_recvViewChangeReq c) o1 ∧ is_order (m_recvViewChangeReq c) o2 ∧
    canTriggerViewChange o1 1 2 5 4 3 = (true, 3) ∧ canTriggerViewChange o2 1 2 5 4 3 = (true, 4).
Proof.
  assert (vc_order ex_views ≡ₚ [(3, [(2, ex_req 2 3 5)]); (4, [(2, ex_req 2 4 5)]); (5, [(1, ex_req 1 5 5)])]) as Hp.
  { unfold vc_order. vm_compute. solve_Permutation. }
  exists ex_views.
  exists [(3, [(2, ex_req 2 3 5)]); (4, [(2, ex_req 2 4 5)]); (5, [(1, ex_req 1 5 5)])].
  exists [(4, [(2, ex_req 2 4 5)]); (3, [(2, ex_req 2 3 5)]); (5, [(1, ex_req 1 5 5)])].
  split_and!.
  - eapply star_trans; [eapply star_trans|]; apply star_one, cs_addViewChangeReq.
  - by eapply is_order_perm; [apply vc_order_is_order|].
  - eapply is_order_perm; [apply vc_order_is_order|]. rewrite Hp. apply Permutation_swap.
  - vm_compute. reflexivity.
  - vm_compute. reflexivity.
Qed.
