(* ===== verification/TimeManager.v ===== *)
(** * The PBFT timers

    Models libconsensus/pbft/TimeManager.h: the timestamps the engine compares
    and the exponentially growing view timeout. The clock is an argument of the
    operations that read it. The running average [m_execTimePerTx] is only
    read by [calculateMaxPackTxNum], which no code calls; neither is modelled. *)

From S2P Require Import Prelude.

Local Open Scope Z_scope.

(** Times are in milliseconds ([utcTime]) except [m_lastGarbageCollection], a
    [system_clock] time point in nanoseconds. *)
Record TimeManager := MkTime {
  m_lastExecFinishTime : Z;
  m_viewTimeout : Z;              (* unsigned *)
  m_changeCycle : Z;              (* unsigned *)
  m_lastSignTime : Z;
  m_lastConsensusTime : Z;
  m_intervalBlockTime : Z;        (* unsigned *)
  m_lastGarbageCollection : Z;
}.

Definition TimeManager0 : TimeManager := MkTime 0 0 0 0 0 1000 0.

Definition kMaxChangeCycle : Z := 20.
Definition CollectInterval : Z := 60.

Definition initTimerManager (t : TimeManager) (view_timeout now now_ns : Z) : TimeManager :=
  MkTime now (u32 view_timeout) 0 0 now (m_intervalBlockTime t) now_ns.

Definition changeView (t : TimeManager) : TimeManager :=
  MkTime (m_lastExecFinishTime t) (m_viewTimeout t) (m_changeCycle t) 0 0 (m_intervalBlockTime t)
    (m_lastGarbageCollection t).

Definition set_changeCycle (t : TimeManager) (c : Z) : TimeManager :=
  MkTime (m_lastExecFinishTime t) (m_viewTimeout t) c (m_lastSignTime t) (m_lastConsensusTime t)
    (m_intervalBlockTime t) (m_lastGarbageCollection t).
Definition set_lastSign (t : TimeManager) (x : Z) : TimeManager :=
  MkTime (m_lastExecFinishTime t) (m_viewTimeout t) (m_changeCycle t) x (m_lastConsensusTime t)
    (m_intervalBlockTime t) (m_lastGarbageCollection t).
Definition set_lastConsensus (t : TimeManager) (x : Z) : TimeManager :=
  MkTime (m_lastExecFinishTime t) (m_viewTimeout t) (m_changeCycle t) (m_lastSignTime t) x
    (m_intervalBlockTime t) (m_lastGarbageCollection t).
Definition set_lastGarbage (t : TimeManager) (x : Z) : TimeManager :=
  MkTime (m_lastExecFinishTime t) (m_viewTimeout t) (m_changeCycle t) (m_lastSignTime t)
    (m_lastConsensusTime t) (m_intervalBlockTime t) x.

Definition updateChangeCycle (t : TimeManager) : TimeManager :=
  set_changeCycle t (Z.min (u32 (m_changeCycle t + 1)) kMaxChangeCycle).

(** A non-negative integer as a [double]: 53 significant bits, round to nearest,
    ties to even. *)
Definition to_double (z : Z) : Z :=
  let k := Z.max 0 (Z.log2 z - 52) in
  let q := z / 2 ^ k in
  let r := z `mod` 2 ^ k in
  let up := bool_decide (2 ^ k < 2 * r ∨ (2 ^ k = 2 * r ∧ Z.odd q = true)) in
  (q + if up then 1 else 0) * 2 ^ k.

(** [(uint64_t)(m_viewTimeout * std::pow(1.5, m_changeCycle))]: the power
    [3^c / 2^c] is exact in a [double] for [c] up to [kMaxChangeCycle]; the
    product is rounded once; the cast truncates. *)
Definition timeout_interval (t : TimeManager) : Z :=
  u64 (to_double (m_viewTimeout t * 3 ^ m_changeCycle t) / 2 ^ m_changeCycle t).

Definition isTimeout (t : TimeManager) (now : Z) : bool :=
  let last := Z.max (m_lastConsensusTime t) (m_lastSignTime t) in
  bool_decide (timeout_interval t ≤ u64 (now - last)).

(** [updateTimeAfterHandleBlock], without the running average. *)
Definition updateTimeAfterHandleBlock (t : TimeManager) (now : Z) : TimeManager :=
  MkTime now (m_viewTimeout t) (m_changeCycle t) (m_lastSignTime t) (m_lastConsensusTime t)
    (m_intervalBlockTime t) (m_lastGarbageCollection t).

(** ** Lemmas *)

Lemma to_double_exact z : 0 ≤ z < 2 ^ 53 → to_double z = z.
Proof.
  intros Hz. unfold to_double.
  assert (Z.max 0 (Z.log2 z - 52) = 0) as ->.
  { destruct (decide (z = 0)) as [->|]; [done|].
    pose proof (proj1 (Z.log2_lt_pow2 z 53 ltac:(lia)) ltac:(lia)). lia. }
  rewrite Z.div_1_r, Z.mod_1_r. simpl. lia.
Qed.

(** The interval when the rounding does not matter. *)
Lemma timeout_interval_exact t :
  0 ≤ m_changeCycle t → 0 ≤ m_viewTimeout t * 3 ^ m_changeCycle t < 2 ^ 53 →
  timeout_interval t = m_viewTimeout t * 3 ^ m_changeCycle t / 2 ^ m_changeCycle t.
Proof.
  intros Hc Hr. unfold timeout_interval. rewrite to_double_exact by done. apply u64_small.
  assert (0 < 2 ^ m_changeCycle t) by lia. split; [apply Z.div_pos; lia|].
  eapply Z.le_lt_trans; [apply Z.div_le_upper_bound with (q := m_viewTimeout t * 3 ^ m_changeCycle t); nia|]. lia.
Qed.

Lemma updateChangeCycle_range t :
  0 ≤ m_changeCycle t ≤ kMaxChangeCycle →
  0 ≤ m_changeCycle (updateChangeCycle t) ≤ kMaxChangeCycle.
Proof. unfold kMaxChangeCycle. intros. simpl. unfold kMaxChangeCycle. rewrite u32_small by lia. lia. Qed.

(** ** Properties *)

(** After each unsuccessful view change the timeout grows by a factor of one
    and a half (rounded down to milliseconds) until twenty of them, and then
    stays; the cycle counter never leaves 0 to 20. *)
Theorem timeout_growth t :
  0 ≤ m_changeCycle t ≤ kMaxChangeCycle → 0 ≤ m_viewTimeout t < 2 ^ 20 →
  let t' := updateChangeCycle t in
  0 ≤ m_changeCycle t' ≤ kMaxChangeCycle ∧
  (m_changeCycle t < kMaxChangeCycle →
     3 * timeout_interval t ≤ 2 * timeout_interval t' + 1 ∧
     2 * timeout_interval t' ≤ 3 * timeout_interval t + 3) ∧
  (m_changeCycle t = kMaxChangeCycle → timeout_interval t' = timeout_interval t).
Proof.
  intros Hc Hv. cbv zeta. split; [by apply updateChangeCycle_range|]. unfold kMaxChangeCycle in *.
  assert (∀ c, 0 ≤ c ≤ 20 → 0 ≤ m_viewTimeout t * 3 ^ c < 2 ^ 53) as Hb.
  { intros c Hc'. assert (3 ^ c ≤ 3 ^ 20) by (apply Z.pow_le_mono_r; lia). nia. }
  assert (m_viewTimeout (updateChangeCycle t) = m_viewTimeout t) as Hvt by done.
  assert (m_changeCycle (updateChangeCycle t) = Z.min (m_changeCycle t + 1) 20) as Hct.
  { simpl. unfold kMaxChangeCycle. by rewrite u32_small by lia. }
  rewrite !timeout_interval_exact by (rewrite ?Hct, ?Hvt; lia || apply Hb; lia).
  rewrite Hct, Hvt. split; intros Hl.
  - rewrite Z.min_l by lia. rewrite !Z.pow_add_r by lia. rewrite !Z.pow_1_r.
    set (v := m_viewTimeout t * 3 ^ m_changeCycle t). set (p := 2 ^ m_changeCycle t).
    replace (m_viewTimeout t * (3 ^ m_changeCycle t * 3)) with (3 * v) by (unfold v; ring).
    assert (0 < p) by (unfold p; lia).
    pose proof (Z.div_mod v p ltac:(lia)). pose proof (Z.mod_pos_bound v p ltac:(lia)).
    pose proof (Z.div_mod (3 * v) (p * 2) ltac:(lia)). pose proof (Z.mod_pos_bound (3 * v) (p * 2) ltac:(lia)).
    set (a := v / p) in *. set (b := 3 * v / (p * 2)) in *. nia.
  - by rewrite Hl.
Qed.

Lemma timeout_growth_witness :
  let t := MkTime 0 3000 2 0 0 1000 0 in
  timeout_interval t = 6750 ∧ timeout_interval (updateChangeCycle t) = 10125 ∧
  3 * timeout_interval t ≤ 2 * timeout_interval (updateChangeCycle t) + 1.
Proof.
  split; [vm_compute; reflexivity|split; [vm_compute; reflexivity|]].
  apply (timeout_growth (MkTime 0 3000 2 0 0 1000 0)); vm_compute; intuition congruence.
Defined.
