(* ===== verification/PBFTMsgCache.v ===== *)
(** * The broadcast filter

    Models [QueueSet] (libdevcore/Common.h) and libconsensus/pbft/PBFTMsgCache.h:
    for each peer and packet type a bounded set of the keys already sent to
    it. The mutexes make each operation atomic and have no counterpart. *)

From S2P Require Import Prelude PBFTMsg.

Local Open Scope Z_scope.

(** ** QueueSet *)

Section queue_set.
Context {T : Type} `{Countable T}.

Record QueueSet := MkQS { m_set : gset T; m_queue : list T }.

Definition QueueSet0 : QueueSet := MkQS ∅ [].

Definition qs_push (q : QueueSet) (t : T) : bool * QueueSet :=
  if decide (t ∈ m_set q) then (false, q)
  else (true, MkQS ({[t]} ∪ m_set q) (m_queue q ++ [t])).

Definition qs_pop (q : QueueSet) : bool * QueueSet :=
  match m_queue q with
  | [] => (false, q)
  | t :: l => (true, MkQS (m_set q ∖ {[t]}) l)
  end.

Definition qs_exist (q : QueueSet) (t : T) : bool := bool_decide (t ∈ m_set q).
Definition qs_size (q : QueueSet) : Z := Z.of_nat (size (m_set q)).
Definition qs_clear (_ : QueueSet) : QueueSet := QueueSet0.
End queue_set.
Arguments QueueSet _ {_ _}.

(** ** PBFTMsgCache *)

Definition c_known : Z := 1024.

Record PBFTMsgCache := MkMsgCache {
  m_knownPrepare : QueueSet bytes;
  m_knownSign : QueueSet bytes;
  m_knownCommit : QueueSet bytes;
  m_knownViewChange : QueueSet bytes;
}.

Definition PBFTMsgCache0 : PBFTMsgCache := MkMsgCache QueueSet0 QueueSet0 QueueSet0 QueueSet0.

Definition insertMessage (q : QueueSet bytes) (maxCacheSize : Z) (key : bytes) : QueueSet bytes :=
  let q := if decide (maxCacheSize < qs_size q) then snd (qs_pop q) else q in
  snd (qs_push q key).

Definition insertByPacketType (c : PBFTMsgCache) (type : Z) (key : bytes) : bool * PBFTMsgCache :=
  if decide (type = PrepareReqPacket) then
    (true, MkMsgCache (insertMessage (m_knownPrepare c) c_known key) (m_knownSign c) (m_knownCommit c)
             (m_knownViewChange c))
  else if decide (type = SignReqPacket) then
    (true, MkMsgCache (m_knownPrepare c) (insertMessage (m_knownSign c) c_known key) (m_knownCommit c)
             (m_knownViewChange c))
  else if decide (type = CommitReqPacket) then
    (true, MkMsgCache (m_knownPrepare c) (m_knownSign c) (insertMessage (m_knownCommit c) c_known key)
             (m_knownViewChange c))
  else if decide (type = ViewChangeReqPacket) then
    (true, MkMsgCache (m_knownPrepare c) (m_knownSign c) (m_knownCommit c)
             (insertMessage (m_knownViewChange c) c_known key))
  else (false, c).

(** [exists]. *)
Definition msgcache_exists (c : PBFTMsgCache) (type : Z) (key : bytes) : bool :=
  if decide (type = PrepareReqPacket) then qs_exist (m_knownPrepare c) key
  else if decide (type = SignReqPacket) then qs_exist (m_knownSign c) key
  else if decide (type = CommitReqPacket) then qs_exist (m_knownCommit c) key
  else if decide (type = ViewChangeReqPacket) then qs_exist (m_knownViewChange c) key
  else false.

(** [clearAll]. *)
Definition msgcache_clear (c : PBFTMsgCache) : PBFTMsgCache :=
  MkMsgCache (qs_clear (m_knownPrepare c)) (qs_clear (m_knownSign c)) (qs_clear (m_knownCommit c))
    (qs_clear (m_knownViewChange c)).

(** ** PBFTBroadcastCache *)

Abbreviation PBFTBroadcastCache := (gmap bytes PBFTMsgCache).

Definition insertKey (m : PBFTBroadcastCache) (nodeId : bytes) (type : Z) (key : bytes) :
    bool * PBFTBroadcastCache :=
  let c := default PBFTMsgCache0 (m !! nodeId) in
  let '(b, c') := insertByPacketType c type key in
  (b, <[nodeId := c']> m).

Definition keyExists (m : PBFTBroadcastCache) (nodeId : bytes) (type : Z) (key : bytes) : bool :=
  match m !! nodeId with
  | None => false
  | Some c => msgcache_exists c type key
  end.

(** [clearAll]: the entries stay, their queues are emptied. *)
Definition broadcast_clear (m : PBFTBroadcastCache) : PBFTBroadcastCache := msgcache_clear <$> m.

(** ** Lemmas *)

Section queue_facts.
Context {T : Type} `{Countable T}.

(** The set holds exactly the elements of the queue, which has no duplicates. *)
Definition qs_wf (q : QueueSet T) : Prop := NoDup (m_queue q) ∧ m_set q = list_to_set (m_queue q).

Lemma qs_wf_elem q t : qs_wf q → t ∈ m_set q ↔ t ∈ m_queue q.
Proof. intros [_ ->]. by rewrite elem_of_list_to_set. Qed.

Lemma qs_size_queue q : qs_wf q → qs_size q = Z.of_nat (length (m_queue q)).
Proof. intros [Hd Hs]. unfold qs_size. rewrite Hs. by rewrite size_list_to_set. Qed.

Lemma qs_push_wf q t : qs_wf q → qs_wf (snd (qs_push q t)).
Proof.
  intros Hw. unfold qs_push. case_decide as Ht; [done|]. rewrite qs_wf_elem in Ht by done.
  destruct Hw as [Hd Hs]. split; simpl.
  - apply list.NoDup_app. split; [done|]. split; [|apply NoDup_singleton].
    intros x Hx ->%list_elem_of_singleton. done.
  - rewrite list_to_set_app_L, Hs. set_solver.
Qed.

Lemma qs_pop_wf q : qs_wf q → qs_wf (snd (qs_pop q)).
Proof.
  intros [Hd Hs]. unfold qs_pop. destruct (m_queue q) as [|t l] eqn:E; simpl; [by split; rewrite E|].
  apply list.NoDup_cons in Hd as [Ht Hd]. split; [done|]. simpl. rewrite Hs, list_to_set_cons.
  assert (t ∉ (list_to_set l : gset T)) by (by rewrite elem_of_list_to_set). set_solver.
Qed.
End queue_facts.

Lemma insertMessage_spec q n key :
  qs_wf q → 0 ≤ n → qs_size q ≤ n + 1 →
  qs_wf (insertMessage q n key) ∧ qs_size (insertMessage q n key) ≤ n + 1 ∧
  qs_exist (insertMessage q n key) key = true.
Proof.
  intros Hw Hn Hs. unfold insertMessage.
  set (q1 := if decide (n < qs_size q) then snd (qs_pop q) else q).
  assert (qs_wf q1 ∧ qs_size q1 ≤ n) as [Hw1 Hs1].
  { unfold q1. case_decide; [|split; [done|lia]]. split; [by apply qs_pop_wf|].
    rewrite qs_size_queue in * by (done || by apply qs_pop_wf). unfold qs_pop.
    destruct (m_queue q); simpl in *; lia. }
  split; [by apply qs_push_wf|]. unfold qs_push, qs_exist. case_decide as Ht; simpl.
  - split; [lia|by apply bool_decide_eq_true].
  - split; [|apply bool_decide_eq_true; set_solver]. rewrite qs_wf_elem in Ht by done.
    assert (qs_wf (snd (qs_push q1 key))) as Hw2 by by apply qs_push_wf.
    unfold qs_push in Hw2. rewrite decide_False in Hw2 by (by rewrite qs_wf_elem).
    simpl in Hw2. rewrite (qs_size_queue q1) in Hs1 by done. rewrite (qs_size_queue _ Hw2). simpl.
    rewrite length_app. simpl. lia.
Qed.

Definition known_types (type : Z) : Prop := 0 ≤ type ≤ 3.

(** All four queues are well formed and bounded. *)
Definition queue_ok (q : QueueSet bytes) : Prop := qs_wf q ∧ qs_size q ≤ c_known + 1.
Definition msgcache_ok (c : PBFTMsgCache) : Prop :=
  queue_ok (m_knownPrepare c) ∧ queue_ok (m_knownSign c) ∧ queue_ok (m_knownCommit c) ∧
  queue_ok (m_knownViewChange c).
Definition broadcast_ok (m : PBFTBroadcastCache) : Prop := map_Forall (λ _ c, msgcache_ok c) m.

Lemma queue0_ok : queue_ok QueueSet0.
Proof. split; [split; [apply NoDup_nil_2|done]|]. vm_compute. discriminate. Qed.

Lemma msgcache0_ok : msgcache_ok PBFTMsgCache0.
Proof. by split_and!; apply queue0_ok. Qed.

Lemma insertMessage_ok q key : queue_ok q → queue_ok (insertMessage q c_known key).
Proof.
  intros [Hw Hs]. by destruct (insertMessage_spec q c_known key Hw ltac:(done) Hs) as (? & ? & _).
Qed.

Lemma insertMessage_exist q key : queue_ok q → qs_exist (insertMessage q c_known key) key = true.
Proof. intros [Hw Hs]. by apply insertMessage_spec. Qed.

Lemma insertByPacketType_ok c type key :
  msgcache_ok c → msgcache_ok (snd (insertByPacketType c type key)).
Proof.
  intros (H1 & H2 & H3 & H4). unfold insertByPacketType. repeat case_decide; simpl;
    split_and!; simpl; auto using insertMessage_ok.
Qed.

Lemma insertByPacketType_exist c type key :
  msgcache_ok c → known_types type → msgcache_exists (snd (insertByPacketType c type key)) type key = true.
Proof.
  intros (H1 & H2 & H3 & H4) Ht. unfold known_types in Ht.
  unfold insertByPacketType, msgcache_exists, PrepareReqPacket, SignReqPacket, CommitReqPacket,
    ViewChangeReqPacket.
  repeat case_decide; simpl; auto using insertMessage_exist; lia.
Qed.

Lemma insertKey_ok m n type key : broadcast_ok m → broadcast_ok (snd (insertKey m n type key)).
Proof.
  intros Hm. unfold insertKey. destruct (insertByPacketType _ _ _) as [b c'] eqn:E. simpl.
  apply map_Forall_insert_2; [|done]. replace c' with (snd (b, c')) by done. rewrite <- E.
  apply insertByPacketType_ok. destruct (m !! n) as [c|] eqn:En; [by apply (Hm n)|apply msgcache0_ok].
Qed.

Lemma insertKey_exists m n type key :
  broadcast_ok m → known_types type → keyExists (snd (insertKey m n type key)) n type key = true.
Proof.
  intros Hm Ht. unfold insertKey. destruct (insertByPacketType _ _ _) as [b c'] eqn:E. simpl.
  unfold keyExists. rewrite lookup_insert_eq. replace c' with (snd (b, c')) by done. rewrite <- E.
  apply insertByPacketType_exist; [|done].
  destruct (m !! n) as [c|] eqn:En; [by apply (Hm n)|apply msgcache0_ok].
Qed.

Lemma insertKey_other m n n' type type' key key' :
  n' ≠ n → keyExists (snd (insertKey m n type key)) n' type' key' = keyExists m n' type' key'.
Proof.
  intros Hn. unfold insertKey. destruct (insertByPacketType _ _ _) as [b c']. simpl.
  unfold keyExists. by rewrite lookup_insert_ne by done.
Qed.

Lemma broadcast_clear_ok m : broadcast_ok m → broadcast_ok (broadcast_clear m).
Proof. intros Hm. apply map_Forall_fmap. intros i c Hc. simpl. apply msgcache0_ok. Qed.

(** The operations on the filter. *)
Inductive broadcast_step : PBFTBroadcastCache → PBFTBroadcastCache → Prop :=
  | bs_insert m n type key : broadcast_step m (snd (insertKey m n type key))
  | bs_clear m : broadcast_step m (broadcast_clear m).

Lemma broadcast_step_ok m m' : broadcast_step m m' → broadcast_ok m → broadcast_ok m'.
Proof. intros [] Hm; [by apply insertKey_ok|by apply broadcast_clear_ok]. Qed.

(** ** Properties *)

(** In every reachable broadcast filter each queue is a duplicate-free image
    of its set and holds at most 1025 keys, one more than the configured limit;
    a key inserted under a known packet type is found under that type, and other
    peers' entries are untouched. *)
Theorem broadcast_filter m n n' type type' key key' :
  star broadcast_step ∅ m → known_types type →
  broadcast_ok m ∧
  keyExists (snd (insertKey m n type key)) n type key = true ∧
  (n' ≠ n → keyExists (snd (insertKey m n type key)) n' type' key' = keyExists m n' type' key') ∧
  keyExists (broadcast_clear m) n' type' key' = false.
Proof.
  intros Hst Ht. assert (broadcast_ok m) as Hm.
  { eapply (star_invariant broadcast_step broadcast_ok); [intros; by eapply broadcast_step_ok|done|].
    apply map_Forall_empty. }
  split_and!; [done|by apply insertKey_exists|by apply insertKey_other|].
  unfold keyExists, broadcast_clear. rewrite lookup_fmap. destruct (m !! n') as [c|]; simpl; [|done].
  unfold msgcache_exists, qs_exist. simpl. repeat case_decide; done.
Qed.

Lemma broadcast_filter_witness :
  keyExists (snd (insertKey (snd (insertKey ∅ [7] 1 [1])) [8] 2 [2])) [8] 2 [2] = true.
Proof.
  apply (broadcast_filter (snd (insertKey ∅ [7] 1 [1])) [8] [9] 2 0 [2] [3]).
  - apply star_one, bs_insert.
  - unfold known_types; lia.
Defined.
