(* ===== verification/Engine.v ===== *)
(** * The state of a consensus engine

    The data members of [ConsensusEngineBase] (libconsensus/ConsensusEngineBase.h)
    and [PBFTEngine] (libconsensus/pbft/PBFTEngine.h), the interfaces of the
    components an engine talks to, and the monad its operations are written in.

    The engine is written against the abstract classes [P2PInterface],
    [BlockChainInterface], [BlockVerifierInterface], [TxPoolInterface] and
    [SyncInterface]; they are the class [NodeEnv], over an abstract type of
    world states that other threads may change between any two operations.
    Calls that only notify another component are recorded as events. *)

From S2P Require Import Prelude RLP Hex Crypto PBFTMsg Transaction Block PBFTReqCache TimeManager.
From S2P Require Import PBFTMsgCache.

Local Open Scope Z_scope.

(** ** The other components *)

(** [BlockInfo] of libblockverifier/Common.h. *)
Record BlockInfo := MkInfo { bi_hash : bytes; bi_number : Z; bi_stateRoot : bytes }.

Class NodeEnv := {
  W : Type;
  (* libblockchain *)
  bc_number : W → Z;
  bc_getBlockByHash : W → bytes → option Block;       (* None: nullptr *)
  bc_getBlockByNumber : W → Z → option Block;
  bc_numberHash : W → Z → bytes;
  bc_minerList : W → res (list bytes);
  bc_observerList : W → res (list bytes);
  bc_tx_count_limit : W → Z → res Z;                   (* the cast of getSystemConfigByKey *)
  bc_commitBlock : W → Block → ExecPtr → bool * W;     (* true: CommitResult::OK *)
  (* libblockverifier *)
  bv_executeBlock : W → Block → BlockInfo → res (Block * ExecPtr);
  (* libp2p *)
  p2p_sessions : W → list bytes;                       (* node ids of the sessions *)
  p2p_isConnected : W → bytes → bool;
  (* LevelDB, under libdevcore *)
  db_lookup : W → bytes → res bytes;
  db_insert : W → bytes → bytes → res W;
  disk_enough : W → bool;
  (* the clock, in nanoseconds, at each reading *)
  clock : nat → Z;
  (* iteration orders of the hash maps of the request cache *)
  sig_order : gmap bytes PBFTMsg → list (bytes * PBFTMsg);
  view_order : view_cache → list (Z * list (Z * PBFTMsg));
  (* boost: the number a string of decimal digits denotes *)
  arith_of_string : bytes → Z;
}.

(** What the engine relies on. *)
Class NodeEnvLaws `{NodeEnv} := {
  sig_order_perm m : sig_order m ≡ₚ map_to_list m;
  db_insert_lookup w k v w' : db_insert w k v = Ok w' → db_lookup w' k = Ok v;
}.

(** [std::rand()], at each call. *)
Class Random := { rand : nat → Z }.
Class RandomLaws `{Random} := { rand_nonneg n : 0 ≤ rand n }.

Inductive NodeAccountType := ObserverAccount | MinerAccount.

#[global] Instance NodeAccountType_eq_dec : EqDecision NodeAccountType.
Proof. solve_decision. Defined.

Section state.
Context `{NodeEnv}.

(** What the engine tells the other components. *)
Inductive event :=
  | EvSend (node : bytes) (buffer : bytes)             (* asyncSendMessageByNodeID *)
  | EvNodeList (nodes : list bytes)                    (* setNodeListByGroupID *)
  | EvNoteSealing (number : Z)                         (* noteSealingBlockNumber *)
  | EvCommit (b : Block) (ctx : ExecPtr) (ok : bool)   (* commitBlock *)
  | EvDropTrans (b : Block)                            (* dropBlockTrans *)
  | EvBadBlock (b : Block)                             (* handleBadBlock *)
  | EvViewChange.                                      (* m_onViewChange *)

Record Engine := MkEngine {
  m_view : Z;                       (* int64_t *)
  m_toView : Z;                     (* int64_t *)
  m_connectedNode : Z;              (* uint16_t *)
  m_key : bytes;                    (* the secret of m_keyPair *)
  m_cfgErr : bool;
  m_leaderFailed : bool;
  m_omitEmptyBlock : bool;
  m_backupDB : bool;                (* whether the database is open *)
  m_broadCastCache : PBFTBroadcastCache;
  m_reqCache : PBFTReqCache;
  m_timeManager : TimeManager;
  m_msgQueue : list PBFTMsgPacket;
  m_emptyBlockViewChange : bool;
  maxTTL : Z;                       (* uint8_t *)
  m_consensusBlockNumber : Z;       (* int64_t *)
  m_highestBlock : BlockHeader;
  m_nodeNum : Z;                    (* uint16_t *)
  m_f : Z;                          (* uint16_t *)
  m_accountType : NodeAccountType;
  m_idx : Z;                        (* uint16_t *)
  m_minerList : list bytes;
  m_allowFutureBlocks : bool;
  m_startConsensusEngine : bool;
  m_lastNodeList : bytes;
  e_world : W;                      (* the state of the other components *)
  e_tick : nat;                     (* clock readings so far *)
  e_events : list event;            (* calls to the other components, newest first *)
}.

(** Updates of one field. *)
Definition with_view (x : Z) (e : Engine) : Engine :=
  MkEngine x (m_toView e) (m_connectedNode e) (m_key e) (m_cfgErr e) (m_leaderFailed e)
  (m_omitEmptyBlock e) (m_backupDB e) (m_broadCastCache e) (m_reqCache e) (m_timeManager e)
  (m_msgQueue e) (m_emptyBlockViewChange e) (maxTTL e) (m_consensusBlockNumber e)
  (m_highestBlock e) (m_nodeNum e) (m_f e) (m_accountType e) (m_idx e) (m_minerList e)
  (m_allowFutureBlocks e) (m_startConsensusEngine e) (m_lastNodeList e) (e_world e) (e_tick e)
  (e_events e).
Definition with_toView (x : Z) (e : Engine) : Engine :=
  MkEngine (m_view e) x (m_connectedNode e) (m_key e) (m_cfgErr e) (m_leaderFailed e)
  (m_omitEmptyBlock e) (m_backupDB e) (m_broadCastCache e) (m_reqCache e) (m_timeManager e)
  (m_msgQueue e) (m_emptyBlockViewChange e) (maxTTL e) (m_consensusBlockNumber e)
  (m_highestBlock e) (m_nodeNum e) (m_f e) (m_accountType e) (m_idx e) (m_minerList e)
  (m_allowFutureBlocks e) (m_startConsensusEngine e) (m_lastNodeList e) (e_world e) (e_tick e)
  (e_events e).
Definition with_connectedNode (x : Z) (e : Engine) : Engine :=
  MkEngine (m_view e) (m_toView e) x (m_key e) (m_cfgErr e) (m_leaderFailed e)
  (m_omitEmptyBlock e) (m_backupDB e) (m_broadCastCache e) (m_reqCache e) (m_timeManager e)
  (m_msgQueue e) (m_emptyBlockViewChange e) (maxTTL e) (m_consensusBlockNumber e)
  (m_highestBlock e) (m_nodeNum e) (m_f e) (m_accountType e) (m_idx e) (m_minerList e)
  (m_allowFutureBlocks e) (m_startConsensusEngine e) (m_lastNodeList e) (e_world e) (e_tick e)
  (e_events e).
Definition with_cfgErr (x : bool) (e : Engine) : Engine :=
  MkEngine (m_view e) (m_toView e) (m_connectedNode e) (m_key e) x (m_leaderFailed e)
  (m_omitEmptyBlock e) (m_backupDB e) (m_broadCastCache e) (m_reqCache e) (m_timeManager e)
  (m_msgQueue e) (m_emptyBlockViewChange e) (maxTTL e) (m_consensusBlockNumber e)
  (m_highestBlock e) (m_nodeNum e) (m_f e) (m_accountType e) (m_idx e) (m_minerList e)
  (m_allowFutureBlocks e) (m_startConsensusEngine e) (m_lastNodeList e) (e_world e) (e_tick e)
  (e_events e).
Definition with_leaderFailed (x : bool) (e : Engine) : Engine :=
  MkEngine (m_view e) (m_toView e) (m_connectedNode e) (m_key e) (m_cfgErr e) x
  (m_omitEmptyBlock e) (m_backupDB e) (m_broadCastCache e) (m_reqCache e) (m_timeManager e)
  (m_msgQueue e) (m_emptyBlockViewChange e) (maxTTL e) (m_consensusBlockNumber e)
  (m_highestBlock e) (m_nodeNum e) (m_f e) (m_accountType e) (m_idx e) (m_minerList e)
  (m_allowFutureBlocks e) (m_startConsensusEngine e) (m_lastNodeList e) (e_world e) (e_tick e)
  (e_events e).
Definition with_backupDB (x : bool) (e : Engine) : Engine :=
  MkEngine (m_view e) (m_toView e) (m_connectedNode e) (m_key e) (m_cfgErr e)
  (m_leaderFailed e) (m_omitEmptyBlock e) x (m_broadCastCache e) (m_reqCache e)
  (m_timeManager e) (m_msgQueue e) (m_emptyBlockViewChange e) (maxTTL e)
  (m_consensusBlockNumber e) (m_highestBlock e) (m_nodeNum e) (m_f e) (m_accountType e)
  (m_idx e) (m_minerList e) (m_allowFutureBlocks e) (m_startConsensusEngine e)
  (m_lastNodeList e) (e_world e) (e_tick e) (e_events e).
Definition with_broadCastCache (x : PBFTBroadcastCache) (e : Engine) : Engine :=
  MkEngine (m_view e) (m_toView e) (m_connectedNode e) (m_key e) (m_cfgErr e)
  (m_leaderFailed e) (m_omitEmptyBlock e) (m_backupDB e) x (m_reqCache e) (m_timeManager e)
  (m_msgQueue e) (m_emptyBlockViewChange e) (maxTTL e) (m_consensusBlockNumber e)
  (m_highestBlock e) (m_nodeNum e) (m_f e) (m_accountType e) (m_idx e) (m_minerList e)
  (m_allowFutureBlocks e) (m_startConsensusEngine e) (m_lastNodeList e) (e_world e) (e_tick e)
  (e_events e).
Definition with_reqCache (x : PBFTReqCache) (e : Engine) : Engine :=
  MkEngine (m_view e) (m_toView e) (m_connectedNode e) (m_key e) (m_cfgErr e)
  (m_leaderFailed e) (m_omitEmptyBlock e) (m_backupDB e) (m_broadCastCache e) x
  (m_timeManager e) (m_msgQueue e) (m_emptyBlockViewChange e) (maxTTL e)
  (m_consensusBlockNumber e) (m_highestBlock e) (m_nodeNum e) (m_f e) (m_accountType e)
  (m_idx e) (m_minerList e) (m_allowFutureBlocks e) (m_startConsensusEngine e)
  (m_lastNodeList e) (e_world e) (e_tick e) (e_events e).
Definition with_timeManager (x : TimeManager) (e : Engine) : Engine :=
  MkEngine (m_view e) (m_toView e) (m_connectedNode e) (m_key e) (m_cfgErr e)
  (m_leaderFailed e) (m_omitEmptyBlock e) (m_backupDB e) (m_broadCastCache e) (m_reqCache e) x
  (m_msgQueue e) (m_emptyBlockViewChange e) (maxTTL e) (m_consensusBlockNumber e)
  (m_highestBlock e) (m_nodeNum e) (m_f e) (m_accountType e) (m_idx e) (m_minerList e)
  (m_allowFutureBlocks e) (m_startConsensusEngine e) (m_lastNodeList e) (e_world e) (e_tick e)
  (e_events e).
Definition with_msgQueue (x : list PBFTMsgPacket) (e : Engine) : Engine :=
  MkEngine (m_view e) (m_toView e) (m_connectedNode e) (m_key e) (m_cfgErr e)
  (m_leaderFailed e) (m_omitEmptyBlock e) (m_backupDB e) (m_broadCastCache e) (m_reqCache e)
  (m_timeManager e) x (m_emptyBlockViewChange e) (maxTTL e) (m_consensusBlockNumber e)
  (m_highestBlock e) (m_nodeNum e) (m_f e) (m_accountType e) (m_idx e) (m_minerList e)
  (m_allowFutureBlocks e) (m_startConsensusEngine e) (m_lastNodeList e) (e_world e) (e_tick e)
  (e_events e).
Definition with_emptyBlockViewChange (x : bool) (e : Engine) : Engine :=
  MkEngine (m_view e) (m_toView e) (m_connectedNode e) (m_key e) (m_cfgErr e)
  (m_leaderFailed e) (m_omitEmptyBlock e) (m_backupDB e) (m_broadCastCache e) (m_reqCache e)
  (m_timeManager e) (m_msgQueue e) x (maxTTL e) (m_consensusBlockNumber e) (m_highestBlock e)
  (m_nodeNum e) (m_f e) (m_accountType e) (m_idx e) (m_minerList e) (m_allowFutureBlocks e)
  (m_startConsensusEngine e) (m_lastNodeList e) (e_world e) (e_tick e) (e_events e).
Definition with_consensusBlockNumber (x : Z) (e : Engine) : Engine :=
  MkEngine (m_view e) (m_toView e) (m_connectedNode e) (m_key e) (m_cfgErr e)
  (m_leaderFailed e) (m_omitEmptyBlock e) (m_backupDB e) (m_broadCastCache e) (m_reqCache e)
  (m_timeManager e) (m_msgQueue e) (m_emptyBlockViewChange e) (maxTTL e) x (m_highestBlock e)
  (m_nodeNum e) (m_f e) (m_accountType e) (m_idx e) (m_minerList e) (m_allowFutureBlocks e)
  (m_startConsensusEngine e) (m_lastNodeList e) (e_world e) (e_tick e) (e_events e).
Definition with_highestBlock (x : BlockHeader) (e : Engine) : Engine :=
  MkEngine (m_view e) (m_toView e) (m_connectedNode e) (m_key e) (m_cfgErr e)
  (m_leaderFailed e) (m_omitEmptyBlock e) (m_backupDB e) (m_broadCastCache e) (m_reqCache e)
  (m_timeManager e) (m_msgQueue e) (m_emptyBlockViewChange e) (maxTTL e)
  (m_consensusBlockNumber e) x (m_nodeNum e) (m_f e) (m_accountType e) (m_idx e)
  (m_minerList e) (m_allowFutureBlocks e) (m_startConsensusEngine e) (m_lastNodeList e)
  (e_world e) (e_tick e) (e_events e).
Definition with_nodeNum (x : Z) (e : Engine) : Engine :=
  MkEngine (m_view e) (m_toView e) (m_connectedNode e) (m_key e) (m_cfgErr e)
  (m_leaderFailed e) (m_omitEmptyBlock e) (m_backupDB e) (m_broadCastCache e) (m_reqCache e)
  (m_timeManager e) (m_msgQueue e) (m_emptyBlockViewChange e) (maxTTL e)
  (m_consensusBlockNumber e) (m_highestBlock e) x (m_f e) (m_accountType e) (m_idx e)
  (m_minerList e) (m_allowFutureBlocks e) (m_startConsensusEngine e) (m_lastNodeList e)
  (e_world e) (e_tick e) (e_events e).
Definition with_f (x : Z) (e : Engine) : Engine :=
  MkEngine (m_view e) (m_toView e) (m_connectedNode e) (m_key e) (m_cfgErr e)
  (m_leaderFailed e) (m_omitEmptyBlock e) (m_backupDB e) (m_broadCastCache e) (m_reqCache e)
  (m_timeManager e) (m_msgQueue e) (m_emptyBlockViewChange e) (maxTTL e)
  (m_consensusBlockNumber e) (m_highestBlock e) (m_nodeNum e) x (m_accountType e) (m_idx e)
  (m_minerList e) (m_allowFutureBlocks e) (m_startConsensusEngine e) (m_lastNodeList e)
  (e_world e) (e_tick e) (e_events e).
Definition with_accountType (x : NodeAccountType) (e : Engine) : Engine :=
  MkEngine (m_view e) (m_toView e) (m_connectedNode e) (m_key e) (m_cfgErr e)
  (m_leaderFailed e) (m_omitEmptyBlock e) (m_backupDB e) (m_broadCastCache e) (m_reqCache e)
  (m_timeManager e) (m_msgQueue e) (m_emptyBlockViewChange e) (maxTTL e)
  (m_consensusBlockNumber e) (m_highestBlock e) (m_nodeNum e) (m_f e) x (m_idx e)
  (m_minerList e) (m_allowFutureBlocks e) (m_startConsensusEngine e) (m_lastNodeList e)
  (e_world e) (e_tick e) (e_events e).
Definition with_idx (x : Z) (e : Engine) : Engine :=
  MkEngine (m_view e) (m_toView e) (m_connectedNode e) (m_key e) (m_cfgErr e)
  (m_leaderFailed e) (m_omitEmptyBlock e) (m_backupDB e) (m_broadCastCache e) (m_reqCache e)
  (m_timeManager e) (m_msgQueue e) (m_emptyBlockViewChange e) (maxTTL e)
  (m_consensusBlockNumber e) (m_highestBlock e) (m_nodeNum e) (m_f e) (m_accountType e) x
  (m_minerList e) (m_allowFutureBlocks e) (m_startConsensusEngine e) (m_lastNodeList e)
  (e_world e) (e_tick e) (e_events e).
Definition with_minerList (x : list bytes) (e : Engine) : Engine :=
  MkEngine (m_view e) (m_toView e) (m_connectedNode e) (m_key e) (m_cfgErr e)
  (m_leaderFailed e) (m_omitEmptyBlock e) (m_backupDB e) (m_broadCastCache e) (m_reqCache e)
  (m_timeManager e) (m_msgQueue e) (m_emptyBlockViewChange e) (maxTTL e)
  (m_consensusBlockNumber e) (m_highestBlock e) (m_nodeNum e) (m_f e) (m_accountType e)
  (m_idx e) x (m_allowFutureBlocks e) (m_startConsensusEngine e) (m_lastNodeList e) (e_world e)
  (e_tick e) (e_events e).
Definition with_startConsensusEngine (x : bool) (e : Engine) : Engine :=
  MkEngine (m_view e) (m_toView e) (m_connectedNode e) (m_key e) (m_cfgErr e)
  (m_leaderFailed e) (m_omitEmptyBlock e) (m_backupDB e) (m_broadCastCache e) (m_reqCache e)
  (m_timeManager e) (m_msgQueue e) (m_emptyBlockViewChange e) (maxTTL e)
  (m_consensusBlockNumber e) (m_highestBlock e) (m_nodeNum e) (m_f e) (m_accountType e)
  (m_idx e) (m_minerList e) (m_allowFutureBlocks e) x (m_lastNodeList e) (e_world e) (e_tick e)
  (e_events e).
Definition with_lastNodeList (x : bytes) (e : Engine) : Engine :=
  MkEngine (m_view e) (m_toView e) (m_connectedNode e) (m_key e) (m_cfgErr e)
  (m_leaderFailed e) (m_omitEmptyBlock e) (m_backupDB e) (m_broadCastCache e) (m_reqCache e)
  (m_timeManager e) (m_msgQueue e) (m_emptyBlockViewChange e) (maxTTL e)
  (m_consensusBlockNumber e) (m_highestBlock e) (m_nodeNum e) (m_f e) (m_accountType e)
  (m_idx e) (m_minerList e) (m_allowFutureBlocks e) (m_startConsensusEngine e) x (e_world e)
  (e_tick e) (e_events e).
Definition with_world (x : W) (e : Engine) : Engine :=
  MkEngine (m_view e) (m_toView e) (m_connectedNode e) (m_key e) (m_cfgErr e)
  (m_leaderFailed e) (m_omitEmptyBlock e) (m_backupDB e) (m_broadCastCache e) (m_reqCache e)
  (m_timeManager e) (m_msgQueue e) (m_emptyBlockViewChange e) (maxTTL e)
  (m_consensusBlockNumber e) (m_highestBlock e) (m_nodeNum e) (m_f e) (m_accountType e)
  (m_idx e) (m_minerList e) (m_allowFutureBlocks e) (m_startConsensusEngine e)
  (m_lastNodeList e) x (e_tick e) (e_events e).
Definition with_tick (x : nat) (e : Engine) : Engine :=
  MkEngine (m_view e) (m_toView e) (m_connectedNode e) (m_key e) (m_cfgErr e)
  (m_leaderFailed e) (m_omitEmptyBlock e) (m_backupDB e) (m_broadCastCache e) (m_reqCache e)
  (m_timeManager e) (m_msgQueue e) (m_emptyBlockViewChange e) (maxTTL e)
  (m_consensusBlockNumber e) (m_highestBlock e) (m_nodeNum e) (m_f e) (m_accountType e)
  (m_idx e) (m_minerList e) (m_allowFutureBlocks e) (m_startConsensusEngine e)
  (m_lastNodeList e) (e_world e) x (e_events e).
Definition with_events (x : list event) (e : Engine) : Engine :=
  MkEngine (m_view e) (m_toView e) (m_connectedNode e) (m_key e) (m_cfgErr e)
  (m_leaderFailed e) (m_omitEmptyBlock e) (m_backupDB e) (m_broadCastCache e) (m_reqCache e)
  (m_timeManager e) (m_msgQueue e) (m_emptyBlockViewChange e) (maxTTL e)
  (m_consensusBlockNumber e) (m_highestBlock e) (m_nodeNum e) (m_f e) (m_accountType e)
  (m_idx e) (m_minerList e) (m_allowFutureBlocks e) (m_startConsensusEngine e)
  (m_lastNodeList e) (e_world e) (e_tick e) x.

(** ** The engine monad

    An operation runs on the engine's state and returns or throws; the state
    changes made before a throw stay. *)

Definition M (A : Type) : Type := Engine → res A * Engine.

#[global] Instance M_ret : MRet M := λ A a e, (Ok a, e).
#[global] Instance M_bind : MBind M := λ A B f m e,
  match m e with
  | (Ok a, e') => f a e'
  | (Throw x, e') => (Throw x, e')
  end.

Definition get {A} (f : Engine → A) : M A := λ e, (Ok (f e), e).
Definition modify (f : Engine → Engine) : M () := λ e, (Ok (), f e).
Definition lift {A} (r : res A) : M A := λ e, (r, e).
(** A [const] member function that may throw. *)
Definition query {A} (f : Engine → res A) : M A := λ e, (f e, e).
Definition when (b : bool) (m : M ()) : M () := if b then m else mret ().

(** [catch (std::exception&)] does not see a failed assertion, undefined
    behaviour or non-termination. *)
Definition catchable (x : exn) : bool :=
  match x with AssertFail | UB | OutOfFuel => false | _ => true end.

Definition try_catch {A} (m : M A) (h : M A) : M A := λ e,
  match m e with
  | (Throw x, e') => if catchable x then h e' else (Throw x, e')
  | r => r
  end.

(** Signed 64-bit addition; overflow is undefined. *)
Definition add_i64 (a b : Z) : res Z :=
  if decide (- 2 ^ 63 ≤ a + b < 2 ^ 63) then Ok (a + b) else Throw UB.

(** Loops over a list. *)
Fixpoint for_each {A} (l : list A) (f : A → M ()) : M () :=
  match l with
  | [] => mret ()
  | a :: l => f a;; for_each l f
  end.

(** ** Effects *)

Definition emit (ev : event) : M () := modify (λ e, with_events (ev :: e_events e) e).

(** [system_clock::now()] and [utcTime()]. *)
Definition now_ns : M Z := λ e, (Ok (clock (e_tick e)), with_tick (S (e_tick e)) e).
Definition utcTime : M Z := t ← now_ns; mret (u64 (t / 1000000)).

Definition upd_cache (f : PBFTReqCache → PBFTReqCache) : M () :=
  modify (λ e, with_reqCache (f (m_reqCache e)) e).
Definition upd_time (f : TimeManager → TimeManager) : M () :=
  modify (λ e, with_timeManager (f (m_timeManager e)) e).
End state.

(** The state an engine is constructed in. *)
Definition Engine0 `{NodeEnv} (key : bytes) (miners : list bytes) (w : W) : Engine :=
  MkEngine 0 0 0 key false false true false ∅ PBFTReqCache0 TimeManager0 [] false MAXTTL 0
    BlockHeader0 0 0 ObserverAccount 0 miners true false [] w 0%nat [].
