(* ===== verification/PBFTEngine.v ===== *)
(** * The PBFT engine

    Models [ConsensusEngineBase] (libconsensus/ConsensusEngineBase.h, .cpp) and
    [PBFTEngine] (libconsensus/pbft/PBFTEngine.h, .cpp): start-up, the message
    handlers, the commit and view-change logic and the work loop. Each public
    or mutex-guarded member function is an operation of the engine monad.
    Logging and the JSON status report are not modelled; [notify_all] only
    wakes the worker thread and has no counterpart. *)

From stdpp Require Import sorting.
From S2P Require Import Prelude RLP Hex Crypto PBFTMsg Transaction TrieHash Block PBFTReqCache.
From S2P Require Import TimeManager PBFTMsgCache Engine.

Local Open Scope Z_scope.

(** The character codes of a literal. *)
Definition str (s : string) : bytes := (λ c, Z.of_N (Ascii.N_of_ascii c)) <$> String.list_ascii_of_string s.

(** [std::sort] on [h512]s. *)
Definition bytes_le (a b : bytes) : Prop := bytes_lt b a = false.
#[global] Instance bytes_le_dec a b : Decision (bytes_le a b) := bool_eq_dec (bytes_lt b a) false.

Definition h512_0 : bytes := zero_hash h512_size.

(** ** Keys in hexadecimal *)

(** [toJS(std::string const&)]: the generic [toJS] streams the string. *)
Definition toJS_string (s : bytes) : bytes := hex_prefix ++ s.

(** [jsToFixed<N>]: a hexadecimal string, a decimal string, or failure. *)
Definition jsToFixed `{NodeEnv} (n : Z) (s : bytes) : res bytes :=
  if decide (take 2 s = hex_prefix) then
    b ← fromHex (drop (Z.to_nat (2 + Z.max (n * 2) (u32 (len s - 2)) - n * 2)) s) ThrowErr;
    Ok (FixedHash_of n b)
  else if forallb (λ c, bool_decide (48 ≤ c ≤ 57)) s then
    Ok (toBigEndian (Z.to_nat n) (arith_of_string s))
  else Ok (zero_hash n).

Definition jsToPublic `{NodeEnv} (s : bytes) : res bytes := jsToFixed h512_size s.

(** ** Decoding into an existing request

    [populate] assigns the fields one by one, so a request that fails to decode
    keeps the fields read before the failure; [handleMsg] looks at them. *)

Section fill.
Variable rlp : bytes.

Definition fill {A} (m : PBFTMsg) (c : rlp_cache) (i : Z) (rd : bytes → res A)
    (upd : A → PBFTMsg) (k : PBFTMsg → rlp_cache → PBFTMsg * res rlp_cache) :
    PBFTMsg * res rlp_cache :=
  match '(f, c) ← rlp_index rlp c i; a ← rd f; Ok (a, c) with
  | Ok (a, c) => k (upd a) c
  | Throw x => (m, Throw x)
  end.

Definition msg_fill (m : PBFTMsg) : PBFTMsg * res rlp_cache :=
  fill m rlp_cache0 0 (λ f, toInt_i64 f Strict)
    (λ x, MkMsg x (view m) (idx m) (timestamp m) (block_hash m) (sig m) (sig2 m)) (λ m c,
  fill m c 1 (λ f, toInt_i64 f Strict)
    (λ x, MkMsg (height m) x (idx m) (timestamp m) (block_hash m) (sig m) (sig2 m)) (λ m c,
  fill m c 2 (λ f, toInt_u16 f Strict)
    (λ x, MkMsg (height m) (view m) x (timestamp m) (block_hash m) (sig m) (sig2 m)) (λ m c,
  fill m c 3 (λ f, toInt_u256 f Strict)
    (λ x, MkMsg (height m) (view m) (idx m) x (block_hash m) (sig m) (sig2 m)) (λ m c,
  fill m c 4 (λ f, toHash h256_size f VeryStrict)
    (λ x, MkMsg (height m) (view m) (idx m) (timestamp m) x (sig m) (sig2 m)) (λ m c,
  fill m c 5 (λ f, toBytesConstRef f LaissezFaire)
    (λ x, MkMsg (height m) (view m) (idx m) (timestamp m) (block_hash m) (FixedHash_of sig_size x) (sig2 m))
    (λ m c,
  fill m c 6 (λ f, toBytesConstRef f LaissezFaire)
    (λ x, MkMsg (height m) (view m) (idx m) (timestamp m) (block_hash m) (sig m) (FixedHash_of sig_size x))
    (λ m c, (m, Ok c)))))))).

Definition prepare_fill (r : PrepareReq) : PrepareReq * res () :=
  match msg_fill (pr_msg r) with
  | (m, Throw x) => (MkPrepare m (pr_block r) (p_execContext r), Throw x)
  | (m, Ok c) =>
      match '(f7, _) ← rlp_index rlp c 7; toBytes f7 LaissezFaire with
      | Ok b => (MkPrepare m b (p_execContext r), Ok ())
      | Throw x => (MkPrepare m (pr_block r) (p_execContext r), Throw x)
      end
  end.
End fill.

(** [decode] into [r]. *)
Definition prepare_decode_into (r : PrepareReq) (d : bytes) (index : Z) : PrepareReq * res () :=
  match rlp ← RLP_new d VeryStrict; '(x, _) ← rlp_index rlp rlp_cache0 index; Ok x with
  | Ok x => prepare_fill x r
  | Throw x => (r, Throw x)
  end.
Definition msg_decode_into (m : PBFTMsg) (d : bytes) (index : Z) : PBFTMsg * res () :=
  match rlp ← RLP_new d VeryStrict; '(x, _) ← rlp_index rlp rlp_cache0 index; Ok x with
  | Ok x => let '(m, r) := msg_fill x m in (m, (λ _, ()) <$> r)
  | Throw x => (m, Throw x)
  end.

Section engine.
Context `{Crypto, NodeEnv}.

(** [decodeToRequests(req, data)]: the request as far as it was decoded, and
    whether decoding succeeded. *)
Definition decodeToRequests {R} (d : R * res ()) : M (R * bool) :=
  match snd d with
  | Ok _ => mret (fst d, true)
  | Throw x => if catchable x then mret (fst d, false) else lift (Throw x)
  end.

(** ** The miner list *)

Definition abridged (h : bytes) : bytes := toHex (take 4 h) ++ str "...".
Definition node_list_string (miners observers : list bytes) : bytes :=
  str "[#updateConsensusNodeList] Miners:" ++ concat ((λ n, abridged n ++ str ",") <$> miners) ++
  str "Observers:" ++ concat ((λ n, abridged n ++ str ",") <$> observers).

Definition updateNodeListInP2P : M () :=
  w ← get e_world;
  miners ← lift (bc_minerList w);
  observers ← lift (bc_observerList w);
  emit (EvNodeList (miners ++ observers)).

Definition updateConsensusNodeList : M () :=
  try_catch
    (w ← get e_world;
     miners ← lift (bc_minerList w);
     modify (with_minerList (merge_sort bytes_le miners));;
     observers ← lift (bc_observerList w);
     let s := node_list_string (merge_sort bytes_le miners) observers in
     last ← get m_lastNodeList;
     when (bool_decide (last ≠ s)) (updateNodeListInP2P;; modify (with_lastNodeList s)))
    (mret ()).

(** [getIndexByMiner]: [None] for -1. *)
Definition getIndexByMiner (miners : list bytes) (nodeId : bytes) : option nat :=
  fst <$> list_find (λ m, m = nodeId) miners.

Definition getMinerByIndex (miners : list bytes) (index : Z) : bytes :=
  if decide (0 ≤ index < Z.of_nat (length miners)) then nth (Z.to_nat index) miners h512_0 else h512_0.

Definition getNodeIDByIndex (miners : list bytes) (i : Z) : option bytes :=
  let n := getMinerByIndex miners i in
  if decide (n = h512_0) then None else Some n.

Definition minValidNodes (e : Engine) : Z := u16 (m_nodeNum e - m_f e).

(** [resetConfig]. *)
Definition resetConfig : M () :=
  modify (with_idx MAXIDX);;
  updateConsensusNodeList;;
  modify (λ e, match getIndexByMiner (m_minerList e) (pub_of (m_key e)) with
               | Some i => with_idx (u16 (Z.of_nat i)) (with_accountType MinerAccount e)
               | None => e
               end);;
  modify (λ e, with_nodeNum (u16 (Z.of_nat (length (m_minerList e)))) e);;
  modify (λ e, with_f (u16 ((m_nodeNum e - 1) `quot` 3)) e);;
  modify (λ e, with_cfgErr (bool_decide (m_idx e = MAXIDX)) e).

(** [appendMiner]. *)
Definition appendMiner (miner : bytes) : M () :=
  modify (λ e, with_minerList (m_minerList e ++ [miner]) e);; resetConfig.

(** ** Start-up and the backup database *)

Definition c_backupKeyCommitted : bytes := str "committed".

Definition reloadMsg (key : bytes) : M () :=
  db ← get m_backupDB;
  when db (try_catch
    (w ← get e_world;
     s ← lift (db_lookup w key);
     d ← lift (fromHex s DontThrow);
     if decide (d = []) then mret ()
     else
       e ← get m_reqCache;
       let '(r, x) := prepare_decode_into (m_committedPrepareCache e) d 0 in
       upd_cache (λ c, set_committed c r);; lift x)
    (mret ())).

Definition backupMsg (key : bytes) (r : PrepareReq) : M () :=
  db ← get m_backupDB;
  when db
    (d ← lift (prepare_encode r);
     try_catch
       (w ← get e_world;
        w' ← lift (db_insert w key (toHex d));
        modify (with_world w'))
       (mret ())).

Definition initBackupDB : M () :=
  modify (with_backupDB true);;
  w ← get e_world;
  lift (throw_if (disk_enough w = false) OtherException);;
  reloadMsg c_backupKeyCommitted.

Definition initPBFTEnv (view_timeout : Z) : M () :=
  resetConfig;;
  modify (with_consensusBlockNumber 0);;
  modify (with_toView 0);;
  modify (with_view 0);;
  modify (with_leaderFailed false);;
  initBackupDB;;
  now ← utcTime;
  ns ← now_ns;
  upd_time (λ t, initTimerManager t view_timeout now ns);;
  modify (λ e, with_connectedNode (m_nodeNum e) e).

(** [start]; the worker thread is the step relation's business. *)
Definition start : M () :=
  t ← get m_timeManager;
  initPBFTEnv (u32 (3 * m_intervalBlockTime t));;
  modify (with_startConsensusEngine true).

(** ** Sending *)

Definition broadcastFilter (e : Engine) (nodeId : bytes) (type : Z) (key : bytes) : bool :=
  keyExists (m_broadCastCache e) nodeId type key.

Definition broadcastMark (nodeId : bytes) (type : Z) (key : bytes) : M () :=
  modify (λ e, if keyExists (m_broadCastCache e) nodeId type key then e
               else with_broadCastCache (snd (insertKey (m_broadCastCache e) nodeId type key)) e).

(** [transDataToMessage]: the buffer of the message. *)
Definition transDataToMessage (e : Engine) (d : bytes) (type t : Z) : res bytes :=
  packet_encode (MkPacket 0 h512_0 (u8 type) (if decide (t = 0) then maxTTL e else u8 t) d 0 []).

Definition sendMsg (nodeId : bytes) (type : Z) (key d : bytes) (t : Z) : M bool :=
  e ← get id;
  if decide (getIndexByMiner (m_minerList e) nodeId = None) then mret true
  else if broadcastFilter e nodeId type key then mret true
  else if decide (nodeId ∈ p2p_sessions (e_world e)) then
    msg ← query (λ e, transDataToMessage e d type t);
    emit (EvSend nodeId msg);;
    broadcastMark nodeId type key;;
    mret true
  else mret false.

(** One session of the loop of [broadcastMsg]. *)
Definition broadcastTo (type : Z) (key d : bytes) (flt : list bytes) (t : Z) (nodeId : bytes) : M () :=
  e ← get id;
  if decide (getIndexByMiner (m_minerList e) nodeId = None) then mret ()
  else if decide (nodeId ∈ flt) then broadcastMark nodeId type key
  else if broadcastFilter e nodeId type key then mret ()
  else
    msg ← query (λ e, transDataToMessage e d type t);
    emit (EvSend nodeId msg);;
    broadcastMark nodeId type key.

Definition broadcastMsg (type : Z) (key d : bytes) (flt : list bytes) (t : Z) : M bool :=
  w ← get e_world;
  let sessions := p2p_sessions w in
  modify (with_connectedNode (u16 (Z.of_nat (length sessions))));;
  for_each sessions (broadcastTo type key d flt t);;
  mret true.

(** ** Requests of this node *)

Definition broadcastSignReq (r : PrepareReq) : M bool :=
  e ← get id;
  now ← utcTime;
  s ← lift (SignReq_new r (m_key e) (m_idx e) now);
  d ← lift (msg_encode s);
  succ ← broadcastMsg SignReqPacket (uniqueKey s) d [] 0;
  when succ (upd_cache (λ c, addSignReq c s));;
  mret succ.

Definition broadcastCommitReq (r : PrepareReq) : M bool :=
  e ← get id;
  now ← utcTime;
  s ← lift (CommitReq_new r (m_key e) (m_idx e) now);
  d ← lift (msg_encode s);
  succ ← broadcastMsg CommitReqPacket (uniqueKey s) d [] 0;
  when succ (upd_cache (λ c, addCommitReq c s));;
  mret succ.

(** [m_highestBlock.hash()], which memoises. *)
Definition highest_hash : M bytes :=
  e ← get id;
  '(h, hd) ← lift (header_hash (m_highestBlock e));
  modify (with_highestBlock hd);;
  mret h.

(** The view-change request both senders build. *)
Definition own_viewChange : M PBFTMsg :=
  h ← highest_hash;
  e ← get id;
  now ← utcTime;
  lift (ViewChangeReq_new (m_key e) (m_number (m_highestBlock e)) (m_toView e) (m_idx e) h now).

Definition sendViewChangeMsg (nodeId : bytes) : M () :=
  r ← own_viewChange;
  d ← lift (msg_encode r);
  sendMsg nodeId ViewChangeReqPacket (uniqueKey r) d 1;;
  mret ().

Definition broadcastViewChangeReq : M bool :=
  r ← own_viewChange;
  modify (with_emptyBlockViewChange false);;
  d ← lift (msg_encode r);
  broadcastMsg ViewChangeReqPacket (uniqueKey r) d [] 0.

(** ** Checking requests *)

Definition checkSign (e : Engine) (m : PBFTMsg) : res bool :=
  match getNodeIDByIndex (m_minerList e) (idx m) with
  | None => Ok false
  | Some node =>
      pub ← jsToPublic (toJS_string (toHex node));
      if verify pub (sig m) (block_hash m) then
        f ← fieldsWithoutBlock (height m) (view m) (idx m) (timestamp m);
        Ok (verify pub (sig2 m) f)
      else Ok false
  end.

Definition hasConsensused (e : Engine) (m : PBFTMsg) : bool :=
  bool_decide (height m < m_consensusBlockNumber e ∨ view m < m_view e).

Definition isFutureBlock (e : Engine) (m : PBFTMsg) : bool :=
  bool_decide (m_consensusBlockNumber e < height m ∨
               (height m = m_consensusBlockNumber e ∧ m_view e < view m)).

Definition isHashSavedAfterCommit (e : Engine) (r : PrepareReq) : bool :=
  let c := m_committedPrepareCache (m_reqCache e) in
  negb (bool_decide (pr_height r = pr_height c ∧ pr_hash r ≠ pr_hash c)).

(** [getLeader]: [None] when there is none. *)
Definition getLeader (e : Engine) : res (option Z) :=
  if m_cfgErr e || m_leaderFailed e || bool_decide (m_sealer (m_highestBlock e) = Invalid256) then Ok None
  else
    s ← add_i64 (m_view e) (m_number (m_highestBlock e));
    throw_if (m_nodeNum e = 0) UB;;
    Ok (Some (u16 (s `rem` m_nodeNum e))).

Definition isValidLeader (e : Engine) (r : PrepareReq) : res bool :=
  leader ← getLeader e;
  Ok (bool_decide (leader = Some (idx (pr_msg r)))).

Definition isValidPrepare (r : PrepareReq) : M bool :=
  e ← get id;
  if isExistPrepare (m_reqCache e) r then mret false
  else if hasConsensused e (pr_msg r) then mret false
  else if isFutureBlock e (pr_msg r) then upd_cache (λ c, addFuturePrepareCache c r);; mret false
  else
    leader ← query (λ e, isValidLeader e r);
    if negb leader then mret false
    else if negb (isHashSavedAfterCommit e r) then mret false
    else query (λ e, checkSign e (pr_msg r)).

Inductive CheckResult := VALID | INVALID | FUTURE.

Definition checkReq (e : Engine) (m : PBFTMsg) : res CheckResult :=
  let p := m_prepareCache (m_reqCache e) in
  if decide (pr_hash p ≠ block_hash m) then
    if isFutureBlock e m then
      ok ← checkSign e m;
      Ok (if ok : bool then FUTURE else INVALID)
    else Ok INVALID
  else if decide (idx m = m_idx e) then Ok INVALID
  else if decide (pr_view p ≠ view m) then Ok INVALID
  else
    ok ← checkSign e m;
    Ok (if ok : bool then VALID else INVALID).

Definition isValidSignReq (m : PBFTMsg) : M bool :=
  e ← get id;
  if isExistSign (m_reqCache e) m then mret false
  else
    r ← query (λ e, checkReq e m);
    match r with
    | FUTURE => upd_cache (λ c, addSignReq c m);; mret false
    | INVALID => mret false
    | VALID => mret true
    end.

Definition isValidCommitReq (m : PBFTMsg) : M bool :=
  e ← get id;
  if isExistCommit (m_reqCache e) m then mret false
  else
    r ← query (λ e, checkReq e m);
    match r with
    | FUTURE => upd_cache (λ c, addCommitReq c m);; mret false
    | INVALID => mret false
    | VALID => mret true
    end.

Definition catchupView (m : PBFTMsg) : M () :=
  e ← get id;
  v ← lift (add_i64 (view m) 1);
  when (bool_decide (v < m_toView e))
    match getNodeIDByIndex (m_minerList e) (idx m) with
    | Some node => sendViewChangeMsg node
    | None => mret ()
    end.

Definition isValidViewChangeReq (m : PBFTMsg) (source : Z) : M bool :=
  e ← get id;
  if isExistViewChange (m_reqCache e) m then mret false
  else if decide (idx m = m_idx e) then mret false
  else
    v ← lift (add_i64 (view m) 1);
    when (bool_decide (v < m_toView e ∧ idx m = source)) (catchupView m);;
    e ← get id;
    if decide (height m < m_number (m_highestBlock e) ∨ view m ≤ m_view e) then mret false
    else
      h ← (if decide (height m = m_number (m_highestBlock e)) then highest_hash
           else mret (block_hash m));
      e ← get id;
      if decide (block_hash m ≠ h ∨ bc_getBlockByHash (e_world e) (block_hash m) = None) then mret false
      else query (λ e, checkSign e m).

(** ** Checking blocks *)

(** [blockHeader().hash()] of a block that keeps the memo. *)
Definition block_hash_of (b : Block) : res (bytes * Block) :=
  '(h, hd) ← header_hash (m_blockHeader b);
  Ok (h, block_set_header b hd).

(** [ConsensusEngineBase::checkBlockValid]; the last check only logs. *)
Definition checkBlockValid_base (b : Block) : M Block :=
  '(h, b) ← lift (block_hash_of b);
  now ← utcTime;
  e ← get id;
  let hd := m_blockHeader b in
  lift (throw_if (now < m_timestamp hd ∧ m_allowFutureBlocks e = false) DisabledFutureTime);;
  lift (throw_if (m_number hd ≤ bc_number (e_world e)) InvalidBlockHeight);;
  lift (throw_if (bc_getBlockByHash (e_world e) h ≠ None) ExistedBlock);;
  lift (throw_if (bc_getBlockByHash (e_world e) (m_parentHash hd) = None) ParentNoneExist);;
  mret b.

Definition checkMinerList (e : Engine) (b : Block) : res () :=
  throw_if (m_minerList e ≠ m_sealerList (m_blockHeader b)) BlockMinerListWrong.

Definition checkBlockValid (b : Block) : M Block :=
  b ← checkBlockValid_base b;
  query (λ e, checkMinerList e b);;
  mret b.

(** The signature loop of [checkBlock]. *)
Fixpoint check_sigs (miners : list bytes) (hash : bytes) (l : list (Z * bytes)) : bool :=
  match l with
  | [] => true
  | (i, s) :: l =>
      if decide (Z.of_nat (length miners) ≤ i) then false
      else if negb (verify (nth (Z.to_nat i) miners h512_0) s hash) then false
      else check_sigs miners hash l
  end.

Definition checkBlock (e : Engine) (b : Block) : res bool :=
  let hd := m_blockHeader b in
  if decide (m_minerList e ≠ m_sealerList hd) then Ok false
  else if decide (getMinerByIndex (m_minerList e) (u64 (m_sealer hd)) = h512_0) then Ok false
  else if decide (Z.of_nat (length (m_sigList b)) < minValidNodes e) then Ok false
  else
    '(h, _) ← header_hash hd;
    if negb (check_sigs (m_minerList e) h (m_sigList b)) then Ok false
    else
      limit ← bc_tx_count_limit (e_world e) (m_number hd);
      Ok (negb (bool_decide (limit < Z.of_nat (length (m_transactions b))))).

(** ** Executing a block *)

(** [Sealing] without the transaction set, which the engine does not use. *)
Record Sealing := MkSealing { sl_block : Block; sl_execContext : ExecPtr }.

(** [ConsensusEngineBase::executeBlock]. *)
Definition executeBlock (b : Block) : M (Block * ExecPtr) :=
  e ← get id;
  match bc_getBlockByNumber (e_world e) (bc_number (e_world e)) with
  | None => lift (Throw UB)
  | Some parent =>
      '(h, _) ← lift (header_hash (m_blockHeader parent));
      lift (bv_executeBlock (e_world e) b
              (MkInfo h (m_number (m_blockHeader parent)) (m_stateRoot (m_blockHeader parent))))
  end.

Definition execBlock (r : PrepareReq) : M Sealing :=
  utcTime;;
  b ← lift (block_decode (pr_block r));
  b ← checkBlockValid b;
  emit (EvNoteSealing (m_number (m_blockHeader b)));;
  '(b, ctx) ← executeBlock b;
  b ← lift (block_assign Block0 b);
  now ← utcTime;
  upd_time (λ t, updateTimeAfterHandleBlock t now);;
  mret (MkSealing b ctx).

Definition needOmit (e : Engine) (s : Sealing) : bool :=
  bool_decide (m_transactions (sl_block s) = []) && m_omitEmptyBlock e.

(** ** Commit *)

Definition checkAndSave : M () :=
  e ← get id;
  let c := m_reqCache e in
  let p := m_prepareCache c in
  let sign_size := getSigCacheSize c (pr_hash p) in
  let commit_size := getCommitCacheSize c (pr_hash p) in
  when (bool_decide (minValidNodes e ≤ sign_size ∧ minValidNodes e ≤ commit_size ∧
                     pr_view p = m_view e ∧ m_number (m_highestBlock e) < pr_height p))
    (b ← lift (block_decode (pr_block p));
     l ← lift (generateAndSetSigList sig_order c (minValidNodes e));
     let b := from_option (setSigList b) b l in
     let '(ok, w) := bc_commitBlock (e_world e) b (p_execContext p) in
     modify (with_world w);;
     emit (EvCommit b (p_execContext p) ok);;
     (if ok : bool then emit (EvDropTrans b)
      else
        w ← get e_world;
        emit (EvNoteSealing (bc_number w));;
        emit (EvBadBlock b));;
     upd_cache clearAllExceptCommitCache;;
     upd_cache (λ c, delCache c (pr_hash (m_prepareCache c)))).

Definition checkAndCommit : M () :=
  e ← get id;
  let p := m_prepareCache (m_reqCache e) in
  when (bool_decide (getSigCacheSize (m_reqCache e) (pr_hash p) = minValidNodes e ∧ pr_view p = m_view e))
    (upd_cache updateCommittedPrepare;;
     c ← get m_reqCache;
     backupMsg c_backupKeyCommitted (m_committedPrepareCache c);;
     broadcastCommitReq p;;
     now ← utcTime;
     upd_time (λ t, set_lastSign t now);;
     checkAndSave).

(** ** Prepare requests *)

(** What an omitted empty block does to the timers. *)
Definition empty_block_timers : M () :=
  upd_time changeView;;
  upd_time (λ t, set_changeCycle t 0);;
  modify (with_emptyBlockViewChange true).

(** The part of [handlePrepareMsg] after the block was executed. *)
Definition handle_executed (r : PrepareReq) (s : Sealing) : M () :=
  e ← get id;
  if needOmit e s then empty_block_timers
  else
    '(enc, b) ← lift (block_encode (sl_block s));
    now ← utcTime;
    '(h, _) ← lift (header_hash (m_blockHeader b));
    p ← lift (PrepareReq_executed r h enc (sl_execContext s) (m_key e) now);
    upd_cache (λ c, addPrepareReq c p);;
    broadcastSignReq p;;
    checkAndCommit.

(** [handlePrepareMsg(PrepareReq const&, endpoint)]. *)
Definition handlePrepare (r : PrepareReq) : M () :=
  valid ← isValidPrepare r;
  when valid
    (upd_cache (λ c, addRawPrepare c r);;
     s ← try_catch (s ← execBlock r; mret (Some s)) (mret None);
     match s with
     | None => mret ()
     | Some s => handle_executed r s
     end).

(** [generatePrepare]. *)
Definition generatePrepare (b : Block) : M bool :=
  e ← get id;
  now ← utcTime;
  '(h, b) ← lift (block_hash_of b);
  '(enc, b) ← lift (block_encode b);
  r ← lift (PrepareReq_of_block (m_number (m_blockHeader b)) h enc (m_key e) (m_view e) (m_idx e) now);
  d ← lift (prepare_encode r);
  succ ← broadcastMsg PrepareReqPacket (uniqueKey (pr_msg r)) d [] 0;
  when succ
    (when (bool_decide (m_transactions b = []) && m_omitEmptyBlock e)
       (empty_block_timers;; modify (with_leaderFailed true));;
     handlePrepare r);;
  mret succ.

Definition rehandleCommitedPrepareCache (req : PrepareReq) : M () :=
  modify (λ e, with_broadCastCache (broadcast_clear (m_broadCastCache e)) e);;
  e ← get id;
  now ← utcTime;
  r ← lift (PrepareReq_resend req (m_key e) (m_view e) (m_idx e) now);
  d ← lift (prepare_encode r);
  broadcastMsg PrepareReqPacket (uniqueKey (pr_msg r)) d [] 0;;
  handlePrepare r;;
  w ← get e_world;
  emit (EvNoteSealing (bc_number w)).

Definition shouldSeal : M bool :=
  e ← get id;
  if m_cfgErr e || bool_decide (m_accountType e ≠ MinerAccount) then mret false
  else
    leader ← query getLeader;
    match leader with
    | None => mret false
    | Some l =>
        if decide (l ≠ m_idx e) then
          let node := getMinerByIndex (m_minerList e) l in
          when (bool_decide (node ≠ h512_0) && negb (p2p_isConnected (e_world e) node))
            (upd_time (λ t, set_lastSign (set_lastConsensus t 0) 0));;
          mret false
        else if decide (pr_height (m_committedPrepareCache (m_reqCache e)) = m_consensusBlockNumber e) then
          when (bool_decide (pr_height (m_rawPrepareCache (m_reqCache e)) ≠ m_consensusBlockNumber e))
            (rehandleCommitedPrepareCache (m_committedPrepareCache (m_reqCache e)));;
          mret false
        else mret true
    end.

(** ** View change *)

Definition checkAndChangeView : M () :=
  e ← get id;
  let count := u16 (getViewChangeSize (m_reqCache e) (m_toView e)) in
  when (bool_decide (minValidNodes e - 1 ≤ count))
    (modify (with_leaderFailed false);;
     now ← utcTime;
     upd_time (λ t, set_lastConsensus t now);;
     modify (λ e, with_view (m_toView e) e);;
     modify (λ e, with_reqCache (cache_triggerViewChange (m_reqCache e) (m_view e)) e);;
     w ← get e_world;
     emit (EvNoteSealing (bc_number w))).

(** The second half of [handleViewChangeMsg]. *)
Definition fast_view_change : M () :=
  e ← get id;
  let '(trigger, min_view) :=
    canTriggerViewChange (view_order (m_recvViewChangeReq (m_reqCache e))) (m_f e) (m_toView e)
      (m_number (m_highestBlock e)) (m_consensusBlockNumber e)
      (pr_height (m_committedPrepareCache (m_reqCache e))) in
  when trigger
    (upd_time changeView;; modify (with_toView (min_view - 1))).

Definition checkTimeout : M () :=
  now ← utcTime;
  e ← get id;
  if isTimeout (m_timeManager e) now then
    v ← lift (add_i64 (m_toView e) 1);
    modify (with_toView v);;
    modify (with_leaderFailed true);;
    upd_time updateChangeCycle;;
    w ← get e_world;
    emit (EvNoteSealing (bc_number w));;
    now ← utcTime;
    upd_time (λ t, set_lastConsensus t now);;
    h ← highest_hash;
    modify (λ e, with_reqCache (removeInvalidViewChange (m_reqCache e) (m_toView e)
                                  (m_number (m_highestBlock e)) h) e);;
    succ ← broadcastViewChangeReq;
    when succ (checkAndChangeView;; emit EvViewChange)
  else mret ().

(** ** Message handlers *)

(** Each handler returns the request as decoded, which [handleMsg] forwards. *)
Definition handlePrepareMsg (p : PBFTMsgPacket) : M PBFTMsg :=
  '(r, valid) ← decodeToRequests (prepare_decode_into PrepareReq0 (data p) 0);
  when valid (handlePrepare r);;
  mret (pr_msg r).

Definition handleSignMsg (p : PBFTMsgPacket) : M PBFTMsg :=
  '(m, valid) ← decodeToRequests (msg_decode_into PBFTMsg0 (data p) 0);
  when valid
    (valid ← isValidSignReq m;
     when valid (upd_cache (λ c, addSignReq c m);; checkAndCommit));;
  mret m.

Definition handleCommitMsg (p : PBFTMsgPacket) : M PBFTMsg :=
  '(m, valid) ← decodeToRequests (msg_decode_into PBFTMsg0 (data p) 0);
  when valid
    (valid ← isValidCommitReq m;
     when valid (upd_cache (λ c, addCommitReq c m);; checkAndSave));;
  mret m.

Definition handleViewChangeMsg (p : PBFTMsgPacket) : M PBFTMsg :=
  '(m, valid) ← decodeToRequests (msg_decode_into PBFTMsg0 (data p) 0);
  when valid
    (valid ← isValidViewChangeReq m (node_idx p);
     when valid
       (upd_cache (λ c, addViewChangeReq c m);;
        toView ← get m_toView;
        if decide (view m = toView) then checkAndChangeView else fast_view_change));;
  mret m.

(** [height_flag]: the message is not more than ten blocks behind. *)
Definition near_highest (e : Engine) (m : PBFTMsg) : res bool :=
  let number := m_number (m_highestBlock e) in
  if decide (number < height m) then Ok true
  else d ← add_i64 number (- height m); Ok (bool_decide (d < 10)).

(** The forwarding half of [handleMsg]. *)
Definition forwardMsg (p : PBFTMsgPacket) (m : PBFTMsg) : M () :=
  e ← get id;
  if decide (ttl p = 1) then mret ()
  else
    near ← query (λ e, near_highest e m);
    when (bool_decide (uniqueKey m ≠ []) && near)
      (let gen := getMinerByIndex (m_minerList e) (idx m) in
       let flt := node_id p :: (if decide (gen ≠ h512_0) then [gen] else []) in
       broadcastMsg (packet_id p) (uniqueKey m) (data p) flt (u32 (ttl p - 1));;
       mret ()).

Definition handleMsg (p : PBFTMsgPacket) : M () :=
  if decide (packet_id p = PrepareReqPacket) then m ← handlePrepareMsg p; forwardMsg p m
  else if decide (packet_id p = SignReqPacket) then m ← handleSignMsg p; forwardMsg p m
  else if decide (packet_id p = CommitReqPacket) then m ← handleCommitMsg p; forwardMsg p m
  else if decide (packet_id p = ViewChangeReqPacket) then m ← handleViewChangeMsg p; forwardMsg p m
  else mret ().

(** [isValidReq]: the index of the peer, if the message is acceptable. *)
Definition isValidReq (e : Engine) (buffer nodeId : bytes) : option nat :=
  if decide (buffer = []) then None
  else
    match getIndexByMiner (m_minerList e) nodeId with
    | None => None
    | Some i =>
        match getNodeIDByIndex (m_minerList e) (m_idx e) with
        | None => None
        | Some self => if decide (nodeId = self) then None else Some i
        end
    end.

(** [onRecvPBFTMessage]: called by the network with a message buffer of a
    session. *)
Definition onRecvPBFTMessage (buffer nodeId ep : bytes) : M () :=
  e ← get id;
  if decide (m_idx e = MAXIDX) then mret ()
  else
    match isValidReq e buffer nodeId with
    | None => mret ()
    | Some i =>
        now ← utcTime;
        match packet_decode (PBFTMsgPacket_new now) buffer with
        | Throw x => if catchable x then mret () else lift (Throw x)
        | Ok p =>
            now ← utcTime;
            let p := setOtherField p (u16 (Z.of_nat i)) nodeId ep now in
            when (bool_decide (packet_id p ≤ ViewChangeReqPacket))
              (modify (λ e, with_msgQueue (m_msgQueue e ++ [p]) e))
        end
    end.

(** ** Work loop *)

Definition collectGarbage : M () :=
  e ← get id;
  when (header_bool (m_highestBlock e))
    (now ← now_ns;
     t ← get m_timeManager;
     when (bool_decide (CollectInterval * 1000000000 < now - m_lastGarbageCollection t))
       (h ← highest_hash;
        modify (λ e, with_reqCache (collectGarbage_cache (m_reqCache e) (m_number (m_highestBlock e)) h) e);;
        upd_time (λ t, set_lastGarbage t now))).

Definition handleFutureBlock : M () :=
  e ← get id;
  let r := m_futurePrepareCache (m_reqCache e) in
  when (bool_decide (pr_height r = m_consensusBlockNumber e ∧ pr_view r = m_view e))
    (handlePrepare r;; upd_cache resetFuturePrepare).

(** One iteration of [workLoop]. *)
Definition workLoop_iter : M () :=
  try_catch
    (q ← get m_msgQueue;
     match q with
     | p :: q => modify (with_msgQueue q);; handleMsg p
     | [] => mret ()
     end;;
     checkTimeout;;
     handleFutureBlock;;
     collectGarbage)
    (mret ()).

(** [reportBlock]: called when the chain has a new highest block. *)
Definition reportBlock (b : Block) : M () :=
  e ← get id;
  when (bool_decide (bc_number (e_world e) = 0 ∨ m_number (m_highestBlock e) < m_number (m_blockHeader b)))
    (hd ← lift (header_copy (m_blockHeader b));
     modify (with_highestBlock hd);;
     when (bool_decide (m_consensusBlockNumber e ≤ m_number hd))
       (modify (with_toView 0);;
        modify (with_view 0);;
        modify (with_leaderFailed false);;
        now ← utcTime;
        upd_time (λ t, set_lastConsensus t now);;
        upd_time (λ t, set_changeCycle t 0);;
        n ← lift (add_i64 (m_number hd) 1);
        modify (with_consensusBlockNumber n);;
        h ← highest_hash;
        upd_cache (λ c, delInvalidViewChange c (m_number hd) h));;
     resetConfig;;
     upd_cache clearAllExceptCommitCache;;
     h ← highest_hash;
     upd_cache (λ c, delCache c h)).
End engine.
