(* ===== verification/EngineFacts.v ===== *)
(** * Reasoning about engine operations

    [rel R m e] says that running [m] from [e] relates the states before and
    after by [R], whether [m] returns or throws. For a preorder it composes
    along the monad. [core] is the part of the state that the sending, timing
    and execution operations leave alone. *)

From S2P Require Import Prelude RLP RLPFacts Hex Crypto PBFTMsg Transaction Block BlockFacts.
From S2P Require Import PBFTReqCache TimeManager PBFTMsgCache Engine PBFTEngine.

Local Open Scope Z_scope.

Section rel.
Context `{NodeEnv} (R : Engine → Engine → Prop) `{!PreOrder R}.

Definition rel {A} (m : M A) (e : Engine) : Prop := R e (snd (m e)).

Lemma rel_ret {A} (a : A) e : rel (mret a) e.
Proof. unfold rel. reflexivity. Qed.

Lemma rel_get {A} (f : Engine → A) e : rel (get f) e.
Proof. unfold rel. reflexivity. Qed.

Lemma rel_query {A} (f : Engine → res A) e : rel (query f) e.
Proof. unfold rel. reflexivity. Qed.

Lemma rel_lift {A} (r : res A) e : rel (lift r) e.
Proof. unfold rel. reflexivity. Qed.

Lemma rel_modify f e : R e (f e) → rel (modify f) e.
Proof. done. Qed.

(** The second half may use how the first one ended. *)
Lemma rel_bind_eq {A B} (m : M A) (f : A → M B) e :
  rel m e → (∀ a e', m e = (Ok a, e') → rel (f a) e') → rel (m ≫= f) e.
Proof.
  unfold rel, mbind, M_bind. intros Hm Hf. destruct (m e) as [[a|x] e'] eqn:E; simpl in *; [|done].
  etrans; [done|]. by apply Hf.
Qed.

Lemma rel_bind {A B} (m : M A) (f : A → M B) e :
  rel m e → (∀ a e', rel (f a) e') → rel (m ≫= f) e.
Proof. intros. by apply rel_bind_eq. Qed.

(** ... and what it left true. *)
Lemma rel_bind_inv {A B} (P : Engine → Prop) (m : M A) (f : A → M B) e :
  rel m e → P (snd (m e)) → (∀ a e', P e' → rel (f a) e') → rel (m ≫= f) e.
Proof. intros Hm Hp Hf. apply rel_bind_eq; [done|]. intros a e' E. apply Hf. by rewrite E in Hp. Qed.

(** Two updates that are only related together. *)
Lemma rel_modify_twice {A} f g (k : M A) e :
  R e (g (f e)) → rel k (g (f e)) → rel (modify f;; modify g;; k) e.
Proof. unfold rel. intros Hfg Hk. by etrans. Qed.

Lemma rel_when b m e : (b = true → rel m e) → rel (when b m) e.
Proof. destruct b; intros Hm; [by apply Hm|apply rel_ret]. Qed.

Lemma rel_try {A} (m h : M A) e : rel m e → (∀ e', rel h e') → rel (try_catch m h) e.
Proof.
  unfold rel, try_catch. intros Hm Hh. destruct (m e) as [[a|x] e'] eqn:E; simpl in *; [done|].
  destruct (catchable x); [|done]. by etrans.
Qed.

Lemma rel_for_each {A} (l : list A) f e : (∀ a e', rel (f a) e') → rel (for_each l f) e.
Proof.
  intros Hf. revert e. induction l as [|a l IH]; intros e; [apply rel_ret|].
  apply rel_bind; [apply Hf|auto].
Qed.

Lemma rel_decode {T} (d : T * res ()) e : rel (decodeToRequests d) e.
Proof.
  unfold decodeToRequests. destruct (snd d); [apply rel_ret|].
  destruct (catchable _); [apply rel_ret|apply rel_lift].
Qed.

Lemma rel_sub {A} (S : Engine → Engine → Prop) (m : M A) e :
  S e (snd (m e)) → (∀ a b, S a b → R a b) → rel m e.
Proof. unfold rel. auto. Qed.
End rel.

(** [rel_step] takes an operation apart along the monad; the updates of the
    state are left, after trying the hypotheses and the hints of [rel]. *)
Create HintDb rel discriminated.
#[export] Hint Constants Opaque : rel.
Ltac rel_step :=
  match goal with
  | |- rel _ (mret _) _ => apply rel_ret, _
  | |- rel _ (get _) _ => apply rel_get, _
  | |- rel _ (query _) _ => apply rel_query, _
  | |- rel _ (lift _) _ => apply rel_lift, _
  | |- rel _ (decodeToRequests _) _ => apply rel_decode, _
  | |- rel _ (_ ≫= _) _ => apply (rel_bind _); [|intros ? ?]
  | |- rel _ (when _ _) _ => apply (rel_when _); let Hw := fresh "Hw" in intros Hw; try discriminate Hw
  | |- rel _ (try_catch _ _) _ => apply (rel_try _); [|intros ?]
  | |- rel _ (for_each _ _) _ => apply (rel_for_each _); intros ? ?
  | |- rel _ (match ?x with _ => _ end) _ => destruct x
  | |- _ => solve [eauto with rel]
  end.
Ltac rel_auto := repeat rel_step.

(** ** The core of the state *)

Section core.
Context `{Crypto, NodeEnv}.

Definition core (e : Engine) :=
  (m_view e, m_toView e, m_reqCache e, m_consensusBlockNumber e, m_number (m_highestBlock e),
   m_minerList e, m_nodeNum e, m_f e, m_idx e, m_key e).

Definition same_core (e e' : Engine) : Prop := core e' = core e.

#[global] Instance same_core_preorder : PreOrder same_core.
Proof. split; [done|]. intros a b c Hab Hbc. unfold same_core in *. congruence. Qed.

Lemma now_ns_core e : rel same_core now_ns e.
Proof. done. Qed.
#[local] Hint Resolve now_ns_core : rel.

Lemma utcTime_core e : rel same_core utcTime e.
Proof. unfold utcTime. rel_auto. Qed.

Lemma emit_core ev e : rel same_core (emit ev) e.
Proof. by apply rel_modify. Qed.

Lemma upd_time_core f e : rel same_core (upd_time f) e.
Proof. by apply rel_modify. Qed.
#[local] Hint Resolve utcTime_core emit_core upd_time_core : rel.

Lemma broadcastMark_core n t k e : rel same_core (broadcastMark n t k) e.
Proof. apply rel_modify. by destruct (keyExists _ _ _ _). Qed.
#[local] Hint Resolve broadcastMark_core : rel.

Lemma sendMsg_core n t k d l e : rel same_core (sendMsg n t k d l) e.
Proof. unfold sendMsg. rel_auto. Qed.

Lemma broadcastTo_core t k d flt l n e : rel same_core (broadcastTo t k d flt l n) e.
Proof. unfold broadcastTo. rel_auto. Qed.
#[local] Hint Resolve sendMsg_core broadcastTo_core : rel.

Lemma broadcastMsg_core t k d flt l e : rel same_core (broadcastMsg t k d flt l) e.
Proof. unfold broadcastMsg. rel_auto. by apply rel_modify. Qed.
#[local] Hint Resolve broadcastMsg_core : rel.

Lemma header_hash_number h x h' : header_hash h = Ok (x, h') → m_number h' = m_number h.
Proof. unfold header_hash. case_decide; intros; inv_ok; by simplify_eq. Qed.

Lemma highest_hash_core e : rel same_core highest_hash e.
Proof.
  unfold highest_hash. apply (rel_bind_eq _); [rel_auto|]. intros e1 e2 [= <- <-].
  apply (rel_bind_eq _); [rel_auto|]. intros [h hd] e2 [= E <-].
  rel_auto. apply rel_modify. unfold same_core, core. cbn. by rewrite (header_hash_number _ _ _ E).
Qed.
#[local] Hint Resolve highest_hash_core : rel.

Lemma own_viewChange_core e : rel same_core own_viewChange e.
Proof. unfold own_viewChange. rel_auto. Qed.
#[local] Hint Resolve own_viewChange_core : rel.

Lemma sendViewChangeMsg_core n e : rel same_core (sendViewChangeMsg n) e.
Proof. unfold sendViewChangeMsg. rel_auto. Qed.

Lemma broadcastViewChangeReq_core e : rel same_core broadcastViewChangeReq e.
Proof. unfold broadcastViewChangeReq. rel_auto. by apply rel_modify. Qed.
#[local] Hint Resolve sendViewChangeMsg_core broadcastViewChangeReq_core : rel.

Lemma catchupView_core m e : rel same_core (catchupView m) e.
Proof. unfold catchupView. rel_auto. Qed.
#[local] Hint Resolve catchupView_core : rel.

Lemma isValidViewChangeReq_core m s e : rel same_core (isValidViewChangeReq m s) e.
Proof. unfold isValidViewChangeReq. rel_auto. Qed.

Lemma backupMsg_core k r e : rel same_core (backupMsg k r) e.
Proof. unfold backupMsg. rel_auto. by apply rel_modify. Qed.

Lemma checkBlockValid_core b e : rel same_core (checkBlockValid b) e.
Proof. unfold checkBlockValid, checkBlockValid_base. rel_auto. Qed.
#[local] Hint Resolve checkBlockValid_core : rel.

Lemma executeBlock_core b e : rel same_core (executeBlock b) e.
Proof. unfold executeBlock. rel_auto. Qed.
#[local] Hint Resolve executeBlock_core : rel.

Lemma execBlock_core r e : rel same_core (execBlock r) e.
Proof. unfold execBlock. rel_auto. Qed.

Lemma empty_block_timers_core e : rel same_core empty_block_timers e.
Proof. unfold empty_block_timers. rel_auto. by apply rel_modify. Qed.

Lemma forwardMsg_core p m e : rel same_core (forwardMsg p m) e.
Proof. unfold forwardMsg. rel_auto. Qed.
End core.

#[export] Hint Resolve now_ns_core utcTime_core emit_core upd_time_core broadcastMark_core sendMsg_core
  broadcastTo_core broadcastMsg_core highest_hash_core own_viewChange_core sendViewChangeMsg_core
  broadcastViewChangeReq_core catchupView_core isValidViewChangeReq_core backupMsg_core
  checkBlockValid_core executeBlock_core execBlock_core empty_block_timers_core forwardMsg_core : rel.
