(* ===== verification/PBFTSafety.v ===== *)
(** * Safety of the PBFT engine

    The steps of an engine, the invariants they preserve, and the commit lock:
    at each height a node commits to one block hash only. *)

From S2P Require Import Prelude RLP RLPFacts CodecFacts Hex Crypto PBFTMsg Transaction Block.
From S2P Require Import BlockFacts PBFTReqCache PBFTReqCacheFacts TimeManager PBFTMsgCache Engine.
From S2P Require Import PBFTEngine EngineFacts.

Local Open Scope Z_scope.

Section steps.
Context `{Crypto, NodeEnv}.

(** What the threads of a node do: the network delivers a message, the worker
    handles one, checks the timeout, retries a future block and collects
    garbage; the sealer asks to seal, submits a block or reports a new highest
    one; the other components change. Each but the last runs under the mutex. *)
Inductive pbft_step : Engine → Engine → Prop :=
  | ps_recv e buffer node ep :
      bytes_ok buffer → pbft_step e (snd (onRecvPBFTMessage buffer node ep e))
  | ps_handle e p q : m_msgQueue e = p :: q → pbft_step e (snd (handleMsg p (with_msgQueue q e)))
  | ps_timeout e : pbft_step e (snd (checkTimeout e))
  | ps_future e : pbft_step e (snd (handleFutureBlock e))
  | ps_garbage e : pbft_step e (snd (collectGarbage e))
  | ps_seal e : pbft_step e (snd (shouldSeal e))
  | ps_generate e b : pbft_step e (snd (generatePrepare b e))
  | ps_report e b : pbft_step e (snd (reportBlock b e))
  | ps_world e w : pbft_step e (with_world w e).

(** ** The commit lock *)

Definition prepared (e : Engine) : PrepareReq := m_prepareCache (m_reqCache e).
Definition raw (e : Engine) : PrepareReq := m_rawPrepareCache (m_reqCache e).
Definition committed (e : Engine) : PrepareReq := m_committedPrepareCache (m_reqCache e).

(** A raw request at the committed height is the committed one; a live prepared
    request was made for a height between the committed and the current one. *)
Definition lock_inv (e : Engine) : Prop :=
  (pr_height (raw e) ≠ -1 → pr_height (raw e) = pr_height (committed e) →
     pr_hash (raw e) = pr_hash (committed e)) ∧
  (pr_view (prepared e) ≠ MAXVIEW →
     pr_height (committed e) ≤ pr_height (raw e) ≤ m_consensusBlockNumber e ∧ pr_height (raw e) ≠ -1) ∧
  pr_height (committed e) ≤ m_consensusBlockNumber e ∧ 0 ≤ m_consensusBlockNumber e.

(** Heights do not decrease and at one height the hash stays. *)
Definition locked (e e' : Engine) : Prop :=
  m_consensusBlockNumber e ≤ m_consensusBlockNumber e' ∧
  pr_height (committed e) ≤ pr_height (committed e') ∧
  (pr_height (committed e) = pr_height (committed e') → pr_hash (committed e) = pr_hash (committed e')).

(** For operations that leave the view alone, and for those that may change it. *)
Definition lock_rel (e e' : Engine) : Prop :=
  lock_inv e → m_view e < MAXVIEW → lock_inv e' ∧ locked e e' ∧ m_view e' = m_view e.
Definition lock_rel_v (e e' : Engine) : Prop := lock_inv e → lock_inv e' ∧ locked e e'.

Lemma locked_refl e : locked e e.
Proof. done. Qed.

Lemma locked_trans a b c : locked a b → locked b c → locked a c.
Proof.
  intros (H1 & H2 & H3) (K1 & K2 & K3). split_and!; [lia|lia|].
  intros Hh. etrans; [apply H3|apply K3]; lia.
Qed.

#[global] Instance lock_rel_preorder : PreOrder lock_rel.
Proof.
  split.
  - intros e Hi Hv. split_and!; done.
  - intros a b c Hab Hbc Hi Hv. destruct (Hab Hi Hv) as (Hi' & Hl & Hv').
    destruct (Hbc Hi' ltac:(lia)) as (Hi'' & Hl' & Hv''). split_and!; [done|by eapply locked_trans|lia].
Qed.

#[global] Instance lock_rel_v_preorder : PreOrder lock_rel_v.
Proof.
  split.
  - intros e Hi. done.
  - intros a b c Hab Hbc Hi. destruct (Hab Hi) as (Hi' & Hl).
    destruct (Hbc Hi') as (Hi'' & Hl'). split; [done|by eapply locked_trans].
Qed.

(** What the two relations look at. *)
Definition lock_view (e : Engine) := (prepared e, raw e, committed e, m_consensusBlockNumber e).

Lemma lock_view_rel_v e e' : lock_view e' = lock_view e → lock_rel_v e e'.
Proof.
  intros [= E2 E3 E4 E5] Hi. unfold lock_inv, locked in *. rewrite E2, E3, E4, E5. split_and!; naive_solver.
Qed.

Lemma lock_view_rel e e' : lock_view e' = lock_view e → m_view e' = m_view e → lock_rel e e'.
Proof. intros Hl Hv Hi _. destruct (lock_view_rel_v e e' Hl Hi). by split_and!. Qed.

Lemma core_lock_view e e' : same_core e e' → lock_view e' = lock_view e ∧ m_view e' = m_view e.
Proof.
  intros [= E1 E2 E3 E4 E5 E6 E7 E8 E9 E10]. unfold lock_view, prepared, raw, committed.
  by rewrite E1, E3, E4.
Qed.

Lemma core_rel {A} (m : M A) e : rel same_core m e → rel lock_rel m e.
Proof. intros Hm. eapply rel_sub; [exact Hm|]. intros a b [? ?]%core_lock_view. by apply lock_view_rel. Qed.

Lemma core_rel_v {A} (m : M A) e : rel same_core m e → rel lock_rel_v m e.
Proof. intros Hm. eapply rel_sub; [exact Hm|]. intros a b [? ?]%core_lock_view. by apply lock_view_rel_v. Qed.

Lemma cache_rel f e :
  m_prepareCache (f (m_reqCache e)) = m_prepareCache (m_reqCache e) →
  m_rawPrepareCache (f (m_reqCache e)) = m_rawPrepareCache (m_reqCache e) →
  m_committedPrepareCache (f (m_reqCache e)) = m_committedPrepareCache (m_reqCache e) →
  lock_view (with_reqCache (f (m_reqCache e)) e) = lock_view e.
Proof. intros H1 H2 H3. unfold lock_view, prepared, raw, committed. cbn. by rewrite H1, H2, H3. Qed.

Lemma upd_cache_rel f e :
  m_prepareCache (f (m_reqCache e)) = m_prepareCache (m_reqCache e) →
  m_rawPrepareCache (f (m_reqCache e)) = m_rawPrepareCache (m_reqCache e) →
  m_committedPrepareCache (f (m_reqCache e)) = m_committedPrepareCache (m_reqCache e) →
  rel lock_rel (upd_cache f) e ∧ rel lock_rel_v (upd_cache f) e.
Proof. intros. split; apply rel_modify; [apply lock_view_rel; [|done]|apply lock_view_rel_v]; by apply cache_rel. Qed.
End steps.

#[export] Hint Extern 1 (rel lock_rel _ _) => (apply core_rel; solve [eauto with rel]) : rel.
#[export] Hint Extern 1 (rel lock_rel_v _ _) => (apply core_rel_v; solve [eauto with rel]) : rel.
#[export] Hint Extern 2 (rel lock_rel (modify _) _) => (apply rel_modify, lock_view_rel; reflexivity) : rel.
#[export] Hint Extern 2 (rel lock_rel_v (modify _) _) => (apply rel_modify, lock_view_rel_v; reflexivity) : rel.
#[export] Hint Extern 2 (rel lock_rel (upd_cache _) _) =>
  (apply upd_cache_rel; reflexivity) : rel.
#[export] Hint Extern 2 (rel lock_rel_v (upd_cache _) _) =>
  (apply upd_cache_rel; reflexivity) : rel.

Section lock.
Context `{Crypto, NodeEnv}.

(** Dropping the prepared request. *)
Lemma drop_prepared_rel e c :
  m_rawPrepareCache c = m_rawPrepareCache (m_reqCache e) →
  m_committedPrepareCache c = m_committedPrepareCache (m_reqCache e) →
  pr_view (m_prepareCache c) = MAXVIEW →
  lock_rel e (with_reqCache c e) ∧ lock_rel_v e (with_reqCache c e).
Proof.
  intros H1 H2 H3.
  assert (lock_inv e → lock_inv (with_reqCache c e) ∧ locked e (with_reqCache c e)) as Hx.
  { unfold lock_inv, locked, raw, committed, prepared. cbn. rewrite H1, H2.
    intros (I1 & I2 & I3 & I4). split_and!; (done || naive_solver). }
  split; [intros Hi Hv|done]. destruct (Hx Hi). by split_and!.
Qed.

Lemma clear_rel e : lock_rel e (with_reqCache (clearAllExceptCommitCache (m_reqCache e)) e).
Proof. by apply drop_prepared_rel. Qed.

Lemma delCache_rel h e :
  lock_rel e (with_reqCache (delCache (m_reqCache e) h) e) ∧
  lock_rel_v e (with_reqCache (delCache (m_reqCache e) h) e).
Proof.
  unfold delCache. case_decide.
  - by apply drop_prepared_rel.
  - split; [apply lock_view_rel; [|done]|apply lock_view_rel_v]; by apply (cache_rel (λ _, _)).
Qed.

Lemma checkAndSave_rel e : rel lock_rel checkAndSave e.
Proof.
  unfold checkAndSave. rel_auto.
  - apply rel_modify, clear_rel.
  - apply rel_modify. apply delCache_rel.
Qed.
#[local] Hint Resolve checkAndSave_rel : rel.

(** Locking on the raw request of a live prepared one. *)
Lemma commit_rel e :
  pr_view (prepared e) = m_view e → lock_rel e (with_reqCache (updateCommittedPrepare (m_reqCache e)) e).
Proof.
  intros Hp (I1 & I2 & I3 & I4) Hv. destruct (I2 ltac:(lia)) as [Hh Hn].
  unfold lock_inv, locked, raw, committed, prepared in *. cbn in *. split_and!; try done; try lia.
  intros Hc. symmetry. by apply I1.
Qed.

Lemma broadcastCommitReq_rel r e : rel lock_rel (broadcastCommitReq r) e.
Proof. unfold broadcastCommitReq. rel_auto. Qed.

Lemma broadcastSignReq_rel r e : rel lock_rel (broadcastSignReq r) e.
Proof. unfold broadcastSignReq. rel_auto. Qed.
#[local] Hint Resolve broadcastCommitReq_rel broadcastSignReq_rel : rel.

Lemma checkAndCommit_rel e : rel lock_rel checkAndCommit e.
Proof.
  unfold checkAndCommit. apply (rel_bind_eq _); [rel_auto|]. intros e1 e2 [= <- <-].
  apply (rel_when _). intros [_ Hp]%bool_decide_eq_true. rel_auto. by apply rel_modify, commit_rel.
Qed.
#[local] Hint Resolve checkAndCommit_rel : rel.

(** A valid prepare request is for the current height and view, does not
    contradict the committed one, and leaves the state as it was. *)
Lemma isValidPrepare_true r e e' :
  isValidPrepare r e = (Ok true, e') →
  e' = e ∧ pr_height r = m_consensusBlockNumber e ∧ pr_view r = m_view e ∧
  (pr_height r = pr_height (committed e) → pr_hash r = pr_hash (committed e)) ∧
  isExistPrepare (m_reqCache e) r = false ∧ isValidLeader e r = Ok true ∧
  checkSign e (pr_msg r) = Ok true.
Proof.
  unfold isValidPrepare, mbind, M_bind, get. cbn [id].
  destruct (isExistPrepare _ r) eqn:E1; [done|].
  destruct (hasConsensused _ _) eqn:E2; [done|].
  destruct (isFutureBlock _ _) eqn:E3; [done|].
  unfold query. destruct (isValidLeader _ r) as [[]|] eqn:E4; simpl; [|done|done].
  destruct (isHashSavedAfterCommit _ r) eqn:E5; [|done]. simpl. intros [= Hs <-].
  unfold hasConsensused, isFutureBlock in *. apply bool_decide_eq_false in E2, E3.
  unfold isHashSavedAfterCommit in E5. apply negb_true_iff, bool_decide_eq_false in E5.
  unfold pr_height, pr_view, committed in *. split_and!; try done; try lia.
  intros Hh. destruct (decide (pr_hash r = pr_hash (m_committedPrepareCache (m_reqCache e)))); [done|tauto].
Qed.

Lemma isValidPrepare_rel r e : rel lock_rel (isValidPrepare r) e.
Proof.
  unfold isValidPrepare. rel_auto. apply upd_cache_rel; unfold addFuturePrepareCache; by case_decide.
Qed.

(** Storing a valid prepare request. *)
Lemma addRaw_rel r e :
  pr_height r = m_consensusBlockNumber e →
  (pr_height r = pr_height (committed e) → pr_hash r = pr_hash (committed e)) →
  lock_rel e (with_reqCache (addRawPrepare (m_reqCache e) r) e).
Proof.
  intros Hh Hc (I1 & I2 & I3 & I4) Hv. unfold lock_inv, locked, raw, committed, prepared in *. cbn in *.
  split_and!; try done; try lia.
Qed.

(** [r] is the raw request of the current height. *)
Definition current_raw (r : PrepareReq) (e : Engine) : Prop :=
  raw e = r ∧ pr_height r = m_consensusBlockNumber e.

Lemma addPrepare_rel r p e :
  current_raw r e → lock_rel e (with_reqCache (addPrepareReq (m_reqCache e) p) e).
Proof.
  intros [Hr Hh] (I1 & I2 & I3 & I4) Hv. unfold lock_inv, locked, raw, committed, prepared in *. cbn in *.
  split_and!; try done; subst; lia.
Qed.

Lemma current_raw_core r e e' : same_core e e' → current_raw r e → current_raw r e'.
Proof.
  intros [Hc _]%core_lock_view [Hr Hh]. unfold lock_view in Hc. unfold current_raw.
  split; [|]; congruence.
Qed.

(** A step that keeps the core keeps the raw request. *)
Lemma raw_bind {A B} r (m : M A) (f : A → M B) e :
  rel same_core m e → current_raw r e → (∀ a e', current_raw r e' → rel lock_rel (f a) e') →
  rel lock_rel (m ≫= f) e.
Proof.
  intros Hm Hr Hf. apply (rel_bind_eq _); [by apply core_rel|]. intros a e' E. apply Hf.
  eapply current_raw_core; [|done]. unfold rel in Hm. by rewrite E in Hm.
Qed.

Lemma handle_executed_rel r s e : current_raw r e → rel lock_rel (handle_executed r s) e.
Proof.
  intros Hr. unfold handle_executed. apply (raw_bind r); [apply rel_get, _|done|]. clear e Hr. intros e0 e Hr.
  destruct (needOmit _ _); [auto with rel|].
  apply (raw_bind r); [apply rel_lift, _|done|]. clear e Hr. intros [enc b] e Hr.
  apply (raw_bind r); [auto with rel|done|]. clear e Hr. intros now e Hr.
  apply (raw_bind r); [apply rel_lift, _|done|]. clear e Hr. intros [h hd] e Hr.
  apply (raw_bind r); [apply rel_lift, _|done|]. clear e Hr. intros p e Hr.
  rel_auto. by apply rel_modify, (addPrepare_rel r).
Qed.

Lemma handlePrepare_rel r e : rel lock_rel (handlePrepare r) e.
Proof.
  unfold handlePrepare. apply (rel_bind_eq _); [apply isValidPrepare_rel|]. intros [] e1 E; [|apply (rel_ret _)].
  apply isValidPrepare_true in E as (-> & Hh & _ & Hc & _). cbn [when].
  apply (rel_bind_eq _); [by apply rel_modify, addRaw_rel|]. intros [] e1 [= <-].
  apply (raw_bind r); [rel_auto|by split|]. intros [s|] e1 Hr; [by apply handle_executed_rel|rel_auto].
Qed.
#[local] Hint Resolve handlePrepare_rel isValidPrepare_rel : rel.

(** ** Every step *)

Lemma generatePrepare_rel b e : rel lock_rel (generatePrepare b) e.
Proof. unfold generatePrepare. rel_auto. Qed.

Lemma rehandle_rel r e : rel lock_rel (rehandleCommitedPrepareCache r) e.
Proof. unfold rehandleCommitedPrepareCache. rel_auto. Qed.
#[local] Hint Resolve rehandle_rel : rel.

Lemma shouldSeal_rel e : rel lock_rel shouldSeal e.
Proof. unfold shouldSeal. rel_auto. Qed.

Lemma handleFutureBlock_rel e : rel lock_rel handleFutureBlock e.
Proof. unfold handleFutureBlock. rel_auto. Qed.

Lemma handlePrepareMsg_rel p e : rel lock_rel (handlePrepareMsg p) e.
Proof. unfold handlePrepareMsg. rel_auto. Qed.

Lemma handleSignMsg_rel p e : rel lock_rel (handleSignMsg p) e.
Proof. unfold handleSignMsg, isValidSignReq. rel_auto. Qed.

Lemma handleCommitMsg_rel p e : rel lock_rel (handleCommitMsg p) e.
Proof. unfold handleCommitMsg, isValidCommitReq. rel_auto. Qed.

Lemma onRecv_rel b n ep e : rel lock_rel (onRecvPBFTMessage b n ep) e.
Proof. unfold onRecvPBFTMessage. rel_auto. Qed.

Lemma collectGarbage_rel e : rel lock_rel collectGarbage e.
Proof. unfold collectGarbage. rel_auto. Qed.

(** A view change drops the prepared and the raw request. *)
Lemma trigger_rel v e : lock_rel_v e (with_reqCache (cache_triggerViewChange (m_reqCache e) v) e).
Proof.
  intros (I1 & I2 & I3 & I4). unfold lock_inv, locked, raw, committed, prepared in *. cbn in *.
  by split_and!.
Qed.

Lemma checkAndChangeView_rel e : rel lock_rel_v checkAndChangeView e.
Proof. unfold checkAndChangeView. rel_auto. apply rel_modify, trigger_rel. Qed.

Lemma fast_view_change_rel e : rel lock_rel_v fast_view_change e.
Proof. unfold fast_view_change. rel_auto. Qed.
#[local] Hint Resolve checkAndChangeView_rel fast_view_change_rel : rel.

Lemma handleViewChangeMsg_rel p e : rel lock_rel_v (handleViewChangeMsg p) e.
Proof. unfold handleViewChangeMsg. rel_auto. Qed.

Lemma checkTimeout_rel e : rel lock_rel_v checkTimeout e.
Proof. unfold checkTimeout. rel_auto. Qed.

Lemma resetConfig_rel e : rel lock_rel_v resetConfig e.
Proof.
  unfold resetConfig, updateConsensusNodeList, updateNodeListInP2P. rel_auto.
  apply rel_modify, lock_view_rel_v. by destruct (getIndexByMiner _ _).
Qed.
#[local] Hint Resolve resetConfig_rel : rel.

(** [handleMsg]: whatever the packet, the lock holds. *)
Lemma handleMsg_rel p e :
  lock_inv e → m_view e < MAXVIEW →
  lock_inv (snd (handleMsg p e)) ∧ locked e (snd (handleMsg p e)).
Proof.
  intros Hi Hv. unfold handleMsg.
  assert (∀ (m : M PBFTMsg), rel lock_rel m e →
    lock_inv (snd ((m' ← m; forwardMsg p m') e)) ∧ locked e (snd ((m' ← m; forwardMsg p m') e))) as Hr.
  { intros m Hm. assert (rel lock_rel (m' ← m; forwardMsg p m') e) as Hx by rel_auto.
    by destruct (Hx Hi Hv) as (? & ? & _). }
  repeat case_decide.
  - apply Hr, handlePrepareMsg_rel.
  - apply Hr, handleSignMsg_rel.
  - apply Hr, handleCommitMsg_rel.
  - assert (rel lock_rel_v (m' ← handleViewChangeMsg p; forwardMsg p m') e) as Hx.
    { apply (rel_bind _); [apply handleViewChangeMsg_rel|]. intros. rel_auto. }
    by apply Hx.
  - done.
Qed.

(** The part of [reportBlock] that moves on to the next height. *)
Lemma next_height_rel hd k e :
  m_consensusBlockNumber e = k → k ≤ m_number hd →
  rel lock_rel_v
    (now ← utcTime;
     upd_time (λ t, set_lastConsensus t now);;
     upd_time (λ t, set_changeCycle t 0);;
     n ← lift (add_i64 (m_number hd) 1);
     modify (with_consensusBlockNumber n);;
     h ← highest_hash;
     upd_cache (λ c, delInvalidViewChange c (m_number hd) h)) e.
Proof.
  intros Hk Hn. apply (rel_bind_inv _ (λ e, m_consensusBlockNumber e = k)); [auto with rel|done|].
  clear e Hk. intros now e Hk.
  apply (rel_bind_inv _ (λ e, m_consensusBlockNumber e = k)); [auto with rel|done|]. clear e Hk. intros _ e Hk.
  apply (rel_bind_inv _ (λ e, m_consensusBlockNumber e = k)); [auto with rel|done|]. clear e Hk. intros _ e Hk.
  apply (rel_bind_eq _); [rel_auto|]. unfold add_i64. intros n e' [= Ha <-]. case_decide; simplify_eq.
  rel_auto. apply rel_modify. intros (I1 & I2 & I3 & I4).
  unfold lock_inv, locked, raw, committed, prepared in *. cbn in *. split_and!; try done; try lia.
Qed.

Lemma reportBlock_rel b e : rel lock_rel_v (reportBlock b) e.
Proof.
  unfold reportBlock. apply (rel_bind_eq _); [rel_auto|]. intros e1 e2 [= <- <-].
  apply (rel_when _). intros _. apply (rel_bind_eq _); [rel_auto|]. intros hd e1 [= _ <-].
  apply (rel_bind_eq _); [by apply rel_modify, lock_view_rel_v|]. intros [] e1 [= <-].
  apply (rel_bind _).
  - apply (rel_when _). intros Hn%bool_decide_eq_true.
    do 3 (apply (rel_bind_eq _); [by apply rel_modify, lock_view_rel_v|]; intros [] ? [= <-]).
    by eapply next_height_rel.
  - intros [] e1. rel_auto.
    + apply rel_modify. by apply drop_prepared_rel.
    + apply rel_modify. apply delCache_rel.
Qed.

(** Every step from a state with a proper view. *)
Lemma pbft_step_lock e e' :
  pbft_step e e' → lock_inv e → m_view e < MAXVIEW → lock_inv e' ∧ locked e e'.
Proof.
  assert (∀ {A} (m : M A) e, rel lock_rel m e → lock_inv e → m_view e < MAXVIEW →
    lock_inv (snd (m e)) ∧ locked e (snd (m e))) as Hr.
  { intros A m e1 Hm Hi Hv. by destruct (Hm Hi Hv) as (? & ? & _). }
  intros [] Hi Hv.
  - by apply Hr; [apply onRecv_rel|..].
  - apply (handleMsg_rel p (with_msgQueue q e0)); done.
  - by apply checkTimeout_rel.
  - by apply Hr; [apply handleFutureBlock_rel|..].
  - by apply Hr; [apply collectGarbage_rel|..].
  - by apply Hr; [apply shouldSeal_rel|..].
  - by apply Hr; [apply generatePrepare_rel|..].
  - by apply reportBlock_rel.
  - by apply (lock_view_rel_v e0 (with_world w e0)).
Qed.
End lock.
