(* ===== verification/PBFTInvariant.v ===== *)
(** * The invariant of the PBFT engine

    The request cache stays well formed, every stored sign, commit and
    view-change request is signed by the miner whose index it carries or by the
    node itself, the current view never passes the view being changed to, and
    queued packets hold bytes. *)

From S2P Require Import Prelude RLP RLPFacts CodecFacts Hex Crypto PBFTMsg Transaction Block.
From S2P Require Import BlockFacts PBFTReqCache PBFTReqCacheFacts TimeManager PBFTMsgCache Engine.
From S2P Require Import PBFTEngine EngineFacts PBFTSafety.

Local Open Scope Z_scope.

(** ** Decoded requests *)

Lemma fill_ok {A} rlp m c i (rd : bytes → res A) upd k m' c' :
  bytes_ok rlp → bytes_ok (m_lastItem c) → fill rlp m c i rd upd k = (m', Ok c') →
  ∃ a f c1, rd f = Ok a ∧ bytes_ok f ∧ bytes_ok (m_lastItem c1) ∧ k (upd a) c1 = (m', Ok c').
Proof.
  intros Hr Hc. unfold fill.
  destruct (rlp_index rlp c i) as [[f c1]|] eqn:E; [|done]. rewrite bind_ok.
  destruct (rlp_index_ok _ _ _ _ _ Hr Hc E) as [Hf Hc1].
  destruct (rd f) as [a|] eqn:Ea; [|done]. rewrite bind_ok. eauto 10.
Qed.

Lemma msg_fill_sig rlp m m' c :
  bytes_ok rlp → msg_fill rlp m = (m', Ok c) → hash_ok sig_size (sig m').
Proof.
  intros Hr Hf. unfold msg_fill in Hf.
  assert (bytes_ok (m_lastItem rlp_cache0)) as Hc by apply Forall_nil_2. revert Hc Hf.
  generalize rlp_cache0. intros c0 Hc Hf.
  do 5 (apply fill_ok in Hf as (? & ? & ? & _ & _ & ? & Hf); [|done|done]).
  apply fill_ok in Hf as (s & f & ? & Hs & Hfb & ? & Hf); [|done|done].
  apply fill_ok in Hf as (? & ? & ? & _ & _ & _ & Hf); [|done|done].
  simplify_eq. simpl. apply FixedHash_of_ok; [done|]. exact (toBytesConstRef_ok f _ s Hfb Hs).
Qed.

Lemma msg_decode_into_sig m0 d i m :
  bytes_ok d → msg_decode_into m0 d i = (m, Ok ()) → hash_ok sig_size (sig m).
Proof.
  intros Hd. unfold msg_decode_into.
  destruct (RLP_new d VeryStrict) as [r|] eqn:E1; [|done]. rewrite bind_ok.
  destruct (rlp_index r rlp_cache0 i) as [[x c]|] eqn:E2; [|done]. rewrite bind_ok.
  assert (bytes_ok x) as Hx.
  { eapply (rlp_index_ok r rlp_cache0); [by eapply (RLP_new_ok d)|apply Forall_nil_2|done]. }
  destruct (msg_fill x m0) as [m1 [c1|]] eqn:E3; [|done]. intros [= <-]. by eapply msg_fill_sig.
Qed.

Lemma packet_populate_data p x p' : bytes_ok x → packet_populate p x = Ok p' → bytes_ok (data p').
Proof.
  intros Hx. unfold packet_populate.
  destruct (rlp_index x rlp_cache0 0) as [[f0 c0]|] eqn:E0; [|done]. rewrite bind_ok.
  apply rlp_index_ok in E0 as [_ Hc0]; [|done|apply Forall_nil_2].
  destruct (toInt_u8 f0 Strict) as [n|]; [|done]. rewrite bind_ok.
  destruct (rlp_index x c0 1) as [[f1 c1]|] eqn:E1; [|done]. rewrite bind_ok.
  apply rlp_index_ok in E1 as [_ Hc1]; [|done|done].
  destruct (toInt_u8 f1 Strict) as [t|]; [|done]. rewrite bind_ok.
  destruct (rlp_index x c1 2) as [[f2 c2]|] eqn:E2; [|done]. rewrite bind_ok.
  apply rlp_index_ok in E2 as [Hf _]; [|done|done].
  destruct (toBytes f2 LaissezFaire) as [d|] eqn:Ed; [|done]. rewrite bind_ok. intros [= <-].
  by eapply (toBytes_ok f2).
Qed.

Lemma packet_decode_data p d p' : bytes_ok d → packet_decode p d = Ok p' → bytes_ok (data p').
Proof.
  intros Hd. unfold packet_decode.
  destruct (RLP_new d VeryStrict) as [r|] eqn:E1; [|done]. rewrite bind_ok.
  destruct (rlp_index r rlp_cache0 0) as [[x c]|] eqn:E2; [|done]. rewrite bind_ok.
  apply packet_populate_data. eapply (rlp_index_ok r rlp_cache0); [|apply Forall_nil_2|done].
  by eapply (RLP_new_ok d).
Qed.

Create HintDb cache.

Section invariant.
Context {crypto : Crypto} {laws : CryptoLaws} {env : NodeEnv}.

(** ** The invariant *)

(** The key that [checkSign] uses for the miner at index [i]. *)
Definition miner_key (miners : list bytes) (i : Z) (pub : bytes) : Prop :=
  ∃ node, getNodeIDByIndex miners i = Some node ∧ jsToPublic (toJS_string (toHex node)) = Ok pub.

(** In the state [e] the key [pub] speaks for the index [i]: it is the key of
    the miner there, or [i] is the node's own index and [pub] its own key. *)
Definition speaks (e : Engine) (pub : bytes) (i : Z) : Prop :=
  miner_key (m_minerList e) i pub ∨ (pub = pub_of (m_key e) ∧ i = m_idx e).

(** What follows is relative to the keys that may speak for an index. *)
Section speakers.
Variable P : bytes → Z → Prop.

(** The request is signed, its block hash and its other fields, by a key that
    speaks for its index. *)
Definition signed_by (r : PBFTMsg) : Prop :=
  ∃ pub f, P pub (idx r) ∧ verify pub (sig r) (block_hash r) = true ∧
    fieldsWithoutBlock (height r) (view r) (idx r) (timestamp r) = Ok f ∧ verify pub (sig2 r) f = true.

Definition all_signed {K L} `{Countable K, Countable L} (c : gmap K (gmap L PBFTMsg)) : Prop :=
  ∀ h k r, cached c h k r → signed_by r.

Definition cache_inv (c : PBFTReqCache) : Prop :=
  cache_wf c ∧ all_signed (m_signCache c) ∧ all_signed (m_commitCache c) ∧ all_signed (m_recvViewChangeReq c).

Definition engine_inv (e : Engine) : Prop :=
  cache_inv (m_reqCache e) ∧ m_view e ≤ m_toView e ∧ 0 ≤ m_f e ∧
  Forall (λ p, bytes_ok (data p)) (m_msgQueue e).

(** The keys that speak in [e] are among those considered. *)
Definition admits (e : Engine) : Prop := ∀ pub i, speaks e pub i → P pub i.

Definition speakers (e : Engine) := (m_minerList e, m_idx e, m_key e).

Lemma admits_speakers e e' : speakers e' = speakers e → admits e → admits e'.
Proof. intros [= E1 E2 E3]. unfold admits, speaks. by rewrite E1, E2, E3. Qed.

(** For operations that leave the speakers alone and may add requests, and for
    those that may change the speakers and add none. *)
Definition inv_rel (e e' : Engine) : Prop :=
  speakers e' = speakers e ∧ (admits e → engine_inv e → engine_inv e').
Definition inv_rel_w (e e' : Engine) : Prop := engine_inv e → engine_inv e'.

#[global] Instance inv_rel_preorder : PreOrder inv_rel.
Proof.
  split; [by intros e|]. intros a b c [E1 Hab] [E2 Hbc]. split; [congruence|].
  intros Ha Hi. apply Hbc; [by eapply admits_speakers|auto].
Qed.
#[global] Instance inv_rel_w_preorder : PreOrder inv_rel_w.
Proof. split; [by intros e He|]. intros a b c Hab Hbc Ha. by apply Hbc, Hab. Qed.

Definition signed_req (r : PBFTMsg) : Prop := hash_ok sig_size (sig r) ∧ signed_by r.

Section all_signed.
Context {K L : Type} `{Countable K, Countable L}.
Implicit Types c : gmap K (gmap L PBFTMsg).

Lemma all_signed_sub c c' : (∀ h k r, cached c' h k r → cached c h k r) → all_signed c → all_signed c'.
Proof. intros Hs Hc h k r Hr. by eapply Hc, Hs. Qed.

Lemma all_signed_empty : all_signed (∅ : gmap K (gmap L PBFTMsg)).
Proof. intros h k r Hr. by apply cached_empty in Hr. Qed.

Lemma all_signed_add c h k r : signed_by r → all_signed c → all_signed (cache_add h k r c).
Proof. intros Hr Hc h' k' r'. rewrite cached_add. intros [(-> & -> & ->)|[_ Hc']]; [done|by eapply Hc]. Qed.
End all_signed.

(** Steps that only drop requests. *)
Definition drops (c c' : PBFTReqCache) : Prop :=
  (∀ h k r, cached (m_signCache c') h k r → cached (m_signCache c) h k r) ∧
  (∀ h k r, cached (m_commitCache c') h k r → cached (m_commitCache c) h k r) ∧
  (∀ v i r, cached (m_recvViewChangeReq c') v i r → cached (m_recvViewChangeReq c) v i r).

Lemma cache_inv_drop c c' : cache_step c c' → drops c c' → cache_inv c → cache_inv c'.
Proof.
  intros Hst (H1 & H2 & H3) (Hw & Hs & Hc & Hv).
  split_and!; [by eapply cache_step_wf|..]; by eapply all_signed_sub.
Qed.

Lemma cache_inv_addSign c r : signed_req r → cache_inv c → cache_inv (addSignReq c r).
Proof.
  intros [Ho Hr] (Hw & Hs & Hc & Hv). split_and!; [|by apply all_signed_add|done..].
  eapply cache_step_wf; [by apply cs_addSignReq|done].
Qed.

Lemma cache_inv_addCommit c r : signed_req r → cache_inv c → cache_inv (addCommitReq c r).
Proof.
  intros [Ho Hr] (Hw & Hs & Hc & Hv). split_and!; [|done|by apply all_signed_add|done].
  eapply cache_step_wf; [by apply cs_addCommitReq|done].
Qed.

Lemma cache_inv_addViewChange c r : signed_by r → cache_inv c → cache_inv (addViewChangeReq c r).
Proof.
  intros Hr (Hw & Hs & Hc & Hv). split_and!; [|done..|rewrite addViewChangeReq_eq; by apply all_signed_add].
  eapply cache_step_wf; [by apply cs_addViewChangeReq|done].
Qed.

Ltac drop_solve :=
  split_and!; intros ? ? ?; simpl; unfold removeInvalidView, removeInvalidViewChange_at;
  rewrite ?cached_alter_filter, ?cached_removeInvalid, ?cached_delete, ?cached_upto; try tauto;
  intros Hx; by apply cached_empty in Hx.

Lemma cache_inv_addRaw c r : cache_inv c → cache_inv (addRawPrepare c r).
Proof. apply cache_inv_drop; [constructor|drop_solve]. Qed.
Lemma cache_inv_addPrepare c r : cache_inv c → cache_inv (addPrepareReq c r).
Proof. apply cache_inv_drop; [constructor|drop_solve]. Qed.
Lemma cache_inv_addFuture c r : cache_inv c → cache_inv (addFuturePrepareCache c r).
Proof. apply cache_inv_drop; [constructor|]. unfold addFuturePrepareCache. case_decide; drop_solve. Qed.
Lemma cache_inv_updateCommitted c : cache_inv c → cache_inv (updateCommittedPrepare c).
Proof. apply cache_inv_drop; [constructor|drop_solve]. Qed.
Lemma cache_inv_resetFuture c : cache_inv c → cache_inv (resetFuturePrepare c).
Proof. apply cache_inv_drop; [constructor|drop_solve]. Qed.
Lemma cache_inv_trigger c v : cache_inv c → cache_inv (cache_triggerViewChange c v).
Proof. apply cache_inv_drop; [constructor|drop_solve]. Qed.
Lemma cache_inv_delCache c h : cache_inv c → cache_inv (delCache c h).
Proof. apply cache_inv_drop; [constructor|]. unfold delCache. case_decide; drop_solve. Qed.
Lemma cache_inv_garbage c n h : cache_inv c → cache_inv (collectGarbage_cache c n h).
Proof. apply cache_inv_drop; [constructor|drop_solve]. Qed.
Lemma cache_inv_removeViewChange c v n h : cache_inv c → cache_inv (removeInvalidViewChange c v n h).
Proof. apply cache_inv_drop; [constructor|drop_solve]. Qed.
Lemma cache_inv_delViewChange c n h : cache_inv c → cache_inv (delInvalidViewChange c n h).
Proof. apply cache_inv_drop; [constructor|drop_solve]. Qed.
Lemma cache_inv_clear c : cache_inv c → cache_inv (clearAllExceptCommitCache c).
Proof. apply cache_inv_drop; [constructor|drop_solve]. Qed.
#[local] Hint Resolve cache_inv_addRaw cache_inv_addPrepare cache_inv_addFuture
  cache_inv_updateCommitted cache_inv_resetFuture cache_inv_trigger cache_inv_delCache cache_inv_garbage
  cache_inv_removeViewChange cache_inv_delViewChange cache_inv_clear cache_inv_addSign
  cache_inv_addCommit : cache.

(** ** Sources of signed requests *)

Lemma checkSign_signed e m : admits e → checkSign e m = Ok true → signed_by m.
Proof.
  intros Ha Hc. unfold checkSign in Hc. destruct (getNodeIDByIndex _ _) as [n|] eqn:En; [|done].
  destruct (jsToPublic _) as [pub|] eqn:Ep; [|done]. rewrite bind_ok in Hc.
  destruct (verify pub (sig m) (block_hash m)) eqn:Ev; [|done].
  destruct (fieldsWithoutBlock _ _ _ _) as [f|] eqn:Ef; [|done]. injection Hc as Hc.
  exists pub, f. split_and!; try done. apply Ha. left. by exists n.
Qed.

Lemma PBFTMsg_new_signed e h v bh now m :
  admits e → PBFTMsg_new (m_key e) h v (m_idx e) bh now = Ok m → signed_req m.
Proof.
  intros Ha. unfold PBFTMsg_new. destruct (fieldsWithoutBlock _ _ _ _) as [f|] eqn:Ef; [|done].
  intros [= <-]. split; [apply sign_ok|]. exists (pub_of (m_key e)), f.
  split_and!; [apply Ha; by right|apply sign_verify|done|apply sign_verify].
Qed.

Lemma checkReq_signed e m r :
  admits e → hash_ok sig_size (sig m) → checkReq e m = Ok r → r ≠ INVALID → signed_req m.
Proof.
  intros Ha Hs Hr Hn. split; [done|]. unfold checkReq in Hr.
  assert (checkSign e m = Ok true) as Hc; [|by eapply checkSign_signed].
  repeat case_decide; try (injection Hr as <-; done).
  - destruct (isFutureBlock e m); [|injection Hr as <-; done].
    destruct (checkSign e m) as [[]|]; [done| |done]. injection Hr as <-. done.
  - destruct (checkSign e m) as [[]|]; [done| |done]. injection Hr as <-. done.
Qed.

(** ** Operations *)

(** What the invariant looks at. *)
Definition inv_view (e : Engine) := (m_reqCache e, m_view e, m_toView e, m_f e, m_msgQueue e).

Lemma inv_view_rel_w e e' : inv_view e' = inv_view e → inv_rel_w e e'.
Proof. intros [= E1 E2 E3 E4 E5] Hi. unfold engine_inv. by rewrite E1, E2, E3, E4, E5. Qed.

Lemma inv_view_rel e e' : speakers e' = speakers e → inv_view e' = inv_view e → inv_rel e e'.
Proof. intros Hs Hv. split; [done|]. intros _. by apply inv_view_rel_w. Qed.

Definition quiet (e e' : Engine) : Prop := same_core e e' ∧ m_msgQueue e' = m_msgQueue e.
#[global] Instance quiet_preorder : PreOrder quiet.
Proof.
  split; [by intros e|]. intros a b c [H1 H2] [K1 K2]. split; [by etrans|congruence].
Qed.

Lemma quiet_view e e' : quiet e e' → speakers e' = speakers e ∧ inv_view e' = inv_view e.
Proof. intros [[= E1 E2 E3 E4 E5 E6 E7 E8 E9 E10] Hq]. unfold inv_view, speakers. split; congruence. Qed.

Lemma quiet_rel {A} (m : M A) e : rel quiet m e → rel inv_rel m e.
Proof. intros Hm. eapply rel_sub; [exact Hm|]. intros a b [? ?]%quiet_view. by apply inv_view_rel. Qed.

Lemma quiet_rel_w {A} (m : M A) e : rel quiet m e → rel inv_rel_w m e.
Proof. intros Hm. eapply rel_sub; [exact Hm|]. intros a b [? ?]%quiet_view. by apply inv_view_rel_w. Qed.

Lemma modify_inv f e :
  speakers (f e) = speakers e → (engine_inv e → engine_inv (f e)) → rel inv_rel (modify f) e.
Proof. intros Hs Hf. apply rel_modify. by split; [|intros _]. Qed.

Lemma with_cache_inv c e :
  (admits e → cache_inv (m_reqCache e) → cache_inv c) → inv_rel e (with_reqCache c e).
Proof. intros Hf. split; [done|]. intros Ha (H1 & H2 & H3 & H4). split_and!; auto. Qed.

Lemma upd_cache_inv f e :
  (admits e → cache_inv (m_reqCache e) → cache_inv (f (m_reqCache e))) → rel inv_rel (upd_cache f) e.
Proof. intros Hf. by apply rel_modify, with_cache_inv. Qed.

Lemma upd_cache_inv_w f e :
  (cache_inv (m_reqCache e) → cache_inv (f (m_reqCache e))) → rel inv_rel_w (upd_cache f) e.
Proof. intros Hf. apply rel_modify. intros (H1 & H2 & H3 & H4). split_and!; auto. Qed.
End speakers.

Lemma signed_by_mono (P Q : bytes → Z → Prop) r : (∀ pub i, P pub i → Q pub i) → signed_by P r → signed_by Q r.
Proof. intros Hpq (pub & f & Hp & Hr). exists pub, f. split; [by apply Hpq|done]. Qed.

Lemma engine_inv_mono (P Q : bytes → Z → Prop) e : (∀ pub i, P pub i → Q pub i) → engine_inv P e → engine_inv Q e.
Proof.
  intros Hpq ((Hw & Hs & Hc & Hv) & Hr). split; [|done].
  split_and!; [done|..]; intros ? ? ? ?; (eapply signed_by_mono; [exact Hpq|]); [by eapply Hs|by eapply Hc|by eapply Hv].
Qed.
End invariant.

#[export] Hint Extern 2 (rel quiet (modify _) _) => (apply rel_modify; split; reflexivity) : rel.
#[export] Hint Extern 2 (rel quiet (upd_time _) _) => (apply rel_modify; split; reflexivity) : rel.
#[export] Hint Extern 2 (rel quiet (emit _) _) => (apply rel_modify; split; reflexivity) : rel.

Section quiet.
Context {crypto : Crypto} {env : NodeEnv}.

(** The queue is only touched by delivery and the work loop. *)
Lemma now_ns_quiet e : rel quiet now_ns e.
Proof. by split. Qed.
#[local] Hint Resolve now_ns_quiet : rel.
Lemma utcTime_quiet e : rel quiet utcTime e.
Proof. unfold utcTime. rel_auto. Qed.
#[local] Hint Resolve utcTime_quiet : rel.
Lemma broadcastMark_quiet n t k e : rel quiet (broadcastMark n t k) e.
Proof. apply rel_modify. by destruct (keyExists _ _ _ _). Qed.
#[local] Hint Resolve broadcastMark_quiet : rel.
Lemma sendMsg_quiet n t k d l e : rel quiet (sendMsg n t k d l) e.
Proof. unfold sendMsg. rel_auto. Qed.
Lemma broadcastTo_quiet t k d flt l n e : rel quiet (broadcastTo t k d flt l n) e.
Proof. unfold broadcastTo. rel_auto. Qed.
#[local] Hint Resolve sendMsg_quiet broadcastTo_quiet : rel.
Lemma broadcastMsg_quiet t k d flt l e : rel quiet (broadcastMsg t k d flt l) e.
Proof. unfold broadcastMsg. rel_auto. Qed.
#[local] Hint Resolve broadcastMsg_quiet : rel.

Lemma highest_hash_quiet e : rel quiet highest_hash e.
Proof.
  split; [apply highest_hash_core|]. unfold highest_hash, mbind, M_bind, get, lift. cbn.
  by destruct (header_hash _) as [[? ?]|].
Qed.
#[local] Hint Resolve highest_hash_quiet : rel.
Lemma own_viewChange_quiet e : rel quiet own_viewChange e.
Proof. unfold own_viewChange. rel_auto. Qed.
#[local] Hint Resolve own_viewChange_quiet : rel.
Lemma sendViewChangeMsg_quiet n e : rel quiet (sendViewChangeMsg n) e.
Proof. unfold sendViewChangeMsg. rel_auto. Qed.
Lemma broadcastViewChangeReq_quiet e : rel quiet broadcastViewChangeReq e.
Proof. unfold broadcastViewChangeReq. rel_auto. Qed.
#[local] Hint Resolve sendViewChangeMsg_quiet broadcastViewChangeReq_quiet : rel.
Lemma isValidViewChangeReq_quiet m s e : rel quiet (isValidViewChangeReq m s) e.
Proof. unfold isValidViewChangeReq, catchupView. rel_auto. Qed.
Lemma backupMsg_quiet k r e : rel quiet (backupMsg k r) e.
Proof. unfold backupMsg. rel_auto. Qed.
Lemma execBlock_quiet r e : rel quiet (execBlock r) e.
Proof. unfold execBlock, checkBlockValid, checkBlockValid_base, executeBlock. rel_auto. Qed.
Lemma empty_block_timers_quiet e : rel quiet empty_block_timers e.
Proof. unfold empty_block_timers. rel_auto. Qed.
Lemma forwardMsg_quiet p m e : rel quiet (forwardMsg p m) e.
Proof. unfold forwardMsg. rel_auto. Qed.
End quiet.

#[export] Hint Resolve now_ns_quiet utcTime_quiet broadcastMark_quiet sendMsg_quiet broadcastTo_quiet
  broadcastMsg_quiet highest_hash_quiet own_viewChange_quiet sendViewChangeMsg_quiet
  broadcastViewChangeReq_quiet isValidViewChangeReq_quiet backupMsg_quiet execBlock_quiet
  empty_block_timers_quiet forwardMsg_quiet : rel.
#[export] Hint Extern 1 (rel (inv_rel _) _ _) => (apply quiet_rel; solve [eauto with rel]) : rel.
#[export] Hint Extern 1 (rel (inv_rel_w _) _ _) => (apply quiet_rel_w; solve [eauto with rel]) : rel.
#[export] Hint Extern 2 (rel (inv_rel _) (modify _) _) => (apply rel_modify, inv_view_rel; reflexivity) : rel.
#[export] Hint Extern 2 (rel (inv_rel_w _) (modify _) _) => (apply rel_modify, inv_view_rel_w; reflexivity) : rel.

#[export] Hint Resolve cache_inv_addRaw cache_inv_addPrepare cache_inv_addFuture
  cache_inv_updateCommitted cache_inv_resetFuture cache_inv_trigger cache_inv_delCache cache_inv_garbage
  cache_inv_removeViewChange cache_inv_delViewChange cache_inv_clear : cache.
#[export] Hint Extern 2 (rel (inv_rel _) (upd_cache _) _) =>
  (apply upd_cache_inv; solve [intros; auto with cache]) : rel.
#[export] Hint Extern 2 (rel (inv_rel_w _) (upd_cache _) _) =>
  (apply upd_cache_inv_w; solve [intros; auto with cache]) : rel.

Section engine_invariant.
Context {crypto : Crypto} {laws : CryptoLaws} {env : NodeEnv} (P : bytes → Z → Prop).

(** Quiet steps keep the speakers that a request was made with. *)
Lemma speakers_bind {A B} k (m : M A) (f : A → M B) e :
  rel quiet m e → speakers e = k → (∀ a e', speakers e' = k → rel (inv_rel P) (f a) e') → rel (inv_rel P) (m ≫= f) e.
Proof.
  intros Hm Hk Hf. apply (rel_bind_inv _ (λ e, speakers e = k)); [by apply quiet_rel| |done].
  apply quiet_view in Hm as [Hm _]. by rewrite Hm.
Qed.

(** Storing a request of the node's own. *)
Lemma own_request_inv r now m (add : PBFTReqCache → PBFTMsg → PBFTReqCache) e0 e :
  (∀ c, signed_req P m → cache_inv P c → cache_inv P (add c m)) →
  PBFTMsg_new (m_key e0) (height r) (view r) (m_idx e0) (block_hash r) now = Ok m → speakers e = speakers e0 →
  rel (inv_rel P) (upd_cache (λ c, add c m)) e.
Proof.
  intros Hadd Hm Hk. apply upd_cache_inv. intros Ha. apply Hadd. eapply (PBFTMsg_new_signed P e0); [|exact Hm].
  by eapply admits_speakers.
Qed.

Lemma broadcastSignReq_inv r e : rel (inv_rel P) (broadcastSignReq r) e.
Proof.
  unfold broadcastSignReq. apply (rel_bind_eq _); [rel_auto|]. intros e0 e1 [= <- <-].
  apply (speakers_bind (speakers e)); [rel_auto|done|]. intros now e1 H1.
  apply (rel_bind_eq _); [rel_auto|]. intros m e2 [= Hm <-].
  apply (speakers_bind (speakers e)); [rel_auto|done|]. intros d e2 H2.
  apply (speakers_bind (speakers e)); [rel_auto|done|]. intros ok e3 H3. rel_auto.
  eapply own_request_inv; [intros; by apply cache_inv_addSign|exact Hm|done].
Qed.

Lemma broadcastCommitReq_inv r e : rel (inv_rel P) (broadcastCommitReq r) e.
Proof.
  unfold broadcastCommitReq. apply (rel_bind_eq _); [rel_auto|]. intros e0 e1 [= <- <-].
  apply (speakers_bind (speakers e)); [rel_auto|done|]. intros now e1 H1.
  apply (rel_bind_eq _); [rel_auto|]. intros m e2 [= Hm <-].
  apply (speakers_bind (speakers e)); [rel_auto|done|]. intros d e2 H2.
  apply (speakers_bind (speakers e)); [rel_auto|done|]. intros ok e3 H3. rel_auto.
  eapply own_request_inv; [intros; by apply cache_inv_addCommit|exact Hm|done].
Qed.
#[local] Hint Resolve broadcastSignReq_inv broadcastCommitReq_inv : rel.

Lemma checkAndSave_inv e : rel (inv_rel P) checkAndSave e.
Proof. unfold checkAndSave. rel_auto. Qed.
#[local] Hint Resolve checkAndSave_inv : rel.

Lemma checkAndCommit_inv e : rel (inv_rel P) checkAndCommit e.
Proof. unfold checkAndCommit. rel_auto. Qed.
#[local] Hint Resolve checkAndCommit_inv : rel.

Lemma handlePrepare_inv r e : rel (inv_rel P) (handlePrepare r) e.
Proof. unfold handlePrepare, isValidPrepare, handle_executed. rel_auto. Qed.
#[local] Hint Resolve handlePrepare_inv : rel.

Lemma generatePrepare_inv b e : rel (inv_rel P) (generatePrepare b) e.
Proof. unfold generatePrepare. rel_auto. Qed.

Lemma shouldSeal_inv e : rel (inv_rel P) shouldSeal e.
Proof. unfold shouldSeal, rehandleCommitedPrepareCache. rel_auto. Qed.

Lemma handleFutureBlock_inv e : rel (inv_rel P) handleFutureBlock e.
Proof. unfold handleFutureBlock. rel_auto. Qed.

Lemma collectGarbage_inv e : rel (inv_rel P) collectGarbage e.
Proof.
  unfold collectGarbage. rel_auto. apply rel_modify, with_cache_inv. auto with cache.
Qed.

(** A request that decodes has a signature of the right size. *)
Lemma decode_signed d m e e' :
  bytes_ok d → decodeToRequests (msg_decode_into PBFTMsg0 d 0) e = (Ok (m, true), e') →
  hash_ok sig_size (sig m) ∧ e' = e.
Proof.
  intros Hd. unfold decodeToRequests. destruct (msg_decode_into PBFTMsg0 d 0) as [m1 [[]|x]] eqn:E; simpl.
  - intros [= -> ->]. split; [|done]. by eapply msg_decode_into_sig.
  - destruct (catchable x); done.
Qed.

(** A valid request leaves the state as it was and is signed. *)
Lemma isValidSignReq_inv m e :
  hash_ok sig_size (sig m) →
  rel (inv_rel P) (isValidSignReq m) e ∧
  (∀ e', isValidSignReq m e = (Ok true, e') → e' = e ∧ (admits P e → signed_req P m)).
Proof.
  intros Hs. unfold isValidSignReq, rel, mbind, M_bind, get, query. cbn [id].
  destruct (isExistSign _ m); [by split|]. destruct (checkReq e m) as [[]|] eqn:Hr; simpl; try by split.
  - split; [done|]. intros e' [= <-]. split; [done|]. intros. by eapply checkReq_signed.
  - split; [|done]. apply with_cache_inv. intros Ha. apply cache_inv_addSign. by eapply checkReq_signed.
Qed.

Lemma isValidCommitReq_inv m e :
  hash_ok sig_size (sig m) →
  rel (inv_rel P) (isValidCommitReq m) e ∧
  (∀ e', isValidCommitReq m e = (Ok true, e') → e' = e ∧ (admits P e → signed_req P m)).
Proof.
  intros Hs. unfold isValidCommitReq, rel, mbind, M_bind, get, query. cbn [id].
  destruct (isExistCommit _ m); [by split|]. destruct (checkReq e m) as [[]|] eqn:Hr; simpl; try by split.
  - split; [done|]. intros e' [= <-]. split; [done|]. intros. by eapply checkReq_signed.
  - split; [|done]. apply with_cache_inv. intros Ha. apply cache_inv_addCommit. by eapply checkReq_signed.
Qed.

Lemma handleSignMsg_inv p e : bytes_ok (data p) → rel (inv_rel P) (handleSignMsg p) e.
Proof.
  intros Hd. unfold handleSignMsg. apply (rel_bind_eq _); [rel_auto|]. intros [m []] e1 E; [|rel_auto].
  apply decode_signed in E as [Hs ->]; [|done]. destruct (isValidSignReq_inv m e Hs) as [Hv Ht].
  rel_step; [|rel_auto]. apply (rel_bind_eq _); [done|]. intros [] e2 E2; [|apply (rel_ret _)].
  apply Ht in E2 as [-> E2]. cbn [when]. rel_step; [|rel_auto]. apply upd_cache_inv. intros Ha.
  apply cache_inv_addSign. by apply E2.
Qed.

Lemma handleCommitMsg_inv p e : bytes_ok (data p) → rel (inv_rel P) (handleCommitMsg p) e.
Proof.
  intros Hd. unfold handleCommitMsg. apply (rel_bind_eq _); [rel_auto|]. intros [m []] e1 E; [|rel_auto].
  apply decode_signed in E as [Hs ->]; [|done]. destruct (isValidCommitReq_inv m e Hs) as [Hv Ht].
  rel_step; [|rel_auto]. apply (rel_bind_eq _); [done|]. intros [] e2 E2; [|apply (rel_ret _)].
  apply Ht in E2 as [-> E2]. cbn [when]. rel_step; [|rel_auto]. apply upd_cache_inv. intros Ha.
  apply cache_inv_addCommit. by apply E2.
Qed.

(** ** Views *)

Lemma checkAndChangeView_inv e : rel (inv_rel P) checkAndChangeView e.
Proof.
  unfold checkAndChangeView. rel_auto.
  - apply modify_inv; [done|]. intros (H1 & H2 & H3 & H4). split_and!; auto; simpl; lia.
  - apply rel_modify, with_cache_inv. auto with cache.
Qed.

(** The view chosen by the fast view change is above the current target. *)
Lemma trigger_above order f toView number cn ch minView :
  0 ≤ f → toView < MAXVIEW →
  canTriggerViewChange order f toView number cn ch = (true, minView) → toView < minView.
Proof.
  intros Hf Hmax. unfold canTriggerViewChange. intros [= Ht <-].
  apply andb_true_iff in Ht as [Hc%bool_decide_eq_true _].
  destruct (vc_scan_spec toView number order vc_scan0 Hmax (scan0_ok toView)) as [(_ & _ & Hv) _].
  apply Hv. intros Hz. unfold vc_scan_all in Hc. rewrite Hz, map_size_empty in Hc.
  change (u16 (Z.of_nat 0)) with 0 in Hc. lia.
Qed.

Lemma fast_view_change_inv e : m_toView e < MAXVIEW → rel (inv_rel P) fast_view_change e.
Proof.
  intros Hmax. unfold fast_view_change. apply (rel_bind_eq _); [rel_auto|]. intros e1 e2 [= <- <-].
  destruct (canTriggerViewChange _ _ _ _ _ _) as [[] v] eqn:Et; [|rel_auto]. cbn [when].
  unfold rel. split; [done|]. intros _ (H1 & H2 & H3 & H4). apply trigger_above in Et; [|done|done].
  split; [done|]. split; [|done]. change (m_view e ≤ v - 1). lia.
Qed.
#[local] Hint Resolve checkAndChangeView_inv : rel.

Lemma run_bind {A B} (m : M A) (f : A → M B) e b e' :
  (m ≫= f) e = (Ok b, e') → ∃ a e1, m e = (Ok a, e1) ∧ f a e1 = (Ok b, e').
Proof. unfold mbind, M_bind. destruct (m e) as [[a|x] e1]; [eauto|done]. Qed.

(** The last thing [isValidViewChangeReq] asks for is the signature. *)
Lemma isValidViewChange_checked m s e e' : isValidViewChangeReq m s e = (Ok true, e') → checkSign e' m = Ok true.
Proof.
  unfold isValidViewChangeReq. intros (e0 & e1 & _ & E)%run_bind. do 2 (case_match; [done|]).
  apply run_bind in E as (v & e2 & _ & E). apply run_bind in E as ([] & e3 & _ & E).
  apply run_bind in E as (e4 & e5 & _ & E). case_match; [done|].
  apply run_bind in E as (h & e6 & _ & E). apply run_bind in E as (e7 & e8 & _ & E). case_match; [done|].
  unfold query in E. by injection E as E <-.
Qed.

Lemma handleViewChangeMsg_inv p e : m_toView e < MAXVIEW → rel (inv_rel P) (handleViewChangeMsg p) e.
Proof.
  intros Hmax. unfold handleViewChangeMsg.
  apply (rel_bind_inv _ (λ e, m_toView e < MAXVIEW)); [rel_auto|..].
  { unfold decodeToRequests. repeat case_match; done. }
  clear e Hmax. intros [m valid] e Hmax. rel_step; [|rel_auto]. apply (rel_when _). intros _.
  apply (rel_bind_eq _); [rel_auto|]. intros [] e1 E; [|apply (rel_ret _)]. cbn [when].
  assert (m_toView e1 < MAXVIEW) as Hmax1.
  { pose proof (isValidViewChangeReq_core m (node_idx p) e) as Hk. unfold rel in Hk. rewrite E in Hk.
    injection Hk as _ Ek _. by rewrite Ek. }
  apply isValidViewChange_checked in E. clear e Hmax.
  apply (rel_bind_inv _ (λ e, m_toView e < MAXVIEW)); [|done|].
  { apply upd_cache_inv. intros Ha. apply cache_inv_addViewChange. by eapply checkSign_signed. }
  clear e1 E Hmax1. intros _ e Hmax. apply (rel_bind_inv _ (λ e, m_toView e < MAXVIEW)); [rel_auto|done|].
  intros t e1 Hmax1. case_decide; [rel_auto|by apply fast_view_change_inv].
Qed.

Lemma checkTimeout_inv e : rel (inv_rel P) checkTimeout e.
Proof.
  unfold checkTimeout. rel_step; [rel_auto|]. apply (rel_bind_eq _); [rel_auto|]. intros e1 e2 [= <- <-].
  destruct (isTimeout _ _); [|rel_auto]. apply (rel_bind_eq _); [rel_auto|].
  intros v e2 [= Hv <-]. unfold add_i64 in Hv. case_decide; simplify_eq.
  rel_auto.
  - apply modify_inv; [done|]. intros (H1 & H2 & H3 & H4). split_and!; auto. cbn. lia.
  - apply rel_modify, with_cache_inv. auto with cache.
Qed.

Lemma resetConfig_inv e : rel (inv_rel_w P) resetConfig e.
Proof.
  unfold resetConfig, updateConsensusNodeList, updateNodeListInP2P. rel_auto.
  - apply rel_modify, inv_view_rel_w. by destruct (getIndexByMiner _ _).
  - apply rel_modify. intros (H1 & H2 & H3 & H4). split_and!; auto. by apply Z.mod_pos_bound.
Qed.
#[local] Hint Resolve resetConfig_inv : rel.

Lemma reportBlock_inv b e : rel (inv_rel_w P) (reportBlock b) e.
Proof.
  unfold reportBlock. rel_step; [rel_auto|]. rel_step. rel_step; [rel_auto|]. rel_step; [rel_auto|].
  rel_step; [|rel_auto]. rel_step. apply (rel_modify_twice _).
  - intros (H1 & H2 & H3 & H4). by split_and!.
  - rel_auto.
Qed.

Lemma onRecv_inv buffer n ep e : bytes_ok buffer → rel (inv_rel P) (onRecvPBFTMessage buffer n ep) e.
Proof.
  intros Hb. unfold onRecvPBFTMessage. rel_step; [rel_auto|]. rel_step; [rel_auto|].
  destruct (isValidReq _ _ _); [|rel_auto]. rel_step; [rel_auto|].
  destruct (packet_decode _ _) as [p|] eqn:E; [|rel_auto]. apply packet_decode_data in E; [|done].
  rel_auto. apply modify_inv; [done|]. intros (H1 & H2 & H3 & H4). split_and!; auto. cbn.
  apply Forall_app. split; [done|]. by apply Forall_singleton.
Qed.

Lemma handleMsg_inv p e : bytes_ok (data p) → m_toView e < MAXVIEW → rel (inv_rel P) (handleMsg p) e.
Proof.
  intros Hd Hmax. unfold handleMsg. repeat case_decide; [..|rel_auto]; (rel_step; [|intros; rel_auto]).
  - unfold handlePrepareMsg. rel_auto.
  - by apply handleSignMsg_inv.
  - by apply handleCommitMsg_inv.
  - by apply handleViewChangeMsg_inv.
Qed.

Lemma pbft_step_inv e e' :
  pbft_step e e' → admits P e → engine_inv P e → m_toView e < MAXVIEW → engine_inv P e'.
Proof.
  intros [] Ha Hi Hmax.
  - by apply onRecv_inv.
  - assert (engine_inv P (with_msgQueue q e0) ∧ bytes_ok (data p)) as [Hi' Hd].
    { destruct Hi as (H1 & H2 & H3 & H4). rewrite H in H4. apply list.Forall_cons in H4 as [? ?]. by split_and!. }
    by apply (handleMsg_inv p (with_msgQueue q e0)).
  - by apply checkTimeout_inv.
  - by apply handleFutureBlock_inv.
  - by apply collectGarbage_inv.
  - by apply shouldSeal_inv.
  - by apply generatePrepare_inv.
  - by apply reportBlock_inv.
  - done.
Qed.
End engine_invariant.
