(* ===== verification/PBFTExample.v ===== *)
(** * A concrete node

    A small world in which the engine's operations can be run: the chain is a
    list of blocks, executing a block leaves it as it is, the database is an
    association list and there are no network sessions. *)

From S2P Require Import Prelude RLP RLPFacts Hex Crypto PBFTMsg Transaction Block BlockFacts.
From S2P Require Import PBFTReqCache TimeManager PBFTMsgCache Engine PBFTEngine.

Local Open Scope Z_scope.

Record ExWorld := MkWorld { xw_chain : list Block; xw_db : list (bytes * bytes); xw_miners : list bytes }.

Definition ex_key (i : Z) : bytes := repeat (i + 1) 64.

(** Genesis and a block on top of it, sealed by node 0 of [miners]. *)
Definition ex_header (number : Z) (parent : bytes) (miners : list bytes) : BlockHeader :=
  MkHeader parent (zero_hash 32) (zero_hash 32) (zero_hash 32) (zero_hash bloom_size) number 0 0 1000 []
    0 miners h256_0.
Definition ex_block (number : Z) (parent : bytes) (miners : list bytes) : Block :=
  MkBlock (ex_header number parent miners) [] [] [] [] [] h256_0 h256_0.

Section example.
#[local] Existing Instance example_crypto.

Definition ex_hash (b : Block) : bytes :=
  match header_hash (m_blockHeader b) with Ok (h, _) => h | Throw _ => [] end.

Definition example_env : NodeEnv := {|
  W := ExWorld;
  bc_number w := Z.of_nat (length (xw_chain w)) - 1;
  bc_getBlockByHash w h := snd <$> list_find (λ b, ex_hash b = h) (xw_chain w);
  bc_getBlockByNumber w n := xw_chain w !! Z.to_nat n;
  bc_numberHash w n := from_option ex_hash h256_0 (xw_chain w !! Z.to_nat n);
  bc_minerList w := Ok (xw_miners w);
  bc_observerList _ := Ok [];
  bc_tx_count_limit _ _ := Ok 1000;
  bc_commitBlock w b _ := (true, MkWorld (xw_chain w ++ [b]) (xw_db w) (xw_miners w));
  bv_executeBlock _ b _ := Ok (b, Some 0%nat);
  p2p_sessions _ := [];
  p2p_isConnected _ _ := true;
  db_lookup w k := Ok (default [] (list_to_map (M:=gmap bytes bytes) (xw_db w) !! k));
  db_insert w k v := Ok (MkWorld (xw_chain w) ((k, v) :: xw_db w) (xw_miners w));
  disk_enough _ := true;
  clock n := 10 ^ 15 + Z.of_nat n * 10 ^ 6;
  sig_order m := map_to_list m;
  view_order c := (λ p, (fst p, map_to_list (snd p))) <$> map_to_list c;
  arith_of_string _ := 0;
|}.

Lemma example_env_laws : @NodeEnvLaws example_env.
Proof.
  split; [done|]. intros w k v w'. cbn. intros [= <-]. cbn. by rewrite lookup_insert_eq.
Qed.
#[local] Existing Instance example_env.

(** An engine of node 0 among [miners] that seals empty blocks, started on a
    chain that holds the genesis block. *)
Definition ex_world (miners : list bytes) : ExWorld := MkWorld [ex_block 0 h256_0 miners] [] miners.
Definition ex_engine (miners : list bytes) : Engine :=
  MkEngine 0 0 0 (ex_key 0) false false false false ∅ PBFTReqCache0 TimeManager0 [] false MAXTTL 0
    BlockHeader0 0 0 ObserverAccount 0 [] true false [] (ex_world miners) 0%nat [].
Definition ex_started (miners : list bytes) : Engine :=
  snd ((start;; reportBlock (ex_block 0 h256_0 miners)) (ex_engine miners)).

(** A single node commits the block it generates. *)
Definition ex_solo : list bytes := [ex_key 0].
Definition ex_next (miners : list bytes) : Block := ex_block 1 (ex_hash (ex_block 0 h256_0 miners)) miners.
Definition ex_committed : Engine := snd (generatePrepare (ex_next ex_solo) (ex_started ex_solo)).
End example.
