(* ===== verification/PBFTProps.v ===== *)
(** * Properties of the PBFT engine *)

From S2P Require Import Prelude RLP RLPFacts CodecFacts Hex Crypto PBFTMsg PBFTMsgFacts Transaction.
From S2P Require Import Block BlockFacts PBFTReqCache PBFTReqCacheFacts TimeManager PBFTMsgCache.
From S2P Require Import Engine PBFTEngine EngineFacts PBFTSafety PBFTInvariant PBFTExample.

Local Open Scope Z_scope.

(** A step from a state whose views are below the sentinel [MAXVIEW]. *)
Definition proper_step `{Crypto, NodeEnv} (e e' : Engine) : Prop :=
  pbft_step e e' ∧ m_view e < MAXVIEW ∧ m_toView e < MAXVIEW.

(** The same from [e0], with the states gone through, the latest first. *)
Inductive pbft_run `{Crypto, NodeEnv} (e0 : Engine) : list Engine → Engine → Prop :=
  | pr_init : pbft_run e0 [] e0
  | pr_step past e e' : pbft_run e0 past e → proper_step e e' → pbft_run e0 (e :: past) e'.

(** The keys that spoke for an index at the start or in a state of the run. *)
Definition known `{Crypto, NodeEnv} (P0 : bytes → Z → Prop) (past : list Engine) (pub : bytes) (i : Z) : Prop :=
  P0 pub i ∨ ∃ m, m ∈ past ∧ speaks m pub i.

Lemma run_ok `{NodeEnv} {A} (m : M A) e a : fst (m e) = Ok a → m e = (Ok a, snd (m e)).
Proof. intros Hm. rewrite <- Hm. by destruct (m e). Qed.

Lemma ex_step :
  @proper_step example_crypto example_env (ex_started ex_solo) ex_committed.
Proof.
  split; [apply (@ps_generate example_crypto example_env)|split; vm_compute; reflexivity].
Qed.

(** ** Quorums *)

Lemma resetConfig_sizes `{Crypto, NodeEnv} e e' :
  resetConfig e = (Ok (), e') →
  m_nodeNum e' = u16 (Z.of_nat (length (m_minerList e'))) ∧
  m_f e' = u16 ((m_nodeNum e' - 1) `quot` 3).
Proof.
  unfold resetConfig, mbind, M_bind, modify. cbn.
  destruct (updateConsensusNodeList _) as [[[]|] e1]; [|done].
  intros [= <-]. by destruct (getIndexByMiner _ _).
Qed.

(** The fault bound of [n] nodes. *)
Lemma fault_bound n : 0 < n < 2 ^ 16 → u16 ((n - 1) `quot` 3) = (n - 1) / 3 ∧ 3 * ((n - 1) / 3) < n.
Proof.
  intros Hn. rewrite Z.quot_div_nonneg by lia.
  assert (0 ≤ (n - 1) / 3 < 2 ^ 16) by (split; [apply Z.div_pos|apply Z.div_lt_upper_bound]; lia).
  rewrite u16_small by lia. split; [done|]. pose proof (Z.mul_div_le (n - 1) 3 ltac:(lia)). lia.
Qed.

(** C21. After [resetConfig], any two sets of [minValidNodes] miners share more
    than [m_f] miners, so at least one that is not faulty, and the fault bound
    is less than a third of the miners. *)
Theorem quorum_intersection `{Crypto, NodeEnv} e e' (A B : gset Z) :
  resetConfig e = (Ok (), e') → 0 < Z.of_nat (length (m_minerList e')) < 2 ^ 16 →
  A ⊆ list_to_set (seqZ 0 (Z.of_nat (length (m_minerList e')))) →
  B ⊆ list_to_set (seqZ 0 (Z.of_nat (length (m_minerList e')))) →
  minValidNodes e' ≤ Z.of_nat (size A) → minValidNodes e' ≤ Z.of_nat (size B) →
  3 * m_f e' < m_nodeNum e' ∧ m_f e' < Z.of_nat (size (A ∩ B)).
Proof.
  intros Hr Hn HA HB Ha Hb. destruct (resetConfig_sizes e e' Hr) as [En Ef].
  set (n := Z.of_nat (length (m_minerList e'))) in *. rewrite u16_small in En by lia.
  rewrite En in *. destruct (fault_bound n Hn) as [Eq H3]. rewrite Eq in Ef.
  unfold minValidNodes in *. rewrite En, Ef in *.
  assert (0 ≤ (n - 1) / 3) by (apply Z.div_pos; lia). rewrite u16_small in Ha, Hb by lia.
  assert (size (A ∪ B) ≤ Z.to_nat n)%nat as Hu.
  { etrans; [apply (subseteq_size _ (list_to_set (seqZ 0 n))); set_solver|].
    rewrite size_list_to_set by apply NoDup_seqZ. by rewrite length_seqZ. }
  pose proof (size_union_alt A B). pose proof (size_difference_alt B A) as Hd.
  assert (size (B ∖ A) = size B - size (A ∩ B))%nat as Hd'.
  { rewrite size_difference_alt. f_equal. f_equal. set_solver. }
  assert (size (A ∩ B) ≤ size B)%nat by (apply subseteq_size; set_solver).
  split; lia.
Qed.

Lemma quorum_intersection_witness :
  let miners := [ex_key 0; ex_key 1; ex_key 2; ex_key 3] in
  let e' := snd (@resetConfig example_crypto example_env (ex_started miners)) in
  @m_f example_env e' = 1 ∧ @minValidNodes example_env e' = 3 ∧
  @m_f example_env e' < Z.of_nat (size ({[0; 1; 2]} ∩ {[1; 2; 3]} : gset Z)).
Proof.
  set (miners := [ex_key 0; ex_key 1; ex_key 2; ex_key 3]).
  split; [vm_compute; reflexivity|split; [vm_compute; reflexivity|]].
  apply (@quorum_intersection example_crypto example_env (ex_started miners) _ {[0; 1; 2]} {[1; 2; 3]}).
  - apply run_ok. vm_compute. reflexivity.
  - split; vm_compute; reflexivity.
  - apply (bool_decide_unpack _). vm_compute. exact I.
  - apply (bool_decide_unpack _). vm_compute. exact I.
  - vm_compute. discriminate.
  - vm_compute. discriminate.
Defined.

(** ** Safety *)

(** C1. Commit lock: along every run, the height a node has committed to never
    decreases, and as long as it stays the same so does the block hash that the
    node has committed to; the current height never decreases either. *)
Theorem commit_lock `{Crypto, NodeEnv} e e' :
  star proper_step e e' → lock_inv e → lock_inv e' ∧ locked e e'.
Proof.
  induction 1 as [e|e e1 e' (Hst & Hv & _) _ IH]; intros Hi; [done|].
  destruct (pbft_step_lock e e1 Hst Hi Hv) as [Hi1 Hl].
  destruct (IH Hi1) as [Hi' Hl']. split; [done|by eapply locked_trans].
Qed.

Lemma ex_started_lock : @lock_inv example_env (ex_started ex_solo).
Proof. split_and!; vm_compute; congruence. Qed.

Lemma commit_lock_witness :
  @locked example_env (ex_started ex_solo) ex_committed ∧
  pr_height (@committed example_env ex_committed) = 1.
Proof.
  split; [|vm_compute; reflexivity].
  apply (@commit_lock example_crypto example_env); [apply star_one, ex_step|apply ex_started_lock].
Defined.

(** C3. Along every run the engine keeps its invariant: every cached sign,
    commit and view-change request carries a signature of its block hash and
    one of its other fields, both by the key that, in a state the node went
    through, was that of the miner whose index the request carries, or by the
    node's own key with its own index; requests sit under the keys their fields
    determine, the current view is at most the view being changed to, and queued
    packets hold bytes. [P0] tells the keys of the requests cached at the start;
    a fresh engine has none. *)
Theorem engine_invariant `{Crypto, !CryptoLaws, NodeEnv} P0 e0 past e :
  pbft_run e0 past e → engine_inv P0 e0 → engine_inv (known P0 past) e.
Proof.
  intros Hr Hi. induction Hr as [|past e e' _ IH (Hst & _ & Hv)].
  - eapply engine_inv_mono; [|exact Hi]. by left.
  - eapply pbft_step_inv; [exact Hst| |eapply engine_inv_mono; [|exact IH]|done].
    + intros pub i Hs. right. exists e. split; [by left|done].
    + intros pub i [|(m & Hm & Hs)]; [by left|]. right. exists m. split; [by right|done].
Qed.

Lemma ex_engine_inv P miners : @engine_inv example_crypto example_env P (ex_engine miners).
Proof.
  split; [|split; [done|split; [done|apply Forall_nil_2]]].
  split; [apply cache0_wf|split_and!; apply all_signed_empty].
Qed.

(** A node of four miners hears of the first block and seals the next. *)
Definition ex_four : list bytes := [ex_key 0; ex_key 1; ex_key 2; ex_key 3].
Definition ex_reported : Engine :=
  snd (@reportBlock example_crypto example_env (ex_block 0 h256_0 ex_four) (ex_engine ex_four)).
Definition ex_sealed : Engine := snd (@generatePrepare example_crypto example_env (ex_next ex_four) ex_reported).

Lemma ex_sealed_run : @pbft_run example_crypto example_env (ex_engine ex_four) [ex_reported; ex_engine ex_four] ex_sealed.
Proof.
  eapply pr_step; [eapply pr_step; [apply pr_init|]|].
  - split; [apply (@ps_report example_crypto example_env)|split; vm_compute; reflexivity].
  - split; [apply (@ps_generate example_crypto example_env)|split; vm_compute; reflexivity].
Qed.

Lemma engine_invariant_witness :
  size (m_signCache (@m_reqCache example_env ex_sealed)) = 1%nat ∧
  @engine_inv example_crypto example_env
    (@known example_crypto example_env (λ _ _, False) [ex_reported; ex_engine ex_four]) ex_sealed.
Proof.
  split; [vm_compute; reflexivity|].
  apply (@engine_invariant example_crypto example_crypto_laws example_env _ (ex_engine ex_four));
    [apply ex_sealed_run|apply ex_engine_inv].
Defined.

(** ** Commit *)

Lemma from_sigs_nodup cache h m :
  sig_wf cache → cache !! h = Some m → NoDup ((λ p, sig (snd p)) <$> map_to_list m).
Proof.
  intros Hw Hm. eapply (NoDup_fmap_1 toHex).
  rewrite <- list_fmap_compose. replace (_ <$> map_to_list m) with (fst <$> map_to_list m).
  - apply NoDup_fst_map_to_list.
  - apply list_fmap_ext. intros i [k r] Hi. simpl.
    apply list_elem_of_lookup_2, elem_of_map_to_list in Hi.
    by destruct (Hw h k r) as (_ & -> & _); [exists m|].
Qed.

(** The list made from the commit requests of one block. *)
Definition sig_list (o : list (bytes * PBFTMsg)) : list (Z * bytes) :=
  (λ p, (idx (snd p), sig (snd p))) <$> o.

Lemma commit_sigs `{Crypto, NodeEnv, !NodeEnvLaws} P cache h m :
  sig_wf cache → all_signed P cache → cache !! h = Some m →
  let l := sig_list (sig_order m) in
  l ≡ₚ sig_list (map_to_list m) ∧ length l = size m ∧ NoDup (snd <$> l) ∧
  Forall (λ p, ∃ pub, P pub (fst p) ∧ verify pub (snd p) h = true) l.
Proof.
  intros Hw Hs Hm. pose proof (sig_order_perm m) as Hp. unfold sig_list. cbv zeta. split_and!.
  - by rewrite Hp.
  - rewrite length_fmap. rewrite <- length_map_to_list. by apply Permutation_length.
  - rewrite <- list_fmap_compose. rewrite Hp. by apply (from_sigs_nodup cache h).
  - apply Forall_fmap, list.Forall_forall. intros [k r] Hr. simpl. rewrite Hp in Hr.
    apply elem_of_map_to_list in Hr. assert (cached cache h k r) as Hr' by by exists m.
    destruct (Hs h k r Hr') as (pub & f & Hk & Hv & _). destruct (Hw h k r Hr') as (<- & _). by exists pub.
Qed.

Lemma cleared_hash `{NodeEnv} c h (e : Engine) :
  pr_hash (prepared (with_reqCache (delCache (clearAllExceptCommitCache c) h) e)) = h256_0.
Proof. unfold prepared, delCache. cbn [m_reqCache with_reqCache]. by case_decide. Qed.

(** What [checkAndSave] does once the guard and the decoding have passed. *)
Lemma checkAndSave_commit `{Crypto, NodeEnv} e r e' :
  checkAndSave e = (r, e') → e_events e' ≠ e_events e →
  let p := prepared e in
  (minValidNodes e ≤ getSigCacheSize (m_reqCache e) (pr_hash p) ∧
   minValidNodes e ≤ getCommitCacheSize (m_reqCache e) (pr_hash p) ∧
   pr_view p = m_view e ∧ m_number (m_highestBlock e) < pr_height p) ∧
  pr_hash (prepared e') = h256_0 ∧
  ∃ b l ok, block_decode (pr_block p) = Ok b ∧
    generateAndSetSigList sig_order (m_reqCache e) (minValidNodes e) = Ok l ∧
    EvCommit (from_option (setSigList b) b l) (p_execContext p) ok ∈ e_events e'.
Proof.
  unfold checkAndSave. unfold mbind, M_bind, get, lift, modify, emit, upd_cache. cbn [id].
  case_bool_decide as Hq; [|by intros [= <- <-]]. cbn [when].
  destruct (block_decode _) as [b|] eqn:Eb; [|by intros [= <- <-]].
  destruct (generateAndSetSigList _ _ _) as [l|] eqn:El; [|by intros [= <- <-]].
  destruct (bc_commitBlock _ _ _) as [ok w]. intros He _. cbv zeta. split; [done|].
  assert (e' = snd (r, e')) as Ee by done. rewrite <- He in Ee. clear He.
  split; [destruct ok; rewrite Ee; apply cleared_hash|].
  exists b, l, ok. split; [done|split; [done|]].
  destruct ok; rewrite Ee; [right; left|right; right; left].
Qed.

(** C2. A node hands a block to the chain only when it holds, for the prepared
    block and in the current view, sign requests and commit requests with at
    least [minValidNodes] different signatures each, and the block is above the
    highest one; the block handed over is the prepared one with a signature list
    that has one entry for each cached commit request of its hash, no other, all
    signatures different, each verifying on that hash under a key that speaks
    for the index it is listed with (as the invariant of the cache has it); and
    the prepared request is cleared. *)
Theorem commit_needs_quorum `{Crypto, NodeEnv, !NodeEnvLaws} P e r e' :
  engine_inv P e → 0 < minValidNodes e →
  checkAndSave e = (r, e') → e_events e' ≠ e_events e →
  minValidNodes e ≤ getSigCacheSize (m_reqCache e) (pr_hash (prepared e)) ∧
  pr_view (prepared e) = m_view e ∧ m_number (m_highestBlock e) < pr_height (prepared e) ∧
  pr_hash (prepared e') = h256_0 ∧
  ∃ b m l ok, block_decode (pr_block (prepared e)) = Ok b ∧
    m_commitCache (m_reqCache e) !! pr_hash (prepared e) = Some m ∧ l ≡ₚ sig_list (map_to_list m) ∧
    EvCommit (setSigList b l) (p_execContext (prepared e)) ok ∈ e_events e' ∧
    minValidNodes e ≤ Z.of_nat (length l) ∧ NoDup (snd <$> l) ∧
    Forall (λ p, ∃ pub, P pub (fst p) ∧ verify pub (snd p) (pr_hash (prepared e)) = true) l.
Proof.
  intros (((_ & Hw & _) & _ & Hs & _) & _) Hpos Hc He.
  destruct (checkAndSave_commit e r e' Hc He) as ((Q1 & Q2 & Q3 & Q4) & Q5 & b & l & ok & Hb & Hl & Hev).
  split_and!; try done. unfold getCommitCacheSize, getSizeFromCache in Q2.
  destruct (m_commitCache (m_reqCache e) !! pr_hash (prepared e)) as [m|] eqn:Em; [|lia].
  rewrite (generateAndSetSigList_wf _ _ _ m Hw Em (sig_order_perm m)) in Hl.
  rewrite decide_False in Hl by lia. injection Hl as <-.
  destruct (commit_sigs P _ _ m Hw Hs Em) as (L0 & L1 & L2 & L3).
  exists b, m, (sig_list (sig_order m)), ok. split_and!; try done. rewrite L1. lia.
Qed.

(** The state of a single node that has prepared and signed its block: the
    commit request is in the cache, the block is not saved yet. *)
Definition ex_msg : PBFTMsg :=
  match @PBFTMsg_new example_crypto (ex_key 0) 1 0 0 (ex_hash (ex_next ex_solo)) 7 with
  | Ok m => m | Throw _ => PBFTMsg0
  end.
Definition ex_prepare : PrepareReq :=
  match @block_encode example_crypto (ex_next ex_solo) with
  | Ok (enc, _) => MkPrepare ex_msg enc (Some 0%nat) | Throw _ => PrepareReq0
  end.
Definition ex_prepared : Engine :=
  @with_reqCache example_env
    (addCommitReq (addSignReq (addPrepareReq (addRawPrepare PBFTReqCache0 ex_prepare) ex_prepare) ex_msg) ex_msg)
    (ex_started ex_solo).

(** The only speaker is the node. *)
Definition ex_speaker (pub : bytes) (i : Z) : Prop := @speaks example_crypto example_env (ex_started ex_solo) pub i.

Lemma ex_msg_signed : @signed_req example_crypto ex_speaker ex_msg.
Proof.
  assert (@PBFTMsg_new example_crypto (@m_key example_env (ex_started ex_solo)) 1 0
    (@m_idx example_env (ex_started ex_solo)) (ex_hash (ex_next ex_solo)) 7 = Ok ex_msg) as Hm
    by (vm_compute; reflexivity).
  eapply (@PBFTMsg_new_signed example_crypto example_crypto_laws example_env), Hm. by intros pub i.
Qed.

Lemma ex_prepared_inv : @engine_inv example_crypto example_env ex_speaker ex_prepared.
Proof.
  split; [|split; [vm_compute; discriminate|split; [vm_compute; discriminate|]]].
  - apply cache_inv_addCommit, cache_inv_addSign, cache_inv_addPrepare, cache_inv_addRaw;
      try apply ex_msg_signed. split; [apply cache0_wf|split_and!; apply all_signed_empty].
  - assert (@m_msgQueue example_env ex_prepared = []) as -> by (vm_compute; reflexivity). apply Forall_nil_2.
Qed.

Lemma commit_needs_quorum_witness :
  ∃ b l ok, @block_decode example_crypto (pr_block ex_prepare) = Ok b ∧
    EvCommit (setSigList b l) (Some 0%nat) ok
      ∈ @e_events example_env (snd (@checkAndSave example_crypto example_env ex_prepared)) ∧
    NoDup (snd <$> l) ∧ Forall (λ p, ∃ pub, ex_speaker pub (fst p) ∧ @verify example_crypto pub (snd p) (pr_hash ex_prepare) = true) l.
Proof.
  assert (@prepared example_env ex_prepared = ex_prepare) as Hp by reflexivity.
  assert (p_execContext ex_prepare = Some 0%nat) as Hx by (vm_compute; reflexivity).
  pose proof (@commit_needs_quorum example_crypto example_env example_env_laws ex_speaker ex_prepared _
    _ ex_prepared_inv ltac:(vm_compute; reflexivity) (surjective_pairing _)
    ltac:(intros Hc; apply (f_equal length) in Hc; vm_compute in Hc; discriminate Hc)) as Hw.
  rewrite Hp, Hx in Hw. destruct Hw as (_ & _ & _ & _ & b & m & l & ok & H1 & _ & _ & H2 & _ & H3 & H4).
  exists b, l, ok. exact (conj H1 (conj H2 (conj H3 H4))).
Defined.
