(* ===== verification/PBFTFunctional.v ===== *)
(** * Functional behaviour of the PBFT engine

    Who leads which view, what a broadcast sends, what survives a restart, and
    what the check of a synchronised block establishes. *)

From S2P Require Import Prelude RLP RLPFacts CodecFacts Hex Crypto PBFTMsg PBFTMsgFacts Transaction.
From S2P Require Import Block BlockFacts PBFTReqCache TimeManager PBFTMsgCache Engine PBFTEngine.
From S2P Require Import EngineFacts PBFTExample.

Local Open Scope Z_scope.

(** ** Leaders *)

(** C30. The leader of a view is a miner index, the next view is led by the next
    miner in cyclic order, and among any [m_nodeNum] consecutive views every
    miner leads exactly one. *)
Theorem leader_rotation `{NodeEnv} e i :
  m_cfgErr e = false → m_leaderFailed e = false → m_sealer (m_highestBlock e) ≠ Invalid256 →
  0 < m_nodeNum e < 2 ^ 16 → 0 ≤ m_view e → 0 ≤ m_number (m_highestBlock e) →
  m_view e + m_number (m_highestBlock e) + m_nodeNum e < 2 ^ 63 → 0 ≤ i < m_nodeNum e →
  ∃ k, 0 ≤ k < m_nodeNum e ∧
    ∀ j, 0 ≤ j < m_nodeNum e →
      getLeader (with_view (m_view e + j) e) = Ok (Some i) ↔ j = k.
Proof.
  intros Hc Hf Hs Hn Hv Hb Hsum Hi. set (n := m_nodeNum e) in *. set (s := m_view e + m_number (m_highestBlock e)).
  assert (∀ j, 0 ≤ j < n → getLeader (with_view (m_view e + j) e) = Ok (Some ((s + j) `mod` n))) as Hl.
  { intros j Hj. unfold getLeader. cbn [m_cfgErr m_leaderFailed m_highestBlock m_view m_nodeNum with_view].
    rewrite Hc, Hf. simpl. rewrite bool_decide_eq_false_2 by done. unfold add_i64.
    rewrite decide_True by (unfold s in *; lia). rewrite bind_ok, throw_if_false, bind_ok by (fold n; lia).
    fold n. rewrite Z.rem_mod_nonneg by (unfold s; lia).
    replace (m_view e + j + m_number (m_highestBlock e)) with (s + j) by (unfold s; lia).
    pose proof (Z.mod_pos_bound (s + j) n ltac:(lia)). by rewrite u16_small by lia. }
  exists ((i - s) `mod` n). pose proof (Z.mod_pos_bound (i - s) n ltac:(lia)) as Hk. split; [done|].
  intros j Hj. rewrite Hl by done. split.
  - intros [= E]. rewrite <- (Z.mod_small j n) by done.
    replace (i - s) with ((s + j) `mod` n - s) by lia. by rewrite Zminus_mod_idemp_l; f_equal; lia.
  - intros ->. do 2 f_equal. rewrite Zplus_mod_idemp_r. replace (s + (i - s)) with i by lia. by apply Z.mod_small.
Qed.

Lemma leader_rotation_witness :
  let e := ex_started [ex_key 0; ex_key 1; ex_key 2; ex_key 3] in
  ∃ k, 0 ≤ k < @m_nodeNum example_env e ∧
    ∀ j, 0 ≤ j < @m_nodeNum example_env e →
      @getLeader example_env (with_view (m_view e + j) e) = Ok (Some 3) ↔ j = k.
Proof.
  apply (@leader_rotation example_env); vm_compute; try reflexivity; try discriminate;
    split; (reflexivity || discriminate).
Defined.

(** ** Decoding into a request *)

Lemma fill_run {A} rlp m c i (rd : bytes → res A) upd k f c1 a :
  rlp_index rlp c i = Ok (f, c1) → rd f = Ok a → fill rlp m c i rd upd k = k (upd a) c1.
Proof. intros Hi Hr. unfold fill. by rewrite Hi, bind_ok, Hr. Qed.

Lemma msg_fill_populate x m c m0 : msg_populate x = Ok (m, c) → msg_fill x m0 = (m, Ok c).
Proof.
  unfold msg_populate. intros Hp. inv_ok.
  repeat (match goal with x : (_ * _)%type |- _ => destruct x end; inv_ok). simplify_eq.
  unfold msg_fill. repeat (erewrite fill_run by eassumption). done.
Qed.

Lemma prepare_decode_into_ok d i r r0 :
  prepare_decode d i = Ok r →
  prepare_decode_into r0 d i = (MkPrepare (pr_msg r) (pr_block r) (p_execContext r0), Ok ()).
Proof.
  unfold prepare_decode, prepare_decode_into, prepare_populate. intros Hp. inv_ok.
  repeat (match goal with x : (_ * _)%type |- _ => destruct x end; inv_ok). subst.
  unfold prepare_fill. rewrite E. cbn [mbind res_bind]. rewrite E0. cbn [mbind res_bind].
  rewrite (msg_fill_populate _ _ _ (pr_msg r0) E1). rewrite E2. cbn [mbind res_bind]. by rewrite E3.
Qed.

(** ** Restart *)

(** C28. What was committed survives a restart: when the backup of a request with
    in-range fields reached the database, an engine that later reloads from it
    holds that request as its committed one, block included. *)
Theorem backup_restore `{NodeEnv, !NodeEnvLaws} r e w' e2 :
  msg_ok (pr_msg r) → 0 ≤ height (pr_msg r) < 2 ^ 32 → 0 ≤ view (pr_msg r) < 2 ^ 32 →
  bytes_ok (pr_block r) → len (pr_block r) < 2 ^ 61 →
  m_backupDB e = true → m_backupDB e2 = true →
  (∀ d, db_insert (e_world e) c_backupKeyCommitted d = Ok (w' d)) →
  e_world e2 = e_world (snd (backupMsg c_backupKeyCommitted r e)) →
  ∃ e3, reloadMsg c_backupKeyCommitted e2 = (Ok (), e3) ∧
    m_committedPrepareCache (m_reqCache e3) =
      MkPrepare (pr_msg r) (pr_block r) (p_execContext (m_committedPrepareCache (m_reqCache e2))).
Proof.
  intros Hm Hh Hv Hb Hl Hdb Hdb2 Hins Hw.
  destruct (prepare_roundtrip r Hm Hb Hl) as (d & Hd & Hdec & Hdok & Hdne).
  rewrite (proj2 (truncate_id_iff (pr_msg r))) in Hdec by done.
  assert (e_world e2 = w' (toHex d)) as Hw2.
  { rewrite Hw. unfold backupMsg, mbind, M_bind, get, lift, when. rewrite Hdb, Hd. unfold try_catch.
    rewrite Hins. done. }
  unfold reloadMsg, mbind, M_bind, get, lift, when. rewrite Hdb2. unfold try_catch.
  rewrite Hw2, (db_insert_lookup _ _ _ _ (Hins (toHex d))), (hex_roundtrip _ _ Hdok), decide_False by done.
  rewrite (prepare_decode_into_ok _ _ _ (m_committedPrepareCache (m_reqCache e2)) Hdec).
  eexists. split; reflexivity.
Qed.

Lemma backup_restore_witness :
  let r := MkPrepare (MkMsg 5 1 3 9 h256_0 sig_0 sig_0) [1; 2; 3] (Some 1%nat) in
  let e := @with_backupDB example_env true (ex_engine ex_solo) in
  let e2 := @with_world example_env
    (e_world (snd (@backupMsg example_env c_backupKeyCommitted r e))) e in
  ∃ e3, @reloadMsg example_env c_backupKeyCommitted e2 = (Ok (), e3) ∧
    m_committedPrepareCache (m_reqCache e3) = MkPrepare (MkMsg 5 1 3 9 h256_0 sig_0 sig_0) [1; 2; 3] None.
Proof.
  set (r := MkPrepare (MkMsg 5 1 3 9 h256_0 sig_0 sig_0) [1; 2; 3] (Some 1%nat)).
  set (e := @with_backupDB example_env true (ex_engine ex_solo)).
  apply (@backup_restore example_env example_env_laws r e
    (λ d, MkWorld (xw_chain (ex_world ex_solo)) [(c_backupKeyCommitted, d)] ex_solo)); try reflexivity.
  - unfold msg_ok. cbn [pr_msg r height view idx timestamp block_hash sig sig2].
    assert (∀ n, bytes_ok (replicate n 0)) as Hz by (intros n; apply Forall_replicate; unfold is_byte; lia).
    repeat split; try lia; try (vm_compute; done); apply Hz.
  - cbn. lia.
  - cbn. lia.
  - repeat constructor; unfold is_byte; lia.
Defined.

(** ** Broadcasts *)

(** What one session adds: at most one message, to a miner that is neither
    filtered nor marked. *)
Definition sent_to `{NodeEnv} (e : Engine) (t : Z) (k d : bytes) (flt : list bytes) (l : Z) (n : bytes)
    (ev : event) : Prop :=
  (∃ msg, ev = EvSend n msg ∧ transDataToMessage e d t l = Ok msg) ∧
  getIndexByMiner (m_minerList e) n ≠ None ∧ ¬ (n ∈ flt) ∧ keyExists (m_broadCastCache e) n t k = false.

Definition marked `{NodeEnv} (e : Engine) (t : Z) (k : bytes) (n : bytes) : Prop :=
  keyExists (m_broadCastCache e) n t k = true.

(** The state a broadcast leaves alone. *)
Definition same_peers `{NodeEnv} (e e' : Engine) : Prop :=
  e_world e' = e_world e ∧ m_minerList e' = m_minerList e ∧ maxTTL e' = maxTTL e.

Lemma mark_spec `{NodeEnv} n t k e :
  broadcast_ok (m_broadCastCache e) → known_types t →
  let e' := snd (broadcastMark n t k e) in
  same_peers e e' ∧ e_events e' = e_events e ∧ broadcast_ok (m_broadCastCache e') ∧ marked e' t k n ∧
  ∀ n', n' ≠ n → keyExists (m_broadCastCache e') n' t k = keyExists (m_broadCastCache e) n' t k.
Proof.
  intros Hb Ht. unfold broadcastMark, modify, same_peers, marked. cbn [snd].
  destruct (keyExists (m_broadCastCache e) n t k) eqn:Ek; [by split_and!|].
  cbn [m_broadCastCache with_broadCastCache].
  split_and!; try done; [by apply insertKey_ok|by apply insertKey_exists|].
  intros n' Hn. by apply insertKey_other.
Qed.

Lemma broadcastTo_spec `{NodeEnv} t k d flt l n e e' :
  broadcast_ok (m_broadCastCache e) → known_types t → broadcastTo t k d flt l n e = (Ok (), e') →
  same_peers e e' ∧ broadcast_ok (m_broadCastCache e') ∧
  (getIndexByMiner (m_minerList e) n ≠ None → marked e' t k n) ∧
  (∀ n', n' ≠ n → keyExists (m_broadCastCache e') n' t k = keyExists (m_broadCastCache e) n' t k) ∧
  (marked e t k n → marked e' t k n) ∧
  (e_events e' = e_events e ∨
   ∃ ev, e_events e' = ev :: e_events e ∧ sent_to e t k d flt l n ev ∧ marked e' t k n).
Proof.
  intros Hb Ht. unfold broadcastTo, broadcastFilter, mbind, M_bind, get, query. cbn [id].
  case_decide as H1; [by intros [= <-]; split_and!; auto|]. case_decide as H2.
  { intros He. pose proof (mark_spec n t k e Hb Ht) as (M1 & M2 & M3 & M4 & M5). rewrite He in *.
    split_and!; auto. }
  destruct (keyExists (m_broadCastCache e) n t k) eqn:H3; [by intros [= <-]; split_and!; auto|].
  destruct (transDataToMessage e d t l) as [msg|] eqn:H4; [|done]. cbn [emit modify].
  intros He. pose proof (mark_spec n t k (with_events (EvSend n msg :: e_events e) e) Hb Ht)
    as (M1 & M2 & M3 & M4 & M5). unfold emit, modify in He. rewrite He in *.
  split_and!; auto. right. exists (EvSend n msg). split; [done|split; [|done]].
  split_and!; try done. by exists msg.
Qed.

Definition target `{NodeEnv} (ev : event) : option bytes :=
  match ev with EvSend n _ => Some n | _ => None end.

Lemma sent_to_back `{NodeEnv} e e1 t k d flt l n ev :
  same_peers e e1 → (marked e t k n → marked e1 t k n) →
  sent_to e1 t k d flt l n ev → sent_to e t k d flt l n ev.
Proof.
  intros (_ & Hm & Ht) Hk ((msg & -> & Htr) & H1 & H2 & H3). unfold sent_to. rewrite <- Hm.
  split_and!; try done.
  - exists msg. split; [done|]. unfold transDataToMessage in *. by rewrite <- Ht.
  - apply not_true_is_false. intros E. apply Hk in E. unfold marked in E. congruence.
Qed.

Lemma broadcast_loop `{NodeEnv} t k d flt l L e e' :
  broadcast_ok (m_broadCastCache e) → known_types t →
  for_each L (broadcastTo t k d flt l) e = (Ok (), e') →
  same_peers e e' ∧
  (∀ n, n ∈ L → getIndexByMiner (m_minerList e) n ≠ None → marked e' t k n) ∧
  (∀ n, marked e t k n → marked e' t k n) ∧
  ∃ evs, e_events e' = evs ++ e_events e ∧ NoDup (target <$> evs) ∧
    Forall (λ ev, ∃ n, n ∈ L ∧ sent_to e t k d flt l n ev) evs.
Proof.
  intros Hb Ht. revert e Hb. induction L as [|n L IH]; intros e Hb Hf.
  { injection Hf as <-. split_and!; try done; [set_solver|]. exists []. split_and!; [done|constructor|constructor]. }
  cbn [for_each] in Hf. unfold mbind, M_bind in Hf.
  destruct (broadcastTo t k d flt l n e) as [[[]|] e1] eqn:E1; [|done].
  destruct (broadcastTo_spec _ _ _ _ _ _ _ _ Hb Ht E1) as (S1 & S2 & S3 & S4 & S5 & S6).
  destruct (IH e1 S2 Hf) as (I1 & I2 & I3 & evs & I4 & I5 & I6).
  assert (∀ n', marked e t k n' → marked e1 t k n') as Hmono.
  { intros n' Hn. destruct (decide (n' = n)) as [->|]; [auto|]. unfold marked. by rewrite S4. }
  assert (Forall (λ ev, ∃ n', n' ∈ n :: L ∧ sent_to e t k d flt l n' ev) evs) as Hback.
  { eapply list.Forall_impl; [exact I6|]. intros ev (n' & Hn' & Hs). exists n'. split; [by right|].
    eapply sent_to_back; eauto. }
  split_and!.
  - destruct S1 as (? & ? & ?), I1 as (? & ? & ?). split_and!; congruence.
  - intros n' [->|Hn']%elem_of_cons Hi; [auto|]. apply I2; [done|]. by destruct S1 as (_ & -> & _).
  - auto.
  - destruct S6 as [E|(ev & E & Hs & Hm)].
    { exists evs. rewrite I4, E. by split_and!. }
    exists (evs ++ [ev]). rewrite I4, E, <- app_assoc, fmap_app. split; [done|].
    destruct Hs as [(msg & -> & Htr) Hs]. split.
    + apply list.NoDup_app. split; [done|split; [|apply NoDup_singleton]].
      intros x Hx ->%list_elem_of_singleton. apply list_elem_of_fmap in Hx as (ev' & Hx & Hin).
      rewrite list.Forall_forall in I6. destruct (I6 _ Hin) as (n' & _ & (msg' & -> & _) & _ & _ & Hk).
      injection Hx as <-. unfold marked in Hm. congruence.
    + apply Forall_app. split; [done|]. apply Forall_singleton. exists n. split; [left|]. split; [by exists msg|done].
Qed.

(** Everybody marked: nothing is sent. *)
Lemma broadcast_marked `{NodeEnv} t k d flt l L e :
  (∀ n, n ∈ L → getIndexByMiner (m_minerList e) n ≠ None → marked e t k n) →
  for_each L (broadcastTo t k d flt l) e = (Ok (), e).
Proof.
  intros Hm. induction L as [|n L IH]; [done|]. cbn [for_each]. unfold mbind, M_bind.
  assert (broadcastTo t k d flt l n e = (Ok (), e)) as ->; [|apply IH; set_solver].
  unfold broadcastTo, broadcastMark, broadcastFilter, mbind, M_bind, get, modify. cbn [id].
  case_decide as H1; [done|]. assert (keyExists (m_broadCastCache e) n t k = true) as Hk.
  { apply Hm; [left|done]. }
  rewrite Hk. case_decide; [by rewrite Hk|done].
Qed.

(** C29. A broadcast sends its packet only to sessions of miners that are not in
    the filter and were not sent this key before, to each at most once, and a
    second broadcast of the same key to the same sessions sends nothing. *)
Theorem broadcast_once `{NodeEnv} t k d flt l e e1 d' flt' l' :
  broadcast_ok (m_broadCastCache e) → known_types t → broadcastMsg t k d flt l e = (Ok true, e1) →
  (∃ evs, e_events e1 = evs ++ e_events e ∧ NoDup (target <$> evs) ∧
     Forall (λ ev, ∃ n, n ∈ p2p_sessions (e_world e) ∧ sent_to e t k d flt l n ev) evs) ∧
  e_events (snd (broadcastMsg t k d' flt' l' e1)) = e_events e1.
Proof.
  intros Hb Ht. unfold broadcastMsg, mbind, M_bind, get, modify. cbn [id].
  set (e0 := with_connectedNode _ e). destruct (for_each _ _ e0) as [[[]|] e'] eqn:Ef; [|done]. intros [= <-].
  destruct (broadcast_loop t k d flt l _ e0 e' Hb Ht Ef) as ((P1 & P2 & P3) & L1 & _ & evs & L2 & L3 & L4).
  split; [by exists evs|]. rewrite P1.
  set (e2 := with_connectedNode _ e').
  rewrite (broadcast_marked t k d' flt' l' _ e2); [done|].
  intros n Hn Hi. apply (L1 n); [done|]. by rewrite <- P2.
Qed.

(** Two peers, one of them a miner. *)
Definition ex_peers_env : NodeEnv := {|
  W := ExWorld;
  bc_number := @bc_number example_env; bc_getBlockByHash := @bc_getBlockByHash example_env;
  bc_getBlockByNumber := @bc_getBlockByNumber example_env; bc_numberHash := @bc_numberHash example_env;
  bc_minerList := @bc_minerList example_env; bc_observerList := @bc_observerList example_env;
  bc_tx_count_limit := @bc_tx_count_limit example_env; bc_commitBlock := @bc_commitBlock example_env;
  bv_executeBlock := @bv_executeBlock example_env;
  p2p_sessions _ := [ex_key 1; ex_key 2];
  p2p_isConnected := @p2p_isConnected example_env; db_lookup := @db_lookup example_env;
  db_insert := @db_insert example_env; disk_enough := @disk_enough example_env; clock := @clock example_env;
  sig_order := @sig_order example_env; view_order := @view_order example_env;
  arith_of_string := @arith_of_string example_env;
|}.
Definition ex_peer_engine : @Engine ex_peers_env :=
  @MkEngine ex_peers_env 0 0 0 (ex_key 0) false false false false ∅ PBFTReqCache0 TimeManager0 [] false MAXTTL 0
    BlockHeader0 2 0 MinerAccount 0 [ex_key 0; ex_key 1] true false [] (ex_world []) 0%nat [].

Lemma broadcast_once_witness :
  let e1 := snd (@broadcastMsg ex_peers_env 1 [7] [8; 9] [] 0 ex_peer_engine) in
  length (@e_events ex_peers_env e1) = 1%nat ∧
  e_events (snd (@broadcastMsg ex_peers_env 1 [7] [8; 9] [] 0 e1)) = e_events e1.
Proof.
  split; [vm_compute; reflexivity|].
  apply (@broadcast_once ex_peers_env 1 [7] [8; 9] [] 0 ex_peer_engine).
  - apply map_Forall_empty.
  - unfold known_types; lia.
  - assert (fst (@broadcastMsg ex_peers_env 1 [7] [8; 9] [] 0 ex_peer_engine) = Ok true) as Hm
      by (vm_compute; reflexivity).
    rewrite <- Hm. apply surjective_pairing.
Defined.

(** ** Forwarding *)

(** A packet is forwarded with its ttl lowered by one (modulo 256), never to
    the peer it came from nor to the miner it originates from, and not at all
    when its ttl is 1. *)
Theorem forward_ttl `{NodeEnv} p m e e' :
  broadcast_ok (m_broadCastCache e) → known_types (packet_id p) → 0 ≤ ttl p < 256 →
  forwardMsg p m e = (Ok (), e') →
  (ttl p = 1 → e' = e) ∧
  ∃ evs, e_events e' = evs ++ e_events e ∧
    Forall (λ ev, ∃ n msg, ev = EvSend n msg ∧
      packet_encode (MkPacket 0 h512_0 (u8 (packet_id p)) (u8 (ttl p - 1)) (data p) 0 []) = Ok msg ∧
      n ≠ node_id p ∧
      (getMinerByIndex (m_minerList e) (idx m) ≠ h512_0 → n ≠ getMinerByIndex (m_minerList e) (idx m))) evs.
Proof.
  intros Hb Ht Hr. unfold forwardMsg, mbind at 1, M_bind at 1, get. cbn [id].
  case_decide as H1.
  { intros [= <-]. split; [done|]. exists []. split; [done|constructor]. }
  unfold mbind at 1, M_bind at 1, query at 1. destruct (near_highest e m) as [b|]; [|done].
  destruct (_ && b); cbn [when].
  2: { intros [= <-]. split; [done|]. exists []. split; [done|constructor]. }
  set (gen := getMinerByIndex (m_minerList e) (idx m)). set (flt := node_id p :: _).
  unfold broadcastMsg, mbind, M_bind, get, modify. cbn [id].
  set (e0 := with_connectedNode _ e). destruct (for_each _ _ e0) as [[[]|] e1] eqn:Ef; [|done].
  intros [= <-]. split; [done|].
  destruct (broadcast_loop _ _ _ _ _ _ e0 e1 Hb Ht Ef) as (_ & _ & _ & evs & L2 & _ & L4).
  exists evs. split; [done|]. eapply list.Forall_impl; [exact L4|].
  intros ev (n & _ & (msg & -> & Htr) & Hi & Hn & _). exists n, msg. split; [done|].
  assert (u32 (ttl p - 1) ≠ 0 ∧ u8 (u32 (ttl p - 1)) = u8 (ttl p - 1)) as [H0 Hu].
  { destruct (decide (ttl p = 0)) as [->|]; [split; [discriminate|reflexivity]|].
    rewrite u32_small by lia. split; [lia|done]. }
  unfold transDataToMessage in Htr. rewrite decide_False, Hu in Htr by done.
  unfold flt in Hn. split; [done|]. split; [set_solver|]. intros Hg ->. rewrite decide_True in Hn by done. set_solver.
Qed.

Lemma forward_ttl_witness :
  let p := MkPacket 1 (ex_key 2) 1 3 [1; 2] 0 [] in
  let m := MkMsg 1 0 0 0 h256_0 sig_0 sig_0 in
  ∃ evs, e_events (snd (@forwardMsg ex_peers_env p m ex_peer_engine)) = evs ++ [] ∧
    Forall (λ ev, ∃ n msg, ev = EvSend n msg ∧
      packet_encode (MkPacket 0 h512_0 1 2 [1; 2] 0 []) = Ok msg ∧ n ≠ ex_key 2 ∧
      (ex_key 0 ≠ h512_0 → n ≠ ex_key 0)) evs.
Proof.
  set (p := MkPacket 1 (ex_key 2) 1 3 [1; 2] 0 []). set (m := MkMsg 1 0 0 0 h256_0 sig_0 sig_0).
  apply (@forward_ttl ex_peers_env p m ex_peer_engine).
  - apply map_Forall_empty.
  - unfold known_types. cbn. lia.
  - cbn. lia.
  - assert (fst (@forwardMsg ex_peers_env p m ex_peer_engine) = Ok ()) as <- by (vm_compute; reflexivity).
    apply surjective_pairing.
Defined.

(** ** Synchronised blocks *)

Lemma check_sigs_spec `{Crypto} miners h l :
  check_sigs miners h l = true ↔
  Forall (λ p, fst p < Z.of_nat (length miners) ∧ verify (nth (Z.to_nat (fst p)) miners h512_0) (snd p) h = true) l.
Proof.
  induction l as [|[i s] l IH]; simpl; [split; [constructor|done]|]. rewrite list.Forall_cons. simpl.
  case_decide as H1; [split; [done|intros [[? _] _]; lia]|].
  destruct (verify _ s h); simpl; [|split; [done|intros [[_ ?] _]; done]].
  rewrite IH. split; [intros; split; [split; [lia|done]|done]|naive_solver].
Qed.

(** C31. A block that passes [checkBlock] names the node's own miner list, a sealer
    from that list, and at least [minValidNodes] signatures, each by a miner of
    the list on the block's hash; if their indices are distinct, that many
    different miners signed the block. *)
Theorem checkBlock_sound `{Crypto, NodeEnv} e b h hd :
  checkBlock e b = Ok true → header_hash (m_blockHeader b) = Ok (h, hd) →
  m_sealerList (m_blockHeader b) = m_minerList e ∧
  getMinerByIndex (m_minerList e) (u64 (m_sealer (m_blockHeader b))) ≠ h512_0 ∧
  Forall (λ p, fst p < Z.of_nat (length (m_minerList e)) ∧
               verify (nth (Z.to_nat (fst p)) (m_minerList e) h512_0) (snd p) h = true) (m_sigList b) ∧
  minValidNodes e ≤ Z.of_nat (length (m_sigList b)) ∧
  (NoDup (fst <$> m_sigList b) →
   minValidNodes e ≤ Z.of_nat (size (list_to_set (fst <$> m_sigList b) : gset Z))).
Proof.
  unfold checkBlock. intros Hc Hh. case_decide as H1; [done|]. case_decide as H2; [done|].
  case_decide as H3; [done|]. rewrite Hh, bind_ok in Hc.
  destruct (check_sigs _ _ _) eqn:Es; [|done]. apply check_sigs_spec in Es.
  split_and!; try done; [lia|]. intros Hd. rewrite size_list_to_set, length_fmap by done. lia.
Qed.

Definition ex_four : list bytes := [ex_key 0; ex_key 1; ex_key 2; ex_key 3].
Definition ex_configured : @Engine example_env := snd (@resetConfig example_crypto example_env (ex_engine ex_four)).
(** The block of [ex_four] with the signatures of the nodes [l]. *)
Definition ex_signed_block (l : list Z) : Block :=
  setSigList (ex_next ex_four) ((λ i, (i, example_sign (ex_key i) (ex_hash (ex_next ex_four)))) <$> l).

Lemma checkBlock_sound_witness :
  3 ≤ Z.of_nat (size (list_to_set (fst <$> m_sigList (ex_signed_block [0; 1; 3])) : gset Z)).
Proof.
  assert (@minValidNodes example_env ex_configured = 3) as <- by (vm_compute; reflexivity).
  destruct (@header_hash example_crypto (m_blockHeader (ex_signed_block [0; 1; 3]))) as [[h hd]|] eqn:Eh;
    [|vm_compute in Eh; discriminate Eh].
  apply (@checkBlock_sound example_crypto example_env ex_configured (ex_signed_block [0; 1; 3]) h hd).
  - vm_compute. reflexivity.
  - exact Eh.
  - apply (bool_decide_unpack _). vm_compute. exact I.
Defined.

(** The signatures are not checked to be of different miners: three copies of
    one miner's signature satisfy [checkBlock] where three miners are needed. *)
Theorem checkBlock_counts_duplicates :
  @minValidNodes example_env ex_configured = 3 ∧
  @checkBlock example_crypto example_env ex_configured (ex_signed_block [1; 1; 1]) = Ok true.
Proof. split; vm_compute; reflexivity. Qed.

(** ** The claimed hash *)

(** A node of [ex_four] in view 1 that has committed to the hash [ex_lock] at
    height 1, and a prepare request of the leader that claims that hash but
    carries another block. *)
Definition ex_lock : bytes := repeat 7 32.
Definition ex_locked : @Engine example_env :=
  @with_view example_env 1 (@with_toView example_env 1
    (@with_reqCache example_env
       (set_committed PBFTReqCache0 (MkPrepare (MkMsg 1 0 0 0 ex_lock sig_0 sig_0) [] None))
       (ex_started ex_four))).
Definition ex_forged : PrepareReq :=
  match @PBFTMsg_new example_crypto (ex_key 1) 1 1 1 ex_lock 9, @block_encode example_crypto (ex_next ex_four) with
  | Ok m, Ok (enc, _) => MkPrepare m enc None
  | _, _ => PrepareReq0
  end.

(** [handlePrepareMsg] does not compare the hash a prepare request claims with
    the hash of the block it carries: a node that has committed to one hash at a
    height accepts a request that claims this hash and carries another block,
    and signs that block at the same height. *)
Theorem prepare_hash_unchecked :
  let h := ex_hash (ex_next ex_four) in
  let e' := snd (@handlePrepare example_crypto example_env ex_forged ex_locked) in
  pr_height (m_committedPrepareCache (@m_reqCache example_env ex_locked)) = 1 ∧
  pr_hash (m_committedPrepareCache (@m_reqCache example_env ex_locked)) ≠ h ∧
  pr_hash (m_prepareCache (m_reqCache e')) = h ∧ pr_height (m_prepareCache (m_reqCache e')) = 1 ∧
  isExistSign (m_reqCache e') (MkMsg 1 1 0 0 h (example_sign (ex_key 0) h) sig_0) = true.
Proof. split_and!; vm_compute; (reflexivity || discriminate). Qed.
