(* ===== verification/NonceCheck.v ===== *)
(** * Nonce checks of the transaction pool

    Models libtxpool/CommonTransactionNonceCheck.h/.cpp (the set of the nonce
    keys of the queued transactions) and libtxpool/TransactionNonceCheck.h/.cpp
    (the set of the nonce keys of the last blocks, and the block limit). A
    [std::set<std::string>] that is only searched, extended and shrunk is a
    finite set of strings; a string is the list of its character codes. *)

From S2P Require Import Prelude Hex Crypto Transaction Block.

Local Open Scope Z_scope.

(** ** The block chain as the pool sees it

    [BlockChainInterface]: the three calls the nonce check makes. *)
Record Chain := MkChain {
  ch_number : Z;                            (* number(), int64_t *)
  ch_numberHash : Z → bytes;
  ch_getBlockByHash : bytes → option Block;  (* None: nullptr *)
}.

(** ** Keys *)

(** Decimal digits of a non-negative number, most significant first. *)
Fixpoint dec_digits (fuel : nat) (n : Z) : bytes :=
  match fuel with
  | O => []
  | S k => (if decide (n < 10) then [] else dec_digits k (n / 10)) ++ [48 + n `mod` 10]
  end.

(** [toString] of a [u256]; a number has at most as many decimal as binary
    digits. *)
Definition toString_u256 (n : Z) : bytes := dec_digits (S (Z.to_nat (Z.log2 n))) n.

Abbreviation nonce_cache := (gset bytes).

Section crypto.
Context `{Crypto}.

Definition generateKey (t : Transaction) : bytes :=
  toHex (tx_safeSender t) ++ [95] ++ toString_u256 (m_nonce t).

(** ** CommonTransactionNonceCheck *)

(** [isNonceOk(tx, needInsert)]. *)
Definition isNonceOk (c : nonce_cache) (t : Transaction) (needInsert : bool) : bool * nonce_cache :=
  if decide (generateKey t ∈ c) then (false, c)
  else (true, if needInsert then {[generateKey t]} ∪ c else c).

Definition delCache_key (c : nonce_cache) (key : bytes) : nonce_cache := c ∖ {[key]}.
Definition delCache (c : nonce_cache) (ts : list Transaction) : nonce_cache :=
  foldl (λ c t, delCache_key c (generateKey t)) c ts.
Definition insertCache (c : nonce_cache) (t : Transaction) : nonce_cache := {[generateKey t]} ∪ c.

(** ** TransactionNonceCheck *)

Record NonceCheck := MkNonceCheck {
  nc_cache : nonce_cache;
  m_startblk : Z;         (* unsigned *)
  m_endblk : Z;           (* unsigned *)
  m_maxBlockLimit : Z;    (* unsigned *)
}.

Definition nc_default_limit : Z := 1000.

Definition nc_setBlockLimit (nc : NonceCheck) (l : Z) : NonceCheck :=
  MkNonceCheck (nc_cache nc) (m_startblk nc) (m_endblk nc) l.

Definition isBlockLimitOk (bc : Chain) (nc : NonceCheck) (t : Transaction) : bool :=
  negb (bool_decide (m_blockLimit t = Invalid256 ∨ m_blockLimit t ≤ u256 (ch_number bc) ∨
                     u256 (u256 (ch_number bc) + m_maxBlockLimit nc) < m_blockLimit t)).

(** [ok(tx, needinsert)]. *)
Definition nc_ok (bc : Chain) (nc : NonceCheck) (t : Transaction) (needInsert : bool) :
    bool * NonceCheck :=
  if isBlockLimitOk bc nc t then
    let '(r, c) := isNonceOk (nc_cache nc) t needInsert in
    (r, MkNonceCheck c (m_startblk nc) (m_endblk nc) (m_maxBlockLimit nc))
  else (false, nc).

(** [m_blockChain->getBlockByHash(m_blockChain->numberHash(i))->transactions()]:
    a null block is dereferenced. *)
Definition block_txs (bc : Chain) (i : Z) : res (list Transaction) :=
  match ch_getBlockByHash bc (ch_numberHash bc i) with
  | None => Throw UB
  | Some b => Ok (m_transactions b)
  end.

(** [for (unsigned i = first; i < last; i++)] and the same loop up to and
    including [last]. The counter wraps around at 2^32: the second loop does
    not end when [last] is the largest unsigned. The number of rounds passed
    is more than the loop makes when it ends. *)
Fixpoint for_lt {A} (rounds : nat) (i last : Z) (f : Z → A → res A) (a : A) : res A :=
  match rounds with
  | O => Throw OutOfFuel
  | S k => if decide (i < last) then a' ← f i a; for_lt k (u32 (i + 1)) last f a' else Ok a
  end.
Fixpoint for_le {A} (rounds : nat) (i last : Z) (f : Z → A → res A) (a : A) : res A :=
  match rounds with
  | O => Throw OutOfFuel
  | S k => if decide (i ≤ last) then a' ← f i a; for_le k (u32 (i + 1)) last f a' else Ok a
  end.
Definition rounds (i last : Z) : nat := S (S (Z.to_nat (last - i))).

Definition erase_block (bc : Chain) (i : Z) (c : nonce_cache) : res nonce_cache :=
  ts ← block_txs bc i; Ok (delCache c ts).
Definition insert_block (bc : Chain) (i : Z) (c : nonce_cache) : res nonce_cache :=
  ts ← block_txs bc i; Ok (foldl insertCache c ts).

(** The first block of the window that ends at [lastnumber]. *)
Definition window_start (lastnumber maxBlockLimit : Z) : Z :=
  if decide (lastnumber > maxBlockLimit) then lastnumber - maxBlockLimit else 0.

Definition updateCache (bc : Chain) (nc : NonceCheck) (rebuild : bool) : res NonceCheck :=
  let lastnumber := u32 (ch_number bc) in
  let start := window_start lastnumber (m_maxBlockLimit nc) in
  c ← (if rebuild then Ok ∅
       else for_lt (rounds (m_startblk nc) start) (m_startblk nc) start (erase_block bc) (nc_cache nc));
  let preendblk := if rebuild then 0 else m_endblk nc in
  let first := u32 (preendblk + 1) `max` start in
  c ← for_le (rounds first lastnumber) first lastnumber (insert_block bc) c;
  Ok (MkNonceCheck c start lastnumber (m_maxBlockLimit nc)).

(** [init()], called by the constructor. *)
Definition nc_init (bc : Chain) : res NonceCheck :=
  updateCache bc (MkNonceCheck ∅ 0 0 nc_default_limit) true.
End crypto.
