(* ===== verification/NonceCheckFacts.v ===== *)
(** * Properties of the nonce checks

    Nonce keys determine account and nonce; the cache of a
    [TransactionNonceCheck] is exactly the keys of the blocks in its window,
    whether it was rebuilt or updated block by block; and the window is wide
    enough, together with the block limit, that no transaction of the chain is
    accepted a second time. *)

From S2P Require Import Prelude RLP Hex Crypto Transaction Block NonceCheck.

Local Open Scope Z_scope.

(** ** Definitions *)

Fixpoint dec_value (d : bytes) (acc : Z) : Z :=
  match d with [] => acc | c :: d => dec_value d (acc * 10 + (c - 48)) end.

Section crypto.
Context {crypto : Crypto}.

(** The nonce keys of block [i]. *)
Definition block_keys (bc : Chain) (i : Z) : gset bytes :=
  match block_txs bc i with Ok ts => list_to_set (generateKey <$> ts) | Throw _ => ∅ end.

(** Blocks [0..number] can be read, and the block number fits the loop
    counters. *)
Definition chain_ok (bc : Chain) : Prop :=
  0 ≤ ch_number bc < UINT32_MAX ∧ ∀ i, 0 ≤ i ≤ ch_number bc → is_ok (block_txs bc i).

(** No two blocks of the chain at most [l] apart share a nonce key. *)
Definition keys_unique (l : Z) (bc : Chain) : Prop :=
  ∀ i j, 0 ≤ i → i < j → j ≤ ch_number bc → j ≤ i + l → block_keys bc i ## block_keys bc j.

(** [bc'] is [bc] with blocks added. *)
Definition chain_extends (bc bc' : Chain) : Prop :=
  ch_number bc ≤ ch_number bc' ∧ ∀ i, 0 ≤ i ≤ ch_number bc → block_txs bc' i = block_txs bc i.

(** The cache holds the keys of the window that ends at [n]. *)
Definition tracks (bc : Chain) (n : Z) (nc : NonceCheck) : Prop :=
  m_endblk nc = n ∧ m_startblk nc = window_start n (m_maxBlockLimit nc) ∧
  ∀ k, k ∈ nc_cache nc ↔ ∃ i, 1 `max` m_startblk nc ≤ i ≤ n ∧ k ∈ block_keys bc i.

(** One update after the chain has grown. *)
Inductive nc_step : Chain * NonceCheck → Chain * NonceCheck → Prop :=
  | step_update bc bc' nc nc' :
      chain_ok bc' → keys_unique (m_maxBlockLimit nc) bc' → chain_extends bc bc' → updateCache bc' nc false = Ok nc' →
      nc_step (bc, nc) (bc', nc').

(** ** Keys *)

Lemma dec_value_app a b acc : dec_value (a ++ b) acc = dec_value b (dec_value a acc).
Proof. revert acc. induction a as [|x a IH]; intros acc; [done|apply IH]. Qed.

Lemma dec_digits_value fuel n : 0 ≤ n < 2 ^ Z.of_nat fuel → dec_value (dec_digits fuel n) 0 = n.
Proof.
  revert n. induction fuel as [|k IH]; intros n Hn; [simpl in *; lia|]. cbn [dec_digits].
  rewrite dec_value_app. cbn [dec_value]. pose proof (Z.div_mod n 10). case_decide as Hlt.
  - cbn [dec_value]. rewrite Z.mod_small by lia. lia.
  - rewrite IH; [lia|]. split; [apply Z.div_pos; lia|].
    rewrite Nat2Z.inj_succ, Z.pow_succ_r in Hn by lia. apply Z.div_lt_upper_bound; lia.
Qed.

Lemma toString_u256_inj n m : 0 ≤ n → 0 ≤ m → toString_u256 n = toString_u256 m → n = m.
Proof.
  assert (∀ n, 0 ≤ n → dec_value (toString_u256 n) 0 = n) as Hv.
  { intros x Hx. unfold toString_u256. apply dec_digits_value. split; [done|].
    rewrite Nat2Z.inj_succ, Z2Nat.id by apply Z.log2_nonneg.
    destruct (decide (x = 0)) as [->|]; [done|]. apply Z.log2_spec. lia. }
  intros Hn Hm E. rewrite <- (Hv n), <- (Hv m), E by done. done.
Qed.

Lemma generateKey_inj t1 t2 :
  hash_ok address_size (tx_safeSender t1) → hash_ok address_size (tx_safeSender t2) →
  0 ≤ m_nonce t1 → 0 ≤ m_nonce t2 → generateKey t1 = generateKey t2 →
  tx_safeSender t1 = tx_safeSender t2 ∧ m_nonce t1 = m_nonce t2.
Proof.
  intros [B1 L1] [B2 L2] N1 N2 E. unfold generateKey in E. apply app_inj_1 in E as [Eh Er].
  - split; [by apply toHex_inj|]. simpl in Er. apply toString_u256_inj; [done..|]. by simplify_eq.
  - rewrite !length_toHex. unfold len, address_size in *. lia.
Qed.

(** ** The loops *)

Lemma delCache_elem c ts k : k ∈ delCache c ts ↔ k ∈ c ∧ k ∉ generateKey <$> ts.
Proof.
  unfold delCache. revert c. induction ts as [|t ts IH]; intros c; [set_solver|]. simpl. rewrite IH.
  unfold delCache_key. set_solver.
Qed.

Lemma insertCaches_elem c ts k : k ∈ foldl insertCache c ts ↔ k ∈ c ∨ k ∈ generateKey <$> ts.
Proof.
  revert c. induction ts as [|t ts IH]; intros c; [set_solver|]. simpl. rewrite IH.
  unfold insertCache. set_solver.
Qed.

Lemma insert_block_ok bc i c :
  is_ok (block_txs bc i) →
  ∃ c', insert_block bc i c = Ok c' ∧ ∀ k, k ∈ c' ↔ k ∈ c ∨ k ∈ block_keys bc i.
Proof.
  unfold insert_block, block_keys. destruct (block_txs bc i) as [ts|]; [|done]. intros _.
  eexists. split; [done|]. intros k. by rewrite insertCaches_elem, elem_of_list_to_set.
Qed.

Lemma erase_block_ok bc i c :
  is_ok (block_txs bc i) →
  ∃ c', erase_block bc i c = Ok c' ∧ ∀ k, k ∈ c' ↔ k ∈ c ∧ k ∉ block_keys bc i.
Proof.
  unfold erase_block, block_keys. destruct (block_txs bc i) as [ts|]; [|done]. intros _.
  eexists. split; [done|]. intros k. by rewrite delCache_elem, elem_of_list_to_set.
Qed.

Lemma insert_loop_ok bc n i last c :
  0 ≤ i → last < UINT32_MAX → (Z.to_nat (last - i + 1) < n)%nat →
  (∀ j, i ≤ j ≤ last → is_ok (block_txs bc j)) →
  ∃ c', for_le n i last (insert_block bc) c = Ok c' ∧
        ∀ k, k ∈ c' ↔ k ∈ c ∨ ∃ j, i ≤ j ≤ last ∧ k ∈ block_keys bc j.
Proof.
  revert i c. induction n as [|n IH]; intros i c Hi Hlast Hn Hok; [lia|]. simpl. case_decide as Hle.
  - destruct (insert_block_ok bc i c) as (c1 & -> & Hc1); [apply Hok; lia|]. rewrite bind_ok.
    unfold UINT32_MAX in *. rewrite u32_small by lia.
    destruct (IH (i + 1) c1) as (c' & -> & Hc'); [lia..|intros; apply Hok; lia|].
    eexists. split; [done|]. intros k. rewrite Hc', Hc1. split.
    + intros [[?|?]|(j & ? & ?)]; [by left|right; exists i; split; [lia|done]|right; exists j; split; [lia|done]].
    + intros [?|(j & Hj & ?)]; [by left; left|]. destruct (decide (j = i)) as [->|]; [by left; right|].
      right. exists j. split; [lia|done].
  - eexists. split; [done|]. intros k. split; [by left|]. intros [?|(j & ? & ?)]; [done|lia].
Qed.

Lemma erase_loop_ok bc n i last c :
  0 ≤ i → last ≤ UINT32_MAX → (Z.to_nat (last - i) < n)%nat →
  (∀ j, i ≤ j < last → is_ok (block_txs bc j)) →
  ∃ c', for_lt n i last (erase_block bc) c = Ok c' ∧
        ∀ k, k ∈ c' ↔ k ∈ c ∧ ∀ j, i ≤ j < last → k ∉ block_keys bc j.
Proof.
  revert i c. induction n as [|n IH]; intros i c Hi Hlast Hn Hok; [lia|]. simpl. case_decide as Hlt.
  - destruct (erase_block_ok bc i c) as (c1 & -> & Hc1); [apply Hok; lia|]. rewrite bind_ok.
    unfold UINT32_MAX in *. rewrite u32_small by lia.
    destruct (IH (i + 1) c1) as (c' & -> & Hc'); [lia..|intros; apply Hok; lia|].
    eexists. split; [done|]. intros k. rewrite Hc', Hc1. split.
    + intros [[? Hi'] Hall]. split; [done|]. intros j Hj. destruct (decide (j = i)) as [->|]; [done|].
      apply Hall. lia.
    + intros [? Hall]. repeat split; [done|apply Hall; lia|]. intros j Hj. apply Hall. lia.
  - eexists. split; [done|]. intros k. split; [intros ?; split; [done|intros; lia]|by intros [? _]].
Qed.

(** ** The window *)

Lemma window_start_bounds n l : 0 ≤ n → 0 ≤ l → 0 ≤ window_start n l ≤ n.
Proof. intros. unfold window_start. case_decide; lia. Qed.

Lemma window_start_mono n m l : 0 ≤ l → n ≤ m → window_start n l ≤ window_start m l.
Proof. intros. unfold window_start. repeat case_decide; lia. Qed.

Lemma rebuild_tracks bc nc :
  chain_ok bc → 0 ≤ m_maxBlockLimit nc →
  ∃ nc', updateCache bc nc true = Ok nc' ∧ tracks bc (ch_number bc) nc' ∧
         m_maxBlockLimit nc' = m_maxBlockLimit nc.
Proof.
  intros [Hn Hok] Hl. unfold updateCache. unfold UINT32_MAX in *. rewrite (u32_small (ch_number bc)) by lia.
  set (start := window_start _ _). pose proof (window_start_bounds (ch_number bc) _ (proj1 Hn) Hl).
  rewrite bind_ok. change (u32 (0 + 1)) with 1.
  destruct (insert_loop_ok bc (rounds (1 `max` start) (ch_number bc)) (1 `max` start) (ch_number bc) ∅)
    as (c' & -> & Hc'); unfold UINT32_MAX, rounds in *; try lia.
  { intros j Hj. apply Hok. lia. }
  rewrite bind_ok. eexists. split; [done|]. split; [|done]. split; [done|]. split; [done|].
  intros k. cbn [nc_cache m_startblk]. rewrite Hc'. set_solver.
Qed.

(** The keys are unique in the window, so what the update erases is not a key
    of a block that stays. *)
Lemma update_tracks bc nc n :
  chain_ok bc → keys_unique (m_maxBlockLimit nc) bc → 0 ≤ m_maxBlockLimit nc → 0 ≤ n ≤ ch_number bc → tracks bc n nc →
  ∃ nc', updateCache bc nc false = Ok nc' ∧ tracks bc (ch_number bc) nc' ∧
         m_maxBlockLimit nc' = m_maxBlockLimit nc.
Proof.
  intros [Hn Hok] Hu Hl Hnn (He & Hs & Hc). unfold updateCache. unfold UINT32_MAX in *.
  rewrite (u32_small (ch_number bc)) by lia. set (start := window_start _ _).
  pose proof (window_start_bounds (ch_number bc) _ (proj1 Hn) Hl).
  pose proof (window_start_mono n (ch_number bc) _ Hl (proj2 Hnn)).
  pose proof (window_start_bounds n _ (proj1 Hnn) Hl). rewrite <- Hs in *. fold start in H, H0.
  destruct (erase_loop_ok bc (rounds (m_startblk nc) start) (m_startblk nc) start (nc_cache nc))
    as (c1 & -> & Hc1); unfold UINT32_MAX, rounds in *; try lia.
  { intros j Hj. apply Hok. lia. }
  rewrite bind_ok, He. rewrite (u32_small (n + 1)) by lia.
  destruct (insert_loop_ok bc (rounds ((n + 1) `max` start) (ch_number bc)) ((n + 1) `max` start) (ch_number bc) c1)
    as (c' & Hc'1 & Hc'); unfold UINT32_MAX, rounds in *; try lia.
  { intros j Hj. apply Hok. lia. }
  rewrite Hc'1, bind_ok. eexists. split; [done|]. split; [|done]. split; [done|]. split; [done|].
  intros k. cbn [nc_cache m_startblk]. fold start. rewrite Hc', Hc1, Hc. split.
  - intros [[(i & Hi & Hk) Hall]|(i & Hi & Hk)]; exists i; (split; [|done]); [|lia].
    destruct (decide (i < start)); [exfalso; by apply (Hall i); [lia|]|lia].
  - intros (i & Hi & Hk). destruct (decide (i ≤ n)) as [Hin|]; [left|right; exists i; split; [lia|done]].
    split; [exists i; split; [lia|done]|]. intros j Hj Hkj.
    assert (n ≤ m_startblk nc + m_maxBlockLimit nc) by (rewrite Hs; unfold window_start; case_decide; lia).
    apply (Hu j i) with k; [lia..|done|done].
Qed.

Lemma tracks_extends bc bc' nc :
  chain_ok bc → chain_extends bc bc' → 0 ≤ m_maxBlockLimit nc →
  tracks bc (ch_number bc) nc → tracks bc' (ch_number bc) nc.
Proof.
  intros [Hn _] [Hle Hsame] Hl (He & Hs & Hc). split; [done|]. split; [done|]. intros k. rewrite Hc.
  assert (∀ i, 0 ≤ i ≤ ch_number bc → block_keys bc' i = block_keys bc i) as Hb.
  { intros i Hi. unfold block_keys. by rewrite Hsame. }
  split; intros (i & Hi & Hk); exists i; (split; [done|]); [rewrite Hb by lia|rewrite Hb in Hk by lia]; done.
Qed.

Lemma tracks_unique bc n nc nc' :
  tracks bc n nc → tracks bc n nc' → m_maxBlockLimit nc = m_maxBlockLimit nc' → nc = nc'.
Proof.
  destruct nc as [c s e l], nc' as [c' s' e' l']. intros (He & Hs & Hc) (He' & Hs' & Hc') Hl.
  simpl in *. subst. f_equal. apply set_eq. intros k. by rewrite Hc, Hc'.
Qed.

Lemma nc_run_tracks s1 s2 :
  star nc_step s1 s2 →
  chain_ok (fst s1) → 0 ≤ m_maxBlockLimit (snd s1) → tracks (fst s1) (ch_number (fst s1)) (snd s1) →
  chain_ok (fst s2) ∧ m_maxBlockLimit (snd s2) = m_maxBlockLimit (snd s1) ∧
  tracks (fst s2) (ch_number (fst s2)) (snd s2).
Proof.
  induction 1 as [s|s1 s2 s3 Hstep _ IH]; [done|]. intros Hok Hl Ht.
  destruct Hstep as [bc bc' nc nc' Hok' Hu Hext Hup]; simpl in *.
  destruct (update_tracks bc' nc (ch_number bc)) as (nc2 & Hup2 & Ht2 & Hl2);
    [done..| |by apply tracks_extends|].
  { split; [apply Hok|apply Hext]. }
  rewrite Hup in Hup2. injection Hup2 as <-.
  destruct IH as (? & Hl3 & ?); [done|lia|done|]. by rewrite Hl3.
Qed.

(** A transaction whose nonce key is in a block that is in the window, or that
    is too old for its block limit to be ahead of the chain. *)
Lemma tracks_no_replay bc nc t b :
  chain_ok bc → 0 ≤ m_maxBlockLimit nc → tracks bc (ch_number bc) nc →
  1 ≤ b ≤ ch_number bc → generateKey t ∈ block_keys bc b →
  ch_number bc ≤ b + m_maxBlockLimit nc ∨ m_blockLimit t ≤ b + m_maxBlockLimit nc →
  fst (nc_ok bc nc t false) = false.
Proof.
  intros [Hn _] Hl (_ & Hs & Hc) Hb Hk Hlim. unfold nc_ok.
  destruct (isBlockLimitOk bc nc t) eqn:Eb; [|done]. unfold isNonceOk.
  rewrite decide_True; [done|]. apply Hc. exists b. split; [|done].
  unfold isBlockLimitOk in Eb. apply negb_true_iff, bool_decide_eq_false in Eb.
  rewrite (u256_small (ch_number bc)) in Eb by (unfold UINT32_MAX in *; lia).
  rewrite Hs. unfold window_start. case_decide; lia.
Qed.
End crypto.
