(* ===== verification/TxPool.v ===== *)
(** * The transaction pool

    Models libtxpool/TxPool.h/.cpp. The members are the record [TxPool]; every
    public method is one definition in the monad of StateErr.v, atomic because
    it holds [m_lock] throughout ([dropBlockTrans], which takes the locks of its
    three parts one after the other, is also given part by part).

    [m_txsQueue] is a [std::set] ordered by [transactionCompare], and
    [m_txsHash] maps a hash to an iterator into it. A tree node is modelled by
    its identity: the queue is the list of (node, transaction) in iteration
    order, an iterator is a node, and [m_next] is the next fresh node. The
    comparison is [<=] on import times, which is not a strict weak order; the
    libstdc++ tree then never finds an equivalent element, so [emplace] always
    inserts, before the first element that is not older.

    The hash and the sender a transaction memoises when asked are threaded for
    the transaction being imported; for transactions that are only read, the
    value is computed and the memo dropped, which is unobservable
    (TransactionFacts.tx_memo_coherent). *)

From S2P Require Import Prelude StateErr RLP Crypto Transaction Block NonceCheck.

Local Open Scope Z_scope.

Inductive ImportResult :=
  | Success | UnknownParent | FutureTimeKnown | FutureTimeUnknown | AlreadyInChain | AlreadyKnown
  | Malformed | BadChain | ZeroSignature | TransactionNonceCheckFail | TxPoolNonceCheckFail
  | TransactionPoolIsFull.

#[global] Instance ImportResult_eq_dec : EqDecision ImportResult.
Proof. solve_decision. Defined.

Inductive IfDropped := Ignore | Retry.

#[global] Instance IfDropped_eq_dec : EqDecision IfDropped.
Proof. solve_decision. Defined.

(** [LocalisedTransactionReceipt], without the localised logs it derives. *)
Record LocalisedReceipt := MkLocalised {
  lr_receipt : TransactionReceipt;
  lr_hash : bytes;
  lr_blockHash : bytes;
  lr_blockNumber : Z;
  lr_from : bytes;
  lr_to : bytes;
  lr_index : Z;
  lr_gasUsed : Z;
  lr_contractAddress : bytes;
}.

(** What the pool tells others: the signal [m_onReady] and the callbacks of
    removed transactions. *)
Inductive pool_event :=
  | EvReady
  | EvCallback (hash : bytes) (r : LocalisedReceipt).

Abbreviation TransactionQueue := (list (Z * Transaction)).

Record TxPool := MkPool {
  tp_limit : Z;                              (* m_limit, uint64_t *)
  m_txsQueue : TransactionQueue;
  m_next : Z;
  m_txsHash : gmap bytes Z;
  m_known : gset bytes;
  m_dropped : gset bytes;
  m_transactionKnownBy : gmap bytes (gset bytes);
  m_txNonceCheck : NonceCheck;
  m_commonNonceCheck : nonce_cache;
  tp_events : list pool_event;
}.

Definition with_queue (q : TransactionQueue) (p : TxPool) : TxPool :=
  MkPool (tp_limit p) q (m_next p) (m_txsHash p) (m_known p) (m_dropped p) (m_transactionKnownBy p)
    (m_txNonceCheck p) (m_commonNonceCheck p) (tp_events p).
Definition with_index (h : gmap bytes Z) (k : gset bytes) (p : TxPool) : TxPool :=
  MkPool (tp_limit p) (m_txsQueue p) (m_next p) h k (m_dropped p) (m_transactionKnownBy p)
    (m_txNonceCheck p) (m_commonNonceCheck p) (tp_events p).
Definition with_dropped (d : gset bytes) (p : TxPool) : TxPool :=
  MkPool (tp_limit p) (m_txsQueue p) (m_next p) (m_txsHash p) (m_known p) d (m_transactionKnownBy p)
    (m_txNonceCheck p) (m_commonNonceCheck p) (tp_events p).
Definition with_knownBy (k : gmap bytes (gset bytes)) (p : TxPool) : TxPool :=
  MkPool (tp_limit p) (m_txsQueue p) (m_next p) (m_txsHash p) (m_known p) (m_dropped p) k
    (m_txNonceCheck p) (m_commonNonceCheck p) (tp_events p).
Definition with_nonces (n : NonceCheck) (c : nonce_cache) (p : TxPool) : TxPool :=
  MkPool (tp_limit p) (m_txsQueue p) (m_next p) (m_txsHash p) (m_known p) (m_dropped p)
    (m_transactionKnownBy p) n c (tp_events p).
Definition with_event (e : pool_event) (p : TxPool) : TxPool :=
  MkPool (tp_limit p) (m_txsQueue p) (m_next p) (m_txsHash p) (m_known p) (m_dropped p)
    (m_transactionKnownBy p) (m_txNonceCheck p) (m_commonNonceCheck p) (tp_events p ++ [e]).

Abbreviation PM := (SM TxPool).

(** ** The ordered set *)

(** [transactionCompare]. *)
Definition transactionCompare (a b : Transaction) : bool := bool_decide (m_importTime a ≤ m_importTime b).

(** [m_txsQueue.emplace(t)] at the fresh node [n]. *)
Fixpoint queue_emplace (n : Z) (t : Transaction) (q : TransactionQueue) : TransactionQueue :=
  match q with
  | [] => [(n, t)]
  | (m, x) :: q' => if transactionCompare t x then (n, t) :: q else (m, x) :: queue_emplace n t q'
  end.

(** [m_txsQueue.erase(it)]; erasing through an iterator that is not in the set
    is undefined. *)
Definition queue_erase (n : Z) (q : TransactionQueue) : res TransactionQueue :=
  throw_if (n ∉ q.*1) UB;; Ok (filter (λ p, p.1 ≠ n) q).

(** The transaction an iterator points to. *)
Definition queue_deref (n : Z) (q : TransactionQueue) : option Transaction :=
  match list_find (λ p, p.1 = n) q with Some (_, (_, t)) => Some t | None => None end.

Section pool.
Context `{Crypto}.

(** The constructor. *)
Definition TxPool_new (bc : Chain) (protocolId limit : Z) : res TxPool :=
  throw_if (protocolId = 0) OtherException;;
  nc ← nc_init bc;
  Ok (MkPool limit [] 0 ∅ ∅ ∅ ∅ nc ∅ []).

Definition setTxPoolLimit (l : Z) : PM unit := smodify (λ p,
  MkPool l (m_txsQueue p) (m_next p) (m_txsHash p) (m_known p) (m_dropped p)
    (m_transactionKnownBy p) (m_txNonceCheck p) (m_commonNonceCheck p) (tp_events p)).
Definition setMaxBlockLimit (l : Z) : PM unit := smodify (λ p,
  with_nonces (nc_setBlockLimit (m_txNonceCheck p) l) (m_commonNonceCheck p) p).

(** [sha3()] of a transaction that is only read. *)
Definition tx_hash (t : Transaction) : res bytes := fst <$> tx_sha3 t WithSignature.

(** ** Known peers *)

Definition transactionIsKnownBy (h node : bytes) : PM unit := smodify (λ p,
  with_knownBy (<[h := {[node]} ∪ default ∅ (m_transactionKnownBy p !! h)]> (m_transactionKnownBy p)) p).
Definition isTransactionKnownBy (p : TxPool) (h node : bytes) : bool :=
  match m_transactionKnownBy p !! h with
  | None => false
  | Some s => bool_decide (node ∈ s)
  end.
Definition isTransactionKnownBySomeone (p : TxPool) (h : bytes) : bool :=
  match m_transactionKnownBy p !! h with
  | None => false
  | Some s => negb (bool_decide (s = ∅))
  end.
Definition removeTransactionKnowBy (h : bytes) : PM unit := smodify (λ p,
  with_knownBy (delete h (m_transactionKnownBy p)) p).

(** ** Checks *)

Definition isBlockLimitOrNonceOk (bc : Chain) (t : Transaction) (needInsert : bool) : PM bool :=
  if decide (m_nonce t = Invalid256) then mret false
  else
    p ← sget;
    let '(r, nc) := nc_ok bc (m_txNonceCheck p) t needInsert in
    smodify (with_nonces nc (m_commonNonceCheck p));;
    mret r.

Definition txPoolNonceCheck (t : Transaction) : PM bool :=
  p ← sget; mret (fst (isNonceOk (m_commonNonceCheck p) t false)).

(** [verify(trans, drop_policy, needinsert)]: the result, and the transaction
    with its hash memoised. *)
Definition tp_verify (bc : Chain) (t : Transaction) (pol : IfDropped) (needInsert : bool) :
    PM (ImportResult * Transaction) :=
  '(h, t) ← slift (tx_sha3 t WithSignature);
  p ← sget;
  if decide (h ∈ m_known p) then mret (AlreadyKnown, t)
  else if decide (h ∈ m_dropped p ∧ pol = Ignore) then mret (AlreadyInChain, t)
  else
    ok ← isBlockLimitOrNonceOk bc t needInsert;
    if negb ok then mret (TransactionNonceCheckFail, t)
    else
      ok ← txPoolNonceCheck t;
      if negb ok then mret (TxPoolNonceCheckFail, t) else mret (Success, t).

(** ** Queue operations *)

Definition tp_insert (t : Transaction) : PM bool :=
  h ← slift (tx_hash t);
  p ← sget;
  if decide (is_Some (m_txsHash p !! h)) then mret false
  else
    smodify (λ p, MkPool (tp_limit p) (queue_emplace (m_next p) t (m_txsQueue p)) (m_next p + 1)
                    (<[h := m_next p]> (m_txsHash p)) ({[h]} ∪ m_known p) (m_dropped p)
                    (m_transactionKnownBy p) (m_txNonceCheck p) (m_commonNonceCheck p) (tp_events p));;
    mret true.

(** [removeTrans(hash, needTriggerCallback, receipt)]. *)
Definition removeTrans (h : bytes) (needTriggerCallback : bool) (r : option LocalisedReceipt) : PM bool :=
  p ← sget;
  match m_txsHash p !! h with
  | None => mret false
  | Some n =>
      (match r with
       | Some r => swhen (needTriggerCallback = true)
           (match queue_deref n (m_txsQueue p) with
            | None => sthrow UB
            | Some _ => smodify (with_event (EvCallback h r))
            end)
       | None => mret tt
       end);;
      q ← slift (queue_erase n (m_txsQueue p));
      smodify (λ p, with_index (delete h (m_txsHash p)) (m_known p ∖ {[h]}) (with_queue q p));;
      removeTransactionKnowBy h;;
      mret true
  end.

(** [import(tx, ik)]: [ik] is not passed on to [verify]. Returns the result and
    the transaction as the call leaves it. *)
Definition tp_import (bc : Chain) (now : Z) (t : Transaction) (ik : IfDropped) :
    PM (ImportResult * Transaction) :=
  let t := setImportTime t (u256 now) in
  p ← sget;
  if decide (tp_limit p ≤ Z.of_nat (length (m_txsQueue p))) then mret (TransactionPoolIsFull, t)
  else
    '(r, t) ← tp_verify bc t Ignore false;
    (if decide (r = Success) then
       ins ← tp_insert t;
       swhen (ins = true)
         (smodify (λ p, with_nonces (m_txNonceCheck p) (insertCache (m_commonNonceCheck p) t) p);;
          smodify (with_event EvReady))
     else mret tt);;
    mret (r, t).

(** [import(txBytes, ik)]. *)
Definition tp_import_bytes (bc : Chain) (now : Z) (d : bytes) (ik : IfDropped) : PM ImportResult :=
  r ← stry
        (t ← slift (tx_decode Transaction0 d CheckEverything);
         '(h, t) ← slift (tx_sha3 t WithSignature);
         mret (if decide (sha3 d ≠ h) then None else Some t))
        (λ _, mret None);
  match r with
  | None => mret Malformed
  | Some t => '(r, _) ← tp_import bc now t ik; mret r
  end.

(** [toAddress(from, nonce)] of libdevcrypto. *)
Definition toAddress (from : bytes) (nonce : Z) : res bytes :=
  s ← appendList RLPStream0 2;
  s ← append_bytes s from false;
  s ← append_u256 s nonce;
  e ← out s;
  Ok (right160 (sha3 e)).

(** [submit(tx)]. Every refusal throws. *)
Definition tp_submit (bc : Chain) (now : Z) (t : Transaction) : PM (bytes * bytes) :=
  '(r, t) ← tp_import bc now t Ignore;
  h ← slift (tx_hash t);
  if decide (r = Success) then
    a ← slift (toAddress (tx_safeSender t) (m_nonce t));
    mret (h, a)
  else sthrow TransactionRefused.

Definition tp_drop (h : bytes) : PM bool :=
  p ← sget;
  if decide (h ∉ m_known p) then mret false
  else
    smodify (with_dropped (if decide (Z.of_nat (size (m_dropped p)) < tp_limit p)
                           then {[h]} ∪ m_dropped p else ∅));;
    removeTrans h false None.

Definition constructTransactionReceipt (t : Transaction) (r : TransactionReceipt) (b : Block)
    (index : Z) : res LocalisedReceipt :=
  h ← tx_hash t;
  '(bh, _) ← header_hash (m_blockHeader b);
  Ok (MkLocalised r h bh (m_number (m_blockHeader b)) (tx_safeSender t) (m_receiveAddress t) index
        (rc_gasUsed r) (rc_contractAddress r)).

(** The body of the loop of [dropTransactions]. *)
Definition drop_one (b : Block) (i : nat) (t : Transaction) : PM bool :=
  r ← (match m_transactionReceipts b !! i with
       | Some r => r ← slift (constructTransactionReceipt t r b (Z.of_nat i)); mret (Some r)
       | None => mret None
       end);
  h ← slift (tx_hash t);
  removeTrans h true r.

Fixpoint drop_loop (b : Block) (i : nat) (ts : list Transaction) (succ : bool) : PM bool :=
  match ts with
  | [] => mret succ
  | t :: ts => r ← drop_one b i t; drop_loop b (S i) ts (succ && r)
  end.

Definition dropTransactions (b : Block) : PM bool :=
  if decide (m_transactions b = []) then mret true else drop_loop b 0 (m_transactions b) true.

Definition tp_handleBadBlock (b : Block) : PM bool := mret true.

(** The three parts of [dropBlockTrans]. *)
Definition pool_updateCache (bc : Chain) (rebuild : bool) : PM unit :=
  p ← sget;
  nc ← slift (updateCache bc (m_txNonceCheck p) rebuild);
  smodify (with_nonces nc (m_commonNonceCheck p)).
Definition pool_delCache (ts : list Transaction) : PM unit := smodify (λ p,
  with_nonces (m_txNonceCheck p) (delCache (m_commonNonceCheck p) ts) p).

Definition dropBlockTrans (bc : Chain) (b : Block) : PM bool :=
  pool_updateCache bc false;;
  ret ← dropTransactions b;
  pool_delCache (m_transactions b);;
  mret ret.

(** ** Fetching *)

(** The accumulators of the loop of [topTransactions]: the result, the
    [_avoid] set, the hashes and the nonce keys of the invalid ones. *)
Record top_acc := MkTop {
  top_ret : list Transaction;
  top_avoid : gset bytes;
  top_invalid : gset bytes;
  top_keys : gset bytes;
}.

Fixpoint top_loop (bc : Chain) (limit : Z) (update : bool) (q : TransactionQueue) (a : top_acc) :
    PM top_acc :=
  match q with
  | [] => mret a
  | (_, t) :: q =>
      if decide (Z.of_nat (length (top_ret a)) < limit) then
        ok ← isBlockLimitOrNonceOk bc t false;
        h ← slift (tx_hash t);
        if negb ok then
          top_loop bc limit update q
            (MkTop (top_ret a) (top_avoid a) ({[h]} ∪ top_invalid a) ({[generateKey t]} ∪ top_keys a))
        else if decide (h ∈ top_avoid a) then top_loop bc limit update q a
        else
          top_loop bc limit update q
            (MkTop (top_ret a ++ [t]) (if update then {[h]} ∪ top_avoid a else top_avoid a)
               (top_invalid a) (top_keys a))
      else mret a
  end.

(** [topTransactions(limit, avoid, updateAvoid)]: the transactions and the
    [_avoid] set after the call. The two final loops run over [std::set]s; the
    order does not matter to what they leave. *)
Definition topTransactions (bc : Chain) (lim : Z) (avoid : gset bytes) (update : bool) :
    PM (list Transaction * gset bytes) :=
  p ← sget;
  a ← top_loop bc (tp_limit p `min` lim) update (m_txsQueue p) (MkTop [] avoid ∅ ∅);
  sfor_each (elements (top_invalid a)) (λ h,
    removeTrans h false None;;
    smodify (λ p, with_dropped ({[h]} ∪ m_dropped p) p));;
  sfor_each (elements (top_keys a)) (λ k,
    smodify (λ p, with_nonces (m_txNonceCheck p) (delCache_key (m_commonNonceCheck p) k) p));;
  mret (top_ret a, top_avoid a).

(** [topTransactions(limit)]. *)
Definition topTransactions_all (bc : Chain) (lim : Z) : PM (list Transaction) :=
  '(ret, _) ← topTransactions bc lim ∅ false; mret ret.

(** The loop of [topTransactionsCondition]; the condition may read and change
    state outside the pool, which it threads. *)
Fixpoint cond_loop {A} (limit : Z) (cond : Transaction → A → bool * A) (q : TransactionQueue)
    (ret : list Transaction) (a : A) : list Transaction * A :=
  match q with
  | [] => (ret, a)
  | (_, t) :: q =>
      if decide (Z.of_nat (length ret) < limit) then
        let '(c, a) := cond t a in
        cond_loop limit cond q (if c then ret ++ [t] else ret) a
      else (ret, a)
  end.
Definition topTransactionsCondition {A} (p : TxPool) (lim : Z) (cond : Transaction → A → bool * A)
    (a : A) : list Transaction * A :=
  cond_loop (tp_limit p `min` lim) cond (m_txsQueue p) [] a.

(** ** Queries *)

Definition pendingList (p : TxPool) : list Transaction := (m_txsQueue p).*2.
Definition pendingSize (p : TxPool) : Z := Z.of_nat (length (m_txsQueue p)).
Definition tp_status (p : TxPool) : Z * Z := (pendingSize p, Z.of_nat (size (m_dropped p))).

Definition tp_clear : PM unit := smodify (λ p,
  MkPool (tp_limit p) [] (m_next p) ∅ ∅ ∅ ∅ (m_txNonceCheck p) (m_commonNonceCheck p) (tp_events p)).
End pool.
