(* ===== verification/TxPoolSpec.v ===== *)
(** * What the transaction pool promises

    The contract of TxPool.v without its index, iterators and hash sets: a
    list of transactions ordered by import time, the hashes dropped, and the
    nonce keys in use. [refines] relates an operation of the pool to one of
    the contract; every operation of the pool, imports with the policy
    [Retry] apart, refines its specification, exceptions included, so any
    sequence of calls gives the same outputs. *)

From S2P Require Import Prelude StateErr RLP Crypto Transaction Block NonceCheck TxPool.

Local Open Scope Z_scope.

Record Spec := MkSpec {
  sp_limit : Z;
  sp_queue : list Transaction;
  sp_dropped : gset bytes;
  sp_knownBy : gmap bytes (gset bytes);
  sp_chain : NonceCheck;
  sp_nonces : nonce_cache;
  sp_events : list pool_event;
}.

Definition abs (p : TxPool) : Spec :=
  MkSpec (tp_limit p) (m_txsQueue p).*2 (m_dropped p) (m_transactionKnownBy p) (m_txNonceCheck p)
    (m_commonNonceCheck p) (tp_events p).

Section spec.
Context {crypto : Crypto}.

(** ** Operations of the contract *)

Definition hash_of (t : Transaction) : bytes := match tx_hash t with Ok h => h | Throw _ => [] end.

Fixpoint insert_by_time (t : Transaction) (q : list Transaction) : list Transaction :=
  match q with
  | [] => [t]
  | x :: q' => if decide (m_importTime t ≤ m_importTime x) then t :: q else x :: insert_by_time t q'
  end.

Definition nonce_valid (bc : Chain) (nc : NonceCheck) (t : Transaction) : bool :=
  negb (bool_decide (m_nonce t = Invalid256)) && fst (nc_ok bc nc t false).

(** The verdict on a transaction with hash [h]. As documented, [Ignore] refuses
    what was dropped before and [Retry] does not. *)
Definition spec_verdict (bc : Chain) (s : Spec) (t : Transaction) (h : bytes) (ik : IfDropped) : ImportResult :=
  if decide (h ∈ hash_of <$> sp_queue s) then AlreadyKnown
  else if decide (h ∈ sp_dropped s ∧ ik = Ignore) then AlreadyInChain
  else if negb (nonce_valid bc (sp_chain s) t) then TransactionNonceCheckFail
  else if decide (generateKey t ∈ sp_nonces s) then TxPoolNonceCheckFail
  else Success.

Definition spec_add (t : Transaction) (s : Spec) : Spec :=
  MkSpec (sp_limit s) (insert_by_time t (sp_queue s)) (sp_dropped s) (sp_knownBy s) (sp_chain s)
    ({[generateKey t]} ∪ sp_nonces s) (sp_events s ++ [EvReady]).

Definition spec_import (bc : Chain) (now : Z) (t : Transaction) (ik : IfDropped) : SM Spec (ImportResult * Transaction) :=
  let t := setImportTime t (u256 now) in
  s ← sget;
  if decide (sp_limit s ≤ Z.of_nat (length (sp_queue s))) then mret (TransactionPoolIsFull, t)
  else
    '(h, t) ← slift (tx_sha3 t WithSignature);
    let r := spec_verdict bc s t h ik in
    swhen (r = Success) (smodify (spec_add t));;
    mret (r, t).

Definition spec_import_bytes (bc : Chain) (now : Z) (d : bytes) (ik : IfDropped) : SM Spec ImportResult :=
  match (t ← tx_decode Transaction0 d CheckEverything; tx_sha3 t WithSignature) with
  | Ok (h, t) =>
      if decide (sha3 d ≠ h) then mret Malformed
      else '(r, _) ← spec_import bc now t ik; mret r
  | Throw e => if catchable e then mret Malformed else sthrow e
  end.

Definition spec_submit (bc : Chain) (now : Z) (t : Transaction) : SM Spec (bytes * bytes) :=
  '(r, t) ← spec_import bc now t Ignore;
  h ← slift (tx_hash t);
  if decide (r = Success) then
    a ← slift (toAddress (tx_safeSender t) (m_nonce t));
    mret (h, a)
  else sthrow TransactionRefused.

Definition remove_hash (h : bytes) (q : list Transaction) : list Transaction :=
  filter (λ t, hash_of t ≠ h) q.

(** Removing a transaction forgets who knows it and fires its callback. *)
Definition spec_forget (h : bytes) (r : option LocalisedReceipt) (s : Spec) : Spec :=
  MkSpec (sp_limit s) (remove_hash h (sp_queue s)) (sp_dropped s) (delete h (sp_knownBy s))
    (sp_chain s) (sp_nonces s)
    (sp_events s ++ match r with Some r => [EvCallback h r] | None => [] end).

Definition spec_remove (h : bytes) (r : option LocalisedReceipt) : SM Spec bool :=
  s ← sget;
  if decide (h ∈ hash_of <$> sp_queue s) then smodify (spec_forget h r);; mret true else mret false.

Definition sp_with_dropped (d : gset bytes) (s : Spec) : Spec :=
  MkSpec (sp_limit s) (sp_queue s) d (sp_knownBy s) (sp_chain s) (sp_nonces s) (sp_events s).
Definition sp_with_nonces (nc : NonceCheck) (c : nonce_cache) (s : Spec) : Spec :=
  MkSpec (sp_limit s) (sp_queue s) (sp_dropped s) (sp_knownBy s) nc c (sp_events s).

Definition spec_drop (h : bytes) : SM Spec bool :=
  s ← sget;
  if decide (h ∈ hash_of <$> sp_queue s) then
    smodify (sp_with_dropped (if decide (Z.of_nat (size (sp_dropped s)) < sp_limit s)
                              then {[h]} ∪ sp_dropped s else ∅));;
    spec_remove h None
  else mret false.

Fixpoint spec_drop_loop (b : Block) (i : nat) (ts : list Transaction) (succ : bool) : SM Spec bool :=
  match ts with
  | [] => mret succ
  | t :: ts =>
      r ← (match m_transactionReceipts b !! i with
           | Some r => r ← slift (constructTransactionReceipt t r b (Z.of_nat i)); mret (Some r)
           | None => mret None
           end);
      h ← slift (tx_hash t);
      ok ← spec_remove h r;
      spec_drop_loop b (S i) ts (succ && ok)
  end.

Definition spec_updateCache (bc : Chain) (rebuild : bool) : SM Spec unit :=
  s ← sget;
  nc ← slift (updateCache bc (sp_chain s) rebuild);
  smodify (sp_with_nonces nc (sp_nonces s)).

Definition spec_dropBlock (bc : Chain) (b : Block) : SM Spec bool :=
  spec_updateCache bc false;;
  ret ← spec_drop_loop b 0 (m_transactions b) true;
  smodify (λ s, sp_with_nonces (sp_chain s) (delCache (sp_nonces s) (m_transactions b)) s);;
  mret ret.

(** The prefix of [q] up to the [n]-th good transaction. *)
Fixpoint scan (n : nat) (good : Transaction → bool) (q : list Transaction) : list Transaction :=
  match n, q with
  | O, _ | _, [] => []
  | S k, t :: q => t :: scan (if good t then k else n) good q
  end.

(** Fetching: the first [lim] transactions that are valid and not avoided; the
    invalid ones met on the way leave the pool, with their nonce keys. *)
Definition spec_top (bc : Chain) (lim : Z) (avoid : gset bytes) (update : bool) :
    SM Spec (list Transaction * gset bytes) :=
  s ← sget;
  let n := Z.to_nat (sp_limit s `min` lim) in
  let valid := nonce_valid bc (sp_chain s) in
  let good t := valid t && negb (bool_decide (hash_of t ∈ avoid)) in
  let ret := take n (filter good (sp_queue s)) in
  let bad := filter (λ t, valid t = false) (scan n good (sp_queue s)) in
  let hs : gset bytes := list_to_set (hash_of <$> bad) in
  smodify (λ s,
    MkSpec (sp_limit s) (filter (λ t, hash_of t ∉ hs) (sp_queue s)) (hs ∪ sp_dropped s)
      (filter (λ p, p.1 ∉ hs) (sp_knownBy s)) (sp_chain s)
      (sp_nonces s ∖ list_to_set (generateKey <$> bad)) (sp_events s));;
  mret (ret, if update then list_to_set (hash_of <$> ret) ∪ avoid else avoid).

Definition spec_clear : SM Spec unit := smodify (λ s,
  MkSpec (sp_limit s) [] ∅ ∅ (sp_chain s) (sp_nonces s) (sp_events s)).

(** ** Calls *)

Inductive pool_op :=
  | OpImport (bc : Chain) (now : Z) (t : Transaction) (ik : IfDropped)
  | OpImportBytes (bc : Chain) (now : Z) (d : bytes) (ik : IfDropped)
  | OpSubmit (bc : Chain) (now : Z) (t : Transaction)
  | OpDrop (h : bytes)
  | OpDropBlock (bc : Chain) (b : Block)
  | OpTop (bc : Chain) (lim : Z) (avoid : gset bytes) (update : bool)
  | OpKnownBy (h node : bytes)
  | OpSetLimit (l : Z)
  | OpSetMaxBlockLimit (l : Z)
  | OpClear.

Inductive pool_out :=
  | OutImport (r : ImportResult) (t : Transaction)
  | OutResult (r : ImportResult)
  | OutSubmit (h a : bytes)
  | OutBool (b : bool)
  | OutTop (ret : list Transaction) (avoid : gset bytes)
  | OutUnit.

Definition run_op (o : pool_op) : PM pool_out :=
  match o with
  | OpImport bc now t ik => '(r, t) ← tp_import bc now t ik; mret (OutImport r t)
  | OpImportBytes bc now d ik => r ← tp_import_bytes bc now d ik; mret (OutResult r)
  | OpSubmit bc now t => '(h, a) ← tp_submit bc now t; mret (OutSubmit h a)
  | OpDrop h => b ← tp_drop h; mret (OutBool b)
  | OpDropBlock bc b => r ← dropBlockTrans bc b; mret (OutBool r)
  | OpTop bc lim avoid u => '(ret, a) ← topTransactions bc lim avoid u; mret (OutTop ret a)
  | OpKnownBy h node => transactionIsKnownBy h node;; mret OutUnit
  | OpSetLimit l => setTxPoolLimit l;; mret OutUnit
  | OpSetMaxBlockLimit l => setMaxBlockLimit l;; mret OutUnit
  | OpClear => tp_clear;; mret OutUnit
  end.

Definition spec_op (o : pool_op) : SM Spec pool_out :=
  match o with
  | OpImport bc now t ik => '(r, t) ← spec_import bc now t ik; mret (OutImport r t)
  | OpImportBytes bc now d ik => r ← spec_import_bytes bc now d ik; mret (OutResult r)
  | OpSubmit bc now t => '(h, a) ← spec_submit bc now t; mret (OutSubmit h a)
  | OpDrop h => b ← spec_drop h; mret (OutBool b)
  | OpDropBlock bc b => r ← spec_dropBlock bc b; mret (OutBool r)
  | OpTop bc lim avoid u => '(ret, a) ← spec_top bc lim avoid u; mret (OutTop ret a)
  | OpKnownBy h node =>
      smodify (λ s, MkSpec (sp_limit s) (sp_queue s) (sp_dropped s)
        (<[h := {[node]} ∪ default ∅ (sp_knownBy s !! h)]> (sp_knownBy s)) (sp_chain s) (sp_nonces s)
        (sp_events s));; mret OutUnit
  | OpSetLimit l =>
      smodify (λ s, MkSpec l (sp_queue s) (sp_dropped s) (sp_knownBy s) (sp_chain s) (sp_nonces s)
        (sp_events s));; mret OutUnit
  | OpSetMaxBlockLimit l =>
      smodify (λ s, sp_with_nonces (nc_setBlockLimit (sp_chain s) l) (sp_nonces s) s);; mret OutUnit
  | OpClear => spec_clear;; mret OutUnit
  end.

(** The pool drops the policy of an import: it acts on the call as if it
    were [Ignore]. *)
Definition as_ignore (o : pool_op) : pool_op :=
  match o with
  | OpImport bc now t _ => OpImport bc now t Ignore
  | OpImportBytes bc now d _ => OpImportBytes bc now d Ignore
  | o => o
  end.
Definition ignores (o : pool_op) : Prop := as_ignore o = o.

(** A sequence of calls; a call that throws is followed by the next. *)
Fixpoint run_calls {S} (step : pool_op → SM S pool_out) (ops : list pool_op) (s : S) :
    list (res pool_out) * S :=
  match ops with
  | [] => ([], s)
  | o :: ops => let '(r, s') := step o s in
                let '(rs, s'') := run_calls step ops s' in (r :: rs, s'')
  end.
End spec.
