(* ===== verification/TxPoolFacts.v ===== *)
(** * Properties of the transaction pool

    The representation invariant of the pool, its preservation by every call,
    and the refinement of the contract of TxPoolSpec.v. *)

From stdpp Require Import sorting.
From S2P Require Import Prelude StateErr RLP Crypto Transaction TransactionFacts Block NonceCheck.
From S2P Require Import NonceCheckFacts TxPool TxPoolSpec.

Local Open Scope Z_scope.

(** ** The invariant *)

Section facts.
Context {crypto : Crypto}.

(** Nodes are distinct and allocated, the queue is ordered by import time, and
    the index holds exactly the hashes of the queued transactions, each with
    the node of its transaction. *)
Record pool_wf (p : TxPool) : Prop := {
  wf_sorted : StronglySorted (λ a b, m_importTime a.2 ≤ m_importTime b.2) (m_txsQueue p);
  wf_nodes : NoDup (m_txsQueue p).*1;
  wf_fresh : ∀ n t, (n, t) ∈ m_txsQueue p → n < m_next p;
  wf_index : ∀ h n, m_txsHash p !! h = Some n ↔ ∃ t, (n, t) ∈ m_txsQueue p ∧ tx_hash t = Ok h;
  wf_hash : ∀ n t, (n, t) ∈ m_txsQueue p → is_ok (tx_hash t);
  wf_known : m_known p = dom (m_txsHash p);
}.

Lemma wf_irrelevant p p' :
  m_txsQueue p' = m_txsQueue p → m_next p' = m_next p → m_txsHash p' = m_txsHash p →
  m_known p' = m_known p → pool_wf p → pool_wf p'.
Proof. intros E1 E2 E3 E4 []. by split; rewrite ?E1, ?E2, ?E3, ?E4. Qed.

(** ** Lists *)

Lemma filter_fmap_snd {A B} (P : A → Prop) (Q : B → Prop) `{∀ x, Decision (P x)} `{∀ x, Decision (Q x)}
    (l : list (A * B)) :
  (∀ a b, (a, b) ∈ l → (P a ↔ Q b)) →
  (filter (λ p, P p.1) l).*2 = filter Q l.*2.
Proof.
  induction l as [|[a b] l IH]; intros Hl; [done|]. rewrite fmap_cons, !filter_cons. simpl.
  pose proof (Hl a b ltac:(left)).
  assert ((filter (λ p : A * B, P p.1) l).*2 = filter Q l.*2) as E by (apply IH; intros; apply Hl; by right).
  repeat case_decide; rewrite ?fmap_cons, ?E; first [tauto|done].
Qed.

Lemma queue_emplace_perm n t q : queue_emplace n t q ≡ₚ (n, t) :: q.
Proof.
  induction q as [|[m x] q IH]; [done|]. simpl. case_match; [done|].
  rewrite IH. apply Permutation_swap.
Qed.

Lemma queue_emplace_snd n t q : (queue_emplace n t q).*2 = insert_by_time t q.*2.
Proof.
  induction q as [|[m x] q IH]; [done|]. rewrite fmap_cons. cbn [queue_emplace insert_by_time snd].
  unfold transactionCompare. case_bool_decide as Hle; [by rewrite decide_True by done|].
  rewrite decide_False, fmap_cons by done. by rewrite IH.
Qed.

Lemma queue_emplace_sorted n t q :
  StronglySorted (λ a b : Z * Transaction, m_importTime a.2 ≤ m_importTime b.2) q →
  StronglySorted (λ a b : Z * Transaction, m_importTime a.2 ≤ m_importTime b.2) (queue_emplace n t q).
Proof.
  induction 1 as [|[m x] q Hs IH Hall]; cbn [queue_emplace]; [repeat constructor|].
  unfold transactionCompare. case_bool_decide as Hle.
  - constructor; [by constructor|]. constructor; [done|]. eapply list.Forall_impl; [done|].
    simpl in *. intros. lia.
  - constructor; [done|]. rewrite queue_emplace_perm. constructor; [simpl; lia|done].
Qed.

Lemma sorted_filter {A} (R : A → A → Prop) (P : A → Prop) `{∀ x, Decision (P x)} l :
  StronglySorted R l → StronglySorted R (filter P l).
Proof.
  induction 1 as [|x l _ IH Hall]; [constructor|]. rewrite filter_cons. case_decide; [|done].
  constructor; [done|]. rewrite list.Forall_forall in *. intros y Hy. apply Hall.
  by apply list_elem_of_filter in Hy as [_ ?].
Qed.

(** ** Hashes *)

Lemma tx_hash_of t h : tx_hash t = Ok h → hash_of t = h.
Proof. unfold hash_of. by intros ->. Qed.

(** The sender does not depend on the memoised hash or the import time. *)
Definition same_signed (t t' : Transaction) : Prop :=
  m_type t' = m_type t ∧ m_nonce t' = m_nonce t ∧ m_value t' = m_value t ∧
  m_receiveAddress t' = m_receiveAddress t ∧ m_gasPrice t' = m_gasPrice t ∧ m_gas t' = m_gas t ∧
  m_data t' = m_data t ∧ m_vrs t' = m_vrs t ∧ m_sender t' = m_sender t ∧
  m_blockLimit t' = m_blockLimit t.

Lemma same_signed_encode t t' sg : same_signed t t' → tx_encode t' sg = tx_encode t sg.
Proof.
  intros (E1 & E2 & E3 & E4 & E5 & E6 & E7 & E8 & E9 & E10). unfold tx_encode, tx_stream.
  by rewrite E1, E2, E3, E4, E5, E6, E7, E8, E10.
Qed.

Lemma same_signed_sender t t' : same_signed t t' → tx_safeSender t' = tx_safeSender t.
Proof.
  intros Hs. pose proof (same_signed_encode t t' WithoutSignature Hs) as He.
  destruct Hs as (_ & _ & _ & _ & _ & _ & _ & E8 & E9 & _). unfold tx_safeSender, tx_sender, tx_sha3.
  rewrite E8, E9, He. case_decide; [done|]. destruct (m_vrs t); [|done].
  destruct (tx_encode t WithoutSignature); [|done]. rewrite !bind_ok.
  unfold throw_if. by case_decide.
Qed.

Lemma tx_sha3_hash t h t' :
  tx_sha3 t WithSignature = Ok (h, t') →
  tx_hash t' = Ok h ∧ m_importTime t' = m_importTime t ∧ generateKey t' = generateKey t ∧
  m_nonce t' = m_nonce t ∧ m_blockLimit t' = m_blockLimit t.
Proof.
  unfold tx_hash, tx_sha3. case_decide as Hm; intros Hs.
  - simplify_eq. by rewrite decide_True.
  - apply bind_ok_inv in Hs as (e & He & Hs). injection Hs as <- <-.
    set (t' := MkTx _ _ _ _ _ _ _ _ _ _ _ _). assert (same_signed t t') as Hsame by done.
    unfold generateKey. rewrite (same_signed_sender t t' Hsame).
    split; [|done]. case_decide; [done|]. by rewrite (same_signed_encode t t'), He.
Qed.

Section wf.
Context (p : TxPool) (Hp : pool_wf p).

Lemma wf_node_inj n t t' : (n, t) ∈ m_txsQueue p → (n, t') ∈ m_txsQueue p → t = t'.
Proof.
  intros H1 H2. apply list_elem_of_lookup in H1 as [i Hi]. apply list_elem_of_lookup in H2 as [j Hj].
  assert (i = j) as <-; [|rewrite Hi in Hj; by simplify_eq].
  apply (NoDup_lookup _ i j n (wf_nodes p Hp)); by rewrite list_lookup_fmap, ?Hi, ?Hj.
Qed.

Lemma wf_hash_of n t : (n, t) ∈ m_txsQueue p → tx_hash t = Ok (hash_of t).
Proof.
  intros Ht. pose proof (wf_hash p Hp n t Ht). unfold hash_of. by destruct (tx_hash t).
Qed.

Lemma wf_hash_node h n m t :
  m_txsHash p !! h = Some n → (m, t) ∈ m_txsQueue p → (m = n ↔ hash_of t = h).
Proof.
  intros Hh Hm. pose proof (wf_hash_of m t Hm) as Ht. split.
  - intros ->. apply (wf_index p Hp) in Hh as (t' & Ht' & E).
    rewrite (wf_node_inj n t t' Hm Ht') in *. congruence.
  - intros <-. assert (m_txsHash p !! hash_of t = Some m) as Hm'; [|congruence].
    apply (wf_index p Hp). by exists t.
Qed.

Lemma wf_indexed h : h ∈ hash_of <$> (m_txsQueue p).*2 ↔ is_Some (m_txsHash p !! h).
Proof.
  rewrite list_elem_of_fmap. split.
  - intros (t & -> & Ht). apply list_elem_of_fmap in Ht as ([n t'] & -> & Ht). exists n.
    apply (wf_index p Hp). exists t'. split; [done|]. by apply (wf_hash_of n).
  - intros [n Hn]. apply (wf_index p Hp) in Hn as (t & Ht & E). exists t.
    split; [by rewrite (tx_hash_of t h)|]. apply list_elem_of_fmap. by exists (n, t).
Qed.

Lemma wf_known_queue h : h ∈ m_known p ↔ h ∈ hash_of <$> (m_txsQueue p).*2.
Proof. rewrite wf_indexed, (wf_known p Hp). apply elem_of_dom. Qed.

Lemma wf_hashes_nodup : NoDup (hash_of <$> (m_txsQueue p).*2).
Proof.
  rewrite <- list_fmap_compose. apply NoDup_fmap_2_strong; [|eapply NoDup_fmap_1, (wf_nodes p Hp)].
  intros [n t] [m t'] Hn Hm E. cbn in E.
  assert (m_txsHash p !! hash_of t = Some n) as Hi.
  { apply (wf_index p Hp). exists t. split; [done|]. by apply (wf_hash_of n). }
  assert (m = n) as -> by (by apply (wf_hash_node _ _ _ _ Hi Hm)).
  by rewrite (wf_node_inj n t t').
Qed.

Lemma wf_indexed_node h n :
  m_txsHash p !! h = Some n → n ∈ (m_txsQueue p).*1 ∧ is_Some (queue_deref n (m_txsQueue p)).
Proof.
  intros Hh. apply (wf_index p Hp) in Hh as (t & Ht & _). split.
  - apply list_elem_of_fmap. by exists (n, t).
  - unfold queue_deref. destruct (list_find_elem_of (λ p : Z * Transaction, p.1 = n) (m_txsQueue p) (n, t))
      as [[i [m t']] E]; [done..|]. rewrite E. by eexists.
Qed.
End wf.

(** ** Refinement *)

Definition refines {A} (mc : PM A) (ms : SM Spec A) : Prop :=
  ∀ p, pool_wf p → pool_wf (snd (mc p)) ∧ ms (abs p) = (fst (mc p), abs (snd (mc p))).

Lemma refines_ret {A} (a : A) : refines (mret a) (mret a).
Proof. by intros p Hp. Qed.

Lemma refines_lift {A} (r : res A) : refines (slift r) (slift r).
Proof. by intros p Hp. Qed.

Lemma refines_throw {A} e : refines (@sthrow _ A e) (sthrow e).
Proof. by intros p Hp. Qed.

Lemma refines_bind {A B} (mc : PM A) ms (fc : A → PM B) fs :
  refines mc ms → (∀ a, refines (fc a) (fs a)) → refines (mc ≫= fc) (ms ≫= fs).
Proof.
  intros Hm Hf p Hp. destruct (Hm p Hp) as [Hw E]. unfold mbind, sm_bind. rewrite E.
  destruct (mc p) as [[a|e] p']; [by apply Hf|done].
Qed.

(** A pure update of members outside the queue and its index. *)
Lemma refines_modify (fc : TxPool → TxPool) (fs : Spec → Spec) :
  (∀ p, m_txsQueue (fc p) = m_txsQueue p ∧ m_next (fc p) = m_next p ∧ m_txsHash (fc p) = m_txsHash p ∧
        m_known (fc p) = m_known p) →
  (∀ p, fs (abs p) = abs (fc p)) → refines (smodify fc) (smodify fs).
Proof.
  intros Hsame Habs p Hp. destruct (Hsame p) as (E1 & E2 & E3 & E4). simpl.
  split; [by apply (wf_irrelevant p)|]. unfold smodify. by rewrite Habs.
Qed.

(** What an operation does may depend on the state through the abstraction. *)
Lemma refines_get {A} (fc : TxPool → PM A) (fs : Spec → SM Spec A) :
  (∀ p, pool_wf p → pool_wf (snd (fc p p)) ∧ fs (abs p) (abs p) = (fst (fc p p), abs (snd (fc p p)))) →
  refines (sget ≫= fc) (sget ≫= fs).
Proof. intros Hf p Hp. unfold mbind, sm_bind, sget. by apply Hf. Qed.

Create HintDb refines discriminated.
Hint Resolve refines_ret refines_lift refines_throw : refines.

(** ** Checks *)

Lemma nc_ok_read bc nc t : nc_ok bc nc t false = (fst (nc_ok bc nc t false), nc).
Proof.
  unfold nc_ok, isNonceOk. destruct (isBlockLimitOk bc nc t); [|done]. destruct nc. by case_decide.
Qed.

Lemma isBlockLimitOrNonceOk_read bc t p :
  isBlockLimitOrNonceOk bc t false p = (Ok (nonce_valid bc (m_txNonceCheck p) t), p).
Proof.
  unfold isBlockLimitOrNonceOk, nonce_valid. case_decide as Hn.
  - by rewrite bool_decide_true.
  - rewrite bool_decide_false by done. unfold mbind, sm_bind, sget. rewrite nc_ok_read.
    cbn. by destruct p.
Qed.

Lemma txPoolNonceCheck_read t p :
  txPoolNonceCheck t p = (Ok (negb (bool_decide (generateKey t ∈ m_commonNonceCheck p))), p).
Proof.
  unfold txPoolNonceCheck, mbind, sm_bind, sget, isNonceOk.
  case_decide; [by rewrite bool_decide_true|by rewrite bool_decide_false].
Qed.

Lemma tp_verify_verdict bc t p :
  pool_wf p →
  tp_verify bc t Ignore false p =
  match tx_sha3 t WithSignature with
  | Ok (h, t') => (Ok (spec_verdict bc (abs p) t' h Ignore, t'), p)
  | Throw e => (Throw e, p)
  end.
Proof.
  intros Hp. unfold tp_verify, mbind, sm_bind, slift.
  destruct (tx_sha3 t WithSignature) as [[h t']|e]; [|done]. unfold sget, spec_verdict, abs; cbn.
  destruct (decide (h ∈ m_known p)) as [Hk|Hk].
  { rewrite decide_True; [done|]. by apply wf_known_queue. }
  rewrite (decide_False (P := h ∈ hash_of <$> _)) by (by rewrite <- wf_known_queue).
  destruct (decide (h ∈ m_dropped p ∧ Ignore = Ignore)) as [Hd|Hd]; [done|]. rewrite isBlockLimitOrNonceOk_read.
  destruct (nonce_valid bc (m_txNonceCheck p) t'); [|done]. cbv [negb]. rewrite txPoolNonceCheck_read.
  case_bool_decide; [by rewrite decide_True|by rewrite decide_False].
Qed.

(** ** Insertion and removal *)

Lemma insert_wf p t h :
  pool_wf p → tx_hash t = Ok h → m_txsHash p !! h = None →
  pool_wf (MkPool (tp_limit p) (queue_emplace (m_next p) t (m_txsQueue p)) (m_next p + 1)
             (<[h := m_next p]> (m_txsHash p)) ({[h]} ∪ m_known p) (m_dropped p)
             (m_transactionKnownBy p) (m_txNonceCheck p) (m_commonNonceCheck p) (tp_events p)).
Proof.
  intros Hp Ht Hh. pose proof (queue_emplace_perm (m_next p) t (m_txsQueue p)) as Hperm.
  split; cbn [m_txsQueue m_next m_txsHash m_known].
  - apply queue_emplace_sorted, (wf_sorted p Hp).
  - rewrite Hperm. cbn. apply list.NoDup_cons. split; [|apply (wf_nodes p Hp)].
    intros Hin. apply list_elem_of_fmap in Hin as ([n x] & En & Hin). cbn in En. subst.
    apply (wf_fresh p Hp) in Hin. lia.
  - intros n x. rewrite Hperm, elem_of_cons. intros [E|Hin]; [simplify_eq; lia|].
    apply (wf_fresh p Hp) in Hin. lia.
  - intros h' n. rewrite lookup_insert_Some, (wf_index p Hp). setoid_rewrite Hperm.
    setoid_rewrite elem_of_cons. split.
    + intros [[<- <-]|(Hne & x & Hx & E)]; [exists t; by split; [left|]|exists x; by split; [right|]].
    + intros (x & [E|Hin] & Ex); [left; simplify_eq; split; [congruence|done]|]. right.
      split; [|by exists x]. intros <-.
      assert (is_Some (m_txsHash p !! h)) as [? ?]; [|congruence].
      exists n. apply (wf_index p Hp). by exists x.
  - intros n x. rewrite Hperm, elem_of_cons. intros [E|Hin]; [simplify_eq; by rewrite Ht|].
    by apply (wf_hash p Hp n).
  - by rewrite dom_insert_L, (wf_known p Hp).
Qed.

Lemma remove_wf p h n :
  pool_wf p → m_txsHash p !! h = Some n →
  pool_wf (with_index (delete h (m_txsHash p)) (m_known p ∖ {[h]})
             (with_queue (filter (λ x, x.1 ≠ n) (m_txsQueue p)) p)).
Proof.
  intros Hp Hh. split; cbn [m_txsQueue m_next m_txsHash m_known with_index with_queue].
  - apply sorted_filter, (wf_sorted p Hp).
  - eapply sublist_NoDup; [apply (wf_nodes p Hp)|]. apply fmap_sublist, sublist_filter.
  - intros m x Hx. apply list_elem_of_filter in Hx as [_ Hx]. by apply (wf_fresh p Hp) in Hx.
  - intros h' m. rewrite lookup_delete_Some, (wf_index p Hp). setoid_rewrite list_elem_of_filter. cbn.
    split.
    + intros (Hne & x & Hx & E). exists x. repeat split; [|done..]. intros ->.
      apply Hne. apply (wf_hash_node p Hp h n n x Hh) in Hx as [Hx _].
      rewrite <- (Hx eq_refl). by apply tx_hash_of.
    + intros (x & [Hm Hx] & E). split; [|by exists x]. intros <-. apply Hm.
      apply (wf_hash_node p Hp h n m x Hh Hx). by apply tx_hash_of.
  - intros m x Hx. apply list_elem_of_filter in Hx as [_ Hx]. by apply (wf_hash p Hp m).
  - by rewrite dom_delete_L, (wf_known p Hp).
Qed.

Lemma remove_abs p h n :
  pool_wf p → m_txsHash p !! h = Some n →
  (filter (λ x, x.1 ≠ n) (m_txsQueue p)).*2 = remove_hash h (m_txsQueue p).*2.
Proof.
  intros Hp Hh. unfold remove_hash.
  rewrite <- (filter_fmap_snd (λ x, x ≠ n) (λ t, hash_of t ≠ h)); [done|]. intros m t Hm. by rewrite (wf_hash_node p Hp h n m t Hh Hm).
Qed.

Lemma removeTrans_refines h b r :
  refines (removeTrans h b r) (spec_remove h (if b then r else None)).
Proof.
  unfold removeTrans, spec_remove. apply refines_get. intros p Hp.
  destruct (m_txsHash p !! h) as [n|] eqn:Hh.
  - rewrite decide_True by (apply (wf_indexed p Hp); by eexists).
    destruct (wf_indexed_node p Hp h n Hh) as [Hn [t Ht]].
    pose proof (remove_wf p h n Hp Hh) as Hw. pose proof (remove_abs p h n Hp Hh) as Ha.
    assert (∀ m : PM unit, swhen (true = true) m = m ∧ swhen (false = true) m = mret tt) as Hwhen by done.
    destruct r as [r|], b; rewrite ?(proj1 (Hwhen _)), ?(proj2 (Hwhen _)), ?Ht;
      unfold queue_erase; rewrite throw_if_false by tauto;
      unfold mbind, sm_bind; cbn -[fmap filter];
      (split; [eapply wf_irrelevant; [..|exact Hw]; done|]);
      unfold spec_forget, abs; cbn -[fmap filter]; rewrite Ha, ?app_nil_r; done.
  - rewrite decide_False; [done|]. rewrite (wf_indexed p Hp), Hh. by intros [].
Qed.
Hint Resolve removeTrans_refines : refines.

(** ** Import *)

Lemma spec_import_refines bc now t ik : refines (tp_import bc now t ik) (spec_import bc now t Ignore).
Proof.
  unfold tp_import, spec_import. cbv zeta. apply refines_get. intros p Hp.
  change (sp_queue (abs p)) with (m_txsQueue p).*2. change (sp_limit (abs p)) with (tp_limit p).
  rewrite length_fmap. case_decide; [done|].
  pose proof (tp_verify_verdict bc (setImportTime t (u256 now)) p Hp) as Hv.
  unfold mbind, sm_bind, slift, swhen. rewrite Hv.
  destruct (tx_sha3 _ WithSignature) as [[h t']|e] eqn:Es; [|done].
  apply tx_sha3_hash in Es as (Eh & _). clear Hv.
  destruct (decide (spec_verdict bc (abs p) t' h Ignore = Success)) as [Er|Er].
  2: done.
  rewrite Er. unfold tp_insert.
  assert (m_txsHash p !! h = None) as Hnone.
  { apply eq_None_not_Some. rewrite <- (wf_indexed p Hp). intros Hin. unfold spec_verdict in Er.
    by rewrite decide_True in Er. }
  unfold mbind, sm_bind, slift, sget. rewrite Eh, decide_False by (by rewrite Hnone; intros []).
  pose proof (insert_wf p t' h Hp Eh Hnone) as Hw. cbn -[fmap queue_emplace generateKey spec_add].
  split; [eapply wf_irrelevant; [..|exact Hw]; done|].
  unfold spec_add. change (sp_queue (abs p)) with (m_txsQueue p).*2.
  by rewrite <- (queue_emplace_snd (m_next p)).
Qed.
Hint Resolve spec_import_refines : refines.

Lemma spec_import_bytes_refines bc now d ik :
  refines (tp_import_bytes bc now d ik) (spec_import_bytes bc now d Ignore).
Proof.
  intros p Hp. unfold tp_import_bytes, spec_import_bytes.
  set (k := λ r : option Transaction, match r with Some _ => _ | None => _ end).
  assert (∀ t, refines (k (Some t)) ('(r, _) ← spec_import bc now t Ignore; mret r)) as Hk.
  { intros t. apply refines_bind; [apply spec_import_refines|]. intros [r t']. apply refines_ret. }
  unfold mbind, sm_bind, stry, slift, res_bind.
  destruct (tx_decode Transaction0 d CheckEverything) as [t|e]; [|by destruct (catchable e)].
  destruct (tx_sha3 t WithSignature) as [[h t']|e]; [|by destruct (catchable e)].
  case_decide; [done|]. by apply (Hk t' p).
Qed.
Hint Resolve spec_import_bytes_refines : refines.

Lemma spec_submit_refines bc now t : refines (tp_submit bc now t) (spec_submit bc now t).
Proof.
  apply refines_bind; [apply spec_import_refines|]. intros [r t'].
  apply refines_bind; [apply refines_lift|]. intros h. case_decide; [|apply refines_throw].
  apply refines_bind; [apply refines_lift|]. intros a. apply refines_ret.
Qed.

(** ** Dropping *)

Lemma spec_drop_refines h : refines (tp_drop h) (spec_drop h).
Proof.
  unfold tp_drop, spec_drop. apply refines_get. intros p Hp.
  change (sp_queue (abs p)) with (m_txsQueue p).*2.
  destruct (decide (h ∈ hash_of <$> (m_txsQueue p).*2)) as [Hin|Hin].
  - rewrite decide_False by (rewrite (wf_known_queue p Hp); tauto). revert Hp.
    assert (∀ d, refines (smodify (with_dropped d);; removeTrans h false None)
                         (smodify (sp_with_dropped d);; spec_remove h None)) as Hr; [|apply Hr].
    intros d. apply refines_bind; [by apply refines_modify|]. intros _.
    apply (removeTrans_refines h false None).
  - rewrite decide_True by (rewrite (wf_known_queue p Hp); tauto). done.
Qed.

Lemma spec_drop_loop_refines b i ts succ : refines (drop_loop b i ts succ) (spec_drop_loop b i ts succ).
Proof.
  revert i succ. induction ts as [|t ts IH]; intros i succ; [apply refines_ret|].
  cbn [drop_loop spec_drop_loop]. intros p Hp. unfold drop_one. rewrite sm_bind_assoc.
  revert p Hp. apply refines_bind.
  { destruct (m_transactionReceipts b !! i); [|apply refines_ret].
    apply refines_bind; [apply refines_lift|]. intros r. apply refines_ret. }
  intros r p Hp. rewrite sm_bind_assoc. revert p Hp.
  apply refines_bind; [apply refines_lift|]. intros h.
  apply refines_bind; [apply (removeTrans_refines h true)|]. intros ok. apply IH.
Qed.

Lemma spec_updateCache_refines bc rebuild : refines (pool_updateCache bc rebuild) (spec_updateCache bc rebuild).
Proof.
  apply refines_get. intros p Hp.
  assert (∀ nc c, refines (r ← slift nc; smodify (with_nonces r c)) (r ← slift nc; smodify (sp_with_nonces r c))) as Hr.
  { intros nc c. apply refines_bind; [apply refines_lift|]. intros r. by apply refines_modify. }
  by apply (Hr (updateCache bc (m_txNonceCheck p) rebuild) (m_commonNonceCheck p)).
Qed.

Lemma spec_dropBlock_refines bc b : refines (dropBlockTrans bc b) (spec_dropBlock bc b).
Proof.
  apply refines_bind; [apply spec_updateCache_refines|]. intros _. apply refines_bind.
  { unfold dropTransactions. case_decide as E; [rewrite E; apply refines_ret|].
    apply spec_drop_loop_refines. }
  intros ret. apply refines_bind; [by apply refines_modify|]. intros _. apply refines_ret.
Qed.

(** ** Fetching *)

Lemma filter_ext_in {A} (f g : A → bool) (l : list A) : (∀ x, x ∈ l → f x = g x) → filter f l = filter g l.
Proof.
  induction l as [|x l IH]; intros E; [done|]. rewrite !filter_cons, (E x) by left.
  rewrite (IH (λ y Hy, E y (list_elem_of_further _ _ _ Hy))). done.
Qed.

Lemma scan_ext_in n f g l : (∀ x, x ∈ l → f x = g x) → scan n f l = scan n g l.
Proof.
  revert n. induction l as [|x l IH]; intros n E; [by destruct n|]. destruct n as [|n]; [done|].
  simpl. rewrite (E x) by left. f_equal. apply IH. intros y Hy. apply E. by right.
Qed.

Lemma scan_subseteq n f l x : x ∈ scan n f l → x ∈ l.
Proof.
  revert n. induction l as [|y l IH]; intros [|n]; simpl; set_solver.
Qed.

Section top.
Context (bc : Chain) (lim : Z) (update : bool) (p : TxPool).

Let valid := nonce_valid bc (m_txNonceCheck p).
Let good (avoid : gset bytes) (t : Transaction) : bool := valid t && negb (bool_decide (hash_of t ∈ avoid)).

Definition top_result (q : list Transaction) (a : top_acc) : top_acc :=
  let k := Z.to_nat (lim - Z.of_nat (length (top_ret a))) in
  let ret := take k (filter (good (top_avoid a)) q) in
  let bad := filter (λ t, valid t = false) (scan k (good (top_avoid a)) q) in
  MkTop (top_ret a ++ ret)
    (if update then list_to_set (hash_of <$> ret) ∪ top_avoid a else top_avoid a)
    (list_to_set (hash_of <$> bad) ∪ top_invalid a) (list_to_set (generateKey <$> bad) ∪ top_keys a).

Lemma top_acc_eq a ret avoid inv keys :
  ret = top_ret a → avoid = top_avoid a → inv = top_invalid a → keys = top_keys a →
  MkTop ret avoid inv keys = a.
Proof. destruct a; simpl. by intros -> -> -> ->. Qed.

Lemma top_result_done q a : lim ≤ Z.of_nat (length (top_ret a)) ∨ q = [] → top_result q a = a.
Proof.
  intros Hd. assert (∀ f, take (Z.to_nat (lim - Z.of_nat (length (top_ret a)))) (filter (good f) q) = [] ∧
    scan (Z.to_nat (lim - Z.of_nat (length (top_ret a)))) (good f) q = []) as Hnil.
  { intros f. destruct Hd as [Hd| ->]; [rewrite Z2Nat.nonpos by lia; split; [done|by destruct q]|].
    by destruct (Z.to_nat _). }
  unfold top_result. cbv zeta. rewrite (proj1 (Hnil _)), (proj2 (Hnil _)).
  apply top_acc_eq; [apply app_nil_r|destruct update; set_solver|set_solver..].
Qed.

Lemma top_rounds a :
  Z.of_nat (length (top_ret a)) < lim →
  Z.to_nat (lim - Z.of_nat (length (top_ret a))) = S (Z.to_nat (lim - Z.of_nat (length (top_ret a)) - 1)).
Proof. lia. Qed.

Lemma top_result_bad t q a :
  Z.of_nat (length (top_ret a)) < lim → valid t = false →
  top_result (t :: q) a =
  top_result q (MkTop (top_ret a) (top_avoid a) ({[hash_of t]} ∪ top_invalid a)
                  ({[generateKey t]} ∪ top_keys a)).
Proof.
  intros Hlim Hv. assert (good (top_avoid a) t = false) as Hg by (unfold good; by rewrite Hv).
  unfold top_result. cbn [top_ret top_avoid top_invalid top_keys]. rewrite (top_rounds a Hlim).
  cbn [scan]. rewrite Hg, !filter_cons, Hg, decide_False, decide_True by (done || by intros []).
  apply top_acc_eq; cbn [top_ret top_avoid top_invalid top_keys]; [done..|set_solver|set_solver].
Qed.

Lemma top_result_avoid t q a :
  Z.of_nat (length (top_ret a)) < lim → valid t = true → hash_of t ∈ top_avoid a →
  top_result (t :: q) a = top_result q a.
Proof.
  intros Hlim Hv Hav. assert (good (top_avoid a) t = false) as Hg.
  { unfold good. by rewrite Hv, bool_decide_true. }
  unfold top_result. rewrite (top_rounds a Hlim). cbn [scan].
  rewrite Hg, !filter_cons, Hg, !decide_False by (first [congruence|by intros []]). done.
Qed.

Lemma top_result_take t q a :
  Z.of_nat (length (top_ret a)) < lim → valid t = true → hash_of t ∉ top_avoid a →
  hash_of t ∉ hash_of <$> q →
  top_result (t :: q) a =
  top_result q (MkTop (top_ret a ++ [t]) (if update then {[hash_of t]} ∪ top_avoid a else top_avoid a)
                  (top_invalid a) (top_keys a)).
Proof.
  intros Hlim Hv Hav Hnt. assert (good (top_avoid a) t = true) as Hg.
  { unfold good. by rewrite Hv, bool_decide_false. }
  assert (∀ x, x ∈ q → good (if update then {[hash_of t]} ∪ top_avoid a else top_avoid a) x
                       = good (top_avoid a) x) as Hgood.
  { intros x Hx. unfold good. destruct update; [|done]. f_equal. f_equal. apply bool_decide_ext.
    assert (hash_of x ≠ hash_of t); [|set_solver]. intros E. apply Hnt. rewrite <- E.
    apply list_elem_of_fmap. by exists x. }
  unfold top_result. cbn [top_ret top_avoid top_invalid top_keys]. rewrite (top_rounds a Hlim).
  cbn [scan]. rewrite Hg, !filter_cons, Hg, decide_True, decide_False by (done || by rewrite Hv).
  rewrite (filter_ext_in _ _ _ Hgood), (scan_ext_in _ _ _ _ Hgood).
  replace (Z.to_nat (lim - Z.of_nat (length (top_ret a ++ [t]))))
    with (Z.to_nat (lim - Z.of_nat (length (top_ret a)) - 1)) by (rewrite length_app; cbn [length]; lia).
  cbn [take]. rewrite fmap_cons. apply top_acc_eq; cbn [top_ret top_avoid top_invalid top_keys];
    [by rewrite <- app_assoc|destruct update; set_solver|done..].
Qed.

(** The scan of the queue: the result, and nothing changes in the pool. *)
Lemma top_loop_run q a :
  NoDup (hash_of <$> q.*2) → (∀ n t, (n, t) ∈ q → tx_hash t = Ok (hash_of t)) →
  top_loop bc lim update q a p = (Ok (top_result q.*2 a), p).
Proof.
  revert a. induction q as [|[n t] q IH]; intros a Hnd Hh.
  { change ([].*2) with (@nil Transaction). by rewrite top_result_done by (by right). }
  cbn [top_loop]. rewrite fmap_cons in *. cbn [snd] in *. rewrite fmap_cons in Hnd.
  apply list.NoDup_cons in Hnd as [Hnt Hnd].
  assert (∀ n t, (n, t) ∈ q → tx_hash t = Ok (hash_of t)) as Hh' by (intros; eapply Hh; by right).
  case_decide as Hlim; [|by rewrite top_result_done by (left; lia)].
  unfold mbind, sm_bind, slift. rewrite isBlockLimitOrNonceOk_read, (Hh n t) by left. fold (valid t).
  destruct (valid t) eqn:Hv; cbn [negb].
  - case_decide; rewrite IH by done; [by rewrite top_result_avoid|by rewrite top_result_take].
  - rewrite IH by done. by rewrite top_result_bad.
Qed.
End top.

Lemma refines_for_each {A} (l : list A) (fc : A → PM unit) fs :
  (∀ x, refines (fc x) (fs x)) → refines (sfor_each l fc) (sfor_each l fs).
Proof.
  intros Hf. induction l as [|x l IH]; [apply refines_ret|]. apply refines_bind; [apply Hf|]. done.
Qed.

(** Removing hashes one by one removes them together. *)
Lemma spec_remove_all hs s :
  NoDup hs → (∀ h, h ∈ hs → h ∈ hash_of <$> sp_queue s) →
  sfor_each hs (λ h, spec_remove h None;; smodify (λ s, sp_with_dropped ({[h]} ∪ sp_dropped s) s)) s =
  (Ok tt, MkSpec (sp_limit s) (filter (λ t, hash_of t ∉ (list_to_set hs : gset bytes)) (sp_queue s))
            (list_to_set hs ∪ sp_dropped s)
            (filter (λ p, p.1 ∉ (list_to_set hs : gset bytes)) (sp_knownBy s)) (sp_chain s)
            (sp_nonces s) (sp_events s)).
Proof.
  intros Hnd. revert s. induction Hnd as [|h hs Hh Hnd IH]; intros s Hin.
  - simpl. f_equal. destruct s as [l q d k c n e]. cbn [sp_limit sp_queue sp_dropped sp_knownBy sp_chain sp_nonces sp_events].
    f_equal; [|set_solver|].
    + clear. induction q as [|t q IH]; [done|]. rewrite filter_cons, decide_True by set_solver. by rewrite <- IH.
    + symmetry. apply map_filter_id. set_solver.
  - cbn [sfor_each]. unfold mbind at 1, sm_bind at 1. unfold spec_remove, mbind at 1 2, sm_bind at 1 2, sget.
    rewrite decide_True by (apply Hin; left). unfold mbind, sm_bind, smodify.
    cbv beta iota. unfold mret, sm_ret. cbv beta iota. rewrite IH.
    + cbn -[filter]. f_equal. f_equal.
      * unfold remove_hash. rewrite list_filter_filter. apply list_filter_iff. intros t. set_solver.
      * set_solver.
      * apply map_eq. intros k. apply option_eq. intros x.
        rewrite !map_lookup_filter_Some, lookup_delete_Some. cbn. set_solver.
      * by rewrite app_nil_r.
    + intros h' Hh'. cbn -[filter]. assert (h' ≠ h) by congruence.
      specialize (Hin h' ltac:(by right)). rewrite list_elem_of_fmap in Hin. destruct Hin as (t & -> & Ht).
      apply list_elem_of_fmap. exists t. split; [done|]. by apply list_elem_of_filter.
Qed.

Lemma spec_delete_keys ks s :
  sfor_each ks (λ k, smodify (λ s, sp_with_nonces (sp_chain s) (delCache_key (sp_nonces s) k) s)) s =
  (Ok tt, sp_with_nonces (sp_chain s) (sp_nonces s ∖ list_to_set ks) s).
Proof.
  revert s. induction ks as [|k ks IH]; intros s.
  - simpl. destruct s. unfold sp_with_nonces. cbn. do 2 f_equal. set_solver.
  - cbn [sfor_each]. unfold mbind, sm_bind, smodify at 1. rewrite IH.
    unfold sp_with_nonces. cbn. do 2 f_equal. unfold delCache_key. set_solver.
Qed.

Lemma spec_top_refines bc lim avoid update :
  refines (topTransactions bc lim avoid update) (spec_top bc lim avoid update).
Proof.
  unfold topTransactions, spec_top. apply refines_get. intros p Hp. cbv zeta.
  rewrite (sm_bind_ok _ _ _ _ _ (top_loop_run bc (tp_limit p `min` lim) update p (m_txsQueue p)
             (MkTop [] avoid ∅ ∅) (wf_hashes_nodup p Hp) (wf_hash_of p Hp))).
  set (a := top_result _ _ _ _ _ _).
  assert (refines
    (sfor_each (elements (top_invalid a)) (λ h, removeTrans h false None;;
       smodify (λ p, with_dropped ({[h]} ∪ m_dropped p) p));;
     sfor_each (elements (top_keys a)) (λ k,
       smodify (λ p, with_nonces (m_txNonceCheck p) (delCache_key (m_commonNonceCheck p) k) p));;
     mret (top_ret a, top_avoid a))
    (sfor_each (elements (top_invalid a)) (λ h, spec_remove h None;;
       smodify (λ s, sp_with_dropped ({[h]} ∪ sp_dropped s) s));;
     sfor_each (elements (top_keys a)) (λ k,
       smodify (λ s, sp_with_nonces (sp_chain s) (delCache_key (sp_nonces s) k) s));;
     mret (top_ret a, top_avoid a))) as Hr.
  { apply refines_bind; [apply refines_for_each; intros h|intros _].
    - apply refines_bind; [apply (removeTrans_refines h false None)|]. intros _. by apply refines_modify.
    - apply refines_bind; [apply refines_for_each; intros k; by apply refines_modify|]. intros _.
      apply refines_ret. }
  destruct (Hr p Hp) as [Hw E]. split; [exact Hw|]. rewrite <- E. clear Hr Hw E.
  assert (∀ h, h ∈ elements (top_invalid a) → h ∈ hash_of <$> sp_queue (abs p)) as Hin.
  { intros h. rewrite elem_of_elements. unfold a, top_result. cbn -[filter fmap].
    rewrite (right_id_L ∅ (∪)), elem_of_list_to_set, !list_elem_of_fmap.
    intros (t & -> & Ht). exists t. split; [done|]. apply list_elem_of_filter in Ht as [_ Ht].
    by apply scan_subseteq in Ht. }
  rewrite (sm_bind_ok _ _ _ _ _ (spec_remove_all (elements (top_invalid a)) (abs p) (NoDup_elements _) Hin)).
  rewrite (sm_bind_ok _ _ _ _ _ (spec_delete_keys _ _)).
  unfold mbind, sm_bind, smodify, mret, sm_ret, sp_with_nonces. rewrite !list_to_set_elements_L.
  cbn -[filter fmap]. unfold a, top_result. cbn -[filter fmap].
  rewrite Z.sub_0_r, !(right_id_L ∅ (∪)). done.
Qed.

(** ** All calls *)

Lemma op_refines o : refines (run_op o) (spec_op (as_ignore o)).
Proof.
  destruct o; cbn [run_op spec_op as_ignore]; (apply refines_bind; [|first [intros []|intros ?]; apply refines_ret]).
  - apply spec_import_refines.
  - apply spec_import_bytes_refines.
  - apply spec_submit_refines.
  - apply spec_drop_refines.
  - apply spec_dropBlock_refines.
  - apply spec_top_refines.
  - by apply refines_modify.
  - by apply refines_modify.
  - by apply refines_modify.
  - intros p Hp. split; [|done]. simpl. split; cbn; try done; try (intros; by apply elem_of_nil in H).
    + constructor.
    + constructor.
    + intros h n. rewrite lookup_empty. split; [done|]. intros (t & Ht & _). by apply elem_of_nil in Ht.
Qed.

Lemma new_wf bc pid lim p : TxPool_new bc pid lim = Ok p → pool_wf p.
Proof.
  unfold TxPool_new. intros E. inv_ok. subst. split; cbn; try done; try (intros ??; set_solver).
  - constructor.
  - constructor.
Qed.

Lemma calls_refine ops p :
  pool_wf p →
  pool_wf (snd (run_calls run_op ops p)) ∧
  run_calls spec_op (as_ignore <$> ops) (abs p) =
  (fst (run_calls run_op ops p), abs (snd (run_calls run_op ops p))).
Proof.
  revert p. induction ops as [|o ops IH]; intros p Hp; [done|]. rewrite fmap_cons. cbn [run_calls].
  destruct (op_refines o p Hp) as [Hw E]. rewrite E. destruct (run_op o p) as [r p']. simpl in *.
  destruct (IH p' Hw) as [Hw' E']. rewrite E'. by destruct (run_calls run_op ops p') as [rs p''].
Qed.
End facts.
