(* ===== verification/TxPoolProps.v ===== *)
(** * Theorems about the transaction pool

    What a client of the pool can rely on: the contract of TxPoolSpec.v, the
    invariant and the size bound, what a fetch returns and removes, what a
    committed block removes, and that a transaction is not accepted twice. *)

From stdpp Require Import sorting.
From S2P Require Import Prelude StateErr RLP Crypto Transaction TransactionFacts Block NonceCheck.
From S2P Require Import NonceCheckFacts TxPool TxPoolSpec TxPoolFacts.

Local Open Scope Z_scope.

Section props.
Context {crypto : Crypto}.

(** ** The size bound *)

Definition bounded (l : Z) (s : Spec) : Prop :=
  sp_limit s = l ∧ Z.of_nat (length (sp_queue s)) ≤ l.

Definition no_limit_change (o : pool_op) : Prop :=
  match o with OpSetLimit _ => False | _ => True end.

Lemma length_insert_by_time t q : length (insert_by_time t q) = S (length q).
Proof. induction q as [|x q IH]; [done|]. simpl. case_match; simpl; by rewrite ?IH. Qed.

Lemma spec_import_bounded l bc now t ik : keeps (bounded l) (spec_import bc now t ik).
Proof.
  intros s [Hl Hb]. unfold spec_import, mbind, sm_bind, sget, slift, swhen.
  case_decide as Hfull; [done|]. destruct (tx_sha3 _ _) as [[h t']|]; [|done].
  case_decide; [|done]. split; [done|]. simpl. rewrite length_insert_by_time. lia.
Qed.

Lemma spec_remove_bounded l h r : keeps (bounded l) (spec_remove h r).
Proof.
  intros s [Hl Hb]. unfold spec_remove, mbind, sm_bind, sget. case_decide; [|done].
  split; [done|]. cbn -[filter]. unfold remove_hash.
  pose proof (length_filter (λ t, hash_of t ≠ h) (sp_queue s)). lia.
Qed.

Lemma spec_op_bounded l o : no_limit_change o → keeps (bounded l) (spec_op o).
Proof.
  pose proof spec_import_bounded. pose proof spec_remove_bounded.
  assert (∀ f, (∀ s, sp_limit (f s) = sp_limit s ∧ sp_queue (f s) = sp_queue s) →
               keeps (bounded l) (smodify f)) as Hmod.
  { intros f Hf. apply keeps_modify. intros s [Hl Hb]. destruct (Hf s) as [E1 E2].
    unfold bounded. by rewrite E1, E2. }
  intros Ho. destruct o; cbn [spec_op no_limit_change] in *; try done; apply keeps_bind; auto with keeps;
    try (intros []; apply keeps_ret); try (intros ?; apply keeps_ret).
  - unfold spec_import_bytes. keeps_auto; auto.
  - unfold spec_submit. keeps_auto; auto.
  - unfold spec_drop. keeps_auto; auto.
  - unfold spec_dropBlock. apply keeps_bind; [unfold spec_updateCache; keeps_auto; auto|].
    intros _. apply keeps_bind; [|intros ?; keeps_auto; auto].
    generalize 0%nat, true. induction (m_transactions b) as [|t ts IH]; intros i succ; [apply keeps_ret|].
    cbn [spec_drop_loop]. keeps_auto; auto.
  - unfold spec_top. keeps_auto. apply keeps_modify. intros s [Hl Hb]. split; [done|]. cbn -[filter].
    match goal with |- context [filter ?P ?q] => pose proof (length_filter P q) end. lia.
  - apply keeps_modify. intros s [Hl Hb]. split; [done|]. simpl. lia.
Qed.

Lemma as_ignore_limit o : no_limit_change o → no_limit_change (as_ignore o).
Proof. by destruct o. Qed.

Lemma as_ignore_all ops : Forall ignores ops → as_ignore <$> ops = ops.
Proof. induction 1 as [|o ops Ho _ IH]; [done|]. by rewrite fmap_cons, IH, Ho. Qed.

Lemma calls_bounded l ops s :
  Forall no_limit_change ops → bounded l s → bounded l (snd (run_calls spec_op ops s)).
Proof.
  intros Hops. revert s. induction Hops as [|o ops Ho _ IH]; intros s Hs; [done|]. cbn [run_calls].
  pose proof (spec_op_bounded l o Ho s Hs) as Hs'. destruct (spec_op o s) as [r s']. simpl in Hs'.
  specialize (IH s' Hs'). by destruct (run_calls spec_op ops s').
Qed.

(** ** Fetching and dropping *)

Lemma fetch_run bc lim avoid update p :
  pool_wf p →
  let n := Z.to_nat (tp_limit p `min` lim) in
  let valid := nonce_valid bc (m_txNonceCheck p) in
  let good t := valid t && negb (bool_decide (hash_of t ∈ avoid)) in
  let ret := take n (filter good (pendingList p)) in
  ∃ p' hs, topTransactions bc lim avoid update p =
             (Ok (ret, if update then list_to_set (hash_of <$> ret) ∪ avoid else avoid), p') ∧
    pendingList p' = filter (λ t, hash_of t ∉ (hs : gset bytes)) (pendingList p) ∧
    hs = list_to_set (hash_of <$> filter (λ t, valid t = false) (scan n good (pendingList p))).
Proof.
  intros Hp n valid good ret. destruct (spec_top_refines bc lim avoid update p Hp) as [_ E].
  destruct (topTransactions bc lim avoid update p) as [r p']. simpl in E.
  unfold spec_top, mbind, sm_bind, sget, smodify, mret, sm_ret in E. cbv beta iota zeta in E.
  pose proof (f_equal fst E) as E1. pose proof (f_equal (λ x, sp_queue (snd x)) E) as E2.
  cbn [fst snd sp_queue abs] in E1, E2. eexists p', _. split; [by rewrite <- E1|]. split; [|done].
  unfold pendingList. by rewrite <- E2.
Qed.

Lemma filter_remove_all hs (q : list Transaction) :
  foldl (λ q h, remove_hash h q) q hs = filter (λ t, hash_of t ∉ hs) q.
Proof.
  revert q. induction hs as [|h hs IH]; intros q.
  - simpl. induction q as [|t q IH]; [done|]. rewrite filter_cons, decide_True by set_solver. by rewrite <- IH.
  - simpl. rewrite IH. unfold remove_hash. rewrite list_filter_filter. apply list_filter_iff.
    intros t. rewrite elem_of_cons. tauto.
Qed.

Lemma spec_remove_queue h r s :
  ∃ ok s', spec_remove h r s = (Ok ok, s') ∧ sp_queue s' = remove_hash h (sp_queue s) ∧
           sp_nonces s' = sp_nonces s ∧ sp_chain s' = sp_chain s.
Proof.
  unfold spec_remove, mbind, sm_bind, sget. case_decide as Hin; [by eexists _, _|].
  eexists _, s. repeat split. unfold remove_hash. symmetry. induction (sp_queue s) as [|t q IH]; [done|].
  rewrite fmap_cons in Hin. rewrite filter_cons, decide_True by set_solver. f_equal. apply IH. set_solver.
Qed.

Lemma spec_drop_loop_queue b i ts succ s r s' :
  spec_drop_loop b i ts succ s = (Ok r, s') →
  sp_queue s' = foldl (λ q h, remove_hash h q) (sp_queue s) (hash_of <$> ts) ∧ sp_nonces s' = sp_nonces s.
Proof.
  revert i succ s. induction ts as [|t ts IH]; intros i succ s E.
  - by injection E as _ <-.
  - cbn [spec_drop_loop] in E. apply sm_bind_inv in E as (x & s1 & E1 & E).
    assert (s1 = s) as ->.
    { destruct (m_transactionReceipts b !! i); [|by injection E1].
      apply sm_bind_inv in E1 as (y & s2 & Ey & E1). injection Ey as _ <-. by injection E1. }
    apply sm_bind_inv in E as (h & s2 & E2 & E). injection E2 as Eh <-.
    apply sm_bind_inv in E as (ok & s3 & E3 & E).
    destruct (spec_remove_queue h x s) as (ok' & s4 & E4 & Hq & Hn & _). rewrite E4 in E3.
    injection E3 as <- <-. apply IH in E as [-> ->]. rewrite Hq, Hn. cbn. by rewrite (tx_hash_of t h).
Qed.

(** ** Acceptance *)

Lemma import_success bc now t ik p t' :
  pool_wf p → fst (tp_import bc now t ik p) = Ok (Success, t') →
  fst (nc_ok bc (m_txNonceCheck p) t false) = true ∧ generateKey t ∉ m_commonNonceCheck p.
Proof.
  intros Hp E. destruct (spec_import_refines bc now t ik p Hp) as [_ Hs].
  apply (f_equal fst) in Hs. cbn [fst] in Hs. rewrite E in Hs. clear E. revert Hs.
  unfold spec_import, mbind, sm_bind, sget, slift, swhen. case_decide; [done|].
  destruct (tx_sha3 _ _) as [[h t2]|] eqn:Es; [|done]. apply tx_sha3_hash in Es as (_ & _ & Ek & En & El).
  assert (generateKey (setImportTime t (u256 now)) = generateKey t) as Ek'.
  { unfold generateKey. by rewrite (same_signed_sender t (setImportTime t (u256 now))). }
  case_decide as Hv; [|by intros [=]]. intros _. unfold spec_verdict in Hv.
  case_decide; [done|]. case_decide; [done|]. destruct (nonce_valid _ _ t2) eqn:Hvalid; [|done].
  cbn [negb] in Hv. case_decide as Hk; [done|]. rewrite Ek, Ek' in Hk. split; [|done].
  unfold nonce_valid in Hvalid. apply andb_prop in Hvalid as [_ Hvalid]. rewrite <- Hvalid.
  unfold nc_ok, isNonceOk, isBlockLimitOk. rewrite Ek, Ek', El. done.
Qed.
(** ** The nonce keys of the chain *)

(** Calls that leave the keys of the chain and the block limit alone. *)
Definition chain_neutral (o : pool_op) : Prop :=
  match o with OpDropBlock _ _ | OpSetMaxBlockLimit _ => False | _ => True end.

(** The pool with the chain it was last told of: any call, on whatever state of
    the chain, and a committed block, reported on a chain that has grown and
    in which blocks in reach of each other share no nonce key. *)
Inductive pool_step : Chain * TxPool → Chain * TxPool → Prop :=
  | pool_call bc p o : chain_neutral o → pool_step (bc, p) (bc, snd (run_op o p))
  | pool_block bc bc' b p :
      chain_ok bc' → keys_unique nc_default_limit bc' → chain_extends bc bc' →
      pool_step (bc, p) (bc', snd (dropBlockTrans bc' b p)).

(** The pool knows the keys of the window of the chain. *)
Definition pool_tracks (s : Chain * TxPool) : Prop :=
  pool_wf (snd s) ∧ chain_ok (fst s) ∧ m_maxBlockLimit (m_txNonceCheck (snd s)) = nc_default_limit ∧
  tracks (fst s) (ch_number (fst s)) (m_txNonceCheck (snd s)).

Definition chain_is (nc : NonceCheck) (s : Spec) : Prop := sp_chain s = nc.

Lemma spec_import_chain nc bc now t ik : keeps (chain_is nc) (spec_import bc now t ik).
Proof. unfold spec_import. keeps_auto. Qed.

Lemma spec_remove_chain nc h r : keeps (chain_is nc) (spec_remove h r).
Proof. unfold spec_remove. keeps_auto. Qed.

Lemma spec_drop_loop_chain nc b i ts succ : keeps (chain_is nc) (spec_drop_loop b i ts succ).
Proof.
  pose proof spec_remove_chain. revert i succ. induction ts as [|t ts IH]; intros i succ; [apply keeps_ret|].
  cbn [spec_drop_loop]. keeps_auto; auto.
Qed.

Lemma spec_op_chain nc o : chain_neutral o → keeps (chain_is nc) (spec_op o).
Proof.
  pose proof spec_import_chain. pose proof spec_remove_chain.
  intros Ho. destruct o; cbn [spec_op chain_neutral] in *; try done; apply keeps_bind; auto with keeps;
    try (intros []; apply keeps_ret); try (intros ?; apply keeps_ret); try (apply keeps_modify; by intros s).
  - unfold spec_import_bytes. keeps_auto; auto.
  - unfold spec_submit. keeps_auto; auto.
  - unfold spec_drop. keeps_auto; auto.
Qed.

Lemma spec_dropBlock_chain bc b s nc :
  updateCache bc (sp_chain s) false = Ok nc → sp_chain (snd (spec_dropBlock bc b s)) = nc.
Proof.
  intros E. assert (∃ s1, spec_updateCache bc false s = (Ok tt, s1) ∧ chain_is nc s1) as (s1 & E1 & H1).
  { unfold spec_updateCache, mbind, sm_bind, sget, slift. rewrite E. by eexists. }
  assert (keeps (chain_is nc)
    (ret ← spec_drop_loop b 0 (m_transactions b) true;
     smodify (λ s, sp_with_nonces (sp_chain s) (delCache (sp_nonces s) (m_transactions b)) s);; mret ret)) as Hk.
  { pose proof (spec_drop_loop_chain nc b). keeps_auto; auto. }
  unfold spec_dropBlock. unfold mbind at 1, sm_bind at 1. rewrite E1. by apply Hk.
Qed.

Lemma run_op_chain o p : pool_wf p → chain_neutral o → m_txNonceCheck (snd (run_op o p)) = m_txNonceCheck p.
Proof.
  intros Hp Ho. destruct (op_refines o p Hp) as [_ E].
  assert (chain_neutral (as_ignore o)) as Ho' by by destruct o.
  pose proof (spec_op_chain (m_txNonceCheck p) _ Ho' (abs p) eq_refl) as Hc. by rewrite E in Hc.
Qed.

Lemma pool_step_tracks s1 s2 : pool_step s1 s2 → pool_tracks s1 → pool_tracks s2.
Proof.
  intros [bc p o Ho|bc bc' b p Hok Hu Hext] (Hw & Hc & Hl & Ht); cbn [fst snd] in *.
  - split; [by apply op_refines|]. cbn [fst snd]. by rewrite run_op_chain.
  - destruct (spec_dropBlock_refines bc' b p Hw) as [Hw' E]. split; [done|]. cbn [fst snd].
    destruct (update_tracks bc' (m_txNonceCheck p) (ch_number bc)) as (nc & Hup & Ht' & Hl');
      [done|by rewrite Hl|by rewrite Hl| | |].
    { split; [apply Hc|apply Hext]. }
    { apply tracks_extends; [done..|by rewrite Hl|done]. }
    apply (spec_dropBlock_chain bc' b (abs p)) in Hup. rewrite E in Hup. cbn in Hup. rewrite Hup.
    split_and!; [done|congruence|done].
Qed.

Lemma pool_run_tracks s1 s2 : star pool_step s1 s2 → pool_tracks s1 → pool_tracks s2.
Proof. induction 1 as [|s1 s2 s3 Hs _ IH]; [done|]. intros Ht. by eapply IH, pool_step_tracks. Qed.

Lemma new_tracks bc pid lim p : chain_ok bc → TxPool_new bc pid lim = Ok p → pool_tracks (bc, p).
Proof.
  intros Hok Hnew. split; [by eapply new_wf|]. split; [done|]. cbn [fst snd].
  destruct (rebuild_tracks bc (MkNonceCheck ∅ 0 0 nc_default_limit) Hok) as (nc & E & Ht & Hl); [done|].
  unfold TxPool_new, nc_init in Hnew. rewrite E in Hnew. inv_ok. by subst.
Qed.

(** The block limit of an accepted transaction. *)
Lemma nc_ok_limit bc nc t :
  0 ≤ ch_number bc < 2 ^ 32 → 0 ≤ m_maxBlockLimit nc < 2 ^ 32 → fst (nc_ok bc nc t false) = true →
  m_blockLimit t ≤ ch_number bc + m_maxBlockLimit nc.
Proof.
  intros Hn Hl. unfold nc_ok. destruct (isBlockLimitOk bc nc t) eqn:Eb; [|done]. intros _.
  unfold isBlockLimitOk in Eb. apply negb_true_iff, bool_decide_eq_false in Eb.
  rewrite (u256_small (ch_number bc)), u256_small in Eb by lia. lia.
Qed.
End props.

(** ** Example data *)

Definition example_block (n : Z) (ts : list Transaction) : Block :=
  setTransactions (block_set_header Block0 (setNumber BlockHeader0 n)) ts.

(** A chain of [n] blocks; block 2, when there, holds [example_tx]. *)
Definition example_chain (n : Z) : Chain :=
  MkChain n (λ i, [i]) (λ h,
    match h with [i] => Some (example_block i (if decide (i = 2) then [example_tx] else [])) | _ => None end).

Lemma example_chain_ok n : 0 ≤ n < UINT32_MAX → chain_ok (example_chain n).
Proof. intros Hn. split; [done|]. intros i Hi. done. Qed.

Definition example_pool (nc : NonceCheck) : TxPool := MkPool 10 [] 0 ∅ ∅ ∅ ∅ nc ∅ [].

Lemma example_pool_wf nc : @pool_wf example_crypto (example_pool nc).
Proof.
  assert (@TxPool_new example_crypto (example_chain 0) 1 10 =
          Ok (example_pool (MkNonceCheck ∅ 0 0 1000))) as E by (by vm_compute).
  apply new_wf in E. by eapply wf_irrelevant, E.
Qed.

Definition example_pool0 : TxPool := example_pool (MkNonceCheck ∅ 0 0 1000).

Definition example_calls : list pool_op :=
  [OpSubmit (example_chain 0) 5 example_tx; OpDrop [1]; OpTop (example_chain 0) 3 ∅ true].

(** ** Theorems *)

(** C8. The pool implements its contract: from a new pool, any sequence of
    calls (imports with the policy [Ignore], submissions, drops, committed
    blocks, fetches, clearing) gives, call by call, the results and exceptions
    of the same calls on an ordered list of transactions without index,
    iterators and hash sets, and ends in the corresponding state. Imports with
    the policy [Retry] are left out: see [retry_refused]. *)
Theorem pool_refines_spec {crypto : Crypto} bc pid lim p ops :
  TxPool_new bc pid lim = Ok p → Forall ignores ops →
  run_calls spec_op ops (abs p) =
  (fst (run_calls run_op ops p), abs (snd (run_calls run_op ops p))).
Proof.
  intros Hp Ho. destruct (calls_refine ops p (new_wf bc pid lim p Hp)) as [_ E]. by rewrite as_ignore_all in E.
Qed.

Lemma pool_refines_spec_witness :
  run_calls (@spec_op example_crypto) example_calls (abs example_pool0) =
  (fst (run_calls (@run_op example_crypto) example_calls example_pool0),
   abs (snd (run_calls (@run_op example_crypto) example_calls example_pool0))).
Proof.
  apply (@pool_refines_spec example_crypto (example_chain 0) 1 10); [by vm_compute|]. by repeat constructor.
Defined.

(** A dropped transaction is refused with the policy [Retry] as well, unlike
    what the policy is documented to do and the contract has. *)
Definition retry_calls : list pool_op :=
  [OpImport (example_chain 0) 5 example_tx Ignore; OpDrop (@hash_of example_crypto example_tx);
   OpImport (example_chain 0) 6 example_tx Retry].
Definition import_result (r : res pool_out) : option ImportResult :=
  match r with Ok (OutImport r _) => Some r | _ => None end.

Example retry_refused :
  import_result <$> fst (run_calls (@run_op example_crypto) retry_calls example_pool0) =
    [Some Success; None; Some AlreadyInChain] ∧
  import_result <$> fst (run_calls (@spec_op example_crypto) retry_calls (abs example_pool0)) =
    [Some Success; None; Some TxPoolNonceCheckFail].
Proof. split; vm_compute; reflexivity. Qed.

(** C22. Invariant of the pool: after any sequence of calls the queue is ordered
    by import time, the index maps exactly the hashes of the queued
    transactions to their nodes, so no iterator dangles, the known hashes are
    those of the index, and the queue is no longer than the limit unless the
    limit was changed. *)
Theorem pool_invariant {crypto : Crypto} bc pid lim p ops :
  TxPool_new bc pid lim = Ok p →
  let p' := snd (run_calls run_op ops p) in
  pool_wf p' ∧ (0 ≤ lim → Forall no_limit_change ops → pendingSize p' ≤ lim).
Proof.
  intros Hp p'. destruct (calls_refine ops p (new_wf bc pid lim p Hp)) as [Hw E]. split; [done|].
  intros Hl Hops. assert (bounded lim (abs p)) as Hb.
  { unfold TxPool_new in Hp. inv_ok. by subst. }
  apply (calls_bounded lim (as_ignore <$> ops)) in Hb as [_ Hb]; [|by apply Forall_fmap; eapply Forall_impl; [|exact Hops]; intros o; apply as_ignore_limit]. rewrite E in Hb. cbn -[fmap] in Hb.
  by rewrite length_fmap in Hb.
Qed.

Lemma pool_invariant_witness :
  @pool_wf example_crypto (snd (run_calls (@run_op example_crypto) example_calls example_pool0)) ∧
  pendingSize (snd (run_calls (@run_op example_crypto) example_calls example_pool0)) ≤ 10.
Proof.
  destruct (@pool_invariant example_crypto (example_chain 0) 1 10 example_pool0 example_calls)
    as [Hw Hs]; [by vm_compute|].
  split; [exact Hw|]. apply Hs; [done|]. by repeat constructor.
Defined.

(** Fetching never throws. It returns, in queue order, the first
    transactions that are valid on the chain and not to be avoided, up to the
    limits; all of them when there are fewer. What it returns stays queued;
    what it removes is invalid on the chain. *)
Theorem topTransactions_exact {crypto : Crypto} bc lim avoid update p :
  pool_wf p →
  let valid := nonce_valid bc (m_txNonceCheck p) in
  ∃ ret avoid' p',
    topTransactions bc lim avoid update p = (Ok (ret, avoid'), p') ∧
    ret = take (Z.to_nat (tp_limit p `min` lim))
            (filter (λ t, valid t = true ∧ hash_of t ∉ avoid) (pendingList p)) ∧
    avoid' = (if update then list_to_set (hash_of <$> ret) ∪ avoid else avoid) ∧
    (∀ t, t ∈ ret → t ∈ pendingList p') ∧
    sublist (pendingList p') (pendingList p) ∧
    (∀ t, t ∈ pendingList p → t ∉ pendingList p' → valid t = false).
Proof.
  intros Hp valid. destruct (fetch_run bc lim avoid update p Hp) as (p' & hs & E & Hq & Hhs).
  set (good := λ t, _) in E, Hhs. fold valid in Hhs.
  assert (∀ t, t ∈ pendingList p → hash_of t ∈ hs → valid t = false) as Hbad.
  { intros t Ht. rewrite Hhs, elem_of_list_to_set, list_elem_of_fmap. intros (t' & Eh & Ht').
    apply list_elem_of_filter in Ht' as [Hv Ht']. apply scan_subseteq in Ht'.
    assert (t = t') as ->; [|done]. pose proof (wf_hashes_nodup p Hp) as Hnd.
    apply list_elem_of_lookup in Ht as [i Hi]. apply list_elem_of_lookup in Ht' as [j Hj].
    unfold pendingList in *. assert (i = j) as <-; [|congruence].
    apply (NoDup_lookup _ i j (hash_of t) Hnd); rewrite list_lookup_fmap, ?Hi, ?Hj; cbn; by rewrite ?Eh. }
  assert (filter good (pendingList p) = filter (λ t, valid t = true ∧ hash_of t ∉ avoid) (pendingList p)) as Eg.
  { apply list_filter_iff. intros t. unfold good. fold (valid t). destruct (valid t); cbn [andb].
    - rewrite negb_True. by rewrite bool_decide_spec; split; [split|intros []].
    - split; [by intros []|by intros [[=] _]]. }
  eexists _, _, p'. split; [exact E|]. rewrite Eg. do 2 (split; [done|]). split.
  { intros t Ht. apply elem_of_take in Ht as (i & Hi & _). apply list_elem_of_lookup_2 in Hi.
    apply list_elem_of_filter in Hi as [[Hv _] Hi]. rewrite Hq. apply list_elem_of_filter.
    split; [|done]. intros Hh. specialize (Hbad t Hi Hh). congruence. }
  rewrite Hq. split; [apply sublist_filter|].
  intros t Ht Hnt. apply Hbad; [done|]. destruct (decide (hash_of t ∈ hs)); [done|].
  destruct Hnt. by apply list_elem_of_filter.
Qed.

Lemma topTransactions_exact_witness :
  ∃ ret avoid' p', @topTransactions example_crypto (example_chain 0) 3 ∅ true example_pool0 =
                     (Ok (ret, avoid'), p') ∧
    sublist (pendingList p') (pendingList example_pool0).
Proof.
  destruct (@topTransactions_exact example_crypto (example_chain 0) 3 ∅ true example_pool0
    (example_pool_wf _)) as (r & a & p' & E & _ & _ & _ & Hs & _).
  by exists r, a, p'.
Defined.

(** A committed block leaves the pool: when [dropBlockTrans] returns,
    exactly the transactions whose hash is that of a transaction of the block
    are gone, the others keep their order, and the nonce keys of the block are
    free again. *)
Theorem dropBlockTrans_exact {crypto : Crypto} bc b p r p' :
  pool_wf p → dropBlockTrans bc b p = (Ok r, p') →
  pendingList p' = filter (λ t, hash_of t ∉ hash_of <$> m_transactions b) (pendingList p) ∧
  ∀ k, k ∈ m_commonNonceCheck p' ↔ k ∈ m_commonNonceCheck p ∧ k ∉ generateKey <$> m_transactions b.
Proof.
  intros Hp E. destruct (spec_dropBlock_refines bc b p Hp) as [_ Es]. rewrite E in Es. cbn [fst snd] in Es.
  unfold spec_dropBlock in Es. apply sm_bind_inv in Es as ([] & s1 & E1 & Es).
  apply sm_bind_inv in Es as (ret & s2 & E2 & Es). apply sm_bind_inv in Es as ([] & s3 & E3 & Es).
  injection E3 as <-. apply (f_equal snd) in Es. cbn [snd mret sm_ret] in Es.
  apply spec_drop_loop_queue in E2 as [Hq Hn].
  assert (sp_queue s1 = (m_txsQueue p).*2 ∧ sp_nonces s1 = m_commonNonceCheck p) as [Hq1 Hn1].
  { unfold spec_updateCache, mbind, sm_bind, sget, slift in E1.
    destruct (updateCache _ _ _); [|done]. by injection E1 as <-. }
  rewrite Hq1, filter_remove_all in Hq. rewrite Hn1 in Hn.
  pose proof (f_equal sp_queue Es) as Eq. pose proof (f_equal sp_nonces Es) as En.
  cbn [sp_queue sp_nonces sp_with_nonces abs] in Eq, En. split.
  - unfold pendingList. by rewrite <- Eq, Hq.
  - intros k. by rewrite <- En, Hn, delCache_elem.
Qed.

Lemma dropBlockTrans_exact_witness :
  ∃ r p', @dropBlockTrans example_crypto (example_chain 2) (example_block 2 [example_tx]) example_pool0 =
            (Ok r, p') ∧
    pendingList p' = filter (λ t, @hash_of example_crypto t ∉ @hash_of example_crypto <$> [example_tx])
                       (pendingList example_pool0).
Proof.
  destruct (@dropBlockTrans example_crypto (example_chain 2) (example_block 2 [example_tx]) example_pool0)
    as [[r|e] p'] eqn:E.
  - exists r, p'. split; [done|].
    apply (@dropBlockTrans_exact example_crypto (example_chain 2) (example_block 2 [example_tx])
      example_pool0 r p'); [apply example_pool_wf|done].
  - assert (is_ok (fst (@dropBlockTrans example_crypto (example_chain 2) (example_block 2 [example_tx])
      example_pool0)) = true) as Hok by (by vm_compute).
    by rewrite E in Hok.
Defined.

(** C23. The cache of nonce keys is exact: after its construction and any number
    of incremental updates on a growing chain, no two blocks of which at most
    [maxBlockLimit] apart share a nonce key, and with [maxBlockLimit] unchanged,
    the cache equals what a rebuild from the chain would give. *)
Theorem nonce_cache_equals_rebuild {crypto : Crypto} bc0 nc0 bc nc :
  chain_ok bc0 → nc_init bc0 = Ok nc0 → star nc_step (bc0, nc0) (bc, nc) →
  updateCache bc nc true = Ok nc.
Proof.
  intros Hok Hinit Hrun.
  destruct (rebuild_tracks bc0 (MkNonceCheck ∅ 0 0 nc_default_limit) Hok) as (nc1 & E1 & Ht1 & Hl1); [done|].
  unfold nc_init in Hinit. rewrite Hinit in E1. injection E1 as <-.
  destruct (nc_run_tracks (bc0, nc0) (bc, nc) Hrun) as (Hok' & Hl & Ht); cbn [fst snd] in *;
    [done|by rewrite Hl1|done|].
  destruct (rebuild_tracks bc nc Hok') as (nc2 & E2 & Ht2 & Hl2); [rewrite Hl, Hl1; done|].
  rewrite E2. f_equal. eapply tracks_unique; [done|done|lia].
Qed.

Lemma nonce_cache_equals_rebuild_witness :
  ∃ nc, @updateCache example_crypto (example_chain 3) nc true = Ok nc ∧
        star (@nc_step example_crypto) (example_chain 0, MkNonceCheck ∅ 0 0 1000) (example_chain 3, nc).
Proof.
  destruct (@updateCache example_crypto (example_chain 3) (MkNonceCheck ∅ 0 0 1000) false) as [nc|e] eqn:E.
  2: { assert (is_ok (@updateCache example_crypto (example_chain 3) (MkNonceCheck ∅ 0 0 1000) false) = true)
         as Hok by (by vm_compute). by rewrite E in Hok. }
  assert (star (@nc_step example_crypto) (example_chain 0, MkNonceCheck ∅ 0 0 1000) (example_chain 3, nc)) as Hs.
  { apply star_one. constructor; [by apply example_chain_ok| |by split|done].
    intros i j Hi Hij Hj _. unfold block_keys, block_txs, example_chain. cbn.
    repeat case_decide; try lia; set_solver. }
  exists nc. split; [|exact Hs].
  apply (@nonce_cache_equals_rebuild example_crypto (example_chain 0) (MkNonceCheck ∅ 0 0 1000)
    (example_chain 3) nc); [by apply example_chain_ok|by vm_compute|exact Hs].
Defined.

(** C24. No replay: take any run of a new pool in which [dropBlockTrans] reports
    the blocks of a growing chain as in [pool_step]. A transaction whose account
    and nonce are those of a transaction of one of the last [nc_default_limit]
    blocks is not accepted; and one that the pool accepted earlier in the run
    and whose account and nonce a block after that contains is never accepted
    again, however old the block. *)
Theorem pool_no_replay {crypto : Crypto} bc0 pid lim p0 bc1 p1 bc p t b now ik t' :
  chain_ok bc0 → TxPool_new bc0 pid lim = Ok p0 →
  star pool_step (bc0, p0) (bc1, p1) → star pool_step (bc1, p1) (bc, p) →
  1 ≤ b ≤ ch_number bc → generateKey t ∈ block_keys bc b →
  ch_number bc ≤ b + nc_default_limit ∨
    ch_number bc1 < b ∧ (∃ now1 ik1 t1, fst (tp_import bc1 now1 t ik1 p1) = Ok (Success, t1)) →
  fst (tp_import bc now t ik p) ≠ Ok (Success, t').
Proof.
  intros Hok Hnew Hrun1 Hrun2 Hb Hk Hold Hrep.
  pose proof (pool_run_tracks _ _ Hrun1 (new_tracks _ _ _ _ Hok Hnew)) as (Hw1 & [Hn1 _] & Hl1 & _).
  pose proof (pool_run_tracks _ _ (star_trans _ _ _ _ Hrun1 Hrun2) (new_tracks _ _ _ _ Hok Hnew)) as (Hw & Hokc & Hl & Ht).
  cbn [fst snd] in *. unfold UINT32_MAX in Hn1. apply (import_success _ _ _ _ _ _ Hw) in Hrep as [Hrep _].
  rewrite (tracks_no_replay bc (m_txNonceCheck p) t b) in Hrep; rewrite ?Hl; try done.
  destruct Hold as [|[Hb1 (now1 & ik1 & t1 & Hacc)]]; [by left|]. right.
  apply (import_success _ _ _ _ _ _ Hw1) in Hacc as [Hacc _]. apply nc_ok_limit in Hacc; [|lia|].
  - rewrite Hl1 in Hacc. lia.
  - rewrite Hl1. done.
Qed.

(** The transaction of block 2 was accepted before that block. *)
Definition example_before : TxPool := snd (@dropBlockTrans example_crypto (example_chain 1) Block0 example_pool0).
Definition example_after : TxPool := snd (@dropBlockTrans example_crypto (example_chain 4) Block0 example_before).

Lemma example_block_step n m p :
  0 ≤ n ≤ m → m < 5 → @pool_step example_crypto (example_chain n, p)
    (example_chain m, snd (@dropBlockTrans example_crypto (example_chain m) Block0 p)).
Proof.
  intros Hn Hm. constructor; [apply example_chain_ok; unfold UINT32_MAX; lia| |split; [cbn; lia|done]].
  intros i j Hi Hij Hj _. unfold block_keys, block_txs, example_chain. cbn. repeat case_decide; try lia; set_solver.
Qed.

Lemma pool_no_replay_witness :
  ∃ t0, fst (@tp_import example_crypto (example_chain 1) 5 example_tx Ignore example_before) = Ok (Success, t0) ∧
    ∀ t', fst (@tp_import example_crypto (example_chain 4) 6 example_tx Ignore example_after) ≠ Ok (Success, t').
Proof.
  destruct (fst (@tp_import example_crypto (example_chain 1) 5 example_tx Ignore example_before)) as [[r t0]|e] eqn:E.
  2: { by vm_compute in E. }
  assert (r = Success) as -> by (vm_compute in E; by injection E).
  exists t0. split; [reflexivity|]. intros t'.
  apply (@pool_no_replay example_crypto (example_chain 0) 1 10 example_pool0 (example_chain 1) example_before
    (example_chain 4) example_after example_tx 2).
  - apply example_chain_ok. unfold UINT32_MAX. lia.
  - vm_compute. reflexivity.
  - apply star_one, (example_block_step 0 1); lia.
  - apply star_one, (example_block_step 1 4); lia.
  - split; discriminate.
  - apply elem_of_list_to_set. left.
  - right. split; [reflexivity|]. exists 5, Ignore, t0. exact E.
Defined.
