(* ===== verification/Table.v ===== *)
(** * Tables (libstorage/Table, MemoryTable)

    An [Entry] is a row with named fields, [Entries] the rows of one key,
    [Condition] a filter, and [MemoryTable] caches the rows a block reads and
    writes over the storage behind it. Strings are byte lists.

    The operations of a table run in the monad [TM] over the table and the
    change log its recorder appends to. Rows are values here: [insert] keeps
    its own copy of the entry, and [select] returns copies. The code shares
    the objects, so that a caller who changes an entry it inserted or
    selected changes the table behind the log's back; the clients modelled
    here never do. The storage returns fresh rows, or none (a null pointer)
    when it fails. The number conversions of Boost are the class [Text]. *)

From stdpp Require Import sorting.
From S2P Require Import Prelude StateErr Hex Crypto TrieHash.

Local Open Scope Z_scope.

(** ** Strings *)

(** The bytes of a literal. *)
Definition str (s : string) : bytes :=
  (λ a, Z.of_N (Ascii.N_of_ascii a)) <$> String.list_ascii_of_string s.

Definition i32 (z : Z) : Z := (z + 2 ^ 31) `mod` 2 ^ 32 - 2 ^ 31.

(** Iteration over a [std::map<std::string, A>] is in the order of the keys. *)
Definition key_le {A} (p q : bytes * A) : Prop := bytes_lt (fst q) (fst p) = false.
#[global] Instance key_le_dec {A} : RelDecision (@key_le A) := λ p q, decide (bytes_lt (fst q) (fst p) = false).
Definition in_order {A} (m : gmap bytes A) : list (bytes * A) := merge_sort key_le (map_to_list m).

(** Boost's conversions: [lexical_cast] from and to numbers, [u256::str], the
    [u256] of a string, and [boost::split] at the commas. *)
Class Text := {
  lexical_uint32 : bytes → option Z;
  lexical_int : bytes → option Z;
  lexical_string : Z → bytes;
  u256_str : Z → bytes;
  u256_of_str : bytes → option Z;
  split_commas : bytes → list bytes;
}.

(** [std::stoi] of a decimal string. *)
Definition is_space (c : Z) : bool := bool_decide (9 ≤ c ≤ 13 ∨ c = 32).
Definition is_digit (c : Z) : bool := bool_decide (48 ≤ c ≤ 57).
Fixpoint skip_spaces (s : bytes) : bytes :=
  match s with c :: s' => if is_space c then skip_spaces s' else s | [] => [] end.
Fixpoint read_digits (s : bytes) (acc : Z) : Z :=
  match s with c :: s' => if is_digit c then read_digits s' (10 * acc + (c - 48)) else acc | [] => acc end.
Definition stoi (s : bytes) : res Z :=
  let s := skip_spaces s in
  let '(neg, s) := match s with 45 :: s' => (true, s') | 43 :: s' => (false, s') | _ => (false, s) end in
  match s with
  | c :: _ =>
      if is_digit c then
        let v := if neg : bool then - read_digits s 0 else read_digits s 0 in
        if decide (- 2 ^ 31 ≤ v < 2 ^ 31) then Ok v else Throw OutOfRange
      else Throw InvalidArgument
  | [] => Throw InvalidArgument
  end.

(** ** Entry *)

Definition STATUS : bytes := str "_status_".

Definition NORMAL : Z := 0.
Definition DELETED : Z := 1.

Record Entry := MkEntry { e_fields : gmap bytes bytes; e_dirty : bool }.

Definition Entry_new : Entry := MkEntry {[STATUS := str "0"]} false.

Definition getField (e : Entry) (key : bytes) : bytes := default [] (e_fields e !! key).

Definition setField (key value : bytes) (e : Entry) : Entry := MkEntry (<[key := value]> (e_fields e)) true.

Definition setDirty_entry (d : bool) (e : Entry) : Entry := MkEntry (e_fields e) d.

(** ** Entries *)

Record Entries := MkEntries { es_entries : list Entry; es_dirty : bool }.

Definition Entries_new : Entries := MkEntries [] false.

Definition Entries_get (es : Entries) (i : nat) : res Entry :=
  match es_entries es !! i with Some e => Ok e | None => Throw StorageException end.

Definition Entries_size (es : Entries) : nat := length (es_entries es).

Definition addEntry (e : Entry) (es : Entries) : Entries := MkEntries (es_entries es ++ [e]) true.

(** [vector::erase] of a position that is not in the vector is undefined. *)
Definition removeEntry (index : nat) (es : Entries) : res Entries :=
  if decide (index < length (es_entries es))%nat
  then Ok (MkEntries (delete index (es_entries es)) (es_dirty es)) else Throw UB.

Definition setDirty (d : bool) (es : Entries) : Entries := MkEntries (es_entries es) d.

(** The row at a position changed through its pointer. *)
Definition Entries_set (i : nat) (e : Entry) (es : Entries) : Entries :=
  MkEntries (<[i := e]> (es_entries es)) (es_dirty es).

(** ** Condition *)

Inductive Op := Op_eq | Op_ne | Op_gt | Op_ge | Op_lt | Op_le.

Record Condition := MkCondition { c_conditions : gmap bytes (Op * bytes); c_offset : Z; c_count : Z }.

Definition Condition_new : Condition := MkCondition ∅ 0 0.

(** [EQ] ... [LE]: [std::map::insert] keeps a condition already present. *)
Definition add_condition (op : Op) (key value : bytes) (c : Condition) : Condition :=
  match c_conditions c !! key with
  | Some _ => c
  | None => MkCondition (<[key := (op, value)]> (c_conditions c)) (c_offset c) (c_count c)
  end.
Definition EQ := add_condition Op_eq.
Definition NE := add_condition Op_ne.
Definition GT := add_condition Op_gt.
Definition GE := add_condition Op_ge.
Definition LT := add_condition Op_lt.
Definition LE := add_condition Op_le.

Definition limit (offset count : Z) (c : Condition) : Condition := MkCondition (c_conditions c) offset count.

(** ** Change *)

Inductive Kind := Insert | Update | Remove | Select.

Record ChangeRecord := MkRecord { r_index : nat; r_key : bytes; r_oldValue : bytes }.

(** The table of a change is a pointer; a factory holds one table per name. *)
Record Change := MkChange { ch_table : bytes; ch_kind : Kind; ch_key : bytes; ch_value : list ChangeRecord }.

(** ** MemoryTable *)

Record TableInfo := MkInfo {
  ti_name : bytes; ti_key : bytes; ti_fields : list bytes; ti_authorizedAddress : list bytes }.

(** [Storage::select(hash, num, table, key)]. *)
Definition Storage : Type := bytes → Z → bytes → bytes → option Entries.

Record MemoryTable := MkTable {
  mt_remoteDB : option Storage;
  mt_info : TableInfo;
  mt_cache : gmap bytes (option Entries);
  mt_blockHash : bytes;
  mt_blockNum : Z }.

Definition mt_set_cache (c : gmap bytes (option Entries)) (t : MemoryTable) : MemoryTable :=
  MkTable (mt_remoteDB t) (mt_info t) c (mt_blockHash t) (mt_blockNum t).

Abbreviation TM := (SM (MemoryTable * list Change)).

(** [m_recorder(shared_from_this(), kind, key, records)]. *)
Definition recorder (k : Kind) (key : bytes) (records : list ChangeRecord) : TM unit :=
  smodify (λ '(t, log), (t, log ++ [MkChange (ti_name (mt_info t)) k key records])).

Definition upd_cache_t (f : gmap bytes (option Entries) → gmap bytes (option Entries)) : TM unit :=
  smodify (λ '(t, log), (mt_set_cache (f (mt_cache t)) t, log)).

Definition my_table : TM MemoryTable := gets fst.

Section text.
Context `{Text}.

Definition cast {A} (o : option A) : res A := match o with Some a => Ok a | None => Throw BadLexicalCast end.

Definition getStatus (e : Entry) : res Z :=
  match e_fields e !! STATUS with None => Ok 0 | Some s => cast (lexical_uint32 s) end.

Definition setStatus (status : Z) (e : Entry) : Entry :=
  MkEntry (<[STATUS := lexical_string status]> (e_fields e)) true.

(** One round of the loop of [processCondition]: whether the entry passes. *)
Definition check_condition (e : Entry) (c : bytes * (Op * bytes)) : res bool :=
  let '(key, (op, rhs)) := c in
  status ← getStatus e;
  if decide (status = DELETED) then Ok false
  else
    let lhs := getField e key in
    match op with
    | Op_eq => Ok (bool_decide (lhs = rhs))
    | Op_ne => Ok (bool_decide (lhs ≠ rhs))
    | _ =>
        lhsNum ← cast (lexical_int (if decide (lhs = []) then str "0" else lhs));
        rhsNum ← cast (lexical_int (if decide (rhs = []) then str "0" else rhs));
        Ok (match op with
            | Op_gt => negb (bool_decide (lhsNum ≤ rhsNum))
            | Op_ge => negb (bool_decide (lhsNum < rhsNum))
            | Op_lt => negb (bool_decide (rhsNum ≤ lhsNum))
            | _ => negb (bool_decide (rhsNum < lhsNum))
            end)
    end.

Fixpoint check_conditions (e : Entry) (cs : list (bytes * (Op * bytes))) : res bool :=
  match cs with
  | [] => Ok true
  | c :: cs => b ← check_condition e c; if b : bool then check_conditions e cs else Ok false
  end.

(** An exception of a conversion counts as a mismatch. *)
Definition processCondition (e : Entry) (c : Condition) : bool :=
  match check_conditions e (in_order (c_conditions c)) with Ok b => b | Throw _ => false end.

Definition processEntries (es : Entries) (c : Condition) : list nat :=
  if decide (c_conditions c = ∅) then seq 0 (Entries_size es)
  else filter (λ i, processCondition (nth i (es_entries es) Entry_new) c = true) (seq 0 (Entries_size es)).

Definition checkAuthority (t : MemoryTable) (origin : bytes) : bool :=
  match ti_authorizedAddress (mt_info t) with
  | [] => true
  | l => bool_decide (origin ∈ l)
  end.

(** [checkFiled]. *)
Definition checkFiled (t : MemoryTable) (e : Entry) : res unit :=
  throw_if (¬ Forall (λ p, fst p ∈ ti_fields (mt_info t)) (in_order (e_fields e))) InvalidArgument.

(** The rows of a key: from the cache, else from the storage, which fills the
    cache, else new ones that nothing else refers to. [None] is the null
    pointer of a storage that failed. *)
Definition load (key : bytes) : TM (option Entries) :=
  t ← my_table;
  match mt_cache t !! key with
  | Some es => mret es
  | None =>
      match mt_remoteDB t with
      | Some db =>
          let es := db (mt_blockHash t) (mt_blockNum t) (ti_name (mt_info t)) key in
          upd_cache_t (<[key := es]>);;
          mret es
      | None => mret (Some Entries_new)
      end
  end.

(** A change of the rows returned by [load], visible in the cache when they
    are in it. *)
Definition store (key : bytes) (es : Entries) : TM unit :=
  upd_cache_t (λ c, if decide (is_Some (c !! key)) then <[key := Some es]> c else c).

Definition table_select (key : bytes) (c : Condition) : TM Entries :=
  stry
    (es ← load key;
     match es with
     | None => mret Entries_new
     | Some es =>
         slift (foldl (λ r i, acc ← r; e ← Entries_get es i; Ok (addEntry e acc)) (Ok Entries_new) (processEntries es c))
     end)
    (λ _, mret Entries_new).

(** The fields of [fs] written to row [i], with the old values recorded. *)
Definition update_entry (i : nat) (fs : list (bytes * bytes)) (e : Entry) : Entry * list ChangeRecord :=
  foldl (λ '(e, rs) '(k, v), (setField k v e, rs ++ [MkRecord i k (getField e k)])) (e, []) fs.

Fixpoint update_loop (indexes : list nat) (fs : list (bytes * bytes)) (es : Entries) (rs : list ChangeRecord) :
    res (Entries * list ChangeRecord) :=
  match indexes with
  | [] => Ok (es, rs)
  | i :: indexes =>
      e ← Entries_get es i;
      let '(e, rs') := update_entry i fs e in
      update_loop indexes fs (Entries_set i e es) (rs ++ rs')
  end.

Definition table_update (key : bytes) (entry : Entry) (c : Condition) (origin : bytes) : TM Z :=
  stry
    (t ← my_table;
     if negb (checkAuthority t origin) then mret (-1)
     else
       es ← load key;
       match es with
       | None => mret 0
       | Some es =>
           slift (checkFiled t entry);;
           let indexes := processEntries es c in
           '(es, records) ← slift (update_loop indexes (in_order (e_fields entry)) es []);
           store key es;;
           recorder Update key records;;
           store key (setDirty true es);;
           mret (i32 (Z.of_nat (length indexes)))
       end)
    (λ _, mret 0).

Definition table_insert (key : bytes) (entry : Entry) (origin : bytes) : TM Z :=
  stry
    (t ← my_table;
     if negb (checkAuthority t origin) then mret (-1)
     else
       es ← load key;
       slift (checkFiled t entry);;
       match es with
       | None => sthrow UB
       | Some es =>
           recorder Insert key [MkRecord (Entries_size es + 1) [] []];;
           (if decide (Entries_size es = 0)%nat
            then upd_cache_t (<[key := Some (addEntry entry es)]>)
            else store key (addEntry entry es));;
           mret 1
       end)
    (λ _, mret 1).

Fixpoint remove_loop (indexes : list nat) (es : Entries) (rs : list ChangeRecord) :
    res (Entries * list ChangeRecord) :=
  match indexes with
  | [] => Ok (es, rs)
  | i :: indexes =>
      e ← Entries_get es i;
      remove_loop indexes (Entries_set i (setStatus 1 e) es) (rs ++ [MkRecord i [] []])
  end.

Definition table_remove (key : bytes) (c : Condition) (origin : bytes) : TM Z :=
  t ← my_table;
  if negb (checkAuthority t origin) then mret (-1)
  else
    es ← load key;
    match es with
    | None => sthrow UB
    | Some es =>
        let indexes := processEntries es c in
        '(es, records) ← slift (remove_loop indexes es []);
        store key es;;
        recorder Remove key records;;
        store key (setDirty true es);;
        mret (i32 (Z.of_nat (length indexes)))
    end.

Definition isHashField (key : bytes) : bool :=
  match key with
  | [] => false
  | c :: _ => (bool_decide (c ≠ 95) && bool_decide (byte_at key (len key - 1) ≠ 95)) || bool_decide (key = STATUS)
  end.

(** What a row and the rows of a key add to the hashed bytes. *)
Definition entry_data (e : Entry) : bytes :=
  if e_dirty e
  then concat ((λ '(k, v), if isHashField k then k ++ v else []) <$> in_order (e_fields e)) else [].

Definition entries_data (key : bytes) (es : Entries) : bytes :=
  if es_dirty es then key ++ concat (entry_data <$> es_entries es) else [].

Fixpoint cache_data (l : list (bytes * option Entries)) : res bytes :=
  match l with
  | [] => Ok []
  | (key, Some es) :: l => d ← cache_data l; Ok (entries_data key es ++ d)
  | (_, None) :: _ => Throw UB
  end.

Definition table_hash (sha256 : bytes → bytes) (t : MemoryTable) : res bytes :=
  data ← cache_data (in_order (mt_cache t));
  Ok (if decide (data = []) then h256_0 else sha256 data).

Definition table_clear (t : MemoryTable) : MemoryTable := mt_set_cache ∅ t.

End text.
