(* ===== verification/TableFactory.v ===== *)
(** * The table factory (libstorage/MemoryTableFactory)

    The factory opens and creates the tables of a block, logs their changes
    and undoes them down to a savepoint. Its state holds one table per name;
    a table pointer is the name. Opening a user table opens the system table
    of tables, which opens the table of permissions: the recursion is three
    calls deep, and the fuel says so. Data handed to the storage at a commit
    is recorded in [fc_commits]. *)

From S2P Require Import Prelude StateErr Hex Crypto TrieHash Table.

Local Open Scope Z_scope.

Definition SYS_TABLES : bytes := str "_sys_tables_".
Definition SYS_MINERS : bytes := str "_sys_miners_".
Definition SYS_CURRENT_STATE : bytes := str "_sys_current_state_".
Definition SYS_TX_HASH_2_BLOCK : bytes := str "_sys_tx_hash_2_block_".
Definition SYS_NUMBER_2_HASH : bytes := str "_sys_number_2_hash_".
Definition SYS_HASH_2_BLOCK : bytes := str "_sys_hash_2_block_".
Definition SYS_CNS : bytes := str "_sys_cns_".
Definition SYS_CONFIG : bytes := str "_sys_config_".
Definition SYS_ACCESS_TABLE : bytes := str "_sys_table_access_".

Definition m_sysTables : list bytes :=
  [SYS_MINERS; SYS_TABLES; SYS_ACCESS_TABLE; SYS_CURRENT_STATE; SYS_NUMBER_2_HASH; SYS_TX_HASH_2_BLOCK;
   SYS_HASH_2_BLOCK; SYS_CNS; SYS_CONFIG].

Record TableData := MkTableData { td_tableName : bytes; td_data : gmap bytes (option Entries) }.

Record Factory := MkFactory {
  fc_stateStorage : option Storage;
  fc_blockHash : bytes;
  fc_blockNum : Z;
  fc_name2Table : gmap bytes MemoryTable;
  fc_changeLog : list Change;
  fc_hash : bytes;
  fc_createTableCode : option Z;
  fc_commits : list (bytes * Z * list TableData * bytes) }.

(** The constructor; [createTableCode] is not initialised. *)
Definition Factory_new : Factory := MkFactory None h256_0 0 ∅ [] h256_0 None [].

Definition fc_set_tables (ts : gmap bytes MemoryTable) (log : list Change) (f : Factory) : Factory :=
  MkFactory (fc_stateStorage f) (fc_blockHash f) (fc_blockNum f) ts log (fc_hash f) (fc_createTableCode f) (fc_commits f).

Definition setStateStorage (s : option Storage) (f : Factory) : Factory :=
  MkFactory s (fc_blockHash f) (fc_blockNum f) (fc_name2Table f) (fc_changeLog f) (fc_hash f) (fc_createTableCode f)
    (fc_commits f).
Definition setBlockHash (h : bytes) (f : Factory) : Factory :=
  MkFactory (fc_stateStorage f) h (fc_blockNum f) (fc_name2Table f) (fc_changeLog f) (fc_hash f) (fc_createTableCode f)
    (fc_commits f).
(** [m_blockNum] is an [int]. *)
Definition setBlockNum (n : Z) (f : Factory) : Factory :=
  MkFactory (fc_stateStorage f) (fc_blockHash f) (i32 n) (fc_name2Table f) (fc_changeLog f) (fc_hash f)
    (fc_createTableCode f) (fc_commits f).

Definition fc_set_hash (h : bytes) (f : Factory) : Factory :=
  MkFactory (fc_stateStorage f) (fc_blockHash f) (fc_blockNum f) (fc_name2Table f) (fc_changeLog f) h
    (fc_createTableCode f) (fc_commits f).
Definition fc_set_code (c : Z) (f : Factory) : Factory :=
  MkFactory (fc_stateStorage f) (fc_blockHash f) (fc_blockNum f) (fc_name2Table f) (fc_changeLog f) (fc_hash f)
    (Some c) (fc_commits f).
Definition fc_add_commit (c : bytes * Z * list TableData * bytes) (f : Factory) : Factory :=
  MkFactory (fc_stateStorage f) (fc_blockHash f) (fc_blockNum f) (fc_name2Table f) (fc_changeLog f) (fc_hash f)
    (fc_createTableCode f) (fc_commits f ++ [c]).

Abbreviation FM := (SM Factory).

(** [m_name2Table.insert] keeps a table that is already there. *)
Definition add_table (name : bytes) (t : MemoryTable) (f : Factory) : Factory :=
  match fc_name2Table f !! name with
  | Some _ => f
  | None => fc_set_tables (<[name := t]> (fc_name2Table f)) (fc_changeLog f) f
  end.

(** A method of an open table, called through its pointer. *)
Definition on_table {A} (name : bytes) (m : TM A) : FM A := λ f,
  match fc_name2Table f !! name with
  | None => (Throw UB, f)
  | Some t => let '(r, (t', log)) := m (t, fc_changeLog f) in (r, fc_set_tables (<[name := t']> (fc_name2Table f)) log f)
  end.

Definition getSysTableInfo (tableName : bytes) : TableInfo :=
  let info k fs := MkInfo tableName (str k) (str <$> fs) [] in
  if decide (tableName = SYS_MINERS) then info "name" ["type"; "node_id"; "enable_num"]%string
  else if decide (tableName = SYS_TABLES) then info "table_name" ["key_field"; "value_field"]%string
  else if decide (tableName = SYS_ACCESS_TABLE) then info "table_name" ["address"; "enable_num"]%string
  else if decide (tableName = SYS_CURRENT_STATE) then info "key" ["value"]%string
  else if decide (tableName = SYS_NUMBER_2_HASH) then info "hash" ["value"]%string
  else if decide (tableName = SYS_TX_HASH_2_BLOCK) then info "hash" ["value"; "index"]%string
  else if decide (tableName = SYS_HASH_2_BLOCK) then info "key" ["value"]%string
  else if decide (tableName = SYS_CNS) then info "name" ["version"; "address"; "abi"]%string
  else if decide (tableName = SYS_CONFIG) then info "key" ["value"; "enable_num"]%string
  else MkInfo tableName [] [] [].

Definition add_fields (i : TableInfo) : TableInfo :=
  MkInfo (ti_name i) (ti_key i) (ti_fields i ++ [STATUS; ti_key i; str "_hash_"; str "_num_"]) (ti_authorizedAddress i).

Definition with_addresses (l : list bytes) (i : TableInfo) : TableInfo :=
  MkInfo (ti_name i) (ti_key i) (ti_fields i) (ti_authorizedAddress i ++ l).

Definition mt_set_info (i : TableInfo) (t : MemoryTable) : MemoryTable :=
  MkTable (mt_remoteDB t) i (mt_cache t) (mt_blockHash t) (mt_blockNum t).

Section text.
Context `{Text}.

(** The addresses of the permission rows already in force: an [Address] is
    read from its hexadecimal string. *)
Fixpoint enabled_addresses (es : list Entry) (blockNum : Z) : res (list bytes) :=
  match es with
  | [] => Ok []
  | e :: es =>
      n ← stoi (getField e (str "enable_num"));
      if decide (n ≤ blockNum) then
        b ← fromHex (getField e (str "address")) ThrowErr;
        l ← enabled_addresses es blockNum;
        Ok (FixedHash_of address_size b :: l)
      else enabled_addresses es blockNum
  end.

(** The description of a table: built in, or read from the table of tables;
    [open] is the recursive call. *)
Definition table_info (open : bytes → bool → FM bool) (tableName : bytes) : FM (option TableInfo) :=
  if decide (tableName ∈ m_sysTables) then mret (Some (getSysTableInfo tableName))
  else
    open SYS_TABLES true;;
    es ← on_table SYS_TABLES (table_select tableName Condition_new);
    if decide (Entries_size es = 0)%nat then mret None
    else
      e ← slift (Entries_get es 0);
      mret (Some (MkInfo tableName (getField e (str "key_field")) (split_commas (getField e (str "value_field"))) [])).

(** [setAuthorizedAddress(tableInfo)]. *)
Definition setAuthorizedAddress (open : bytes → bool → FM bool) (blockNum : Z) (info : TableInfo) : FM TableInfo :=
  ok ← open SYS_ACCESS_TABLE true;
  if ok : bool then
    es ← on_table SYS_ACCESS_TABLE (table_select (ti_name info) Condition_new);
    l ← slift (enabled_addresses (es_entries es) blockNum);
    mret (with_addresses l info)
  else mret info.

(** The table of permissions reads its own rows. *)
Definition own_addresses (t : MemoryTable) (blockNum : Z) : FM MemoryTable :=
  let info := mt_info t in
  let '(r, (t, _)) := table_select (ti_name info) Condition_new (t, []) in
  es ← slift r;
  l ← slift (enabled_addresses (es_entries es) blockNum);
  mret (mt_set_info (with_addresses l info) t).

(** [openTable(tableName, authorityFlag)]: whether a table was opened. *)
Fixpoint openTable_fuel (fuel : nat) (tableName : bytes) (authorityFlag : bool) : FM bool :=
  match fuel with
  | O => sthrow OutOfFuel
  | S fuel =>
      f ← sget;
      if decide (is_Some (fc_name2Table f !! tableName)) then mret true
      else
        info ← table_info (openTable_fuel fuel) tableName;
        match info with
        | None => mret false
        | Some info =>
            let info := add_fields info in
            let t := MkTable (fc_stateStorage f) info ∅ (fc_blockHash f) (fc_blockNum f) in
            t ← (if authorityFlag then
                   if decide (tableName ≠ SYS_ACCESS_TABLE)
                   then info ← setAuthorizedAddress (openTable_fuel fuel) (fc_blockNum f) info; mret (mt_set_info info t)
                   else own_addresses t (fc_blockNum f)
                 else mret t);
            smodify (add_table tableName t);;
            mret true
        end
  end.

Definition openTable (tableName : bytes) (authorityFlag : bool) : FM bool :=
  openTable_fuel 3 tableName authorityFlag.

Definition createTable (tableName keyField valueField : bytes) (authorityFlag : bool) (origin : bytes) : FM bool :=
  openTable SYS_TABLES authorityFlag;;
  es ← on_table SYS_TABLES (table_select tableName Condition_new);
  if decide (Entries_size es ≠ 0)%nat then mret false
  else
    let e := setField (str "value_field") valueField
               (setField (str "key_field") keyField (setField (str "table_name") tableName Entry_new)) in
    code ← on_table SYS_TABLES (table_insert tableName e origin);
    smodify (fc_set_code code);;
    if decide (code = -1) then mret false else openTable tableName true.

(** ** Hash *)

Fixpoint tables_data (sha256 : bytes → bytes) (l : list (bytes * MemoryTable)) : res bytes :=
  match l with
  | [] => Ok []
  | (_, t) :: l =>
      h ← table_hash sha256 t;
      d ← tables_data sha256 l;
      Ok (if decide (h = h256_0) then d else h ++ d)
  end.

Definition factory_hash (sha256 : bytes → bytes) : FM bytes :=
  f ← sget;
  data ← slift (tables_data sha256 (in_order (fc_name2Table f)));
  if decide (data = []) then mret h256_0
  else smodify (fc_set_hash (sha256 data));; mret (sha256 data).

(** ** Savepoints *)

Definition factory_savepoint (f : Factory) : nat := length (fc_changeLog f).

(** The rows of a record list changed one by one; [data->operator[](key)] is a null
    pointer when the key had no rows. *)
Fixpoint undo_records (g : ChangeRecord → Entry → Entry) (rs : list ChangeRecord) (es : option Entries) :
    res (option Entries) :=
  match rs with
  | [] => Ok es
  | r :: rs =>
      match es with
      | None => Throw UB
      | Some es =>
          e ← Entries_get es (r_index r);
          undo_records g rs (Some (Entries_set (r_index r) (g r e) es))
      end
  end.

Definition undo_insert (c : Change) (cache : gmap bytes (option Entries)) : res (gmap bytes (option Entries)) :=
  match cache !! ch_key c, ch_value c with
  | Some (Some es), r :: _ =>
      es ← removeEntry (r_index r) es;
      Ok (if decide (Entries_size es = 0)%nat then delete (ch_key c) cache else <[ch_key c := Some es]> cache)
  | _, _ => Throw UB
  end.

Definition undo_rows (g : ChangeRecord → Entry → Entry) (c : Change) (cache : gmap bytes (option Entries)) :
    res (gmap bytes (option Entries)) :=
  es ← undo_records g (ch_value c) (default None (cache !! ch_key c));
  Ok (<[ch_key c := es]> cache).

Definition undo_change (c : Change) (cache : gmap bytes (option Entries)) : res (gmap bytes (option Entries)) :=
  match ch_kind c with
  | Insert => undo_insert c cache
  | Update => undo_rows (λ r, setField (r_key r) (r_oldValue r)) c cache
  | Remove => undo_rows (λ _, setStatus 0) c cache
  | Select => Ok cache
  end.

(** One round of the loop: undo the last change and pop it. *)
Definition rollback_step : FM unit :=
  f ← sget;
  match reverse (fc_changeLog f) with
  | [] => mret tt
  | c :: rest =>
      match fc_name2Table f !! ch_table c with
      | None => sthrow UB
      | Some t =>
          cache ← slift (undo_change c (mt_cache t));
          smodify (λ f, fc_set_tables (<[ch_table c := mt_set_cache cache t]> (fc_name2Table f)) (reverse rest) f)
      end
  end.

Fixpoint rollback_rounds (n : nat) : FM unit :=
  match n with O => mret tt | S n => rollback_step;; rollback_rounds n end.

Definition factory_rollback (savepoint : nat) : FM unit :=
  f ← sget; rollback_rounds (length (fc_changeLog f) - savepoint).

(** ** Commit *)

Fixpoint any_dirty (l : list (bytes * option Entries)) : res bool :=
  match l with
  | [] => Ok false
  | (_, None) :: _ => Throw UB
  | (_, Some es) :: l => b ← any_dirty l; Ok (es_dirty es || b)
  end.

Fixpoint commit_datas (l : list (bytes * MemoryTable)) : res (list TableData) :=
  match l with
  | [] => Ok []
  | (name, t) :: l =>
      dirtyTable ← any_dirty (in_order (mt_cache t));
      ds ← commit_datas l;
      Ok (if bool_decide (mt_cache t ≠ ∅) && dirtyTable then MkTableData name (mt_cache t) :: ds else ds)
  end.

Definition commitDB (sha256 : bytes → bytes) (blockHash : bytes) (blockNumber : Z) : FM unit :=
  f ← sget;
  datas ← slift (commit_datas (in_order (fc_name2Table f)));
  swhen (length datas ≠ 0%nat)
    (swhen (fc_hash f = h256_0) (factory_hash sha256;; mret tt);;
     match fc_stateStorage f with
     | None => sthrow UB
     | Some _ => smodify (fc_add_commit (blockHash, blockNumber, datas, blockHash))
     end);;
  smodify (fc_set_tables ∅ []).

End text.
