(* ===== verification/TableFacts.v ===== *)
(** * Tables: what the operations do to the rows

    [rowsof t key] are the rows a table answers for a key, whether they are
    cached or still in the storage behind it. Each operation is described by
    its effect on this function, so that the caching is invisible. *)

From stdpp Require Import sorting.
From S2P Require Import Prelude StateErr Hex Crypto TrieHash Table.

Local Open Scope Z_scope.

(** What the code relies on in Boost's conversions: a [u256] is printed in
    decimal digits and read back, the two status values have their usual
    text, and a string without commas is one token. *)
Class TextLaws `{Text} : Prop := {
  u256_roundtrip z : 0 ≤ z < 2 ^ 256 → u256_of_str (u256_str z) = Some z;
  u256_digits z : 0 ≤ z < 2 ^ 256 → u256_str z ≠ [] ∧ Forall (λ c, is_digit c = true) (u256_str z);
  lexical_string_0 : lexical_string 0 = str "0";
  lexical_string_1 : lexical_string 1 = str "1";
  lexical_uint32_0 : lexical_uint32 (str "0") = Some 0;
  lexical_uint32_1 : lexical_uint32 (str "1") = Some 1;
  split_no_comma s : 44 ∉ s → split_commas s = [s];
}.

(** ** Ordered maps *)

Lemma in_order_Permutation {A} (m : gmap bytes A) : in_order m ≡ₚ map_to_list m.
Proof. apply merge_sort_Permutation. Qed.

Lemma elem_of_in_order {A} (m : gmap bytes A) k x : (k, x) ∈ in_order m ↔ m !! k = Some x.
Proof. rewrite in_order_Permutation. apply elem_of_map_to_list. Qed.

Lemma NoDup_in_order {A} (m : gmap bytes A) : NoDup (in_order m).*1.
Proof. rewrite in_order_Permutation. apply NoDup_fst_map_to_list. Qed.

Lemma list_to_map_in_order {A} (m : gmap bytes A) : list_to_map (in_order m) = m.
Proof.
  rewrite <- (list_to_map_to_list m) at 2. apply list_to_map_proper; [apply NoDup_in_order|apply in_order_Permutation].
Qed.

Lemma Forall_in_order {A} (P : bytes → Prop) (m : gmap bytes A) :
  Forall (λ p, P (fst p)) (in_order m) ↔ ∀ k, is_Some (m !! k) → P k.
Proof.
  split.
  - intros HP k [x E]. apply elem_of_in_order in E. apply list_elem_of_lookup_1 in E as [i Ei].
    by apply (Forall_lookup_1 _ _ _ _ HP) in Ei.
  - intros HP. apply Forall_lookup. intros i [k x] Ei. apply HP. exists x.
    apply elem_of_in_order. by eapply list_elem_of_lookup_2.
Qed.

(** ** Rows *)

Definition remote_rows (t : MemoryTable) (key : bytes) : option Entries :=
  match mt_remoteDB t with
  | Some db => db (mt_blockHash t) (mt_blockNum t) (ti_name (mt_info t)) key
  | None => Some Entries_new
  end.

Definition table_rows (t : MemoryTable) (key : bytes) : option Entries :=
  match mt_cache t !! key with Some es => es | None => remote_rows t key end.

Definition rowsof (t : MemoryTable) (key : bytes) : option (list Entry) := es_entries <$> table_rows t key.

(** Tables that differ in their cache alone. *)
Definition same_table (t t' : MemoryTable) : Prop :=
  mt_remoteDB t' = mt_remoteDB t ∧ mt_info t' = mt_info t ∧ mt_blockHash t' = mt_blockHash t ∧
  mt_blockNum t' = mt_blockNum t.

Lemma same_table_remote t t' key : same_table t t' → remote_rows t' key = remote_rows t key.
Proof. intros (E1 & E2 & E3 & E4). unfold remote_rows. by rewrite E1, E2, E3, E4. Qed.

Lemma same_table_cache t c : same_table t (mt_set_cache c t).
Proof. done. Qed.

Lemma same_table_trans t1 t2 t3 : same_table t1 t2 → same_table t2 t3 → same_table t1 t3.
Proof. intros (A1 & A2 & A3 & A4) (B1 & B2 & B3 & B4). repeat split; congruence. Qed.

#[export] Hint Resolve same_table_cache same_table_trans : bcos.

Section text.
Context `{Text}.

(** [load] answers the rows of the key; afterwards they are cached, unless
    there is no storage to cache them from. *)
Lemma load_run t log key :
  ∃ t', load key (t, log) = (Ok (table_rows t key), (t', log)) ∧ same_table t t' ∧
    (∀ k, table_rows t' k = table_rows t k) ∧
    (mt_cache t' !! key = Some (table_rows t key) ∨
     mt_cache t' !! key = None ∧ table_rows t key = Some Entries_new ∧ mt_remoteDB t = None).
Proof.
  unfold load, my_table, gets, table_rows, remote_rows, mbind, sm_bind. cbn [fst].
  destruct (mt_cache t !! key) as [es|] eqn:E.
  - exists t. split; [done|]. split; [done|]. split; [done|]. left. done.
  - destruct (mt_remoteDB t) as [db|] eqn:Edb.
    + exists (mt_set_cache (<[key := db (mt_blockHash t) (mt_blockNum t) (ti_name (mt_info t)) key]> (mt_cache t)) t).
      split; [done|]. split; [done|]. split; [|left; cbn; by rewrite lookup_insert_eq].
      intros k. cbn. rewrite Edb. destruct (decide (k = key)) as [->|].
      * by rewrite lookup_insert_eq, E.
      * by rewrite lookup_insert_ne.
    + exists t. split; [done|]. split; [done|]. split; [by rewrite Edb|]. right. done.
Qed.

(** Writing rows back through their pointer. *)
Lemma store_run t log key es :
  store key es (t, log) =
    (Ok tt, (mt_set_cache (if decide (is_Some (mt_cache t !! key)) then <[key := Some es]> (mt_cache t) else mt_cache t) t, log)).
Proof. done. Qed.

Lemma processEntries_all es : processEntries es Condition_new = seq 0 (Entries_size es).
Proof. unfold processEntries. by rewrite decide_True. Qed.

Lemma select_all es n :
  (n ≤ Entries_size es)%nat →
  ∃ d, foldl (λ r i, acc ← r; e ← Entries_get es i; Ok (addEntry e acc)) (Ok Entries_new) (seq 0 n) =
    Ok (MkEntries (take n (es_entries es)) d).
Proof.
  induction n as [|n IH]; intros Hn; [by eexists|].
  destruct IH as [d IH]; [lia|]. rewrite seq_S, foldl_app, IH. cbn [foldl mbind res_bind Nat.add].
  unfold Entries_get. unfold Entries_size in Hn.
  destruct (lookup_lt_is_Some_2 (es_entries es) n) as [e E]; [lia|]. rewrite E. cbn.
  exists true. unfold addEntry. cbn. by rewrite (take_S_r _ _ _ E).
Qed.

Lemma table_select_run t log key :
  ∃ t' es, table_select key Condition_new (t, log) = (Ok es, (t', log)) ∧
    es_entries es = default [] (rowsof t key) ∧ same_table t t' ∧ (∀ k, rowsof t' k = rowsof t k).
Proof.
  destruct (load_run t log key) as (t' & El & Hs & Hr & _). unfold table_select, stry, mbind, sm_bind. rewrite El.
  unfold rowsof. destruct (table_rows t key) as [es|] eqn:E.
  - rewrite processEntries_all. destruct (select_all es (Entries_size es) ltac:(lia)) as [d Ed].
    unfold mbind in Ed. unfold slift. rewrite Ed. exists t'. eexists. split; [done|]. cbn.
    split; [unfold Entries_size; by rewrite firstn_all|]. split; [done|]. intros k. by rewrite Hr.
  - exists t', Entries_new. split; [done|]. split; [done|]. split; [done|]. intros k. by rewrite Hr.
Qed.

(** The rows a condition selects. *)
Lemma processEntries_bound es c i : i ∈ processEntries es c → (i < Entries_size es)%nat.
Proof.
  unfold processEntries. case_decide; [|rewrite list_elem_of_filter; intros [_ Hi]; revert Hi];
    rewrite elem_of_seq; lia.
Qed.

Lemma NoDup_processEntries es c : NoDup (processEntries es c).
Proof. unfold processEntries. case_decide; [|apply list.NoDup_filter]; apply NoDup_seq. Qed.

(** A table that only cached more of what it answers. *)
Definition cached_more (t t' : MemoryTable) : Prop :=
  same_table t t' ∧ (∀ k, table_rows t' k = table_rows t k) ∧
  (∀ k, is_Some (mt_cache t !! k) → is_Some (mt_cache t' !! k)).

Lemma cached_more_refl t : cached_more t t.
Proof. done. Qed.

Lemma load_frame t log key :
  ∃ t', load key (t, log) = (Ok (table_rows t key), (t', log)) ∧ cached_more t t' ∧
    (is_Some (mt_remoteDB t) → mt_cache t' !! key = Some (table_rows t key)).
Proof.
  destruct (load_run t log key) as (t' & E & Hs & Hr & Hc). exists t'. split; [done|].
  assert (is_Some (mt_remoteDB t) → mt_cache t' !! key = Some (table_rows t key)) as Hdb.
  { intros [db Edb]. destruct Hc as [Hc|(_ & _ & Hn)]; [done|congruence]. }
  split; [|done]. split; [done|]. split; [done|]. intros k Hk.
  apply (f_equal (λ x, fst (snd x))) in E. cbn [fst snd] in E. subst t'.
  unfold load, my_table, gets, upd_cache_t, mbind, sm_bind. cbn [fst].
  destruct (mt_cache t !! key) as [es|]; [done|]. destruct (mt_remoteDB t); [|done]. cbn.
  destruct (decide (k = key)) as [->|]; [by rewrite lookup_insert_eq|by rewrite lookup_insert_ne].
Qed.

(** Selecting caches rows and changes nothing else, whatever the condition. *)
Lemma select_frame t log key c :
  ∃ t' r, table_select key c (t, log) = (r, (t', log)) ∧ cached_more t t'.
Proof.
  destruct (load_frame t log key) as (t' & E & Hf & _). exists t'.
  unfold table_select, stry, mbind at 1, sm_bind at 1. rewrite E.
  destruct (table_rows t key) as [es|]; [|by eexists]. unfold slift.
  destruct (foldl _ _ _) as [r|e]; [by eexists|]. destruct (catchable e); by eexists.
Qed.

End text.
