(* ===== verification/Rollback.v ===== *)
(** * Rolling tables back

    What [MemoryTableFactory::rollback] restores. [restored] relates the rows
    before some changes with the rows after these changes were undone: every
    field reads as before, except that a row may have become undeleted, which
    happens when a deleted row is deleted again. The file follows one change
    from the operation that records it to the loop that undoes it. *)

From S2P Require Import Prelude StateErr Hex Crypto TrieHash Table TableFactory TableFacts.

Local Open Scope Z_scope.

#[global] Instance Kind_eq_dec : EqDecision Kind.
Proof. solve_decision. Defined.

Definition field_restored (e e' : Entry) (k : bytes) : Prop :=
  getField e' k = getField e k ∨ k = STATUS ∧ getField e' k = str "0".

Definition restored (e e' : Entry) : Prop := ∀ k, field_restored e e' k.

#[global] Instance restored_preorder : PreOrder restored.
Proof.
  split; [intros e k; by left|]. intros e1 e2 e3 H12 H23 k. destruct (H23 k) as [E|[-> E]]; [|by right].
  destruct (H12 k) as [E'|[-> E']]; [left|right]; [|split; [done|]]; congruence.
Qed.

(** The rows of a key, none where the storage had failed. *)
Abbreviation rows_restored := (option_Forall2 (Forall2 restored)).

(** On rows that are not deleted, restored rows read exactly as before. *)
Lemma restored_exact e e' k : getField e STATUS = str "0" → restored e e' → getField e' k = getField e k.
Proof. intros Hs Hr. destruct (Hr k) as [E|[-> E]]; [done|congruence]. Qed.

Lemma getField_setField k v e k' : getField (setField k v e) k' = if decide (k' = k) then v else getField e k'.
Proof.
  unfold getField, setField. cbn. case_decide as Hk; [subst; by rewrite lookup_insert_eq|by rewrite lookup_insert_ne].
Qed.

(** ** Undoing the records of one change *)

Section undo.
Context `{Text}.

(** Record [r] writes the field [kf r] with the value [vf r], which [rows0]
    had, or which marks the row as present. *)
Variables (kf vf : ChangeRecord → bytes) (g : ChangeRecord → Entry → Entry) (rows0 : list Entry).
Hypothesis g_field : ∀ r e k, getField (g r e) k = if decide (k = kf r) then vf r else getField e k.

Definition good (r : ChangeRecord) : Prop :=
  ∃ e0, rows0 !! r_index r = Some e0 ∧ (vf r = getField e0 (kf r) ∨ kf r = STATUS ∧ vf r = str "0").

Definition pending (rs : list ChangeRecord) (j : nat) (k : bytes) : Prop :=
  Exists (λ r, r_index r = j ∧ kf r = k) rs.

Lemma undo_records_run rs es :
  Forall good rs → length (es_entries es) = length rows0 →
  (∀ j e0 e k, rows0 !! j = Some e0 → es_entries es !! j = Some e → field_restored e0 e k ∨ pending rs j k) →
  ∃ es', undo_records g rs (Some es) = Ok (Some es') ∧ Forall2 restored rows0 (es_entries es').
Proof.
  revert es. induction rs as [|r rs IH]; intros es Hg Hl Hr.
  - exists es. split; [done|]. apply Forall2_same_length_lookup_2; [done|].
    intros j e0 e E0 E k. destruct (Hr j e0 e k E0 E) as [|Hp]; [done|]. by inversion Hp.
  - apply Forall_cons_1 in Hg as [(e0 & E0 & Hv) Hg]. cbn [undo_records]. unfold Entries_get.
    destruct (lookup_lt_is_Some_2 (es_entries es) (r_index r)) as [e E].
    { rewrite Hl. by eapply lookup_lt_Some. }
    rewrite E. cbn [mbind res_bind]. apply IH; [done|cbn; by rewrite length_insert|].
    intros j e1 e' k E1 E'. cbn in E'. destruct (decide (j = r_index r)) as [->|Hj].
    + rewrite list_lookup_insert_eq in E' by (by eapply lookup_lt_Some). injection E' as <-.
      rewrite E0 in E1. injection E1 as <-. unfold field_restored. rewrite g_field. case_decide as Hk.
      * left. subst k. destruct Hv as [->|[Hks ->]]; [by left|by right].
      * destruct (Hr _ _ _ k E0 E) as [Hf|Hp]; [by left|right].
        apply Exists_cons in Hp as [[_ Hk']|Hp]; [congruence|done].
    + rewrite list_lookup_insert_ne in E' by done. destruct (Hr _ _ _ k E1 E') as [Hf|Hp]; [by left|right].
      apply Exists_cons in Hp as [[Hj' _]|Hp]; [congruence|done].
Qed.
End undo.

(** ** The records of an update *)

Section text.
Context `{Text, !TextLaws}.

Abbreviation good_update := (good r_key r_oldValue).
Abbreviation pending_update := (pending r_key).

Lemma update_entry_records i fs e rs :
  NoDup fs.*1 →
  ∃ e' rs',
    foldl (λ '(e, rs) '(k, v), (setField k v e, rs ++ [MkRecord i k (getField e k)])) (e, rs) fs = (e', rs ++ rs') ∧
    Forall (λ r, r_index r = i ∧ r_oldValue r = getField e (r_key r) ∧ r_key r ∈ fs.*1) rs' ∧
    (∀ k, getField e' k = getField e k ∨ Exists (λ r, r_index r = i ∧ r_key r = k) rs').
Proof.
  revert e rs. induction fs as [|[k v] fs IH]; intros e rs Hd.
  - exists e, []. rewrite app_nil_r. split; [done|]. split; [constructor|]. intros k. by left.
  - cbn in Hd. apply list.NoDup_cons in Hd as [Hk Hd]. cbn [foldl].
    destruct (IH (setField k v e) (rs ++ [MkRecord i k (getField e k)]) Hd) as (e' & rs' & -> & Hrs & He).
    exists e', (MkRecord i k (getField e k) :: rs'). split; [by rewrite <- app_assoc|]. split.
    + constructor; [split; [done|]; split; [done|by left]|]. eapply list.Forall_impl; [exact Hrs|].
      cbn. intros r (Hi & Hv & Hin). split; [done|]. rewrite Hv, getField_setField.
      case_decide as Ek; [exfalso; apply Hk; by rewrite <- Ek|]. split; [done|by right].
    + intros k'. destruct (He k') as [E|Hp]; [|right; by apply Exists_cons_tl].
      rewrite E, getField_setField. case_decide as Ek; [right; by apply Exists_cons_hd|by left].
Qed.

Lemma update_loop_records rows0 indexes fs es rs :
  NoDup fs.*1 → NoDup indexes → length (es_entries es) = length rows0 →
  Forall (λ i, es_entries es !! i = rows0 !! i ∧ (i < length rows0)%nat) indexes →
  Forall (good_update rows0) rs →
  (∀ j e0 e k, rows0 !! j = Some e0 → es_entries es !! j = Some e → getField e k = getField e0 k ∨ pending_update rs j k) →
  ∃ es' rs', update_loop indexes fs es rs = Ok (es', rs') ∧
    length (es_entries es') = length rows0 ∧ Forall (good_update rows0) rs' ∧
    (∀ j e0 e k, rows0 !! j = Some e0 → es_entries es' !! j = Some e →
       getField e k = getField e0 k ∨ pending_update rs' j k).
Proof.
  intros Hfs. revert es rs. induction indexes as [|i indexes IH]; intros es rs Hd Hl Hi Hg Hr; [by exists es, rs|].
  apply list.NoDup_cons in Hd as [Hni Hd]. apply Forall_cons_1 in Hi as [[Ei Hlt] Hi].
  destruct (lookup_lt_is_Some_2 rows0 i Hlt) as [e E]. rewrite E in Ei.
  cbn [update_loop]. unfold Entries_get. rewrite Ei. cbn [mbind res_bind]. unfold update_entry.
  destruct (update_entry_records i fs e [] Hfs) as (e' & rs' & -> & Hrs & He). cbn [app].
  apply IH; [done|cbn; by rewrite length_insert|..].
  - apply Forall_lookup. intros n j Ej. pose proof (Forall_lookup_1 _ _ _ _ Hi Ej) as [Ej' Hlj]. split; [|done].
    cbn. rewrite list_lookup_insert_ne; [done|]. intros ->. apply Hni. by eapply list_elem_of_lookup_2.
  - apply Forall_app_2; [done|]. eapply list.Forall_impl; [exact Hrs|]. intros r (Ri & Rv & _).
    exists e. rewrite Ri. split; [done|]. by left.
  - intros j e0 e1 k E0 E1. cbn in E1. destruct (decide (j = i)) as [->|Hj].
    + rewrite list_lookup_insert_eq in E1 by lia. injection E1 as <-. rewrite E in E0. injection E0 as <-.
      destruct (He k) as [|Hp]; [by left|right]. apply list.Exists_app. by right.
    + rewrite list_lookup_insert_ne in E1 by done. destruct (Hr _ _ _ k E0 E1) as [|Hp]; [by left|right].
      apply list.Exists_app. by left.
Qed.

(** ** The records of a removal *)

Abbreviation good_remove := (good (λ _, STATUS) (λ _, str "0")).
Abbreviation pending_remove := (pending (λ _, STATUS)).

Lemma getField_setStatus v e k :
  getField (setStatus v e) k = if decide (k = STATUS) then lexical_string v else getField e k.
Proof. apply getField_setField. Qed.

Lemma remove_loop_records rows0 indexes es rs :
  length (es_entries es) = length rows0 →
  Forall (λ i, (i < length rows0)%nat) indexes →
  Forall (good_remove rows0) rs →
  (∀ j e0 e k, rows0 !! j = Some e0 → es_entries es !! j = Some e → getField e k = getField e0 k ∨ pending_remove rs j k) →
  ∃ es' rs', remove_loop indexes es rs = Ok (es', rs') ∧
    length (es_entries es') = length rows0 ∧ Forall (good_remove rows0) rs' ∧
    (∀ j e0 e k, rows0 !! j = Some e0 → es_entries es' !! j = Some e →
       getField e k = getField e0 k ∨ pending_remove rs' j k).
Proof.
  revert es rs. induction indexes as [|i indexes IH]; intros es rs Hl Hi Hg Hr; [by exists es, rs|].
  apply Forall_cons_1 in Hi as [Hlt Hi]. destruct (lookup_lt_is_Some_2 (es_entries es) i) as [e E]; [lia|].
  destruct (lookup_lt_is_Some_2 rows0 i Hlt) as [e0 E0].
  cbn [remove_loop]. unfold Entries_get. rewrite E. cbn [mbind res_bind].
  apply IH; [cbn; by rewrite length_insert|done|..].
  - apply Forall_app_2; [done|]. constructor; [|constructor]. exists e0. split; [done|]. by right.
  - intros j e1 e2 k E1 E2. cbn in E2. destruct (decide (j = i)) as [->|Hj].
    + rewrite list_lookup_insert_eq in E2 by lia. injection E2 as <-. rewrite getField_setStatus. case_decide as Ek.
      * right. apply list.Exists_app. right. by apply Exists_cons_hd.
      * destruct (Hr _ _ _ k E1 E) as [|Hp]; [by left|right]. apply list.Exists_app. by left.
    + rewrite list_lookup_insert_ne in E2 by done. destruct (Hr _ _ _ k E1 E2) as [|Hp]; [by left|right].
      apply list.Exists_app. by left.
Qed.
End text.

(** ** One change of a table *)

(** [t'] reads like [t] up to [restored], and still caches what [t] cached. *)
Definition back (t t' : MemoryTable) : Prop :=
  same_table t t' ∧ (∀ k, rows_restored (rowsof t k) (rowsof t' k)) ∧
  (∀ k, is_Some (mt_cache t !! k) → is_Some (mt_cache t' !! k)).

Lemma cached_more_back t t' : cached_more t t' → back t t'.
Proof.
  intros (Hs & Hr & Hc). split; [done|]. split; [|done]. intros k. unfold rowsof. by rewrite Hr.
Qed.

Lemma back_trans t1 t2 t3 : back t1 t2 → back t2 t3 → back t1 t3.
Proof.
  intros (S1 & R1 & C1) (S2 & R2 & C2). split; [by eapply same_table_trans|]. split; [|auto].
  intros k. etransitivity; [apply R1|apply R2].
Qed.

(** The rows of a cached key after a restoration. *)
Lemma back_cached t t' key es :
  back t t' → mt_cache t !! key = Some (Some es) →
  ∃ es', mt_cache t' !! key = Some (Some es') ∧ Forall2 restored (es_entries es) (es_entries es').
Proof.
  intros (_ & Hr & Hc) E. destruct (Hc key) as [o Eo]; [by rewrite E|]. specialize (Hr key).
  unfold rowsof, table_rows in Hr. rewrite E, Eo in Hr. destruct o as [es'|]; cbn in Hr; inversion Hr. by exists es'.
Qed.

Lemma rowsof_set t key o k :
  rowsof (mt_set_cache (<[key := o]> (mt_cache t)) t) k = if decide (k = key) then es_entries <$> o else rowsof t k.
Proof.
  unfold rowsof, table_rows. cbn. case_decide as Hk; [subst; by rewrite lookup_insert_eq|by rewrite lookup_insert_ne].
Qed.

Section changes.
Context `{Text, !TextLaws}.

(** The log entries an operation adds, with what undoing them does: a change
    of rows is undone on any restored table, an insertion on none. *)
Definition undoable (t t1 : MemoryTable) (cs : list Change) : Prop :=
  match cs with
  | [] => cached_more t t1
  | [c] =>
      same_table t t1 ∧ ch_table c = ti_name (mt_info t) ∧ ∀ t', back t1 t' →
        if decide (ch_kind c = Insert) then undo_change c (mt_cache t') = Throw UB
        else ∃ cache, undo_change c (mt_cache t') = Ok cache ∧ back t (mt_set_cache cache t')
  | _ => False
  end.

(** Rows of [key] changed from [es] to [es1] with records [rs]. *)
Lemma rows_undoable kf vf g t t0 key es es1 rs c :
  (∀ r e k, getField (g r e) k = if decide (k = kf r) then vf r else getField e k) →
  cached_more t t0 → table_rows t key = Some es →
  length (es_entries es1) = length (es_entries es) → Forall (good kf vf (es_entries es)) rs →
  (∀ j e0 e k, es_entries es !! j = Some e0 → es_entries es1 !! j = Some e →
     getField e k = getField e0 k ∨ pending kf rs j k) →
  ch_key c = key → ch_value c = rs → ch_table c = ti_name (mt_info t) → ch_kind c ≠ Insert →
  (∀ cache, undo_change c cache = undo_rows g c cache) →
  undoable t (mt_set_cache (<[key := Some es1]> (mt_cache t0)) t0) [c].
Proof.
  intros Hgf (Hs & Hr & Hc) Hes Hl Hg Hp Hk Hv Ht Hkind Hundo.
  set (t1 := mt_set_cache _ t0). assert (same_table t t1) as Hs1 by done.
  split; [done|]. split; [done|]. intros t' Hb. rewrite decide_False by done.
  destruct (back_cached t1 t' key es1 Hb) as (es2 & E2 & H2); [cbn; by rewrite lookup_insert_eq|].
  rewrite Hundo. unfold undo_rows. rewrite Hk, Hv, E2. change (default None (Some (Some es2))) with (Some es2).
  destruct (undo_records_run kf vf g (es_entries es) Hgf rs es2 Hg) as (es3 & -> & H3).
  - apply list.Forall2_length in H2. congruence.
  - intros j e0 e2 k E0 Ee2. destruct (Forall2_lookup_r _ _ _ _ _ H2 Ee2) as (e1 & Ee1 & H12).
    destruct (Hp j e0 e1 k E0 Ee1) as [Ek|]; [left|by right].
    destruct (H12 k) as [E|[-> E]]; [left; congruence|by right].
  - eexists. split; [reflexivity|]. destruct Hb as (Sb & Rb & Cb). split; [|split].
    + eapply same_table_trans; [exact Hs1|]. exact Sb.
    + intros k. specialize (Rb k). unfold t1 in Rb. rewrite rowsof_set in Rb |- *. case_decide as Hk'.
      * subst k. unfold rowsof. rewrite Hes. by constructor.
      * unfold rowsof at 1 in Rb. rewrite Hr in Rb. done.
    + intros k Hck. cbn. destruct (decide (k = key)) as [->|]; [by rewrite lookup_insert_eq|].
      rewrite lookup_insert_ne by done. apply Cb. cbn. rewrite lookup_insert_ne by done. by apply Hc.
Qed.
(** What each operation leaves behind, whether it returns or throws. *)
Definition traced {A} (m : TM A) : Prop :=
  ∀ t log, is_Some (mt_remoteDB t) →
    ∃ r t1 cs, m (t, log) = (r, (t1, log ++ cs)) ∧ undoable t t1 cs.

Lemma table_select_traced key c : traced (table_select key c).
Proof.
  intros t log _. destruct (select_frame t log key c) as (t' & r & -> & Hf). exists r, t', [].
  by rewrite app_nil_r.
Qed.

Lemma nothing_traced {A} (m : TM A) r t t1 log :
  m (t, log) = (r, (t1, log)) → cached_more t t1 → ∃ r t1 cs, m (t, log) = (r, (t1, log ++ cs)) ∧ undoable t t1 cs.
Proof. intros E Hf. exists r, t1, []. by rewrite app_nil_r. Qed.

Lemma store_cached t log key o es :
  mt_cache t !! key = Some o →
  store key es (t, log) = (Ok tt, (mt_set_cache (<[key := Some es]> (mt_cache t)) t, log)).
Proof. intros E. rewrite store_run, decide_True by (by rewrite E). done. Qed.

(** The two writes of the code to the rows of a key, around the record. *)
Lemma write_rows {A} t log key o es1 es2 k rs (a : A) :
  mt_cache t !! key = Some o →
  (store key es1;; recorder k key rs;; store key es2;; mret a) (t, log) =
  (Ok a, (mt_set_cache (<[key := Some es2]> (mt_cache t)) t, log ++ [MkChange (ti_name (mt_info t)) k key rs])).
Proof.
  intros E. rewrite (sm_bind_ok _ _ _ _ _ (store_cached t log key o es1 E)). cbv beta.
  erewrite sm_bind_ok by reflexivity.
  erewrite sm_bind_ok by (apply (store_cached _ _ _ (Some es1)); cbn; by rewrite lookup_insert_eq).
  cbn. by rewrite insert_insert_eq.
Qed.

Lemma records_start (rows : list Entry) (kf : ChangeRecord → bytes) j e0 e k :
  rows !! j = Some e0 → rows !! j = Some e → getField e k = getField e0 k ∨ pending kf [] j k.
Proof. intros E0 E. left. congruence. Qed.

Lemma table_update_traced key entry c origin : traced (table_update key entry c origin).
Proof.
  intros t log Hdb. unfold table_update, stry, my_table, gets. erewrite sm_bind_ok by reflexivity. cbn [fst].
  destruct (negb (checkAuthority t origin)); [by eapply nothing_traced|].
  destruct (load_frame t log key) as (t0 & El & Hf & Hc). specialize (Hc Hdb). rewrite (sm_bind_ok _ _ _ _ _ El).
  destruct (table_rows t key) as [es|] eqn:Er; [|exists (Ok 0), t0, []; by rewrite app_nil_r].
  destruct (checkFiled t entry) as [[]|x] eqn:Ex.
  2: { erewrite sm_bind_throw by reflexivity. unfold checkFiled in Ex. unfold throw_if in Ex.
       case_decide; [injection Ex as <-|done]. exists (Ok 0), t0, []. by rewrite app_nil_r. }
  erewrite sm_bind_ok by reflexivity.
  destruct (update_loop_records (es_entries es) (processEntries es c) (in_order (e_fields entry)) es [])
    as (es1 & rs & Eu & Hl & Hg & Hr); [apply NoDup_in_order|apply NoDup_processEntries|done|..|constructor|apply records_start|].
  { apply Forall_lookup. intros n i Ei. split; [done|]. eapply processEntries_bound, list_elem_of_lookup_2, Ei. }
  cbv zeta. erewrite sm_bind_ok by (unfold slift; rewrite Eu; reflexivity). cbv beta iota. rewrite (write_rows _ _ _ _ _ _ _ _ _ Hc).
  eexists _, _, [_]. split; [reflexivity|]. destruct Hf as (Hs & Hf). pose proof Hs as (_ & Hi & _).
  eapply (rows_undoable r_key r_oldValue (λ r, setField (r_key r) (r_oldValue r))); try done; [|by rewrite Hi].
  intros r e k. apply getField_setField.
Qed.

Lemma table_remove_traced key c origin : traced (table_remove key c origin).
Proof.
  intros t log Hdb. unfold table_remove, my_table, gets. erewrite sm_bind_ok by reflexivity. cbn [fst].
  destruct (negb (checkAuthority t origin)); [by eapply nothing_traced|].
  destruct (load_frame t log key) as (t0 & El & Hf & Hc). specialize (Hc Hdb). rewrite (sm_bind_ok _ _ _ _ _ El).
  destruct (table_rows t key) as [es|] eqn:Er; [|exists (Throw UB), t0, []; by rewrite app_nil_r].
  destruct (remove_loop_records (es_entries es) (processEntries es c) es [])
    as (es1 & rs & Eu & Hl & Hg & Hr); [done|..|constructor|apply records_start|].
  { apply Forall_lookup. intros n i Ei. eapply processEntries_bound, list_elem_of_lookup_2, Ei. }
  cbv zeta. erewrite sm_bind_ok by (unfold slift; rewrite Eu; reflexivity). cbv beta iota. rewrite (write_rows _ _ _ _ _ _ _ _ _ Hc).
  eexists _, _, [_]. split; [reflexivity|]. destruct Hf as (Hs & Hf). pose proof Hs as (_ & Hi & _).
  eapply (rows_undoable (λ _, STATUS) (λ _, str "0") (λ _, setStatus 0)); try done; [|by rewrite Hi].
  intros r e k. rewrite getField_setStatus, lexical_string_0. done.
Qed.

(** The record of an insertion names the position after the new row. *)
Lemma table_insert_traced key entry origin : traced (table_insert key entry origin).
Proof.
  intros t log Hdb. unfold table_insert, stry, my_table, gets. erewrite sm_bind_ok by reflexivity. cbn [fst].
  destruct (negb (checkAuthority t origin)); [by eapply nothing_traced|].
  destruct (load_frame t log key) as (t0 & El & Hf & Hc). specialize (Hc Hdb). rewrite (sm_bind_ok _ _ _ _ _ El).
  destruct (checkFiled t entry) as [[]|x] eqn:Ex.
  2: { erewrite sm_bind_throw by reflexivity. unfold checkFiled in Ex. unfold throw_if in Ex.
       case_decide; [injection Ex as <-|done]. exists (Ok 1), t0, []. by rewrite app_nil_r. }
  erewrite sm_bind_ok by reflexivity.
  destruct (table_rows t key) as [es|] eqn:Er; [|exists (Throw UB), t0, []; by rewrite app_nil_r].
  unfold recorder, smodify. erewrite sm_bind_ok by reflexivity. cbv beta iota.
  set (c := MkChange _ _ _ _). set (t1 := mt_set_cache (<[key := Some (addEntry entry es)]> (mt_cache t0)) t0).
  assert ((if decide (Entries_size es = 0)%nat then upd_cache_t (<[key := Some (addEntry entry es)]>)
           else store key (addEntry entry es)) (t0, log ++ [c]) = (Ok tt, (t1, log ++ [c]))) as Ew.
  { case_decide; [done|]. by rewrite (store_cached _ _ _ _ _ Hc). }
  rewrite (sm_bind_ok _ _ _ _ _ Ew). exists (Ok 1), t1, [c]. split; [done|].
  destruct Hf as (Hs & Hf). pose proof Hs as (_ & Hi & _). split; [done|]. split; [cbn; by rewrite Hi|].
  intros t' Hb. rewrite decide_True by done. cbn [undo_change c ch_kind]. unfold undo_insert.
  destruct (back_cached t1 t' key (addEntry entry es) Hb) as (es' & E' & H'); [cbn; by rewrite lookup_insert_eq|].
  cbn [c ch_key ch_value r_index]. rewrite E'. unfold removeEntry.
  rewrite decide_False; [done|]. apply list.Forall2_length in H'. rewrite <- H'. cbn. rewrite length_app. cbn.
  unfold Entries_size. lia.
Qed.
End changes.
