(* ===== verification/StorageState.v ===== *)
(** * Account state over tables (libstoragestate/StorageState)

    An account is a table named after its address, with one row each for
    balance, code hash, code, nonce and liveness, and one row per storage
    slot, all in the field [value]. The methods read and write these rows
    through the factory; even the reading ones open tables and fill caches,
    so all of them run in the monad [SSM] over the state. *)

From S2P Require Import Prelude StateErr Hex Crypto TrieHash Table TableFactory.

Local Open Scope Z_scope.

Definition STORAGE_KEY : bytes := str "key".
Definition STORAGE_VALUE : bytes := str "value".
Definition ACCOUNT_BALANCE : bytes := str "balance".
Definition ACCOUNT_CODE_HASH : bytes := str "codeHash".
Definition ACCOUNT_CODE : bytes := str "code".
Definition ACCOUNT_NONCE : bytes := str "nonce".
Definition ACCOUNT_ALIVE : bytes := str "alive".

Record StorageState := MkState {
  ss_factory : Factory;
  ss_cache : gmap bytes bytes;      (* m_cache: code by address *)
  ss_accountStartNonce : Z }.

Abbreviation SSM := (SM StorageState).

Definition factory {A} (m : FM A) : SSM A := λ s,
  let '(r, f) := m (ss_factory s) in (r, MkState f (ss_cache s) (ss_accountStartNonce s)).

Definition set_code_cache (c : gmap bytes bytes) : SSM unit :=
  smodify (λ s, MkState (ss_factory s) c (ss_accountStartNonce s)).

(** The table name of an address. *)
Definition contract_table (address : bytes) : bytes := str "_contract_data_" ++ toHex address ++ str "_".

Section state.
Context `{Crypto, Text}.

Definition EmptySHA3 : bytes := sha3 [].

(** [u256(std::string)]. *)
Definition read_u256 (s : bytes) : SSM Z :=
  slift (match u256_of_str s with Some z => Ok z | None => Throw RuntimeError end).

Definition read_hash (s : bytes) : SSM bytes :=
  b ← slift (fromHex s DontThrow); mret (FixedHash_of h256_size b).

Definition getTable (address : bytes) : SSM bool := factory (openTable (contract_table address) true).

(** [table->select(key, newCondition())], and the value of the first row. *)
Definition select_value (address key : bytes) : SSM (option bytes) :=
  es ← factory (on_table (contract_table address) (table_select key Condition_new));
  if decide (Entries_size es ≠ 0)%nat then
    e ← slift (Entries_get es 0);
    mret (Some (getField e STORAGE_VALUE))
  else mret None.

(** A new entry with the value alone, and with key and value. *)
Definition value_entry (v : bytes) : Entry := setField STORAGE_VALUE v Entry_new.
Definition key_value_entry (k v : bytes) : Entry := setField STORAGE_VALUE v (setField STORAGE_KEY k Entry_new).

(** [table->update(key, entry, newCondition())]: the origin is the default
    [Address()]; the result is not looked at. *)
Definition update_value (address key v : bytes) : SSM unit :=
  factory (on_table (contract_table address) (table_update key (value_entry v) Condition_new Address_0));; mret tt.

Definition insert_value (address key v : bytes) : SSM unit :=
  factory (on_table (contract_table address) (table_insert key (key_value_entry key v) Address_0));; mret tt.

Definition requireAccountStartNonce : SSM Z :=
  s ← sget;
  sthrow_if (ss_accountStartNonce s = Invalid256) InvalidAccountStartNonceInState;;
  mret (ss_accountStartNonce s).

Definition noteAccountStartNonce (actual : Z) : SSM unit :=
  s ← sget;
  if decide (ss_accountStartNonce s = Invalid256)
  then smodify (λ s, MkState (ss_factory s) (ss_cache s) actual)
  else sthrow_if (ss_accountStartNonce s ≠ actual) IncorrectAccountStartNonceInState.

Definition createAccount (address : bytes) (nonce amount : Z) : SSM unit :=
  table ← factory (createTable (contract_table address) STORAGE_KEY STORAGE_VALUE false Address_0);
  if negb table then mret tt
  else
    insert_value address ACCOUNT_BALANCE (u256_str amount);;
    insert_value address ACCOUNT_CODE_HASH (toHex EmptySHA3);;
    insert_value address ACCOUNT_CODE [];;
    insert_value address ACCOUNT_NONCE (u256_str nonce);;
    insert_value address ACCOUNT_ALIVE (str "true").

Definition addressInUse (address : bytes) : SSM bool :=
  table ← getTable address;
  if negb table then mret false
  else
    s ← sget;
    mret (bool_decide (default ∅ (mt_cache <$> fc_name2Table (ss_factory s) !! contract_table address) ≠ ∅)).

Definition balance (address : bytes) : SSM Z :=
  table ← getTable address;
  if negb table then mret 0
  else
    v ← select_value address ACCOUNT_BALANCE;
    match v with Some v => read_u256 v | None => mret 0 end.

Definition addBalance (address : bytes) (amount : Z) : SSM unit :=
  table ← getTable address;
  if table : bool then
    v ← select_value address ACCOUNT_BALANCE;
    match v with
    | Some v => b ← read_u256 v; update_value address ACCOUNT_BALANCE (u256_str (u256 (b + amount)))
    | None => mret tt
    end
  else n ← requireAccountStartNonce; createAccount address n amount.

Definition subBalance (address : bytes) (amount : Z) : SSM unit :=
  table ← getTable address;
  if table : bool then
    v ← select_value address ACCOUNT_BALANCE;
    match v with
    | Some v =>
        b ← read_u256 v;
        sthrow_if (b < amount) NotEnoughCash;;
        update_value address ACCOUNT_BALANCE (u256_str (u256 (b - amount)))
    | None => mret tt
    end
  else sthrow NotEnoughCash.

Definition setBalance (address : bytes) (amount : Z) : SSM unit :=
  table ← getTable address;
  if table : bool then
    v ← select_value address ACCOUNT_BALANCE;
    match v with
    | Some v => read_u256 v;; update_value address ACCOUNT_BALANCE (u256_str amount)
    | None => mret tt
    end
  else n ← requireAccountStartNonce; createAccount address n amount.

Definition transferBalance (from to : bytes) (value : Z) : SSM unit :=
  subBalance from value;; addBalance to value.

Definition storageRoot (sha256 : bytes → bytes) (address : bytes) : SSM bytes :=
  table ← getTable address;
  if negb table then mret h256_0
  else
    s ← sget;
    match fc_name2Table (ss_factory s) !! contract_table address with
    | Some t => slift (table_hash sha256 t)
    | None => sthrow UB
    end.

Definition storage (address : bytes) (key : Z) : SSM Z :=
  table ← getTable address;
  if negb table then mret 0
  else
    v ← select_value address (u256_str key);
    match v with Some v => read_u256 v | None => mret 0 end.

Definition setStorage (address : bytes) (location value : Z) : SSM unit :=
  table ← getTable address;
  if negb table then mret tt
  else
    v ← select_value address (u256_str location);
    match v with
    | None => insert_value address (u256_str location) (u256_str value)
    | Some _ =>
        factory (on_table (contract_table address)
          (table_update (u256_str location) (key_value_entry (u256_str location) (u256_str value)) Condition_new
             Address_0));;
        mret tt
    end.

Definition setCode (address code : bytes) : SSM unit :=
  table ← getTable address;
  (if table : bool then
     update_value address ACCOUNT_CODE (toHex code);;
     update_value address ACCOUNT_CODE_HASH (toHex (sha3 code))
   else mret tt);;
  s ← sget;
  set_code_cache (<[address := code]> (ss_cache s)).

Definition state_clear : SSM unit := set_code_cache ∅.

Definition kill (address : bytes) : SSM unit :=
  table ← getTable address;
  (if table : bool then
     s ← sget;
     update_value address ACCOUNT_NONCE (u256_str (ss_accountStartNonce s));;
     update_value address ACCOUNT_BALANCE (u256_str 0);;
     update_value address ACCOUNT_CODE [];;
     update_value address ACCOUNT_CODE_HASH (toHex EmptySHA3);;
     update_value address ACCOUNT_ALIVE (str "false")
   else mret tt);;
  state_clear.

Definition codeHash (address : bytes) : SSM bytes :=
  table ← getTable address;
  if negb table then mret EmptySHA3
  else
    v ← select_value address ACCOUNT_CODE_HASH;
    match v with Some v => read_hash v | None => mret EmptySHA3 end.

Definition addressHasCode (address : bytes) : SSM bool :=
  table ← getTable address;
  if negb table then mret false
  else
    v ← select_value address ACCOUNT_CODE_HASH;
    match v with Some v => h ← read_hash v; mret (bool_decide (h ≠ EmptySHA3)) | None => mret false end.

Definition code (address : bytes) : SSM bytes :=
  s ← sget;
  match ss_cache s !! address with
  | Some c => mret c
  | None =>
      h ← codeHash address;
      if decide (h = EmptySHA3) then mret []
      else
        table ← getTable address;
        if negb table then mret []
        else
          v ← select_value address ACCOUNT_CODE;
          match v with
          | None => mret []
          | Some v =>
              b ← slift (fromHex v DontThrow);
              s ← sget;
              set_code_cache (<[address := b]> (ss_cache s));;
              mret b
          end
  end.

Definition codeSize (address : bytes) : SSM Z := c ← code address; mret (len c).

Definition createContract (address : bytes) : SSM unit :=
  n ← requireAccountStartNonce; createAccount address n 0.

Definition incNonce (address : bytes) : SSM unit :=
  table ← getTable address;
  if table : bool then
    v ← select_value address ACCOUNT_NONCE;
    match v with
    | Some v => n ← read_u256 v; update_value address ACCOUNT_NONCE (u256_str (u256 (n + 1)))
    | None => mret tt
    end
  else n ← requireAccountStartNonce; createAccount address (u256 (n + 1)) 0.

Definition setNonce (address : bytes) (newNonce : Z) : SSM unit :=
  table ← getTable address;
  if table : bool then update_value address ACCOUNT_NONCE (u256_str newNonce)
  else createAccount address newNonce 0.

Definition getNonce (address : bytes) : SSM Z :=
  table ← getTable address;
  v ← (if table : bool then select_value address ACCOUNT_NONCE else mret None);
  match v with
  | Some v => read_u256 v
  | None => s ← sget; mret (ss_accountStartNonce s)
  end.

Definition accountNonemptyAndExisting (address : bytes) : SSM bool :=
  table ← getTable address;
  if negb table then mret false
  else
    b ← balance address;
    if decide (0 < b) then mret true
    else
      h ← codeHash address;
      if decide (h ≠ EmptySHA3) then mret true
      else
        n ← getNonce address;
        s ← sget;
        mret (bool_decide (n ≠ ss_accountStartNonce s)).

Definition rootHash (sha256 : bytes → bytes) : SSM bytes := factory (factory_hash sha256).

Definition state_savepoint (s : StorageState) : nat := factory_savepoint (ss_factory s).

Definition state_rollback (savepoint : nat) : SSM unit := factory (factory_rollback savepoint).

Definition state_checkAuthority (origin contract : bytes) : SSM bool :=
  table ← getTable contract;
  if negb table then mret true
  else
    s ← sget;
    match fc_name2Table (ss_factory s) !! contract_table contract with
    | Some t => mret (checkAuthority t origin)
    | None => sthrow UB
    end.

End state.
