(* ===== verification/RollbackFacts.v ===== *)
(** * Rolling the factory back

    Every operation of the factory, and of the account state over it, can be
    followed by a rollback to the savepoint before it. [rolls f f1 cs] says
    what that does when [cs] was logged on the way from [f] to [f1]: without
    insertions the rows of all tables are restored, and with an insertion the
    loop erases past the end of a vector. The relation composes, so it holds
    of every sequence of operations. *)

From S2P Require Import Prelude StateErr Hex Crypto TrieHash Table TableFactory TableFacts Rollback StorageState.

Local Open Scope Z_scope.

(** ** Tables of a factory *)

Definition same_settings (f f' : Factory) : Prop :=
  fc_stateStorage f' = fc_stateStorage f ∧ fc_blockHash f' = fc_blockHash f ∧ fc_blockNum f' = fc_blockNum f.

(** The rows the storage behind the factory has. *)
Definition stored (f : Factory) (name key : bytes) : option (list Entry) :=
  match fc_stateStorage f with
  | Some db => es_entries <$> db (fc_blockHash f) (fc_blockNum f) name key
  | None => Some []
  end.

(** The rows a table of the factory answers, open or not. *)
Definition rows_in (f : Factory) (name key : bytes) : option (list Entry) :=
  match fc_name2Table f !! name with Some t => rowsof t key | None => stored f name key end.

(** Open tables are named as they are and have the storage of the factory. *)
Definition table_wf (f : Factory) (name : bytes) (t : MemoryTable) : Prop :=
  mt_remoteDB t = fc_stateStorage f ∧ ti_name (mt_info t) = name.

Definition factory_wf (f : Factory) : Prop :=
  is_Some (fc_stateStorage f) ∧ map_Forall (table_wf f) (fc_name2Table f).

(** [f'] answers like [f] up to [restored]; it may have opened more tables. *)
Definition fback (f f' : Factory) : Prop :=
  same_settings f f' ∧
  (∀ name t, fc_name2Table f !! name = Some t → ∃ t', fc_name2Table f' !! name = Some t' ∧ back t t') ∧
  (∀ name t', fc_name2Table f !! name = None → fc_name2Table f' !! name = Some t' →
     table_wf f name t' ∧ ∀ key, rows_restored (stored f name key) (rowsof t' key)).

Lemma fback_rows f f' name key :
  fback f f' → rows_restored (rows_in f name key) (rows_in f' name key).
Proof.
  intros ((S1 & S2 & S3) & Hold & Hnew). unfold rows_in. destruct (fc_name2Table f !! name) as [t|] eqn:E.
  - destruct (Hold name t E) as (t' & -> & _ & Hb & _). apply Hb.
  - destruct (fc_name2Table f' !! name) as [t'|] eqn:E'; [by apply Hnew|].
    unfold stored. rewrite S1, S2, S3. reflexivity.
Qed.

Lemma back_wf f name t t' : back t t' → table_wf f name t → table_wf f name t'.
Proof. intros ((E1 & E2 & _) & _) [H1 H2]. unfold table_wf. by rewrite E1, E2. Qed.

Lemma stored_settings f f' name key : same_settings f f' → stored f' name key = stored f name key.
Proof. intros (S1 & S2 & S3). unfold stored. by rewrite S1, S2, S3. Qed.

Lemma table_wf_settings f f' name t : same_settings f f' → table_wf f' name t ↔ table_wf f name t.
Proof. intros (S1 & _). unfold table_wf. by rewrite S1. Qed.

Lemma back_refl t : back t t.
Proof. by apply cached_more_back, cached_more_refl. Qed.

#[global] Instance fback_preorder : PreOrder fback.
Proof.
  split.
  - intros f. split; [done|]. split; [|congruence]. intros name t E. exists t. split; [done|apply back_refl].
  - intros f1 f2 f3 (S1 & O1 & N1) (S2 & O2 & N2). split; [|split].
    + destruct S1 as (A1 & A2 & A3), S2 as (B1 & B2 & B3). repeat split; congruence.
    + intros name t E. destruct (O1 name t E) as (t2 & E2 & B2). destruct (O2 name t2 E2) as (t3 & E3 & B3).
      exists t3. split; [done|by eapply back_trans].
    + intros name t3 E1 E3. destruct (fc_name2Table f2 !! name) as [t2|] eqn:E2.
      * destruct (N1 name t2 E1 E2) as [W2 R2]. destruct (O2 name t2 E2) as (t3' & E3' & B3).
        rewrite E3 in E3'. injection E3' as <-. split; [by eapply back_wf|]. intros key.
        etransitivity; [apply R2|apply B3].
      * destruct (N2 name t3 E2 E3) as [W3 R3]. split; [by apply (table_wf_settings f1 f2)|].
        intros key. rewrite <- (stored_settings f1 f2) by done. apply R3.
Qed.

Lemma fback_wf f f' : fback f f' → factory_wf f → factory_wf f'.
Proof.
  intros (S & O & N) [Hs Hw]. split; [destruct S as (-> & _); done|]. intros name t' E'.
  apply (table_wf_settings f f' name t' S). destruct (fc_name2Table f !! name) as [t|] eqn:E.
  - destruct (O name t E) as (t2 & E2 & B2). rewrite E' in E2. injection E2 as <-. eapply back_wf; [done|]. by apply Hw.
  - by apply (N name t').
Qed.

(** ** Undoing what was logged *)

Section text.
Context `{Text, !TextLaws}.

Definition has_insert (cs : list Change) : bool := existsb (λ c, bool_decide (ch_kind c = Insert)) cs.

Definition rolls (f f1 : Factory) (cs : list Change) : Prop :=
  same_settings f f1 ∧ factory_wf f1 ∧ fc_changeLog f1 = fc_changeLog f ++ cs ∧
  ∀ f', fback f1 f' → fc_changeLog f' = fc_changeLog f ++ cs →
    if has_insert cs then fst (rollback_rounds (length cs) f') = Throw UB
    else ∃ f'', rollback_rounds (length cs) f' = (Ok tt, f'') ∧ fback f f'' ∧ fc_changeLog f'' = fc_changeLog f.

Lemma rollback_rounds_add n m f :
  rollback_rounds (n + m) f = (rollback_rounds n ≫= λ _, rollback_rounds m) f.
Proof.
  revert f. induction n as [|n IH]; intros f; [done|]. cbn [rollback_rounds Nat.add]. rewrite sm_bind_assoc.
  destruct (rollback_step f) as [[[]|x] f1] eqn:E.
  - rewrite !(sm_bind_ok _ _ _ _ _ E). apply IH.
  - by rewrite !(sm_bind_throw _ _ _ _ _ E).
Qed.

Lemma rolls_refl f : factory_wf f → rolls f f [].
Proof.
  intros Hw. split; [done|]. split; [done|]. rewrite app_nil_r. split; [done|]. intros f' Hb Hl.
  cbn. by exists f'.
Qed.

Lemma rolls_trans f f1 f2 cs1 cs2 : rolls f f1 cs1 → rolls f1 f2 cs2 → rolls f f2 (cs1 ++ cs2).
Proof.
  intros (S1 & W1 & L1 & R1) (S2 & W2 & L2 & R2). split; [|split; [done|split]].
  - destruct S1 as (A1 & A2 & A3), S2 as (B1 & B2 & B3). repeat split; congruence.
  - by rewrite L2, L1, app_assoc.
  - intros f' Hb Hl. rewrite app_assoc, <- L1 in Hl. specialize (R2 f' Hb Hl).
    unfold has_insert. rewrite existsb_app. fold (has_insert cs1) (has_insert cs2).
    rewrite length_app, Nat.add_comm, rollback_rounds_add. destruct (has_insert cs2).
    + rewrite orb_true_r. unfold mbind, sm_bind. destruct (rollback_rounds (length cs2) f') as [[[]|x] f3]; done.
    + destruct R2 as (f3 & E3 & B3 & L3). rewrite orb_false_r, (sm_bind_ok _ _ _ _ _ E3).
      apply R1; [done|by rewrite L3].
Qed.

(** A step that logs nothing and only opens or caches. *)
Lemma rolls_silent f f1 :
  factory_wf f → fback f f1 → fc_changeLog f1 = fc_changeLog f → rolls f f1 [].
Proof.
  intros Hw Hb Hl. split; [apply Hb|]. split; [by eapply fback_wf|]. rewrite app_nil_r. split; [done|].
  intros f' Hb' Hl'. exists f'. split; [done|]. split; [by etransitivity|done].
Qed.

Lemma set_table_back f name t t1 :
  fc_name2Table f !! name = Some t → back t t1 →
  fback f (fc_set_tables (<[name := t1]> (fc_name2Table f)) (fc_changeLog f) f).
Proof.
  intros E Hb. split; [done|]. cbn. split.
  - intros n t' E'. destruct (decide (n = name)) as [->|].
    + rewrite E in E'. injection E' as <-. exists t1. by rewrite lookup_insert_eq.
    + exists t'. rewrite lookup_insert_ne by done. split; [done|apply back_refl].
  - intros n t' E' E1. rewrite lookup_insert_ne in E1 by congruence. congruence.
Qed.

Lemma rollback_step_run f l c t :
  fc_changeLog f = l ++ [c] → fc_name2Table f !! ch_table c = Some t →
  rollback_step f = match undo_change c (mt_cache t) with
                    | Ok cache => (Ok tt, fc_set_tables (<[ch_table c := mt_set_cache cache t]> (fc_name2Table f)) l f)
                    | Throw e => (Throw e, f)
                    end.
Proof.
  intros El Et. unfold rollback_step. erewrite sm_bind_ok by reflexivity. rewrite El, reverse_snoc, Et.
  destruct (undo_change c (mt_cache t)) as [cache|e] eqn:Eu.
  - erewrite sm_bind_ok by reflexivity. unfold smodify. by rewrite reverse_involutive.
  - erewrite sm_bind_throw by reflexivity. done.
Qed.

(** A method of an open table. *)
Lemma on_table_rolls {A} (m : TM A) name f :
  traced m → factory_wf f → ∃ cs, rolls f (snd (on_table name m f)) cs.
Proof.
  intros Hm Hw. unfold on_table. destruct (fc_name2Table f !! name) as [t|] eqn:E; [|exists []; by apply rolls_refl].
  pose proof Hw as [Hs Hwf]. pose proof (Hwf name t E) as [Hdb Hn].
  destruct (Hm t (fc_changeLog f)) as (r & t1 & cs & -> & Hu); [by rewrite Hdb|]. cbn [snd]. exists cs.
  set (f1 := fc_set_tables _ _ f). destruct cs as [|c [|]]; [| |done].
  { unfold f1. rewrite app_nil_r. apply rolls_silent; [done| |done]. by apply (set_table_back f name t), cached_more_back. }
  destruct Hu as (Hst & Hc & Hu). rewrite Hn in Hc.
  assert (factory_wf f1) as Hw1.
  { split; [done|]. intros n t' E'. cbn in E'. destruct (decide (n = name)) as [->|].
    - rewrite lookup_insert_eq in E'. injection E' as <-. destruct Hst as (A1 & A2 & _). unfold table_wf. by rewrite A1, A2.
    - rewrite lookup_insert_ne in E' by done. by apply Hwf. }
  split; [done|]. split; [done|]. split; [done|]. intros f' Hb Hl.
  destruct Hb as (Sb & Ob & Nb). destruct (Ob name t1) as (t' & E' & Bt); [cbn; by rewrite lookup_insert_eq|].
  specialize (Hu t' Bt). cbn [length rollback_rounds has_insert existsb]. rewrite orb_false_r.
  rewrite <- Hc in E'. pose proof (rollback_step_run f' (fc_changeLog f) c t' Hl E') as Er.
  case_bool_decide as Hk; [rewrite decide_True in Hu by done|rewrite decide_False in Hu by done].
  - rewrite Hu in Er. rewrite (sm_bind_throw _ _ _ _ _ Er). done.
  - destruct Hu as (cache & Eu & Bu). rewrite Eu in Er. rewrite (sm_bind_ok _ _ _ _ _ Er). eexists. split; [done|].
    split; [|done]. rewrite Hc. split; [done|]. cbn. split.
    + intros n t2 E2. destruct (decide (n = name)) as [->|Hne].
      * rewrite E in E2. injection E2 as <-. eexists. rewrite lookup_insert_eq. done.
      * rewrite lookup_insert_ne by done. apply Ob. cbn. by rewrite lookup_insert_ne.
    + intros n t2 E2 E3. assert (n ≠ name) by congruence. rewrite lookup_insert_ne in E3 by done.
      apply (Nb n t2); [cbn; by rewrite lookup_insert_ne|done].
Qed.

(** ** Sequences of operations *)

(** Everything reached from [f] rolls back to [f]. *)
Definition reach (f f1 : Factory) : Prop := ∃ cs, rolls f f1 cs.

Lemma reach_step f f1 f2 cs : reach f f1 → rolls f1 f2 cs → reach f f2.
Proof. intros [cs1 H1] H2. exists (cs1 ++ cs). by eapply rolls_trans. Qed.

Lemma reach_wf f f1 : reach f f1 → factory_wf f1.
Proof. intros [cs (_ & Hw & _)]. done. Qed.

Lemma reach_settings f f1 : reach f f1 → same_settings f f1.
Proof. intros [cs (Hs & _)]. done. Qed.

Lemma on_table_keeps {A} f (m : TM A) name : traced m → keeps (reach f) (on_table name m).
Proof.
  intros Hm f1 H1. destruct (on_table_rolls m name f1 Hm (reach_wf f f1 H1)) as [cs Hcs]. by eapply reach_step.
Qed.

(** A table as [openTable] makes it, before anything was changed in it. *)
Definition fresh_table (f : Factory) (name : bytes) (t : MemoryTable) : Prop :=
  table_wf f name t ∧ ∀ key, rowsof t key = stored f name key.

Lemma add_table_reach f f1 name t : reach f f1 → fresh_table f name t → reach f (add_table name t f1).
Proof.
  intros Hr [Ht Hrows]. unfold add_table. destruct (fc_name2Table f1 !! name) as [t1|] eqn:E; [done|].
  pose proof (reach_settings f f1 Hr) as Hs. eapply reach_step; [done|]. apply rolls_silent; [by eapply reach_wf| |done].
  split; [done|]. cbn. split.
  - intros n t' E'. exists t'. rewrite lookup_insert_ne by congruence. split; [done|apply back_refl].
  - intros n t' E1 E2. destruct (decide (n = name)) as [->|].
    + rewrite lookup_insert_eq in E2. injection E2 as <-. split; [by apply (table_wf_settings f f1)|].
      intros key. rewrite Hrows, (stored_settings f f1) by done. reflexivity.
    + rewrite lookup_insert_ne in E2 by done. congruence.
Qed.

Lemma getSysTableInfo_name name : ti_name (getSysTableInfo name) = name.
Proof. unfold getSysTableInfo. repeat case_decide; done. Qed.

Lemma fresh_new f f1 name info :
  same_settings f f1 → ti_name info = name →
  fresh_table f name (MkTable (fc_stateStorage f1) info ∅ (fc_blockHash f1) (fc_blockNum f1)).
Proof.
  intros (S1 & S2 & S3) Hn. split; [done|]. intros key. unfold rowsof, table_rows, remote_rows, stored. cbn.
  rewrite S1, S2, S3, Hn. by destruct (fc_stateStorage f).
Qed.

Lemma fresh_cached f name t t' : cached_more t t' → fresh_table f name t → fresh_table f name t'.
Proof.
  intros Hc [Ht Hr]. pose proof Hc as (Hs & Hrows & _). split; [by eapply back_wf, Ht; apply cached_more_back|].
  intros key. unfold rowsof. rewrite Hrows. apply Hr.
Qed.

Lemma fresh_info f name t info : ti_name info = name → fresh_table f name t → fresh_table f name (mt_set_info info t).
Proof.
  intros Hn [[H1 H2] Hr]. split; [done|]. intros key. rewrite <- Hr.
  unfold rowsof, table_rows, remote_rows. cbn. by rewrite Hn, H2.
Qed.

Lemma table_info_reach f open name f1 :
  (∀ n b, keeps (reach f) (open n b)) → reach f f1 →
  wp (table_info open name) (λ o s, reach f s ∧ ∀ info, o = Some info → ti_name info = name) (λ _, reach f) f1.
Proof.
  intros IH H1. apply wp_if; intros Hsys.
  - split; [done|]. intros info [= <-]. apply getSysTableInfo_name.
  - apply wp_bind. eapply wp_mono; [by apply wp_keeps|cbv beta|done]. intros _ s Hr.
    apply wp_bind. eapply wp_mono; [by apply wp_keeps; [apply on_table_keeps, table_select_traced|]|cbv beta|done].
    intros es s' Hr'. apply wp_if; intros _; [by split|]. apply wp_bind, wp_lift; [|done].
    intros e _. split; [done|]. by intros info [= <-].
Qed.

Lemma setAuthorizedAddress_reach f open blockNum info f1 :
  (∀ n b, keeps (reach f) (open n b)) → reach f f1 →
  wp (setAuthorizedAddress open blockNum info) (λ i s, reach f s ∧ ti_name i = ti_name info) (λ _, reach f) f1.
Proof.
  intros IH H1. apply wp_bind. eapply wp_mono; [by apply wp_keeps|cbv beta|done]. intros ok s Hr.
  destruct ok; [|done]. apply wp_bind.
  eapply wp_mono; [by apply wp_keeps; [apply on_table_keeps, table_select_traced|]|cbv beta|done].
  intros es s2 Hr2. apply wp_bind, wp_lift; [|done]. by intros l _.
Qed.

Lemma own_addresses_reach f name t blockNum f1 :
  reach f f1 → fresh_table f name t →
  wp (own_addresses t blockNum) (λ t' s, reach f s ∧ fresh_table f name t') (λ _, reach f) f1.
Proof.
  intros H1 Ht. pose proof Ht as [[_ Hn] _]. unfold own_addresses.
  destruct (select_frame t [] (ti_name (mt_info t)) Condition_new) as (t' & r & -> & Hc).
  apply wp_bind, wp_lift; [|done]. intros es _. apply wp_bind, wp_lift; [|done]. intros l _. split; [done|].
  apply fresh_info; [done|]. by eapply fresh_cached.
Qed.

Lemma openTable_fuel_keeps f fuel name flag : keeps (reach f) (openTable_fuel fuel name flag).
Proof.
  revert name flag. induction fuel as [|fuel IH]; intros name flag; [apply keeps_throw|].
  apply keeps_wp. intros f1 H1. cbn [openTable_fuel]. apply wp_bind, wp_get.
  pose proof (reach_settings f f1 H1) as Hs. apply wp_if; [done|]. intros Hn. apply wp_bind.
  eapply wp_mono; [by apply table_info_reach|cbv beta|done]. intros o s [Hr Ho].
  destruct o as [info|]; [|done]. specialize (Ho info eq_refl). cbv zeta.
  pose proof (fresh_new f f1 name (add_fields info) Hs Ho) as Hfresh.
  apply wp_bind. apply wp_mono with (Q' := λ t s, reach f s ∧ fresh_table f name t) (E' := λ _, reach f);
    [|intros t s' [Hr' Ht]|done].
  2: { apply wp_bind, wp_modify. by apply add_table_reach. }
  destruct flag; [|by split]. apply wp_if; intros _; [|by apply own_addresses_reach].
  apply wp_bind. eapply wp_mono; [by apply setAuthorizedAddress_reach|cbv beta|done]. intros i s' [Hr' Hi].
  split; [done|]. apply fresh_info; [|done]. by rewrite Hi.
Qed.

Lemma openTable_keeps f name flag : keeps (reach f) (openTable name flag).
Proof. apply openTable_fuel_keeps. Qed.

Lemma set_code_keeps f c : keeps (reach f) (smodify (fc_set_code c)).
Proof.
  intros f1 H1. eapply reach_step; [exact H1|]. apply rolls_silent; [by eapply reach_wf| |done].
  split; [done|]. split; cbn; [|congruence]. intros n t E. exists t. split; [done|apply back_refl].
Qed.

Lemma createTable_keeps f name k v flag origin : keeps (reach f) (createTable name k v flag origin).
Proof.
  unfold createTable. keeps_auto; eauto using openTable_keeps, set_code_keeps, on_table_keeps, table_select_traced,
    table_insert_traced.
Qed.
End text.

#[export] Hint Resolve openTable_keeps createTable_keeps : keeps.
