(* ===== verification/TextDecimal.v ===== *)
(** * Decimal text

    An instance of the number conversions: decimal digits both ways, and
    splitting at commas. It shows that the laws the tables rely on can hold,
    and lets the examples run. *)

From S2P Require Import Prelude StateErr Hex Crypto TrieHash NonceCheck NonceCheckFacts Table TableFacts.

Local Open Scope Z_scope.

Definition parse_digits (s : bytes) : option Z :=
  match s with [] => None | _ => if forallb is_digit s then Some (dec_value s 0) else None end.

Definition bounded (lo hi : Z) (o : option Z) : option Z :=
  match o with Some z => if decide (lo ≤ z < hi) then Some z else None | None => None end.

Fixpoint split_at (c : Z) (s acc : bytes) : list bytes :=
  match s with
  | [] => [acc]
  | x :: s => if decide (x = c) then acc :: split_at c s [] else split_at c s (acc ++ [x])
  end.

Definition decimal_text : Text := {|
  lexical_uint32 s := bounded 0 (2 ^ 32) (parse_digits s);
  lexical_int s := bounded 0 (2 ^ 31) (parse_digits s);
  lexical_string := toString_u256;
  u256_str := toString_u256;
  u256_of_str s := bounded 0 (2 ^ 256) (parse_digits s);
  split_commas s := split_at 44 s [];
|}.

Lemma dec_digits_digits fuel n : 0 ≤ n → Forall (λ c, is_digit c = true) (dec_digits fuel n).
Proof.
  revert n. induction fuel as [|k IH]; intros n Hn; [constructor|]. cbn [dec_digits]. apply Forall_app_2.
  - case_decide; [constructor|]. apply IH. apply Z.div_pos; lia.
  - constructor; [|constructor]. apply bool_decide_true. pose proof (Z.mod_pos_bound n 10). lia.
Qed.

Lemma toString_u256_nonempty n : toString_u256 n ≠ [].
Proof. unfold toString_u256. cbn [dec_digits]. by intros [_ [=]]%app_nil. Qed.

Lemma toString_u256_value n : 0 ≤ n → dec_value (toString_u256 n) 0 = n.
Proof.
  intros Hn. unfold toString_u256. apply dec_digits_value. split; [done|].
  rewrite Nat2Z.inj_succ, Z2Nat.id by apply Z.log2_nonneg.
  destruct (decide (n = 0)) as [->|]; [done|]. apply Z.log2_spec. lia.
Qed.

Lemma split_at_none c s acc : c ∉ s → split_at c s acc = [acc ++ s].
Proof.
  revert acc. induction s as [|x s IH]; intros acc Hc; [cbn; by rewrite app_nil_r|].
  apply not_elem_of_cons in Hc as [Hx Hs]. cbn. rewrite decide_False by done. rewrite IH by done. by rewrite <- app_assoc.
Qed.

Lemma decimal_text_laws : @TextLaws decimal_text.
Proof.
  split; cbn [u256_str u256_of_str lexical_string lexical_uint32 split_commas decimal_text].
  - intros z Hz. assert (parse_digits (toString_u256 z) = Some z) as ->.
    { unfold parse_digits. pose proof (toString_u256_nonempty z) as Hne.
      assert (forallb is_digit (toString_u256 z) = true) as ->.
      { apply Is_true_true, forallb_True. eapply list.Forall_impl; [apply (dec_digits_digits _ z); lia|]. by intros c ->. }
      destruct (toString_u256 z) eqn:E; [done|]. rewrite <- E, toString_u256_value by lia. done. }
    unfold bounded. by rewrite decide_True.
  - intros z Hz. split; [apply toString_u256_nonempty|apply dec_digits_digits; lia].
  - by vm_compute.
  - by vm_compute.
  - by vm_compute.
  - by vm_compute.
  - intros s Hs. by rewrite split_at_none.
Qed.
