(* ===== verification/StateRollback.v ===== *)
(** * Savepoints of the account state

    A client of the account state takes a savepoint, calls any of its methods
    and any methods of the tables, and rolls back when the execution failed.
    The theorem of this file says what that restores. *)

From S2P Require Import Prelude StateErr Hex Crypto TrieHash Table TableFactory TableFacts Rollback StorageState RollbackFacts TextDecimal.

Local Open Scope Z_scope.

(** ** The calls *)

Inductive state_call :=
  | CallAddressInUse (a : bytes) | CallNonempty (a : bytes) | CallHasCode (a : bytes) | CallBalance (a : bytes)
  | CallAddBalance (a : bytes) (v : Z) | CallSubBalance (a : bytes) (v : Z) | CallSetBalance (a : bytes) (v : Z)
  | CallTransfer (a b : bytes) (v : Z) | CallStorage (a : bytes) (k : Z) | CallSetStorage (a : bytes) (k v : Z)
  | CallSetCode (a c : bytes) | CallKill (a : bytes) | CallCode (a : bytes) | CallCodeHash (a : bytes)
  | CallCreateContract (a : bytes) | CallIncNonce (a : bytes) | CallSetNonce (a : bytes) (n : Z)
  | CallGetNonce (a : bytes) | CallClear
  | CallOpen (name : bytes) (flag : bool) | CallCreate (name k v : bytes) (flag : bool) (origin : bytes)
  | CallSelect (name key : bytes) (c : Condition)
  | CallUpdate (name key : bytes) (e : Entry) (c : Condition) (origin : bytes)
  | CallInsert (name key : bytes) (e : Entry) (origin : bytes)
  | CallRemove (name key : bytes) (c : Condition) (origin : bytes).

Section state.
Context `{Crypto, Text}.

Definition ignore {A} (m : SSM A) : SSM unit := m;; mret tt.

Definition run_call (c : state_call) : SSM unit :=
  match c with
  | CallAddressInUse a => ignore (addressInUse a)
  | CallNonempty a => ignore (accountNonemptyAndExisting a)
  | CallHasCode a => ignore (addressHasCode a)
  | CallBalance a => ignore (balance a)
  | CallAddBalance a v => addBalance a v
  | CallSubBalance a v => subBalance a v
  | CallSetBalance a v => setBalance a v
  | CallTransfer a b v => transferBalance a b v
  | CallStorage a k => ignore (storage a k)
  | CallSetStorage a k v => setStorage a k v
  | CallSetCode a c => setCode a c
  | CallKill a => kill a
  | CallCode a => ignore (code a)
  | CallCodeHash a => ignore (codeHash a)
  | CallCreateContract a => createContract a
  | CallIncNonce a => incNonce a
  | CallSetNonce a n => setNonce a n
  | CallGetNonce a => ignore (getNonce a)
  | CallClear => state_clear
  | CallOpen name flag => ignore (factory (openTable name flag))
  | CallCreate name k v flag origin => ignore (factory (createTable name k v flag origin))
  | CallSelect name key c => ignore (factory (on_table name (table_select key c)))
  | CallUpdate name key e c origin => ignore (factory (on_table name (table_update key e c origin)))
  | CallInsert name key e origin => ignore (factory (on_table name (table_insert key e origin)))
  | CallRemove name key c origin => ignore (factory (on_table name (table_remove key c origin)))
  end.

(** The state after some calls, each of which may have thrown. *)
Definition run_state (cs : list state_call) (s : StorageState) : StorageState :=
  foldl (λ s c, snd (run_call c s)) s cs.

Context `{!TextLaws}.

(** States whose factory is reached from [f]. *)
Definition sreach (f : Factory) (s : StorageState) : Prop := reach f (ss_factory s).

Lemma factory_keeps {A} f (m : FM A) : keeps (reach f) m → keeps (sreach f) (factory m).
Proof.
  intros Hm s Hs. specialize (Hm _ Hs). unfold factory, sreach. by destruct (m (ss_factory s)) as [r f'].
Qed.

Lemma factory_table_keeps {A} f (m : TM A) name : traced m → keeps (sreach f) (factory (on_table name m)).
Proof. intros Hm. by apply factory_keeps, on_table_keeps. Qed.

Lemma getTable_keeps f a : keeps (sreach f) (getTable a).
Proof. apply factory_keeps, openTable_keeps. Qed.

Lemma set_code_cache_keeps f c : keeps (sreach f) (set_code_cache c).
Proof. by intros s Hs. Qed.
End state.

#[export] Hint Resolve factory_keeps factory_table_keeps getTable_keeps set_code_cache_keeps
  table_select_traced table_update_traced table_insert_traced table_remove_traced : keeps.

Section claims.
Context `{Crypto, Text, !TextLaws}.
#[local] Hint Constants Opaque : keeps.

Lemma select_value_keeps f a k : keeps (sreach f) (select_value a k).
Proof. unfold select_value. keeps_auto. Qed.

Lemma update_value_keeps f a k v : keeps (sreach f) (update_value a k v).
Proof. unfold update_value. keeps_auto. Qed.

Lemma insert_value_keeps f a k v : keeps (sreach f) (insert_value a k v).
Proof. unfold insert_value. keeps_auto. Qed.
#[local] Hint Resolve select_value_keeps update_value_keeps insert_value_keeps : keeps.

Lemma read_u256_keeps f v : keeps (sreach f) (read_u256 v).
Proof. unfold read_u256. keeps_auto. Qed.

Lemma read_hash_keeps f v : keeps (sreach f) (read_hash v).
Proof. unfold read_hash. keeps_auto. Qed.
#[local] Hint Resolve read_u256_keeps read_hash_keeps : keeps.

Lemma createAccount_keeps f a n v : keeps (sreach f) (createAccount a n v).
Proof. unfold createAccount. keeps_auto. Qed.
#[local] Hint Resolve createAccount_keeps : keeps.

Lemma codeHash_keeps f a : keeps (sreach f) (codeHash a).
Proof. unfold codeHash. keeps_auto. Qed.

Lemma balance_keeps f a : keeps (sreach f) (balance a).
Proof. unfold balance. keeps_auto. Qed.

Lemma getNonce_keeps f a : keeps (sreach f) (getNonce a).
Proof. unfold getNonce. keeps_auto. Qed.

Lemma subBalance_keeps f a v : keeps (sreach f) (subBalance a v).
Proof. unfold subBalance. keeps_auto. Qed.

Lemma addBalance_keeps f a v : keeps (sreach f) (addBalance a v).
Proof. unfold addBalance, requireAccountStartNonce. keeps_auto. Qed.
#[local] Hint Resolve codeHash_keeps balance_keeps getNonce_keeps subBalance_keeps addBalance_keeps : keeps.

Lemma addressInUse_keeps f a : keeps (sreach f) (addressInUse a).
Proof. unfold addressInUse. keeps_auto. Qed.

Lemma accountNonemptyAndExisting_keeps f a : keeps (sreach f) (accountNonemptyAndExisting a).
Proof. unfold accountNonemptyAndExisting. keeps_auto. Qed.

Lemma addressHasCode_keeps f a : keeps (sreach f) (addressHasCode a).
Proof. unfold addressHasCode. keeps_auto. Qed.

Lemma setBalance_keeps f a v : keeps (sreach f) (setBalance a v).
Proof. unfold setBalance, requireAccountStartNonce. keeps_auto. Qed.

Lemma transferBalance_keeps f a b v : keeps (sreach f) (transferBalance a b v).
Proof. unfold transferBalance. keeps_auto. Qed.

Lemma storage_keeps f a k : keeps (sreach f) (storage a k).
Proof. unfold storage. keeps_auto. Qed.

Lemma setStorage_keeps f a k v : keeps (sreach f) (setStorage a k v).
Proof. unfold setStorage. keeps_auto. Qed.

Lemma setCode_keeps f a c : keeps (sreach f) (setCode a c).
Proof. unfold setCode. keeps_auto. Qed.

Lemma kill_keeps f a : keeps (sreach f) (kill a).
Proof. unfold kill, state_clear. keeps_auto. Qed.

Lemma code_keeps f a : keeps (sreach f) (code a).
Proof. unfold code. keeps_auto. Qed.

Lemma createContract_keeps f a : keeps (sreach f) (createContract a).
Proof. unfold createContract, requireAccountStartNonce. keeps_auto. Qed.

Lemma incNonce_keeps f a : keeps (sreach f) (incNonce a).
Proof. unfold incNonce, requireAccountStartNonce. keeps_auto. Qed.

Lemma setNonce_keeps f a n : keeps (sreach f) (setNonce a n).
Proof. unfold setNonce. keeps_auto. Qed.

#[local] Hint Resolve addressInUse_keeps accountNonemptyAndExisting_keeps addressHasCode_keeps setBalance_keeps transferBalance_keeps storage_keeps setStorage_keeps setCode_keeps kill_keeps code_keeps createContract_keeps incNonce_keeps setNonce_keeps : keeps.

Lemma ignore_keeps {A} f (m : SSM A) : keeps (sreach f) m → keeps (sreach f) (ignore m).
Proof. intros Hm. apply keeps_bind; [done|]. intros _. apply keeps_ret. Qed.
#[local] Hint Resolve ignore_keeps : keeps.

Lemma run_call_keeps f c : keeps (sreach f) (run_call c).
Proof. destruct c; cbn [run_call]; unfold state_clear; eauto with keeps. Qed.

Lemma run_state_reach calls f s : sreach f s → sreach f (run_state calls s).
Proof.
  revert s. induction calls as [|c calls IH]; intros s Hs; [done|]. apply IH. by apply run_call_keeps.
Qed.

Lemma run_state_rolls calls s :
  factory_wf (ss_factory s) → ∃ cs, rolls (ss_factory s) (ss_factory (run_state calls s)) cs.
Proof. intros Hw. apply run_state_reach. exists []. by apply rolls_refl. Qed.

(** The changes logged since a savepoint. *)
Definition since (s s' : StorageState) : list Change := drop (state_savepoint s) (fc_changeLog (ss_factory s')).

Lemma state_rollback_cases calls s :
  factory_wf (ss_factory s) →
  let s' := run_state calls s in
  fc_changeLog (ss_factory s') = fc_changeLog (ss_factory s) ++ since s s' ∧
  if has_insert (since s s') then fst (state_rollback (state_savepoint s) s') = Throw UB
  else ∃ f, state_rollback (state_savepoint s) s' = (Ok tt, MkState f (ss_cache s') (ss_accountStartNonce s')) ∧
         fback (ss_factory s) f ∧ fc_changeLog f = fc_changeLog (ss_factory s).
Proof.
  intros Hw. cbv zeta. destruct (run_state_rolls calls s Hw) as (cs & Hs & Hw' & Hl & Hr).
  set (s' := run_state calls s) in *. unfold since. rewrite Hl. unfold state_savepoint, factory_savepoint.
  rewrite drop_app_length. split; [done|]. specialize (Hr (ss_factory s') (reflexivity _) Hl).
  unfold state_rollback, factory, factory_rollback. erewrite sm_bind_ok by reflexivity.
  rewrite Hl, length_app. replace (length (fc_changeLog (ss_factory s)) + length cs - length (fc_changeLog (ss_factory s)))%nat
    with (length cs) by lia.
  destruct (has_insert cs).
  - by destruct (rollback_rounds (length cs) (ss_factory s')) as [r f].
  - destruct Hr as (f & -> & Hb & Hlf). by exists f.
Qed.
End claims.

(** ** The claims *)

(** C11. A rollback restores: after any calls to the account state and the
    tables, as long as none of them inserted a row, rolling back to the
    savepoint taken before them succeeds, empties the log down to the
    savepoint, and leaves every table reading as it did then, field by field,
    except that a deleted row may be undeleted; a row that was not deleted
    reads exactly as before. The cache of contract code is not rolled back. *)
Theorem state_rollback_restores `{Crypto, Text, !TextLaws} (s : StorageState) (calls : list state_call) :
  factory_wf (ss_factory s) → has_insert (since s (run_state calls s)) = false →
  ∃ s'', state_rollback (state_savepoint s) (run_state calls s) = (Ok tt, s'') ∧
    fc_changeLog (ss_factory s'') = fc_changeLog (ss_factory s) ∧
    (∀ name key, rows_restored (rows_in (ss_factory s) name key) (rows_in (ss_factory s'') name key)) ∧
    (∀ name key rows, rows_in (ss_factory s) name key = Some rows →
       Forall (λ e, getField e STATUS = str "0") rows →
       ∃ rows', rows_in (ss_factory s'') name key = Some rows' ∧
         Forall2 (λ e e', ∀ k, getField e' k = getField e k) rows rows') ∧
    ss_cache s'' = ss_cache (run_state calls s).
Proof.
  intros Hw Hi. pose proof (state_rollback_cases calls s Hw) as [_ Hr]. rewrite Hi in Hr.
  destruct Hr as (f & -> & Hb & Hl). eexists. split; [done|]. split; [done|]. split; [|split; [|done]].
  - intros name key. by apply fback_rows.
  - intros name key rows Er Hs. pose proof (fback_rows _ f name key Hb) as Hr. rewrite Er in Hr.
    inversion Hr as [? rows' Hrows E1 E2|]; subst. exists rows'. split; [done|].
    apply Forall2_same_length_lookup_2; [by apply list.Forall2_length in Hrows|]. intros i e e' Ee Ee' k.
    apply restored_exact; [by apply (Forall_lookup_1 _ _ _ _ Hs Ee)|].
    by apply (Forall2_lookup_lr _ _ _ _ _ _ Hrows Ee Ee').
Qed.

(** C13. A rollback over an insertion is undefined behaviour: [insert] records
    the position after the new row, so undoing it erases the end of the
    vector. Whatever the calls were, if the changes since the savepoint
    contain an insertion the rollback does not return. *)
Theorem rollback_insert_undefined `{Crypto, Text, !TextLaws} (s : StorageState) (calls : list state_call) :
  factory_wf (ss_factory s) → has_insert (since s (run_state calls s)) = true →
  fst (state_rollback (state_savepoint s) (run_state calls s)) = Throw UB.
Proof.
  intros Hw Hi. pose proof (state_rollback_cases calls s Hw) as [_ Hr]. by rewrite Hi in Hr.
Qed.

(** ** An example: an empty storage and one account *)

Definition empty_storage : Storage := λ _ _ _ _, Some Entries_new.
Definition example_state : StorageState := MkState (setStateStorage (Some empty_storage) Factory_new) ∅ 0.
Definition example_account : bytes := replicate 20 7.
Definition example_funded : StorageState :=
  @run_state example_crypto decimal_text [CallAddBalance example_account 100] example_state.

Lemma example_state_wf : factory_wf (ss_factory example_state).
Proof. split; [by eexists|]. apply map_Forall_empty. Qed.

Lemma example_funded_wf : factory_wf (ss_factory example_funded).
Proof.
  destruct (@run_state_rolls example_crypto decimal_text decimal_text_laws
    [CallAddBalance example_account 100] example_state example_state_wf) as (cs & _ & Hw & _). exact Hw.
Qed.

Definition example_calls : list state_call :=
  [CallAddBalance example_account 5; CallIncNonce example_account; CallSetCode example_account [1; 2; 3]].

Lemma state_rollback_restores_witness :
  ∃ s'', @state_rollback decimal_text (state_savepoint example_funded)
           (@run_state example_crypto decimal_text example_calls example_funded) = (Ok tt, s'') ∧
    rows_restored (rows_in (ss_factory example_funded) (contract_table example_account) ACCOUNT_BALANCE)
      (rows_in (ss_factory s'') (contract_table example_account) ACCOUNT_BALANCE).
Proof.
  destruct (@state_rollback_restores example_crypto decimal_text decimal_text_laws example_funded example_calls)
    as (s'' & E & _ & Hr & _ & _); [apply example_funded_wf|vm_compute; reflexivity|].
  exists s''. split; [exact E|apply Hr].
Defined.

Lemma rollback_insert_undefined_witness :
  fst (@state_rollback decimal_text (state_savepoint example_funded)
         (@run_state example_crypto decimal_text [CallSetStorage example_account 1 2] example_funded)) = Throw UB.
Proof.
  apply (@rollback_insert_undefined example_crypto decimal_text decimal_text_laws);
    [apply example_funded_wf|vm_compute; reflexivity].
Defined.
