(* ===== verification/AccountFacts.v ===== *)
(** * The factory as a map of rows

    For the account state a factory is a function from table and key to rows,
    [rows_in]. This file describes the operations that the account state uses
    by their effect on that function, under the invariant [finv]: the storage
    answers, nobody restricted access to a table, the tables of accounts are
    listed in the table of tables with the fields the account state writes,
    and unlisted ones are empty. *)

From S2P Require Import Prelude StateErr Hex Crypto TrieHash Table TableFactory TableFacts Rollback StorageState RollbackFacts.

Local Open Scope Z_scope.

(** ** The invariant *)

Definition info_ok (name : bytes) (i : TableInfo) : Prop :=
  ti_authorizedAddress i = [] ∧
  (name = SYS_TABLES → ti_fields i = ti_fields (add_fields (getSysTableInfo SYS_TABLES))) ∧
  (∀ a, name = contract_table a → Forall (λ k, k ∈ ti_fields i) [STORAGE_VALUE; STATUS; STORAGE_KEY]).

Abbreviation rows_map := (bytes → bytes → option (list Entry)).

Definition listed (R : rows_map) (name : bytes) : Prop := ∃ e es, R SYS_TABLES name = Some (e :: es).

Record rows_ok (R : rows_map) : Prop := {
  ro_total n k : is_Some (R n k);
  ro_free k : R SYS_ACCESS_TABLE k = Some [];
  ro_listed a e es : R SYS_TABLES (contract_table a) = Some (e :: es) →
    getField e (str "key_field") = STORAGE_KEY ∧ getField e (str "value_field") = STORAGE_VALUE;
  ro_unlisted a k : ¬ listed R (contract_table a) → R (contract_table a) k = Some [];
}.

Record finv (f : Factory) : Prop := {
  fi_storage : is_Some (fc_stateStorage f);
  fi_tables n t : fc_name2Table f !! n = Some t → table_wf f n t ∧ info_ok n (mt_info t);
  fi_rows : rows_ok (rows_in f);
  fi_open a : is_Some (fc_name2Table f !! contract_table a) → listed (rows_in f) (contract_table a);
}.

(** Steps that only open tables or fill caches. *)
Record quiet_step (f f' : Factory) : Prop := {
  qs_inv : finv f';
  qs_rows n k : rows_in f' n k = rows_in f n k;
  qs_settings : same_settings f f';
  qs_open n : is_Some (fc_name2Table f !! n) → is_Some (fc_name2Table f' !! n);
}.

Lemma quiet_refl f : finv f → quiet_step f f.
Proof. intros Hf. by split. Qed.

Lemma quiet_trans f1 f2 f3 : quiet_step f1 f2 → quiet_step f2 f3 → quiet_step f1 f3.
Proof.
  intros [I1 R1 S1 O1] [I2 R2 S2 O2]. split; [done| | |auto].
  - intros n k. by rewrite R2, R1.
  - destruct S1 as (A1 & A2 & A3), S2 as (B1 & B2 & B3). repeat split; congruence.
Qed.

Lemma rows_ok_ext (R R' : rows_map) : (∀ n k, R' n k = R n k) → rows_ok R → rows_ok R'.
Proof.
  intros E [H1 H2 H3 H4]. split; intros *; rewrite ?E; [done|done|apply H3|].
  intros Hl. apply H4. intros (e & es & El). apply Hl. exists e, es. by rewrite E.
Qed.

Lemma listed_ext (R R' : rows_map) n : (∀ n k, R' n k = R n k) → listed R n → listed R' n.
Proof. intros E (e & es & El). exists e, es. by rewrite E. Qed.

(** Names: the tables of accounts are not system tables. *)
Lemma contract_not_sys a : contract_table a ∉ m_sysTables.
Proof. unfold contract_table, m_sysTables. rewrite !not_elem_of_cons. repeat split; try discriminate. apply not_elem_of_nil. Qed.

Lemma contract_table_inj a b : bytes_ok a → bytes_ok b → contract_table a = contract_table b → a = b.
Proof.
  intros Ha Hb E. unfold contract_table in E. apply app_inv_head, app_inv_tail in E. by apply toHex_inj.
Qed.

Lemma contract_ne_tables a : contract_table a ≠ SYS_TABLES.
Proof. discriminate. Qed.

Lemma contract_ne_access a : contract_table a ≠ SYS_ACCESS_TABLE.
Proof. discriminate. Qed.

Section text.
Context `{Text, !TextLaws}.

(** ** Selecting *)

Lemma set_table_rows f n t t' log :
  fc_name2Table f !! n = Some t → (∀ k, rowsof t' k = rowsof t k) →
  ∀ m k, rows_in (fc_set_tables (<[n := t']> (fc_name2Table f)) log f) m k = rows_in f m k.
Proof.
  intros E Hr m k. unfold rows_in. cbn. destruct (decide (m = n)) as [->|].
  - by rewrite lookup_insert_eq, E, Hr.
  - by rewrite lookup_insert_ne.
Qed.

Lemma finv_set_table f n t t' log R :
  finv f → fc_name2Table f !! n = Some t → same_table t t' →
  (∀ m k, rows_in (fc_set_tables (<[n := t']> (fc_name2Table f)) log f) m k = R m k) → rows_ok R →
  (∀ a, listed (rows_in f) (contract_table a) → listed R (contract_table a)) →
  finv (fc_set_tables (<[n := t']> (fc_name2Table f)) log f).
Proof.
  intros [Hs Ht Hr Ho] E (S1 & S2 & _) HR Hok Hl. split; [done|..].
  - intros m u. cbn. destruct (decide (m = n)) as [->|].
    + rewrite lookup_insert_eq. intros [= <-]. destruct (Ht n t E) as [[W1 W2] Hi]. unfold table_wf. by rewrite S1, S2.
    + rewrite lookup_insert_ne by done. apply Ht.
  - by eapply rows_ok_ext; [|exact Hok].
  - intros a Ha. apply (listed_ext R); [done|]. apply Hl, Ho. revert Ha. cbn [fc_name2Table fc_set_tables].
    destruct (decide (contract_table a = n)) as [->|]; [rewrite E; by eexists|by rewrite lookup_insert_ne].
Qed.

Lemma select_run f n k :
  finv f → is_Some (fc_name2Table f !! n) →
  ∃ f' es, on_table n (table_select k Condition_new) f = (Ok es, f') ∧
    Some (es_entries es) = rows_in f n k ∧ quiet_step f f'.
Proof.
  intros Hf [t E]. unfold on_table. rewrite E.
  destruct (table_select_run t (fc_changeLog f) k) as (t' & es & -> & Hes & Hst & Hr).
  eexists _, es. split; [done|].
  destruct (ro_total _ (fi_rows f Hf) n k) as [rows Er].
  split.
  - rewrite Hes, Er. unfold rows_in in Er. rewrite E in Er. by rewrite Er.
  - assert (∀ m k, rows_in (fc_set_tables (<[n := t']> (fc_name2Table f)) (fc_changeLog f) f) m k = rows_in f m k) as HR
      by (by eapply set_table_rows).
    split; [|done|done|].
    + eapply finv_set_table; [done..|apply Hf|done].
    + intros m [u Eu]. cbn. destruct (decide (m = n)) as [->|]; [rewrite lookup_insert_eq|rewrite lookup_insert_ne by done];
        by eexists.
Qed.

(** ** Opening *)

Lemma add_table_quiet f n t :
  finv f → fresh_table f n t → info_ok n (mt_info t) →
  (∀ a, n = contract_table a → listed (rows_in f) n) →
  quiet_step f (add_table n t f) ∧ is_Some (fc_name2Table (add_table n t f) !! n).
Proof.
  intros Hf [Hwf Hr] Hi Hl. unfold add_table. destruct (fc_name2Table f !! n) as [u|] eqn:E.
  { rewrite E. split; [by apply quiet_refl|by eexists]. }
  split; [|cbn; by rewrite lookup_insert_eq].
  set (f' := fc_set_tables _ _ f).
  assert (∀ m k, rows_in f' m k = rows_in f m k) as HR.
  { intros m k. unfold rows_in. cbn. destruct (decide (m = n)) as [->|].
    - by rewrite lookup_insert_eq, E, Hr.
    - rewrite lookup_insert_ne by done. destruct (fc_name2Table f !! m); done. }
  split; [|done|done|].
  - destruct Hf as [Hs Ht Hrows Ho]. split; [done|..].
    + intros m u. cbn. destruct (decide (m = n)) as [->|].
      * rewrite lookup_insert_eq. by intros [= <-].
      * rewrite lookup_insert_ne by done. apply Ht.
    + by eapply rows_ok_ext; [|exact Hrows].
    + intros a Ha. apply (listed_ext (rows_in f)); [done|]. revert Ha. unfold f'. cbn [fc_name2Table fc_set_tables].
      destruct (decide (contract_table a = n)) as [Ea|]; [intros _; rewrite Ea; by apply (Hl a)|].
      rewrite lookup_insert_ne by done. apply Ho.
  - intros m [u Eu]. cbn. destruct (decide (m = n)) as [->|]; [rewrite lookup_insert_eq|rewrite lookup_insert_ne by done];
      by eexists.
Qed.

Lemma open_already fuel n flag f :
  is_Some (fc_name2Table f !! n) → openTable_fuel (S fuel) n flag f = (Ok true, f).
Proof. intros E. cbn [openTable_fuel]. erewrite sm_bind_ok by reflexivity. by rewrite decide_True. Qed.

Lemma with_no_addresses i : with_addresses [] i = i.
Proof. destruct i. unfold with_addresses. cbn. by rewrite app_nil_r. Qed.

(** The permission table is empty: it grants everything to everyone. *)
Lemma own_addresses_run f t :
  fresh_table f SYS_ACCESS_TABLE t → rows_ok (rows_in f) → fc_name2Table f !! SYS_ACCESS_TABLE = None →
  ∃ t', own_addresses t (fc_blockNum f) f = (Ok t', f) ∧ fresh_table f SYS_ACCESS_TABLE t' ∧ mt_info t' = mt_info t.
Proof.
  intros Ht Hok E. pose proof Ht as [[_ Hn] Hr]. unfold own_addresses.
  destruct (select_frame t [] (ti_name (mt_info t)) Condition_new) as (t' & r & Es & Hc).
  destruct (table_select_run t [] (ti_name (mt_info t))) as (t2 & es & Es2 & Hes & _). rewrite Es in Es2.
  injection Es2 as -> ->. rewrite Es.
  assert (es_entries es = []) as He.
  { rewrite Hes, Hr. pose proof (ro_free _ Hok (ti_name (mt_info t))) as Hfree. unfold rows_in in Hfree. rewrite E in Hfree.
    by rewrite Hfree. }
  cbv zeta beta iota. erewrite sm_bind_ok by reflexivity. rewrite He. erewrite sm_bind_ok by reflexivity.
  rewrite with_no_addresses. eexists. split; [reflexivity|]. split; [|done].
  apply fresh_info; [done|]. by eapply fresh_cached.
Qed.

Lemma open_access fuel f :
  finv f →
  ∃ f', openTable_fuel (S fuel) SYS_ACCESS_TABLE true f = (Ok true, f') ∧ quiet_step f f' ∧
    is_Some (fc_name2Table f' !! SYS_ACCESS_TABLE).
Proof.
  intros Hf. destruct (fc_name2Table f !! SYS_ACCESS_TABLE) as [t|] eqn:E.
  { exists f. rewrite open_already by (by rewrite E). split; [done|]. split; [by apply quiet_refl|by rewrite E]. }
  cbn [openTable_fuel]. erewrite sm_bind_ok by reflexivity. rewrite decide_False by (rewrite E; by intros []).
  unfold table_info at 1. rewrite (decide_True (P := SYS_ACCESS_TABLE ∈ m_sysTables)) by (by apply (bool_decide_unpack _)).
  erewrite sm_bind_ok by reflexivity. cbv zeta beta iota.
  rewrite (decide_False (P := SYS_ACCESS_TABLE ≠ SYS_ACCESS_TABLE)) by (intros Hn; by apply Hn).
  set (t := MkTable _ _ _ _ _).
  destruct (own_addresses_run f t) as (t' & Eo & Hfr & Hi); [by apply fresh_new|apply Hf|done|].
  rewrite (sm_bind_ok _ _ _ _ _ Eo). erewrite sm_bind_ok by reflexivity.
  destruct (add_table_quiet f SYS_ACCESS_TABLE t') as [Hq Ho]; [done|done|..].
  - rewrite Hi. split; [done|]. split; [done|]. intros a Ha. by destruct (contract_ne_access a).
  - intros a Ha. by destruct (contract_ne_access a).
  - eexists. split; [reflexivity|]. done.
Qed.

Lemma setAuthorizedAddress_run fuel info f b :
  finv f →
  ∃ f', setAuthorizedAddress (openTable_fuel (S fuel)) b info f = (Ok info, f') ∧ quiet_step f f'.
Proof.
  intros Hf. destruct (open_access fuel f Hf) as (f1 & E1 & Q1 & O1). unfold setAuthorizedAddress.
  rewrite (sm_bind_ok _ _ _ _ _ E1). destruct (select_run f1 SYS_ACCESS_TABLE (ti_name info)) as (f2 & es & E2 & Hes & Q2);
    [apply Q1|done|]. rewrite (sm_bind_ok _ _ _ _ _ E2).
  rewrite (ro_free _ (fi_rows f1 (qs_inv _ _ Q1))) in Hes. injection Hes as ->.
  erewrite sm_bind_ok by reflexivity. rewrite with_no_addresses. exists f2. split; [done|]. by eapply quiet_trans.
Qed.

Lemma fresh_settings f f' n t : same_settings f f' → fresh_table f n t → fresh_table f' n t.
Proof.
  intros Hs [Hw Hr]. split; [by apply (table_wf_settings f f')|]. intros k. by rewrite (stored_settings f f').
Qed.

(** Opening a table whose description is known: [info] is what [table_info]
    answers in [f1]. *)
Lemma open_described fuel n info flag f f1 :
  finv f → fc_name2Table f !! n = None → n ≠ SYS_ACCESS_TABLE →
  table_info (openTable_fuel (S fuel)) n f = (Ok (Some info), f1) → quiet_step f f1 →
  ti_name info = n → info_ok n (add_fields info) → (∀ a, n = contract_table a → listed (rows_in f) n) →
  ∃ f', openTable_fuel (S (S fuel)) n flag f = (Ok true, f') ∧ quiet_step f f' ∧ is_Some (fc_name2Table f' !! n).
Proof.
  intros Hf E Hna Ei Q1 Hn Hi Hl. set (g := S fuel) in *.
  cbn [openTable_fuel]. erewrite sm_bind_ok by reflexivity. rewrite decide_False by (rewrite E; by intros []).
  rewrite (sm_bind_ok _ _ _ _ _ Ei). cbv zeta beta iota. set (t := MkTable _ _ _ _ _).
  assert (∃ f2, (if flag then
             if decide (n ≠ SYS_ACCESS_TABLE)
             then setAuthorizedAddress (openTable_fuel g) (fc_blockNum f) (add_fields info) ≫= λ i, mret (mt_set_info i t)
             else own_addresses t (fc_blockNum f)
           else mret t) f1 = (Ok t, f2) ∧ quiet_step f1 f2) as (f2 & E2 & Q2).
  { destruct flag; [|exists f1; split; [done|]; apply quiet_refl, Q1].
    rewrite decide_True by done. destruct (setAuthorizedAddress_run fuel (add_fields info) f1 (fc_blockNum f)) as (f2 & E2 & Q2);
      [apply Q1|]. rewrite (sm_bind_ok _ _ _ _ _ E2). exists f2. done. }
  rewrite (sm_bind_ok _ _ _ _ _ E2). erewrite sm_bind_ok by reflexivity.
  pose proof (quiet_trans _ _ _ Q1 Q2) as Q.
  destruct (add_table_quiet f2 n t) as [Q3 O3]; [apply Q| |done|..].
  - apply (fresh_settings f); [apply Q|]. by apply fresh_new.
  - intros a Ha. apply (listed_ext (rows_in f)); [apply Q|]. by apply (Hl a).
  - eexists. split; [reflexivity|]. split; [by eapply quiet_trans|done].
Qed.

Lemma open_tables fuel flag f :
  finv f →
  ∃ f', openTable_fuel (S (S fuel)) SYS_TABLES flag f = (Ok true, f') ∧ quiet_step f f' ∧
    is_Some (fc_name2Table f' !! SYS_TABLES).
Proof.
  intros Hf. destruct (fc_name2Table f !! SYS_TABLES) as [t|] eqn:E.
  { exists f. rewrite open_already by (by rewrite E). split; [done|]. split; [by apply quiet_refl|by rewrite E]. }
  apply (open_described fuel SYS_TABLES (getSysTableInfo SYS_TABLES) flag f f); try done.
Qed.

Lemma listed_dec (R : rows_map) n : rows_ok R → listed R n ∨ R SYS_TABLES n = Some [].
Proof. intros Hok. destruct (ro_total R Hok SYS_TABLES n) as [[|e es] E]; [by right|left; by exists e, es]. Qed.

(** Opening the table of an account succeeds exactly if it is listed. *)
Lemma open_contract a flag f :
  finv f →
  ∃ b f', openTable (contract_table a) flag f = (Ok b, f') ∧ quiet_step f f' ∧
    (b = true → listed (rows_in f) (contract_table a) ∧ is_Some (fc_name2Table f' !! contract_table a)) ∧
    (b = false → ¬ listed (rows_in f) (contract_table a)).
Proof.
  intros Hf. unfold openTable. destruct (fc_name2Table f !! contract_table a) as [t|] eqn:E.
  { exists true, f. rewrite open_already by (by rewrite E). split; [done|]. split; [by apply quiet_refl|]. split; [|done].
    intros _. rewrite E. split; [|by eexists]. apply (fi_open f Hf). by rewrite E. }
  destruct (open_tables 0 true f Hf) as (f1 & E1 & Q1 & O1).
  destruct (select_run f1 SYS_TABLES (contract_table a) (qs_inv _ _ Q1) O1) as (f2 & es & E2 & Hes & Q2).
  rewrite (qs_rows _ _ Q1) in Hes. pose proof (quiet_trans _ _ _ Q1 Q2) as Q.
  assert (∀ o, (if decide (Entries_size es = 0)%nat then mret None
      else e ← slift (Entries_get es 0);
           mret (Some (MkInfo (contract_table a) (getField e (str "key_field"))
                         (split_commas (getField e (str "value_field"))) []))) f2 = (Ok o, f2) →
    table_info (openTable_fuel 2) (contract_table a) f = (Ok o, f2)) as Hinfo.
  { intros o Ho. unfold table_info. rewrite decide_False by apply contract_not_sys.
    by rewrite (sm_bind_ok _ _ _ _ _ E1), (sm_bind_ok _ _ _ _ _ E2). }
  destruct (es_entries es) as [|e rows] eqn:Ee.
  - exists false, f2. split; [|split; [done|split; [done|]]].
    + cbn [openTable_fuel]. erewrite sm_bind_ok by reflexivity. rewrite decide_False by (rewrite E; by intros []).
      erewrite sm_bind_ok; [|apply Hinfo; unfold Entries_size; rewrite Ee; reflexivity]. done.
    + intros _ (e & rows & El). congruence.
  - destruct (ro_listed _ (fi_rows f Hf) a e rows (eq_sym Hes)) as [Hk Hv].
    destruct (open_described 1 (contract_table a) (MkInfo (contract_table a) STORAGE_KEY [STORAGE_VALUE] []) flag f f2)
      as (f' & E' & Q' & O'); try done.
    + apply Hinfo. unfold Entries_size, Entries_get. rewrite Ee. cbn [length]. rewrite decide_False by done.
      erewrite sm_bind_ok by reflexivity. rewrite Hk, Hv, split_no_comma; [done|]. by apply (bool_decide_unpack _).
    + split; [done|]. split; [intros Hc; by destruct (contract_ne_tables a)|]. intros b _.
      by apply (bool_decide_unpack _).
    + intros b _. by exists e, rows.
    + exists true, f'. split; [done|]. split; [done|]. split; [|done]. intros _. split; [by exists e, rows|done].
Qed.

(** ** Writing *)

Definition put (R : rows_map) (n k : bytes) (rows : list Entry) : rows_map :=
  λ m j, if decide (m = n ∧ j = k) then Some rows else R m j.

Definition written (fs : list (bytes * bytes)) (e : Entry) : Entry := foldl (λ e '(k, v), setField k v e) e fs.

Lemma update_entry_written i fs e : fst (update_entry i fs e) = written fs e.
Proof.
  unfold update_entry, written.
  enough (∀ rs, fst (foldl (λ '(e, rs) '(k, v), (setField k v e, rs ++ [MkRecord i k (getField e k)])) (e, rs) fs) =
    foldl (λ e '(k, v), setField k v e) e fs) as Hall by apply Hall.
  revert e. induction fs as [|[k v] fs IH]; intros e rs; [done|]. apply IH.
Qed.

Lemma update_loop_all fs pre post d rs :
  ∃ rs', update_loop (seq (length pre) (length post)) fs (MkEntries (pre ++ post) d) rs =
    Ok (MkEntries (pre ++ (written fs <$> post)) d, rs').
Proof.
  revert pre rs. induction post as [|e post IH]; intros pre rs; [by exists rs|].
  cbn [length seq update_loop]. unfold Entries_get. cbn [es_entries].
  rewrite lookup_app_r, Nat.sub_diag by done. cbn [lookup list_lookup mbind res_bind].
  destruct (update_entry (length pre) fs e) as [e' rs1] eqn:Eu.
  pose proof (update_entry_written (length pre) fs e) as Ew. rewrite Eu in Ew. cbn [fst] in Ew. subst e'.
  unfold Entries_set. cbn [es_entries es_dirty]. rewrite insert_app_r_alt, Nat.sub_diag by done.
  cbn [insert list_insert]. destruct (IH (pre ++ [written fs e]) (rs ++ rs1)) as [rs' IH'].
  exists rs'. rewrite length_app, Nat.add_1_r, <- app_assoc in IH'. cbn [app] in IH'.
  cbn [fmap list_fmap]. rewrite IH', <- app_assoc. done.
Qed.

Lemma getField_written fs e k :
  NoDup fs.*1 → getField (written fs e) k = default (getField e k) ((list_to_map fs : gmap bytes bytes) !! k).
Proof.
  unfold written. revert e. induction fs as [|[j v] fs IH]; intros e Hd; [done|].
  cbn in Hd. apply list.NoDup_cons in Hd as [Hj Hd]. cbn [foldl list_to_map]. rewrite IH by done. rewrite getField_setField.
  case_decide as Hk.
  - subst j. cbn. rewrite lookup_insert_eq, not_elem_of_list_to_map_1 by done. done.
  - cbn. by rewrite lookup_insert_ne by done.
Qed.

Lemma checkFiled_ok t e : (∀ k, is_Some (e_fields e !! k) → k ∈ ti_fields (mt_info t)) → checkFiled t e = Ok tt.
Proof. intros Hk. unfold checkFiled. apply throw_if_false. intros Hn. by apply Hn, (Forall_in_order (λ k, k ∈ ti_fields (mt_info t))). Qed.

Lemma checkAuthority_free t o : ti_authorizedAddress (mt_info t) = [] → checkAuthority t o = true.
Proof. intros E. unfold checkAuthority. by rewrite E. Qed.

(** A table whose rows of one key were replaced. *)
Lemma put_run f n t t' log k rows :
  fc_name2Table f !! n = Some t → (∀ j, rowsof t' j = if decide (j = k) then Some rows else rowsof t j) →
  ∀ m j, rows_in (fc_set_tables (<[n := t']> (fc_name2Table f)) log f) m j = put (rows_in f) n k rows m j.
Proof.
  intros E Hr m j. unfold put, rows_in. cbn. destruct (decide (m = n)) as [->|Hm].
  - rewrite lookup_insert_eq, Hr. destruct (decide (j = k)) as [->|]; [by rewrite decide_True|].
    rewrite decide_False by naive_solver. by rewrite E.
  - rewrite lookup_insert_ne by done. rewrite decide_False by naive_solver. done.
Qed.

(** The rows of [k] in table [n] replaced by [rows]. *)
Record put_step (f f' : Factory) (n k : bytes) (rows : list Entry) : Prop := {
  ps_inv : finv f';
  ps_rows m j : rows_in f' m j = put (rows_in f) n k rows m j;
  ps_settings : same_settings f f';
  ps_open m : is_Some (fc_name2Table f !! m) → is_Some (fc_name2Table f' !! m);
}.

Lemma put_step_intro f n t t' log k rows :
  finv f → fc_name2Table f !! n = Some t → same_table t t' →
  (∀ j, rowsof t' j = if decide (j = k) then Some rows else rowsof t j) →
  rows_ok (put (rows_in f) n k rows) →
  (∀ a, listed (rows_in f) (contract_table a) → listed (put (rows_in f) n k rows) (contract_table a)) →
  put_step f (fc_set_tables (<[n := t']> (fc_name2Table f)) log f) n k rows.
Proof.
  intros Hf E Hst Hr Hok Hl. pose proof (put_run f n t t' log k rows E Hr) as HR. split; [|done|done|].
  - by eapply finv_set_table.
  - intros m [u Eu]. cbn. destruct (decide (m = n)) as [->|]; [rewrite lookup_insert_eq|rewrite lookup_insert_ne by done];
      by eexists.
Qed.

(** Where writing keeps the rows in order. *)
Lemma put_contract_ok R a k rows :
  rows_ok R → listed R (contract_table a) → rows_ok (put R (contract_table a) k rows) ∧
  ∀ b, listed R (contract_table b) → listed (put R (contract_table a) k rows) (contract_table b).
Proof.
  intros [H1 H2 H3 H4] Hl.
  assert (∀ b, listed (put R (contract_table a) k rows) b ↔ listed R b) as HL.
  { intros b. unfold listed, put. by rewrite decide_False by (intros [? _]; by destruct (contract_ne_tables a)). }
  split; [split|].
  - intros n j. unfold put. case_decide; [by eexists|done].
  - intros j. unfold put. rewrite decide_False; [done|]. intros [? _]. by destruct (contract_ne_access a).
  - intros b e es. unfold put. rewrite decide_False; [apply H3|]. intros [? _]. by destruct (contract_ne_tables a).
  - intros b j Hb. rewrite HL in Hb. unfold put. rewrite decide_False; [by apply H4|]. intros [E _]. by rewrite E in Hb.
  - intros b. by rewrite HL.
Qed.

Lemma update_run f a k entry rows :
  finv f → is_Some (fc_name2Table f !! contract_table a) → rows_in f (contract_table a) k = Some rows →
  (∀ j, is_Some (e_fields entry !! j) → j ∈ [STORAGE_VALUE; STATUS; STORAGE_KEY]) →
  ∃ r f', on_table (contract_table a) (table_update k entry Condition_new Address_0) f = (Ok r, f') ∧
    put_step f f' (contract_table a) k (written (in_order (e_fields entry)) <$> rows).
Proof.
  intros Hf [t E] Hrows Hfields. unfold on_table. rewrite E. destruct (fi_tables f Hf _ _ E) as [[Hdb _] [Hauth [_ Hi]]].
  specialize (Hi a eq_refl). unfold rows_in in Hrows. rewrite E in Hrows. unfold rowsof in Hrows.
  destruct (load_frame t (fc_changeLog f) k) as (t0 & El & Hc & Hcache).
  specialize (Hcache ltac:(rewrite Hdb; apply Hf)).
  destruct (table_rows t k) as [[rows' d]|] eqn:Er; [|done]. injection Hrows as ->.
  unfold table_update, stry, my_table, gets. erewrite sm_bind_ok by reflexivity. cbn [fst].
  rewrite checkAuthority_free by done. cbn [negb]. rewrite (sm_bind_ok _ _ _ _ _ El). cbv beta iota.
  assert (checkFiled t entry = Ok tt) as Ef.
  { apply checkFiled_ok. intros j Hj. specialize (Hfields j Hj). clear -Hi Hfields.
    rewrite !list.Forall_cons in Hi. destruct Hi as (A1 & A2 & A3 & _).
    rewrite !elem_of_cons, elem_of_nil in Hfields. destruct Hfields as [->|[->|[->|[]]]]; done. }
  erewrite sm_bind_ok by (unfold slift; rewrite Ef; reflexivity). cbv zeta.
  rewrite processEntries_all. unfold Entries_size. cbn [es_entries].
  destruct (update_loop_all (in_order (e_fields entry)) [] rows d []) as [rs Eu]. cbn [length app] in Eu.
  erewrite sm_bind_ok by (unfold slift; rewrite Eu; reflexivity). cbv beta iota. rewrite (write_rows _ _ _ _ _ _ _ _ _ Hcache).
  eexists _, _. split; [reflexivity|]. destruct Hc as (Hs & Hr & _).
  destruct (put_contract_ok (rows_in f) a k (written (in_order (e_fields entry)) <$> rows)) as [Hok Hl];
    [apply Hf|apply (fi_open f Hf); by rewrite E|].
  apply put_step_intro with t; try done.
  intros j. rewrite rowsof_set. case_decide; [done|]. unfold rowsof. by rewrite Hr.
Qed.

Lemma insert_run f n t k entry rows :
  finv f → fc_name2Table f !! n = Some t → rows_in f n k = Some rows →
  (∀ j, is_Some (e_fields entry !! j) → j ∈ ti_fields (mt_info t)) →
  rows_ok (put (rows_in f) n k (rows ++ [entry])) →
  (∀ a, listed (rows_in f) (contract_table a) → listed (put (rows_in f) n k (rows ++ [entry])) (contract_table a)) →
  ∃ f', on_table n (table_insert k entry Address_0) f = (Ok 1, f') ∧ put_step f f' n k (rows ++ [entry]).
Proof.
  intros Hf E Hrows Hfields Hok Hl. unfold on_table. rewrite E. destruct (fi_tables f Hf _ _ E) as [[Hdb _] [Hauth _]].
  unfold rows_in in Hrows. rewrite E in Hrows. unfold rowsof in Hrows.
  destruct (load_frame t (fc_changeLog f) k) as (t0 & El & Hc & Hcache).
  specialize (Hcache ltac:(rewrite Hdb; apply Hf)).
  destruct (table_rows t k) as [[rows' d]|] eqn:Er; [|done]. injection Hrows as ->.
  unfold table_insert, stry, my_table, gets. erewrite sm_bind_ok by reflexivity. cbn [fst].
  rewrite checkAuthority_free by done. cbn [negb]. rewrite (sm_bind_ok _ _ _ _ _ El).
  erewrite sm_bind_ok by (unfold slift; rewrite checkFiled_ok by done; reflexivity). cbv beta iota.
  erewrite sm_bind_ok by reflexivity. cbv beta iota. set (log := fc_changeLog f ++ _).
  set (es := addEntry entry (MkEntries rows d)).
  assert ((if decide (Entries_size (MkEntries rows d) = 0)%nat then upd_cache_t (<[k := Some es]>) else store k es) (t0, log) =
          (Ok tt, (mt_set_cache (<[k := Some es]> (mt_cache t0)) t0, log))) as Ew.
  { case_decide; [done|]. by rewrite (store_cached _ _ _ _ _ Hcache). }
  rewrite (sm_bind_ok _ _ _ _ _ Ew). eexists. split; [reflexivity|]. destruct Hc as (Hs & Hr & _).
  apply put_step_intro with t; try done.
  intros j. rewrite rowsof_set. destruct (decide (j = k)); [done|]. unfold rowsof. by rewrite Hr.
Qed.

(** Listing an account that was not listed. *)
Lemma put_listed_ok R a e :
  rows_ok R → getField e (str "key_field") = STORAGE_KEY → getField e (str "value_field") = STORAGE_VALUE →
  rows_ok (put R SYS_TABLES (contract_table a) [e]) ∧
  ∀ b, listed R (contract_table b) → listed (put R SYS_TABLES (contract_table a) [e]) (contract_table b).
Proof.
  intros [H1 H2 H3 H4] Hk Hv.
  assert (∀ b, listed R b → listed (put R SYS_TABLES (contract_table a) [e]) b) as HL.
  { intros b (e0 & es & El). unfold listed, put. case_decide; [by exists e, []|by exists e0, es]. }
  split; [split|auto].
  - intros n j. unfold put. case_decide; [by eexists|done].
  - intros j. unfold put. by rewrite decide_False by (by intros [? _]).
  - intros b e0 es. unfold put. case_decide; [by intros [= <- _]|apply H3].
  - intros b j Hb. unfold put. rewrite decide_False by (intros [? _]; by destruct (contract_ne_tables b)).
    apply H4. intros Hl. by apply Hb, HL.
Qed.
End text.

(** * The account state as a map of values

    [value R a k] is what the account state reads under a key of an account.
    The methods of [StorageState] are compositions of a few steps: open the
    table, read a value, overwrite a value, add a value, create the account.
    Each is described here by its effect on [value] and on which accounts are
    listed. *)

Definition value (R : rows_map) (a k : bytes) : option bytes :=
  match R (contract_table a) k with Some (e :: _) => Some (getField e STORAGE_VALUE) | _ => None end.

(** The state with another factory. *)
Definition with_factory (s : StorageState) (f : Factory) : StorageState :=
  MkState f (ss_cache s) (ss_accountStartNonce s).

(** Values overwritten in order, the last one wins. *)
Definition override (l : list (bytes * bytes)) (g : bytes → option bytes) : bytes → option bytes :=
  foldl (λ g '(k, v) j, if decide (j = k) then Some v else g j) g l.

(** The account [a] had values written, nothing else changed. *)
Record effects (f f' : Factory) (a : bytes) (l : list (bytes * bytes)) : Prop := {
  ef_inv : finv f';
  ef_open n : is_Some (fc_name2Table f !! n) → is_Some (fc_name2Table f' !! n);
  ef_listed n : listed (rows_in f') n ↔ listed (rows_in f) n;
  ef_value b j : value (rows_in f') b j =
    if decide (contract_table b = contract_table a) then override l (value (rows_in f) a) j else value (rows_in f) b j;
}.

Lemma override_ext l g g' j : (∀ j, g j = g' j) → override l g j = override l g' j.
Proof.
  unfold override. revert g g' j. induction l as [|[k v] l IH]; intros g g' j E; [apply E|].
  cbn [foldl]. apply IH. intros i. case_decide; [done|apply E].
Qed.

Lemma override_app l1 l2 g : override (l1 ++ l2) g = override l2 (override l1 g).
Proof. unfold override. by rewrite foldl_app. Qed.

Lemma effects_trans f1 f2 f3 a l1 l2 : effects f1 f2 a l1 → effects f2 f3 a l2 → effects f1 f3 a (l1 ++ l2).
Proof.
  intros [I1 O1 L1 V1] [I2 O2 L2 V2]. split; [done|auto| |].
  - intros n. by rewrite L2.
  - intros b j. rewrite V2, V1. case_decide; [|done]. rewrite override_app. apply override_ext.
    intros i. rewrite V1. by rewrite decide_True.
Qed.

Lemma quiet_effects f f' a : quiet_step f f' → effects f f' a [].
Proof.
  intros [I R S O]. split; [done..| |].
  - intros n. unfold listed. by setoid_rewrite R.
  - intros b j. unfold value. rewrite R. case_decide as E; [by rewrite E|done].
Qed.

Lemma value_ext (R R' : rows_map) a k : (∀ n k, R' n k = R n k) → value R' a k = value R a k.
Proof. intros E. unfold value. by rewrite E. Qed.

Section state.
Context `{Crypto, Text, !TextLaws}.

Lemma factory_run {A} (m : FM A) s r f : m (ss_factory s) = (r, f) → factory m s = (r, with_factory s f).
Proof. intros E. unfold factory. by rewrite E. Qed.

(** ** Open and read *)

Lemma getTable_run s a :
  finv (ss_factory s) →
  ∃ b f', getTable a s = (Ok b, with_factory s f') ∧ quiet_step (ss_factory s) f' ∧
    (b = true → listed (rows_in (ss_factory s)) (contract_table a) ∧ is_Some (fc_name2Table f' !! contract_table a)) ∧
    (b = false → ¬ listed (rows_in (ss_factory s)) (contract_table a)).
Proof.
  intros Hf. destruct (open_contract a true _ Hf) as (b & f' & E & Q & Ht & Hn). exists b, f'.
  split; [by apply factory_run|done].
Qed.

Lemma select_value_run s a k :
  finv (ss_factory s) → is_Some (fc_name2Table (ss_factory s) !! contract_table a) →
  ∃ f', select_value a k s = (Ok (value (rows_in (ss_factory s)) a k), with_factory s f') ∧ quiet_step (ss_factory s) f'.
Proof.
  intros Hf Ho. destruct (select_run _ (contract_table a) k Hf Ho) as (f' & es & E & Hes & Q). exists f'.
  unfold select_value. rewrite (sm_bind_ok _ _ _ _ _ (factory_run _ _ _ _ E)). split; [|done].
  unfold value. rewrite <- Hes. unfold Entries_size. case_decide as Hl.
  - destruct (es_entries es) as [|e rows] eqn:Ee; [done|]. unfold Entries_get. rewrite Ee. done.
  - destruct (es_entries es) as [|e rows]; [done|cbn in Hl; lia].
Qed.

(** ** Write *)

Lemma value_put R a k rows b j :
  value (put R (contract_table a) k rows) b j =
    if decide (contract_table b = contract_table a ∧ j = k) then (λ e, getField e STORAGE_VALUE) <$> head rows
    else value R b j.
Proof. unfold value, put. case_decide; [|done]. by destruct rows. Qed.

Lemma put_effects f f' a k rows v :
  put_step f f' (contract_table a) k rows → (λ e, getField e STORAGE_VALUE) <$> head rows = Some v →
  effects f f' a [(k, v)].
Proof.
  intros [I R S O] Hv. split; [done|done| |].
  - intros n. unfold listed. setoid_rewrite R. unfold put.
    rewrite decide_False by (intros [E _]; by destruct (contract_ne_tables a)). done.
  - intros b j. rewrite (value_ext _ _ _ _ R), value_put, Hv. cbn [override foldl].
    destruct (decide (contract_table b = contract_table a)) as [E|].
    + destruct (decide (j = k)); [by rewrite decide_True|]. rewrite decide_False by naive_solver.
      unfold value. by rewrite E.
    + by rewrite decide_False by naive_solver.
Qed.

Lemma fields_in (P : bytes → Prop) (m : gmap bytes bytes) k v :
  (∀ j, is_Some (m !! j) → P j) → P k → ∀ j, is_Some (<[k := v]> m !! j) → P j.
Proof.
  intros Hm Hk j. destruct (decide (j = k)) as [->|]; [done|]. rewrite lookup_insert_ne by done. apply Hm.
Qed.

Lemma new_entry_fields j : is_Some (e_fields Entry_new !! j) → j ∈ [STORAGE_VALUE; STATUS; STORAGE_KEY].
Proof. cbn [Entry_new e_fields]. intros [x E]. apply lookup_singleton_Some in E as [<- _]. by apply (bool_decide_unpack _). Qed.

Lemma value_entry_fields v j : is_Some (e_fields (value_entry v) !! j) → j ∈ [STORAGE_VALUE; STATUS; STORAGE_KEY].
Proof. apply (fields_in (λ k, k ∈ [STORAGE_VALUE; STATUS; STORAGE_KEY])); [apply new_entry_fields|by apply (bool_decide_unpack _)]. Qed.

Lemma key_value_entry_fields k v j :
  is_Some (e_fields (key_value_entry k v) !! j) → j ∈ [STORAGE_VALUE; STATUS; STORAGE_KEY].
Proof.
  apply (fields_in (λ k, k ∈ [STORAGE_VALUE; STATUS; STORAGE_KEY])); [|by apply (bool_decide_unpack _)].
  apply (fields_in (λ k, k ∈ [STORAGE_VALUE; STATUS; STORAGE_KEY])); [apply new_entry_fields|by apply (bool_decide_unpack _)].
Qed.

Lemma written_value entry e v :
  e_fields entry !! STORAGE_VALUE = Some v → getField (written (in_order (e_fields entry)) e) STORAGE_VALUE = v.
Proof. intros E. rewrite getField_written by apply NoDup_in_order. by rewrite list_to_map_in_order, E. Qed.

(** Overwriting a value with any entry that has it. *)
Lemma update_effects s a k entry v :
  finv (ss_factory s) → is_Some (fc_name2Table (ss_factory s) !! contract_table a) →
  is_Some (value (rows_in (ss_factory s)) a k) → e_fields entry !! STORAGE_VALUE = Some v →
  (∀ j, is_Some (e_fields entry !! j) → j ∈ [STORAGE_VALUE; STATUS; STORAGE_KEY]) →
  ∃ f', (factory (on_table (contract_table a) (table_update k entry Condition_new Address_0));; mret tt) s =
          (Ok tt, with_factory s f') ∧ effects (ss_factory s) f' a [(k, v)].
Proof.
  intros Hf Ho [w Hw] Hv Hj. unfold value in Hw. destruct (rows_in (ss_factory s) (contract_table a) k) as [[|e rows]|] eqn:E; try done.
  destruct (update_run _ a k entry (e :: rows) Hf Ho E Hj) as (r & f' & Er & Hp). exists f'.
  rewrite (sm_bind_ok _ _ _ _ _ (factory_run _ _ _ _ Er)). split; [done|]. eapply put_effects; [done|].
  exact (f_equal Some (written_value entry e v Hv)).
Qed.

Lemma update_value_run s a k v :
  finv (ss_factory s) → is_Some (fc_name2Table (ss_factory s) !! contract_table a) →
  is_Some (value (rows_in (ss_factory s)) a k) →
  ∃ f', update_value a k v s = (Ok tt, with_factory s f') ∧ effects (ss_factory s) f' a [(k, v)].
Proof.
  intros Hf Ho Hv. apply update_effects; try done. apply value_entry_fields.
Qed.

Lemma insert_value_run s a k v :
  finv (ss_factory s) → is_Some (fc_name2Table (ss_factory s) !! contract_table a) →
  value (rows_in (ss_factory s)) a k = None →
  ∃ f', insert_value a k v s = (Ok tt, with_factory s f') ∧ effects (ss_factory s) f' a [(k, v)].
Proof.
  intros Hf [t Et] Hv. unfold value in Hv. destruct (ro_total _ (fi_rows _ Hf) (contract_table a) k) as [rows E].
  rewrite E in Hv. destruct rows as [|e rows]; [|done].
  destruct (fi_tables _ Hf _ _ Et) as [_ [_ [_ Hi]]]. specialize (Hi a eq_refl). rewrite !list.Forall_cons in Hi.
  destruct Hi as (A1 & A2 & A3 & _).
  destruct (put_contract_ok (rows_in (ss_factory s)) a k ([] ++ [key_value_entry k v])) as [Hok Hl];
    [apply Hf|apply (fi_open _ Hf); by rewrite Et|].
  destruct (insert_run _ _ _ k (key_value_entry k v) [] Hf Et E) as (f' & Er & Hp); [|done|done|].
  { intros j Hj. apply key_value_entry_fields in Hj. rewrite !elem_of_cons, elem_of_nil in Hj.
    destruct Hj as [->|[->|[->|[]]]]; done. }
  exists f'. unfold insert_value. rewrite (sm_bind_ok _ _ _ _ _ (factory_run _ _ _ _ Er)). split; [done|].
  eapply put_effects; [done|]. change (Some (getField (key_value_entry k v) STORAGE_VALUE) = Some v).
  unfold key_value_entry. by rewrite getField_setField, decide_True.
Qed.

(** ** Create *)

(** The account [a] appeared with the values [l]. *)
Record created (f f' : Factory) (a : bytes) (l : list (bytes * bytes)) : Prop := {
  cr_inv : finv f';
  cr_open : is_Some (fc_name2Table f' !! contract_table a);
  cr_listed n : listed (rows_in f') n ↔ listed (rows_in f) n ∨ n = contract_table a;
  cr_value b j : value (rows_in f') b j =
    if decide (contract_table b = contract_table a) then override l (λ _, None) j else value (rows_in f) b j;
}.

Lemma created_effects f f1 f2 a l1 l2 : created f f1 a l1 → effects f1 f2 a l2 → created f f2 a (l1 ++ l2).
Proof.
  intros [I1 O1 L1 V1] [I2 O2 L2 V2]. split; [done|auto| |].
  - intros n. by rewrite L2.
  - intros b j. rewrite V2, V1. case_decide; [|done]. rewrite override_app. apply override_ext.
    intros i. rewrite V1. by rewrite decide_True.
Qed.

Lemma set_code_quiet f c : finv f → quiet_step f (fc_set_code c f).
Proof. intros [H1' H2' H3' H4']. split; [|done|done|done]. by split. Qed.

Definition listing (a : bytes) : Entry :=
  setField (str "value_field") STORAGE_VALUE
    (setField (str "key_field") STORAGE_KEY (setField (str "table_name") (contract_table a) Entry_new)).

Lemma listing_fields a j :
  is_Some (e_fields (listing a) !! j) → j ∈ ti_fields (add_fields (getSysTableInfo SYS_TABLES)).
Proof.
  set (P := λ j, j ∈ ti_fields (add_fields (getSysTableInfo SYS_TABLES))). revert j. change (∀ j, is_Some (e_fields (listing a) !! j) → P j).
  assert (∀ j, is_Some (e_fields Entry_new !! j) → P j) as H0'.
  { intros j [x E]. unfold Entry_new, e_fields in E. apply lookup_singleton_Some in E as [<- _]. by apply (bool_decide_unpack _). }
  unfold listing, setField. cbn [e_fields].
  do 3 (apply (fields_in P); [|by apply (bool_decide_unpack _)]). exact H0'.
Qed.

Lemma createTable_run f a :
  finv f → ¬ listed (rows_in f) (contract_table a) →
  ∃ f', createTable (contract_table a) STORAGE_KEY STORAGE_VALUE false Address_0 f = (Ok true, f') ∧ created f f' a [].
Proof.
  intros Hf Hn. unfold createTable.
  destruct (open_tables 1 false f Hf) as (f1 & E1 & Q1 & [t1 O1]). fold (openTable SYS_TABLES false) in E1.
  rewrite (sm_bind_ok _ _ _ _ _ E1).
  destruct (select_run f1 SYS_TABLES (contract_table a) (qs_inv _ _ Q1)) as (f2 & es & E2 & Hes & Q2); [by eexists|].
  rewrite (sm_bind_ok _ _ _ _ _ E2). pose proof (quiet_trans _ _ _ Q1 Q2) as Q. rewrite (qs_rows _ _ Q1) in Hes.
  destruct (es_entries es) as [|e rows] eqn:Ee; [|exfalso; apply Hn; by exists e, rows].
  rewrite decide_False by (unfold Entries_size; rewrite Ee; cbn; lia). cbv zeta. fold (listing a).
  destruct (qs_open _ _ Q2 SYS_TABLES) as [t2 O2]; [by eexists|].
  pose proof (qs_inv _ _ Q2) as Hf2. destruct (fi_tables _ Hf2 _ _ O2) as [_ [_ [Hi _]]]. specialize (Hi eq_refl).
  destruct (put_listed_ok (rows_in f2) a (listing a)) as [Hok Hl]; [apply Hf2|by vm_compute|by vm_compute|].
  destruct (insert_run f2 SYS_TABLES t2 (contract_table a) (listing a) []) as (f3 & E3 & P3); try done.
  { by rewrite (qs_rows _ _ Q). }
  { intros j Hj. rewrite Hi. by apply (listing_fields a). }
  rewrite (sm_bind_ok _ _ _ _ _ E3). erewrite sm_bind_ok by reflexivity. rewrite decide_False by lia.
  pose proof (set_code_quiet f3 1 (ps_inv _ _ _ _ _ P3)) as Q4.
  destruct (open_contract a true _ (qs_inv _ _ Q4)) as (b & f' & -> & Q5 & Ht & Hfalse).
  assert (listed (rows_in (fc_set_code 1 f3)) (contract_table a)) as Hlisted.
  { exists (listing a), []. rewrite (qs_rows _ _ Q4), (ps_rows _ _ _ _ _ P3). unfold put. by rewrite decide_True. }
  destruct b; [|by destruct Hfalse]. destruct (Ht eq_refl) as [_ Ho]. exists f'. split; [done|].
  assert (∀ m j, rows_in f' m j = put (rows_in f) SYS_TABLES (contract_table a) [listing a] m j) as HR.
  { intros m j. rewrite (qs_rows _ _ Q5), (qs_rows _ _ Q4), (ps_rows _ _ _ _ _ P3). unfold put. case_decide; [done|].
    by rewrite (qs_rows _ _ Q). }
  split; [apply Q5|done| |].
  - intros n. unfold listed. setoid_rewrite HR. unfold put. destruct (decide (n = contract_table a)) as [->|].
    + rewrite decide_True by done. split; [by right|]. intros _. by exists (listing a), [].
    + rewrite decide_False by naive_solver. naive_solver.
  - intros b j. unfold value. rewrite HR. unfold put. rewrite decide_False by (intros [? _]; by destruct (contract_ne_tables b)).
    case_decide as Eb; [|done]. rewrite Eb. cbn [override foldl]. by rewrite (ro_unlisted _ (fi_rows _ Hf) a j Hn).
Qed.

Lemma createTable_exists f a :
  finv f → listed (rows_in f) (contract_table a) →
  ∃ f', createTable (contract_table a) STORAGE_KEY STORAGE_VALUE false Address_0 f = (Ok false, f') ∧ quiet_step f f'.
Proof.
  intros Hf (e & rows & El). unfold createTable.
  destruct (open_tables 1 false f Hf) as (f1 & E1 & Q1 & O1). fold (openTable SYS_TABLES false) in E1.
  rewrite (sm_bind_ok _ _ _ _ _ E1).
  destruct (select_run f1 SYS_TABLES (contract_table a) (qs_inv _ _ Q1) O1) as (f2 & es & E2 & Hes & Q2).
  rewrite (sm_bind_ok _ _ _ _ _ E2). rewrite (qs_rows _ _ Q1), El in Hes. injection Hes as Hes.
  rewrite decide_True by (unfold Entries_size; rewrite Hes; done). exists f2. split; [done|]. by eapply quiet_trans.
Qed.

(** The values of a new account. *)
Definition new_account (nonce amount : Z) : list (bytes * bytes) :=
  [(ACCOUNT_BALANCE, u256_str amount); (ACCOUNT_CODE_HASH, toHex EmptySHA3); (ACCOUNT_CODE, []);
   (ACCOUNT_NONCE, u256_str nonce); (ACCOUNT_ALIVE, str "true")].

Lemma insert_created s f0 a l k v :
  created f0 (ss_factory s) a l → override l (λ _, None) k = None →
  ∃ f', insert_value a k v s = (Ok tt, with_factory s f') ∧ created f0 f' a (l ++ [(k, v)]).
Proof.
  intros Hc Hk. destruct (insert_value_run s a k v) as (f' & E & He); [apply Hc|apply Hc| |].
  { rewrite (cr_value _ _ _ _ Hc). by rewrite decide_True. }
  exists f'. split; [done|]. by eapply created_effects.
Qed.

Lemma createAccount_run s a nonce amount :
  finv (ss_factory s) → ¬ listed (rows_in (ss_factory s)) (contract_table a) →
  ∃ f', createAccount a nonce amount s = (Ok tt, with_factory s f') ∧
    created (ss_factory s) f' a (new_account nonce amount).
Proof.
  intros Hf Hn. destruct (createTable_run _ a Hf Hn) as (f1 & E1 & C1). unfold createAccount.
  rewrite (sm_bind_ok _ _ _ _ _ (factory_run _ _ _ _ E1)). cbn [negb].
  destruct (insert_created (with_factory s f1) _ a _ ACCOUNT_BALANCE (u256_str amount) C1) as (f2 & E2 & C2); [done|].
  rewrite (sm_bind_ok _ _ _ _ _ E2).
  destruct (insert_created (with_factory s f2) _ a _ ACCOUNT_CODE_HASH (toHex EmptySHA3) C2) as (f3 & E3 & C3); [done|].
  rewrite (sm_bind_ok _ _ _ _ _ E3).
  destruct (insert_created (with_factory s f3) _ a _ ACCOUNT_CODE [] C3) as (f4 & E4 & C4); [done|].
  rewrite (sm_bind_ok _ _ _ _ _ E4).
  destruct (insert_created (with_factory s f4) _ a _ ACCOUNT_NONCE (u256_str nonce) C4) as (f5 & E5 & C5); [done|].
  rewrite (sm_bind_ok _ _ _ _ _ E5).
  destruct (insert_created (with_factory s f5) _ a _ ACCOUNT_ALIVE (str "true") C5) as (f6 & E6 & C6); [done|].
  exists f6. split; [exact E6|done].
Qed.

Lemma createAccount_exists s a nonce amount :
  finv (ss_factory s) → listed (rows_in (ss_factory s)) (contract_table a) →
  ∃ f', createAccount a nonce amount s = (Ok tt, with_factory s f') ∧ quiet_step (ss_factory s) f'.
Proof.
  intros Hf Hl. destruct (createTable_exists _ a Hf Hl) as (f1 & E1 & Q1). unfold createAccount.
  rewrite (sm_bind_ok _ _ _ _ _ (factory_run _ _ _ _ E1)). by exists f1.
Qed.
End state.
