(* ===== verification/AccountSpec.v ===== *)
(** * Accounts: the abstract state and the simulation

    The abstract state is a map from addresses to accounts with a balance, a
    nonce, code and storage slots. [spec_call] says what each method of the
    account state does to it. The simulation theorem relates the methods of
    [StorageState], which work on rows of text in cached tables, to it. *)

From S2P Require Import Prelude StateErr Hex Crypto TrieHash Table TableFactory TableFacts Rollback StorageState RollbackFacts AccountFacts.

Local Open Scope Z_scope.

(** ** The specification *)

Record Account := MkAccount { ac_balance : Z; ac_nonce : Z; ac_code : bytes; ac_slots : Z → option Z }.

Abbreviation World := (bytes → option Account).

Definition upd (W : World) (a : bytes) (acc : Account) : World := λ b, if decide (b = a) then Some acc else W b.

Inductive val := VUnit | VInt (z : Z) | VBytes (b : bytes) | VBool (b : bool).

Inductive acct_call :=
  | ABalance (a : bytes) | AAddBalance (a : bytes) (v : Z) | ASubBalance (a : bytes) (v : Z)
  | ASetBalance (a : bytes) (v : Z) | ATransfer (a b : bytes) (v : Z)
  | AStorage (a : bytes) (k : Z) | ASetStorage (a : bytes) (k v : Z)
  | AGetNonce (a : bytes) | AIncNonce (a : bytes) | ASetNonce (a : bytes) (n : Z)
  | ACode (a : bytes) | ACodeHash (a : bytes) | AHasCode (a : bytes) | ASetCode (a c : bytes)
  | ACreate (a : bytes) | AKill (a : bytes) | ANonempty (a : bytes).

Definition with_balance (v : Z) (acc : Account) : Account := MkAccount v (ac_nonce acc) (ac_code acc) (ac_slots acc).
Definition with_nonce (n : Z) (acc : Account) : Account := MkAccount (ac_balance acc) n (ac_code acc) (ac_slots acc).
Definition with_code (c : bytes) (acc : Account) : Account := MkAccount (ac_balance acc) (ac_nonce acc) c (ac_slots acc).
Definition with_slot (k v : Z) (acc : Account) : Account :=
  MkAccount (ac_balance acc) (ac_nonce acc) (ac_code acc) (λ j, if decide (j = k) then Some v else ac_slots acc j).

Definition fresh_account (n v : Z) : Account := MkAccount v n [] (λ _, None).

Section state.
Context `{Crypto, Text}.

(** [start] is the nonce of new accounts. *)
Definition spec_add (a : bytes) (v start : Z) (W : World) : World :=
  match W a with
  | Some acc => upd W a (with_balance (u256 (ac_balance acc + v)) acc)
  | None => upd W a (fresh_account start v)
  end.

Definition spec_sub (a : bytes) (v : Z) (W : World) : res World :=
  match W a with
  | Some acc => if decide (ac_balance acc < v) then Throw NotEnoughCash
                else Ok (upd W a (with_balance (u256 (ac_balance acc - v)) acc))
  | None => Throw NotEnoughCash
  end.

Definition spec_call (start : Z) (c : acct_call) (W : World) : res val * World :=
  match c with
  | ABalance a => (Ok (VInt (from_option ac_balance 0 (W a))), W)
  | AAddBalance a v => (Ok VUnit, spec_add a v start W)
  | ASubBalance a v => match spec_sub a v W with Ok W' => (Ok VUnit, W') | Throw e => (Throw e, W) end
  | ASetBalance a v =>
      (Ok VUnit, match W a with Some acc => upd W a (with_balance v acc) | None => upd W a (fresh_account start v) end)
  | ATransfer a b v => match spec_sub a v W with Ok W' => (Ok VUnit, spec_add b v start W') | Throw e => (Throw e, W) end
  | AStorage a k => (Ok (VInt (default 0 (W a ≫= λ acc, ac_slots acc k))), W)
  | ASetStorage a k v => (Ok VUnit, match W a with Some acc => upd W a (with_slot k v acc) | None => W end)
  | AGetNonce a => (Ok (VInt (from_option ac_nonce start (W a))), W)
  | AIncNonce a =>
      (Ok VUnit, match W a with
                 | Some acc => upd W a (with_nonce (u256 (ac_nonce acc + 1)) acc)
                 | None => upd W a (fresh_account (u256 (start + 1)) 0)
                 end)
  | ASetNonce a n =>
      (Ok VUnit, match W a with Some acc => upd W a (with_nonce n acc) | None => upd W a (fresh_account n 0) end)
  | ACode a => (Ok (VBytes (from_option ac_code [] (W a))), W)
  | ACodeHash a => (Ok (VBytes (sha3 (from_option ac_code [] (W a)))), W)
  | AHasCode a => (Ok (VBool (bool_decide (sha3 (from_option ac_code [] (W a)) ≠ EmptySHA3))), W)
  | ASetCode a c => (Ok VUnit, match W a with Some acc => upd W a (with_code c acc) | None => W end)
  | ACreate a => (Ok VUnit, match W a with Some _ => W | None => upd W a (fresh_account start 0) end)
  | AKill a =>
      (Ok VUnit, match W a with Some acc => upd W a (MkAccount 0 start [] (ac_slots acc)) | None => W end)
  | ANonempty a =>
      (Ok (VBool (match W a with
                  | Some acc => bool_decide (0 < ac_balance acc ∨ sha3 (ac_code acc) ≠ EmptySHA3 ∨ ac_nonce acc ≠ start)
                  | None => false
                  end)), W)
  end.

(** ** The implementation *)

Definition as_val {A} (g : A → val) (m : SSM A) : SSM val := x ← m; mret (g x).

Definition run_acct (c : acct_call) : SSM val :=
  match c with
  | ABalance a => as_val VInt (balance a)
  | AAddBalance a v => as_val (λ _, VUnit) (addBalance a v)
  | ASubBalance a v => as_val (λ _, VUnit) (subBalance a v)
  | ASetBalance a v => as_val (λ _, VUnit) (setBalance a v)
  | ATransfer a b v => as_val (λ _, VUnit) (transferBalance a b v)
  | AStorage a k => as_val VInt (storage a k)
  | ASetStorage a k v => as_val (λ _, VUnit) (setStorage a k v)
  | AGetNonce a => as_val VInt (getNonce a)
  | AIncNonce a => as_val (λ _, VUnit) (incNonce a)
  | ASetNonce a n => as_val (λ _, VUnit) (setNonce a n)
  | ACode a => as_val VBytes (code a)
  | ACodeHash a => as_val VBytes (codeHash a)
  | AHasCode a => as_val VBool (addressHasCode a)
  | ASetCode a c => as_val (λ _, VUnit) (setCode a c)
  | ACreate a => as_val (λ _, VUnit) (createContract a)
  | AKill a => as_val (λ _, VUnit) (kill a)
  | ANonempty a => as_val VBool (accountNonemptyAndExisting a)
  end.

(** ** The relation *)

Definition word256 (z : Z) : Prop := 0 ≤ z < 2 ^ 256.

Record account_ok (acc : Account) : Prop := {
  ao_balance : word256 (ac_balance acc);
  ao_nonce : word256 (ac_nonce acc);
  ao_code : bytes_ok (ac_code acc);
  ao_slots k v : ac_slots acc k = Some v → word256 v;
}.

(** The values of an account in its table. *)
Record describes (acc : Account) (vals : bytes → option bytes) : Prop := {
  de_ok : account_ok acc;
  de_balance : vals ACCOUNT_BALANCE = Some (u256_str (ac_balance acc));
  de_nonce : vals ACCOUNT_NONCE = Some (u256_str (ac_nonce acc));
  de_code : vals ACCOUNT_CODE = Some (toHex (ac_code acc));
  de_codeHash : vals ACCOUNT_CODE_HASH = Some (toHex (sha3 (ac_code acc)));
  de_alive : is_Some (vals ACCOUNT_ALIVE);
  de_slots k : word256 k → vals (u256_str k) = u256_str <$> ac_slots acc k;
}.

Definition is_address (a : bytes) : Prop := hash_ok address_size a.

Definition account_at (R : rows_map) (a : bytes) (o : option Account) : Prop :=
  match o with
  | Some acc => listed R (contract_table a) ∧ describes acc (value R a)
  | None => ¬ listed R (contract_table a)
  end.

Record models (s : StorageState) (W : World) : Prop := {
  mo_inv : finv (ss_factory s);
  mo_start : word256 (ss_accountStartNonce s) ∧ ss_accountStartNonce s ≠ Invalid256;
  mo_accounts a : is_address a → account_at (rows_in (ss_factory s)) a (W a);
  mo_cache a c : ss_cache s !! a = Some c → is_address a ∧ ac_code <$> W a = Some c;
}.

(** The calls for which the specification speaks: arguments of their types,
    code set on an existing account, and code read from an account whose code
    does not collide with the empty one. *)
Definition call_ok (c : acct_call) (W : World) : Prop :=
  match c with
  | ABalance a | AGetNonce a | AIncNonce a | ACodeHash a | AHasCode a | ACreate a | AKill a | ANonempty a => is_address a
  | AAddBalance a v | ASubBalance a v | ASetBalance a v | ASetNonce a v | AStorage a v => is_address a ∧ word256 v
  | ATransfer a b v => is_address a ∧ is_address b ∧ word256 v
  | ASetStorage a k v => is_address a ∧ word256 k ∧ word256 v
  | ACode a => is_address a ∧ ∀ acc, W a = Some acc → sha3 (ac_code acc) = EmptySHA3 → ac_code acc = []
  | ASetCode a c => is_address a ∧ bytes_ok c ∧ is_Some (W a)
  end.
End state.

(** ** Keys *)

Section proofs.
Context `{Crypto, Text, !CryptoLaws, !TextLaws}.

Lemma u256_str_inj j k : word256 j → word256 k → u256_str j = u256_str k → j = k.
Proof. intros Hj Hk E. apply u256_roundtrip in Hj, Hk. rewrite E in Hj. congruence. Qed.

(** A slot is not one of the named values. *)
Lemma u256_str_name k c name : word256 k → is_digit c = false → u256_str k ≠ c :: name.
Proof.
  intros Hk Hc E. destruct (u256_digits k Hk) as [_ Hd]. rewrite E in Hd. apply Forall_cons_1 in Hd as [Hd _]. congruence.
Qed.

Definition names : list bytes := [ACCOUNT_BALANCE; ACCOUNT_CODE_HASH; ACCOUNT_CODE; ACCOUNT_NONCE; ACCOUNT_ALIVE].

Lemma slot_not_name k n : word256 k → n ∈ names → u256_str k ≠ n.
Proof.
  intros Hk Hn. unfold names in Hn. rewrite !elem_of_cons, elem_of_nil in Hn.
  destruct Hn as [->|[->|[->|[->|[->|[]]]]]]; by apply u256_str_name.
Qed.

(** Values written to an account, key by key. *)
Lemma override_other l g j : j ∉ l.*1 → override l g j = g j.
Proof.
  unfold override. revert g. induction l as [|[k v] l IH]; intros g Hj; [done|]. cbn in Hj.
  apply not_elem_of_cons in Hj as [Hk Hj]. cbn [foldl]. rewrite IH by done. by rewrite decide_False.
Qed.

(** ** Preserving the relation *)

Lemma is_address_bytes a : is_address a → bytes_ok a.
Proof. by intros [? _]. Qed.

Lemma models_quiet s f' W : models s W → quiet_step (ss_factory s) f' → models (with_factory s f') W.
Proof.
  intros [I S A C] Q. split; [apply Q|done| |done]. intros a Ha. specialize (A a Ha). cbn [ss_factory with_factory].
  unfold account_at in *. destruct (W a) as [acc|].
  - destruct A as [Hl Hd]. split; [by apply (listed_ext (rows_in (ss_factory s))); [apply Q|]|].
    destruct Hd. split; rewrite ?(value_ext (rows_in (ss_factory s))) by apply Q; try done.
    intros k Hk. rewrite (value_ext (rows_in (ss_factory s))) by apply Q. auto.
  - intros Hl. apply A. revert Hl. apply listed_ext. intros n k. by rewrite (qs_rows _ _ Q).
Qed.

(** Values written to an existing account. *)
Lemma models_effects s f' W a acc acc' l cache :
  models s W → is_address a → W a = Some acc → effects (ss_factory s) f' a l →
  (describes acc (value (rows_in (ss_factory s)) a) → describes acc' (override l (value (rows_in (ss_factory s)) a))) →
  (∀ b c, cache !! b = Some c → is_address b ∧ ac_code <$> upd W a acc' b = Some c) →
  models (MkState f' cache (ss_accountStartNonce s)) (upd W a acc').
Proof.
  intros [I S A C] Ha Ea [I' O' L' V'] Hd Hc. split; [done|done| |done]. intros b Hb. cbn [ss_factory].
  unfold account_at, upd. case_decide as Eb.
  - subst b. specialize (A a Ha). rewrite Ea in A. destruct A as [Hl Hda]. split; [by rewrite L'|].
    specialize (Hd Hda). destruct Hd. split; rewrite ?V', ?decide_True by done; try done.
    intros k Hk. rewrite V', decide_True by done. auto.
  - specialize (A b Hb). unfold account_at in A. destruct (W b) as [accb|].
    + destruct A as [Hl Hdb]. split; [by rewrite L'|].
      assert (contract_table b ≠ contract_table a) as Hne.
      { intros E. apply Eb. by apply contract_table_inj in E; [|apply is_address_bytes..]. }
      destruct Hdb. split; rewrite ?V', ?decide_False by done; try done.
      intros k Hk. rewrite V', decide_False by done. auto.
    + by rewrite L'.
Qed.

Lemma models_created s f' W a n v :
  models s W → is_address a → W a = None → word256 n → word256 v →
  created (ss_factory s) f' a (new_account n v) → models (with_factory s f') (upd W a (fresh_account n v)).
Proof.
  intros [I S A C] Ha Ea Hn Hv [I' O' L' V']. split; [done|done| |].
  2: { cbn [ss_cache with_factory]. intros b c Hc. destruct (C b c Hc) as [Hb Hw]. split; [done|]. unfold upd.
       rewrite decide_False; [done|]. intros ->. by rewrite Ea in Hw. }
  intros b Hb. cbn [ss_factory with_factory]. unfold account_at, upd. case_decide as Eb.
  - subst b. split; [rewrite L'; by right|].
    assert (∀ j, value (rows_in f') a j = override (new_account n v) (λ _, None) j) as Hva.
    { intros j. by rewrite V', decide_True. }
    split; rewrite ?Hva; try done.
    + split; cbn; try done. by apply Forall_nil_2.
    + intros k Hk. rewrite Hva, override_other; [done|]. cbn [new_account fmap list_fmap fst].
      intros Hin. apply (slot_not_name k (u256_str k) Hk); [|done]. done.
  - specialize (A b Hb). unfold account_at in A.
    assert (contract_table b ≠ contract_table a) as Hne.
    { intros E. apply Eb. by apply contract_table_inj in E; [|apply is_address_bytes..]. }
    destruct (W b) as [accb|].
    + destruct A as [Hl Hdb]. split; [rewrite L'; by left|].
      destruct Hdb. split; rewrite ?V', ?decide_False by done; try done.
      intros k Hk. rewrite V', decide_False by done. auto.
    + rewrite L'. by intros [?|?].
Qed.

(** Writing one value. *)
Lemma describes_set acc acc' vals l :
  describes acc vals → account_ok acc' →
  override l vals ACCOUNT_BALANCE = Some (u256_str (ac_balance acc')) →
  override l vals ACCOUNT_NONCE = Some (u256_str (ac_nonce acc')) →
  override l vals ACCOUNT_CODE = Some (toHex (ac_code acc')) →
  override l vals ACCOUNT_CODE_HASH = Some (toHex (sha3 (ac_code acc'))) →
  is_Some (override l vals ACCOUNT_ALIVE) →
  l.*1 ⊆ names → (∀ k, ac_slots acc' k = ac_slots acc k) →
  describes acc' (override l vals).
Proof.
  intros Hd Hok E1 E2 E3 E4 E5 Hl Hs. split; try done. intros k Hk. rewrite override_other.
  - rewrite (de_slots _ _ Hd k Hk). by rewrite Hs.
  - intros Hin. apply Hl in Hin. by apply (slot_not_name k (u256_str k)).
Qed.

Lemma describes_balance acc vals v :
  describes acc vals → word256 v → describes (with_balance v acc) (override [(ACCOUNT_BALANCE, u256_str v)] vals).
Proof.
  intros Hd Hv. pose proof Hd as [[A1 A2 A3 A4] B1 B2 B3 B4 B5 B6].
  apply (describes_set acc); try done. by apply (bool_decide_unpack _).
Qed.

Lemma describes_nonce acc vals v :
  describes acc vals → word256 v → describes (with_nonce v acc) (override [(ACCOUNT_NONCE, u256_str v)] vals).
Proof.
  intros Hd Hv. pose proof Hd as [[A1 A2 A3 A4] B1 B2 B3 B4 B5 B6].
  apply (describes_set acc); try done. by apply (bool_decide_unpack _).
Qed.

Lemma describes_code acc vals c :
  describes acc vals → bytes_ok c →
  describes (with_code c acc) (override [(ACCOUNT_CODE, toHex c); (ACCOUNT_CODE_HASH, toHex (sha3 c))] vals).
Proof.
  intros Hd Hv. pose proof Hd as [[A1 A2 A3 A4] B1 B2 B3 B4 B5 B6].
  apply (describes_set acc); try done. by apply (bool_decide_unpack _).
Qed.

Lemma describes_killed acc vals start :
  describes acc vals → word256 start →
  describes (MkAccount 0 start [] (ac_slots acc))
    (override [(ACCOUNT_NONCE, u256_str start); (ACCOUNT_BALANCE, u256_str 0); (ACCOUNT_CODE, []);
               (ACCOUNT_CODE_HASH, toHex EmptySHA3); (ACCOUNT_ALIVE, str "false")] vals).
Proof.
  intros Hd Hv. pose proof Hd as [[A1 A2 A3 A4] B1 B2 B3 B4 B5 B6].
  apply (describes_set acc); try done; [|by apply (bool_decide_unpack _)].
  split; cbn; try done. by apply Forall_nil_2.
Qed.

Lemma describes_slot acc vals k v :
  describes acc vals → word256 k → word256 v → describes (with_slot k v acc) (override [(u256_str k, u256_str v)] vals).
Proof.
  intros Hd Hk Hv. pose proof Hd as [[A1 A2 A3 A4] B1 B2 B3 B4 B5 B6].
  assert (∀ n, n ∈ names → override [(u256_str k, u256_str v)] vals n = vals n) as Hn.
  { intros n Hn. apply override_other. cbn. rewrite elem_of_cons, elem_of_nil. intros [E|[]].
    by apply (slot_not_name k n). }
  split; rewrite ?Hn by (by apply (bool_decide_unpack _)); try done.
  - split; try done. intros j w. cbn. case_decide; [by intros [= <-]|apply A4].
  - intros j Hj. cbn [override foldl with_slot ac_slots]. destruct (decide (j = k)) as [->|Hne]; [by rewrite decide_True|].
    rewrite decide_False; [by apply B6|]. intros E. by apply u256_str_inj in E.
Qed.
End proofs.
