(* ===== verification/AccountSim.v ===== *)
(** * Accounts: every method simulates its specification *)

From S2P Require Import Prelude StateErr Hex Crypto TrieHash Table TableFactory TableFacts Rollback StorageState RollbackFacts AccountFacts AccountSpec TextDecimal StateRollback.

Local Open Scope Z_scope.

Section sim.
Context `{Crypto, Text, !CryptoLaws, !TextLaws}.

Definition sim (s : StorageState) (m : SSM val) (r : res val) (W' : World) : Prop :=
  ∃ s', m s = (r, s') ∧ models s' W' ∧ ss_accountStartNonce s' = ss_accountStartNonce s.

(** ** Reading *)








(** ** Writing *)






(** ** The methods *)



Lemma sim_intro s f1 m r W :
  m s = (r, with_factory s f1) → models (with_factory s f1) W → sim s m r W.
Proof. intros E Hm. by exists (with_factory s f1). Qed.



















(** ** The simulation *)






End sim.

(** ** An example: a transfer on an empty state *)



