(* ===== verification/VMInstr.v ===== *)
(** * Instructions of the interpreter

    Models libethcore/Instruction.h/.cpp (the opcodes, their stack arities and
    gas tiers), the dispatch table of libinterpreter/VMConfig.h, and the
    arithmetic the interpreter does on 256-bit words: [u2s] and [s2u] of
    libdevcore/Common.h, [asAddress] and [fromAddress] of libethcore/Common.h,
    and the right-hand sides of the arithmetic cases of libinterpreter/VM.cpp. *)

From S2P Require Import Prelude RLP Crypto.

Local Open Scope Z_scope.

(** ** Opcodes *)

Inductive Instruction :=
  | STOP | ADD | MUL | SUB | DIV | SDIV | MOD | SMOD | ADDMOD | MULMOD | EXP | SIGNEXTEND | LT | GT
  | SLT | SGT | EQ | ISZERO | AND | OR | XOR | NOT | BYTE | SHL | SHR | SAR | SHA3 | ADDRESS
  | BALANCE | ORIGIN | CALLER | CALLVALUE | CALLDATALOAD | CALLDATASIZE | CALLDATACOPY | CODESIZE
  | CODECOPY | GASPRICE | EXTCODESIZE | EXTCODECOPY | RETURNDATASIZE | RETURNDATACOPY | EXTCODEHASH
  | BLOCKHASH | COINBASE | TIMESTAMP | NUMBER | DIFFICULTY | GASLIMIT | POP | MLOAD | MSTORE
  | MSTORE8 | SLOAD | SSTORE | JUMP | JUMPI | PC | MSIZE | GAS | JUMPDEST | PUSH1 | PUSH2 | PUSH3
  | PUSH4 | PUSH5 | PUSH6 | PUSH7 | PUSH8 | PUSH9 | PUSH10 | PUSH11 | PUSH12 | PUSH13 | PUSH14
  | PUSH15 | PUSH16 | PUSH17 | PUSH18 | PUSH19 | PUSH20 | PUSH21 | PUSH22 | PUSH23 | PUSH24
  | PUSH25 | PUSH26 | PUSH27 | PUSH28 | PUSH29 | PUSH30 | PUSH31 | PUSH32 | DUP1 | DUP2 | DUP3
  | DUP4 | DUP5 | DUP6 | DUP7 | DUP8 | DUP9 | DUP10 | DUP11 | DUP12 | DUP13 | DUP14 | DUP15 | DUP16
  | SWAP1 | SWAP2 | SWAP3 | SWAP4 | SWAP5 | SWAP6 | SWAP7 | SWAP8 | SWAP9 | SWAP10 | SWAP11
  | SWAP12 | SWAP13 | SWAP14 | SWAP15 | SWAP16 | LOG0 | LOG1 | LOG2 | LOG3 | LOG4 | PUSHC | JUMPC
  | JUMPCI | JUMPTO | JUMPIF | JUMPSUB | JUMPV | JUMPSUBV | BEGINSUB | BEGINDATA | RETURNSUB
  | PUTLOCAL | GETLOCAL | XADD | XMUL | XSUB | XDIV | XSDIV | XMOD | XSMOD | XLT | XGT | XSLT
  | XSGT | XEQ | XISZERO | XAND | XOOR | XXOR | XNOT | XSHL | XSHR | XSAR | XROL | XROR | XPUSH
  | XMLOAD | XMSTORE | XSLOAD | XSSTORE | XVTOWIDE | XWIDETOV | XGET | XPUT | XSWIZZLE | XSHUFFLE
  | CREATE | CALL | CALLCODE | RETURN | DELEGATECALL | CREATE2 | STATICCALL | REVERT | INVALID
  | SUICIDE.

#[global] Instance Instruction_eq_dec : EqDecision Instruction.
Proof. solve_decision. Defined.

(** The values of the enumeration. *)
Definition opcode (i : Instruction) : Z :=
  match i with
  | STOP => 0x0 | ADD => 0x1 | MUL => 0x2 | SUB => 0x3 | DIV => 0x4 | SDIV => 0x5 | MOD => 0x6
  | SMOD => 0x7 | ADDMOD => 0x8 | MULMOD => 0x9 | EXP => 0xa | SIGNEXTEND => 0xb | LT => 0x10
  | GT => 0x11 | SLT => 0x12 | SGT => 0x13 | EQ => 0x14 | ISZERO => 0x15 | AND => 0x16 | OR => 0x17
  | XOR => 0x18 | NOT => 0x19 | BYTE => 0x1a | SHL => 0x1b | SHR => 0x1c | SAR => 0x1d
  | SHA3 => 0x20 | ADDRESS => 0x30 | BALANCE => 0x31 | ORIGIN => 0x32 | CALLER => 0x33
  | CALLVALUE => 0x34 | CALLDATALOAD => 0x35 | CALLDATASIZE => 0x36 | CALLDATACOPY => 0x37
  | CODESIZE => 0x38 | CODECOPY => 0x39 | GASPRICE => 0x3a | EXTCODESIZE => 0x3b
  | EXTCODECOPY => 0x3c | RETURNDATASIZE => 0x3d | RETURNDATACOPY => 0x3e | EXTCODEHASH => 0x3f
  | BLOCKHASH => 0x40 | COINBASE => 0x41 | TIMESTAMP => 0x42 | NUMBER => 0x43 | DIFFICULTY => 0x44
  | GASLIMIT => 0x45 | POP => 0x50 | MLOAD => 0x51 | MSTORE => 0x52 | MSTORE8 => 0x53
  | SLOAD => 0x54 | SSTORE => 0x55 | JUMP => 0x56 | JUMPI => 0x57 | PC => 0x58 | MSIZE => 0x59
  | GAS => 0x5a | JUMPDEST => 0x5b | PUSH1 => 0x60 | PUSH2 => 0x61 | PUSH3 => 0x62 | PUSH4 => 0x63
  | PUSH5 => 0x64 | PUSH6 => 0x65 | PUSH7 => 0x66 | PUSH8 => 0x67 | PUSH9 => 0x68 | PUSH10 => 0x69
  | PUSH11 => 0x6a | PUSH12 => 0x6b | PUSH13 => 0x6c | PUSH14 => 0x6d | PUSH15 => 0x6e
  | PUSH16 => 0x6f | PUSH17 => 0x70 | PUSH18 => 0x71 | PUSH19 => 0x72 | PUSH20 => 0x73
  | PUSH21 => 0x74 | PUSH22 => 0x75 | PUSH23 => 0x76 | PUSH24 => 0x77 | PUSH25 => 0x78
  | PUSH26 => 0x79 | PUSH27 => 0x7a | PUSH28 => 0x7b | PUSH29 => 0x7c | PUSH30 => 0x7d
  | PUSH31 => 0x7e | PUSH32 => 0x7f | DUP1 => 0x80 | DUP2 => 0x81 | DUP3 => 0x82 | DUP4 => 0x83
  | DUP5 => 0x84 | DUP6 => 0x85 | DUP7 => 0x86 | DUP8 => 0x87 | DUP9 => 0x88 | DUP10 => 0x89
  | DUP11 => 0x8a | DUP12 => 0x8b | DUP13 => 0x8c | DUP14 => 0x8d | DUP15 => 0x8e | DUP16 => 0x8f
  | SWAP1 => 0x90 | SWAP2 => 0x91 | SWAP3 => 0x92 | SWAP4 => 0x93 | SWAP5 => 0x94 | SWAP6 => 0x95
  | SWAP7 => 0x96 | SWAP8 => 0x97 | SWAP9 => 0x98 | SWAP10 => 0x99 | SWAP11 => 0x9a
  | SWAP12 => 0x9b | SWAP13 => 0x9c | SWAP14 => 0x9d | SWAP15 => 0x9e | SWAP16 => 0x9f
  | LOG0 => 0xa0 | LOG1 => 0xa1 | LOG2 => 0xa2 | LOG3 => 0xa3 | LOG4 => 0xa4 | PUSHC => 0xac
  | JUMPC => 0xad | JUMPCI => 0xae | JUMPTO => 0xb0 | JUMPIF => 0xb1 | JUMPSUB => 0xb2
  | JUMPV => 0xb3 | JUMPSUBV => 0xb4 | BEGINSUB => 0xb5 | BEGINDATA => 0xb6 | RETURNSUB => 0xb7
  | PUTLOCAL => 0xb8 | GETLOCAL => 0xb9 | XADD => 0xc1 | XMUL => 0xc2 | XSUB => 0xc3 | XDIV => 0xc4
  | XSDIV => 0xc5 | XMOD => 0xc6 | XSMOD => 0xc7 | XLT => 0xd0 | XGT => 0xd1 | XSLT => 0xd2
  | XSGT => 0xd3 | XEQ => 0xd4 | XISZERO => 0xd5 | XAND => 0xd6 | XOOR => 0xd7 | XXOR => 0xd8
  | XNOT => 0xd9 | XSHL => 0xdb | XSHR => 0xdc | XSAR => 0xdd | XROL => 0xde | XROR => 0xdf
  | XPUSH => 0xe0 | XMLOAD => 0xe1 | XMSTORE => 0xe2 | XSLOAD => 0xe4 | XSSTORE => 0xe5
  | XVTOWIDE => 0xe6 | XWIDETOV => 0xe7 | XGET => 0xe8 | XPUT => 0xe9 | XSWIZZLE => 0xea
  | XSHUFFLE => 0xeb | CREATE => 0xf0 | CALL => 0xf1 | CALLCODE => 0xf2 | RETURN => 0xf3
  | DELEGATECALL => 0xf4 | CREATE2 => 0xf5 | STATICCALL => 0xfa | REVERT => 0xfd | INVALID => 0xfe
  | SUICIDE => 0xff
  end.

(** ** Stack arities and gas tiers *)

Inductive Tier := TierZero | TierBase | TierVeryLow | TierLow | TierMid | TierHigh | TierExt
  | TierSpecial | TierInvalid.

#[global] Instance Tier_eq_dec : EqDecision Tier.
Proof. solve_decision. Defined.

(** [InstructionInfo]: items taken, items put back, tier. *)
Record InstructionInfo := MkInstr { info_args : Z; info_ret : Z; info_tier : Tier }.

(** [instructionInfo(inst)]: the table holds every instruction. *)
Definition instructionInfo (i : Instruction) : InstructionInfo :=
  match i with
  | STOP | INVALID => MkInstr 0 0 TierZero
  | ADD | SUB | LT | GT | SLT | SGT | EQ | AND | OR | XOR | BYTE | SHL | SHR | SAR
  => MkInstr 2 1 TierVeryLow
  | MUL | DIV | SDIV | MOD | SMOD | SIGNEXTEND => MkInstr 2 1 TierLow
  | ADDMOD | MULMOD => MkInstr 3 1 TierMid
  | EXP | SHA3 | XMUL | XSUB | XDIV | XSDIV | XMOD | XSMOD | XLT | XGT | XSLT | XSGT | XEQ
  | XISZERO | XOOR | XXOR | XNOT | XSHL | XSHR | XSAR | XROL | XROR | XGET | XSWIZZLE
  => MkInstr 2 1 TierSpecial
  | ISZERO | NOT | CALLDATALOAD | MLOAD | XPUSH | XMLOAD | XVTOWIDE | XWIDETOV
  => MkInstr 1 1 TierVeryLow
  | ADDRESS | ORIGIN | CALLER | CALLVALUE | CALLDATASIZE | CODESIZE | GASPRICE | RETURNDATASIZE
  | COINBASE | TIMESTAMP | NUMBER | DIFFICULTY | GASLIMIT | PC | MSIZE | GAS
  => MkInstr 0 1 TierBase
  | BALANCE | EXTCODESIZE | EXTCODEHASH | BLOCKHASH | SLOAD | XAND | XSLOAD
  => MkInstr 1 1 TierSpecial
  | CALLDATACOPY | CODECOPY | RETURNDATACOPY => MkInstr 3 0 TierVeryLow
  | EXTCODECOPY | LOG2 => MkInstr 4 0 TierSpecial
  | POP => MkInstr 1 0 TierBase
  | MSTORE | MSTORE8 | XMSTORE => MkInstr 2 0 TierVeryLow
  | SSTORE | LOG0 | XSSTORE | REVERT => MkInstr 2 0 TierSpecial
  | JUMP | JUMPC | JUMPV | JUMPSUBV | RETURNSUB => MkInstr 1 0 TierMid
  | JUMPI | JUMPCI => MkInstr 2 0 TierHigh
  | JUMPDEST | BEGINSUB | BEGINDATA | XADD => MkInstr 0 0 TierSpecial
  | PUSH1 | PUSH2 | PUSH3 | PUSH4 | PUSH5 | PUSH6 | PUSH7 | PUSH8 | PUSH9 | PUSH10 | PUSH11
  | PUSH12 | PUSH13 | PUSH14 | PUSH15 | PUSH16 | PUSH17 | PUSH18 | PUSH19 | PUSH20 | PUSH21
  | PUSH22 | PUSH23 | PUSH24 | PUSH25 | PUSH26 | PUSH27 | PUSH28 | PUSH29 | PUSH30 | PUSH31
  | PUSH32 | PUSHC | GETLOCAL => MkInstr 0 1 TierVeryLow
  | DUP1 => MkInstr 1 2 TierVeryLow
  | DUP2 => MkInstr 2 3 TierVeryLow
  | DUP3 => MkInstr 3 4 TierVeryLow
  | DUP4 => MkInstr 4 5 TierVeryLow
  | DUP5 => MkInstr 5 6 TierVeryLow
  | DUP6 => MkInstr 6 7 TierVeryLow
  | DUP7 => MkInstr 7 8 TierVeryLow
  | DUP8 => MkInstr 8 9 TierVeryLow
  | DUP9 => MkInstr 9 10 TierVeryLow
  | DUP10 => MkInstr 10 11 TierVeryLow
  | DUP11 => MkInstr 11 12 TierVeryLow
  | DUP12 => MkInstr 12 13 TierVeryLow
  | DUP13 => MkInstr 13 14 TierVeryLow
  | DUP14 => MkInstr 14 15 TierVeryLow
  | DUP15 => MkInstr 15 16 TierVeryLow
  | DUP16 => MkInstr 16 17 TierVeryLow
  | SWAP1 => MkInstr 2 2 TierVeryLow
  | SWAP2 => MkInstr 3 3 TierVeryLow
  | SWAP3 => MkInstr 4 4 TierVeryLow
  | SWAP4 => MkInstr 5 5 TierVeryLow
  | SWAP5 => MkInstr 6 6 TierVeryLow
  | SWAP6 => MkInstr 7 7 TierVeryLow
  | SWAP7 => MkInstr 8 8 TierVeryLow
  | SWAP8 => MkInstr 9 9 TierVeryLow
  | SWAP9 => MkInstr 10 10 TierVeryLow
  | SWAP10 => MkInstr 11 11 TierVeryLow
  | SWAP11 => MkInstr 12 12 TierVeryLow
  | SWAP12 => MkInstr 13 13 TierVeryLow
  | SWAP13 => MkInstr 14 14 TierVeryLow
  | SWAP14 => MkInstr 15 15 TierVeryLow
  | SWAP15 => MkInstr 16 16 TierVeryLow
  | SWAP16 => MkInstr 17 17 TierVeryLow
  | LOG1 => MkInstr 3 0 TierSpecial
  | LOG3 => MkInstr 5 0 TierSpecial
  | LOG4 => MkInstr 6 0 TierSpecial
  | JUMPTO | PUTLOCAL => MkInstr 1 0 TierVeryLow
  | JUMPIF => MkInstr 2 0 TierLow
  | JUMPSUB => MkInstr 1 0 TierLow
  | XPUT | XSHUFFLE | CREATE => MkInstr 3 1 TierSpecial
  | CALL | CALLCODE => MkInstr 7 1 TierSpecial
  | RETURN => MkInstr 2 0 TierZero
  | DELEGATECALL | STATICCALL => MkInstr 6 1 TierSpecial
  | CREATE2 => MkInstr 4 1 TierSpecial
  | SUICIDE => MkInstr 1 0 TierSpecial
  end.

(** Gas of a tier, in the comments of [Tier]. *)
Definition tierGas (t : Tier) : option Z :=
  match t with
  | TierZero => Some 0 | TierBase => Some 2 | TierVeryLow => Some 3 | TierLow => Some 5
  | TierMid => Some 8 | TierHigh => Some 10 | TierExt => Some 20 | TierSpecial | TierInvalid => None
  end.

(** ** Dispatch

    The labels a byte of code jumps to. *)
Definition jumpTable : list Instruction :=
  [STOP; ADD; MUL; SUB; DIV; SDIV; MOD; SMOD; ADDMOD; MULMOD; EXP; SIGNEXTEND; INVALID; INVALID;
   INVALID; INVALID; LT; GT; SLT; SGT; EQ; ISZERO; AND; OR; XOR; NOT; BYTE; SHL; SHR; SAR; INVALID;
   INVALID; SHA3; INVALID; INVALID; INVALID; INVALID; INVALID; INVALID; INVALID; INVALID; INVALID;
   INVALID; INVALID; INVALID; INVALID; INVALID; INVALID; ADDRESS; BALANCE; ORIGIN; CALLER;
   CALLVALUE; CALLDATALOAD; CALLDATASIZE; CALLDATACOPY; CODESIZE; CODECOPY; GASPRICE; EXTCODESIZE;
   EXTCODECOPY; RETURNDATASIZE; RETURNDATACOPY; EXTCODEHASH; BLOCKHASH; COINBASE; TIMESTAMP;
   NUMBER; DIFFICULTY; GASLIMIT; INVALID; INVALID; INVALID; INVALID; INVALID; INVALID; INVALID;
   INVALID; INVALID; INVALID; POP; MLOAD; MSTORE; MSTORE8; SLOAD; SSTORE; JUMP; JUMPI; PC; MSIZE;
   GAS; JUMPDEST; BEGINDATA; BEGINSUB; INVALID; INVALID; PUSH1; PUSH2; PUSH3; PUSH4; PUSH5; PUSH6;
   PUSH7; PUSH8; PUSH9; PUSH10; PUSH11; PUSH12; PUSH13; PUSH14; PUSH15; PUSH16; PUSH17; PUSH18;
   PUSH19; PUSH20; PUSH21; PUSH22; PUSH23; PUSH24; PUSH25; PUSH26; PUSH27; PUSH28; PUSH29; PUSH30;
   PUSH31; PUSH32; DUP1; DUP2; DUP3; DUP4; DUP5; DUP6; DUP7; DUP8; DUP9; DUP10; DUP11; DUP12;
   DUP13; DUP14; DUP15; DUP16; SWAP1; SWAP2; SWAP3; SWAP4; SWAP5; SWAP6; SWAP7; SWAP8; SWAP9;
   SWAP10; SWAP11; SWAP12; SWAP13; SWAP14; SWAP15; SWAP16; LOG0; LOG1; LOG2; LOG3; LOG4; INVALID;
   INVALID; INVALID; INVALID; INVALID; INVALID; INVALID; PUSHC; JUMPC; JUMPCI; INVALID; JUMPTO;
   JUMPIF; JUMPSUB; JUMPV; JUMPSUBV; BEGINSUB; BEGINDATA; RETURNSUB; PUTLOCAL; GETLOCAL; INVALID;
   INVALID; INVALID; INVALID; INVALID; INVALID; INVALID; XADD; XMUL; XSUB; XDIV; XSDIV; XMOD;
   XSMOD; INVALID; INVALID; INVALID; INVALID; INVALID; INVALID; INVALID; INVALID; XLT; XGT; XSLT;
   XSGT; XEQ; XISZERO; XAND; XOOR; XXOR; XNOT; INVALID; XSHL; XSHR; XSAR; XROL; XROR; XPUSH;
   XMLOAD; XMSTORE; INVALID; XSLOAD; XSSTORE; XVTOWIDE; XWIDETOV; XGET; XPUT; XSWIZZLE; XSHUFFLE;
   INVALID; INVALID; INVALID; INVALID; CREATE; CALL; CALLCODE; RETURN; DELEGATECALL; CREATE2;
   INVALID; INVALID; INVALID; INVALID; STATICCALL; INVALID; INVALID; REVERT; INVALID; SUICIDE].

Definition dispatch (b : Z) : Instruction := nth (Z.to_nat b) jumpTable INVALID.

(** ** Words *)

(** [u2s]: two's complement reading; an [s256] is its value. *)
Definition u2s (u : Z) : Z := if Z.testbit u 255 then - (2 ^ 256 - u) else u.
Definition s2u (s : Z) : Z := if decide (0 ≤ s) then u256 s else u256 (2 ^ 256 + s).

(** [divWorkaround] and [modWorkaround]: division of [s512] truncates, and
    throws for the divisor 0. *)
Definition divWorkaround (a b : Z) : res Z := throw_if (b = 0) OtherException;; Ok (Z.quot a b).
Definition modWorkaround (a b : Z) : res Z := throw_if (b = 0) OtherException;; Ok (Z.rem a b).

(** [asAddress]: the low 160 bits; [fromAddress]. *)
Definition asAddress (x : Z) : bytes := right160 (toBigEndian 32 x).
Definition fromAddress (a : bytes) : Z := fromBigEndian id a.

(** [FixedHash::firstBitSet]: the position of the highest set bit, from the
    left; the inner loop shifts a non-zero byte until its top bit is set. *)
Fixpoint leading_zeros (fuel : nat) (d ret : Z) : Z :=
  match fuel with
  | O => ret
  | S k => if decide (Z.land d 0x80 ≠ 0) then ret else leading_zeros k (u8 (Z.shiftl d 1)) (ret + 1)
  end.
Fixpoint firstBitSet (d : bytes) (ret : Z) : Z :=
  match d with
  | [] => ret
  | b :: d => if decide (b ≠ 0) then leading_zeros 8 b ret else firstBitSet d (ret + 8)
  end.

(** [VM::exp256]: square and multiply; a 256-bit exponent has at most 256
    rounds. *)
Fixpoint exp_loop (fuel : nat) (base exponent result : Z) : res Z :=
  if decide (exponent = 0) then Ok result
  else
    match fuel with
    | O => Throw OutOfFuel
    | S k => exp_loop k (u256 (base * base)) (Z.shiftr exponent 1)
               (if Z.odd exponent then u256 (result * base) else result)
    end.
Definition exp256 (base exponent : Z) : res Z := exp_loop 256 base exponent 1.

(** ** The arithmetic cases: the word pushed, from the words on the stack *)

Definition bool_word (b : bool) : Z := if b then 1 else 0.

Definition alu_add (a b : Z) : Z := u256 (a + b).
Definition alu_mul (a b : Z) : Z := u256 (a * b).
Definition alu_sub (a b : Z) : Z := u256 (a - b).
Definition alu_div (a b : Z) : res Z := if decide (b ≠ 0) then divWorkaround a b else Ok 0.
Definition alu_sdiv (a b : Z) : res Z :=
  if decide (b ≠ 0) then s2u <$> divWorkaround (u2s a) (u2s b) else Ok 0.
Definition alu_mod (a b : Z) : res Z := if decide (b ≠ 0) then modWorkaround a b else Ok 0.
Definition alu_smod (a b : Z) : res Z :=
  if decide (b ≠ 0) then s2u <$> modWorkaround (u2s a) (u2s b) else Ok 0.
Definition alu_not (a : Z) : Z := u256 (Z.lnot a).
Definition alu_lt (a b : Z) : Z := bool_word (bool_decide (a < b)).
Definition alu_gt (a b : Z) : Z := bool_word (bool_decide (a > b)).
Definition alu_slt (a b : Z) : Z := bool_word (bool_decide (u2s a < u2s b)).
Definition alu_sgt (a b : Z) : Z := bool_word (bool_decide (u2s a > u2s b)).
Definition alu_eq (a b : Z) : Z := bool_word (bool_decide (a = b)).
Definition alu_iszero (a : Z) : Z := bool_word (bool_decide (a = 0)).
Definition alu_and (a b : Z) : Z := Z.land a b.
Definition alu_or (a b : Z) : Z := Z.lor a b.
Definition alu_xor (a b : Z) : Z := Z.lxor a b.
Definition alu_byte (a b : Z) : Z :=
  if decide (a < 32) then Z.land (Z.shiftr b (u32 (8 * (31 - a)))) 0xff else 0.
Definition alu_shl (a b : Z) : Z := if decide (256 ≤ a) then 0 else u256 (Z.shiftl b (u32 a)).
Definition alu_shr (a b : Z) : Z := if decide (256 ≤ a) then 0 else Z.shiftr b (u32 a).
Definition hibit : Z := 2 ^ 255.
Definition allbits : Z := 2 ^ 256 - 1.
Definition alu_sar (a b : Z) : Z :=
  if decide (256 ≤ a) then (if decide (Z.land b hibit ≠ 0) then allbits else 0)
  else
    let amount := u32 a in
    if decide (Z.land b hibit ≠ 0)
    then Z.lor (Z.shiftr b amount) (u256 (Z.shiftl allbits (256 - amount)))
    else Z.shiftr b amount.
Definition alu_addmod (a b c : Z) : Z := if decide (c ≠ 0) then u256 ((a + b) `mod` c) else 0.
Definition alu_mulmod (a b c : Z) : Z := if decide (c ≠ 0) then u256 ((a * b) `mod` c) else 0.
Definition alu_signextend (a b : Z) : Z :=
  if decide (a < 31) then
    let testBit := u32 (u32 a * 8 + 7) in
    let mask := Z.shiftl 1 testBit - 1 in
    if Z.testbit b testBit then Z.lor b (u256 (Z.lnot mask)) else Z.land b mask
  else b.
