(* ===== verification/VM.v ===== *)
(** * The interpreter

    Models libinterpreter/VM.h, VM.cpp, VMCalls.cpp and VMOpt.cpp: a run of
    contract code in one call frame. The data members that change are the
    record [VM]; what is fixed for a frame (revision, message, code) is
    [Frame]. Every case of [interpretCases] is one definition, and the
    trampoline of [exec] is a loop over [vm_step].

    The stack is the array [m_stack] of 1024 words that grows towards smaller
    indices, with the two pointers [m_SP] and [m_SPP] as indices; an access
    outside the array, the memory or the code is [UB]. A pointer into the
    memory with a zero length is not an access.

    EVM-C is not part of the sources. Its types below list the members that
    the interpreter reads and writes; the host functions behind
    [evmc_context] and the instruction metrics are the classes [Host] and
    [Metrics]. An [evmc_uint256be] is the number it encodes. Gas and sizes are [uint64_t];
    the conversions of words to [size_t], [uint64_t] and [unsigned] truncate. *)

From S2P Require Import Prelude StateErr RLP Crypto VMInstr.

Local Open Scope Z_scope.

(** ** EVM-C *)

(** [evmc_revision], in chronological order. *)
Definition EVMC_FRONTIER : Z := 0.
Definition EVMC_HOMESTEAD : Z := 1.
Definition EVMC_TANGERINE_WHISTLE : Z := 2.
Definition EVMC_SPURIOUS_DRAGON : Z := 3.
Definition EVMC_BYZANTIUM : Z := 4.
Definition EVMC_CONSTANTINOPLE : Z := 5.

Inductive call_kind := EVMC_CALL | EVMC_DELEGATECALL | EVMC_CALLCODE | EVMC_CREATE | EVMC_CREATE2.

Record evmc_message := MkMessage {
  msg_kind : call_kind;
  msg_static : bool;          (* flags & EVMC_STATIC *)
  msg_depth : Z;
  msg_gas : Z;                (* int64_t *)
  msg_destination : bytes;
  msg_sender : bytes;
  msg_input : bytes;
  msg_value : Z;
  msg_salt : Z;
}.

Inductive status_code :=
  | EVMC_SUCCESS | EVMC_FAILURE | EVMC_REVERT | EVMC_OUT_OF_GAS | EVMC_UNDEFINED_INSTRUCTION
  | EVMC_STACK_OVERFLOW | EVMC_STACK_UNDERFLOW | EVMC_BAD_JUMP_DESTINATION
  | EVMC_INVALID_MEMORY_ACCESS | EVMC_STATIC_MODE_VIOLATION | EVMC_INTERNAL_ERROR.

#[global] Instance status_code_eq_dec : EqDecision status_code.
Proof. solve_decision. Defined.

Record evmc_result := MkResult {
  res_status : status_code;
  res_gas_left : Z;           (* int64_t *)
  res_output : bytes;
  res_create_address : bytes;
}.

Inductive storage_status := STORAGE_UNCHANGED | STORAGE_MODIFIED | STORAGE_ADDED | STORAGE_DELETED.

#[global] Instance storage_status_eq_dec : EqDecision storage_status.
Proof. solve_decision. Defined.

Record evmc_tx_context := MkTxContext {
  txc_gas_price : Z;
  txc_origin : bytes;
  txc_coinbase : bytes;
  txc_number : Z;             (* int64_t *)
  txc_timestamp : Z;          (* int64_t *)
  txc_gas_limit : Z;          (* int64_t *)
  txc_difficulty : Z;
}.

(** The functions of [evmc_context::fn_table], over a type of host states. *)
Class Host := {
  HS : Type;
  h_account_exists : HS → bytes → bool;
  h_get_storage : HS → bytes → Z → Z;
  h_set_storage : HS → bytes → Z → Z → storage_status * HS;
  h_get_balance : HS → bytes → Z;
  h_get_code_size : HS → bytes → Z;
  h_get_code_hash : HS → bytes → Z;
  h_copy_code : HS → bytes → Z → Z → bytes;      (* address, offset, size *)
  h_selfdestruct : HS → bytes → bytes → HS;
  h_call : HS → evmc_message → evmc_result * HS;
  h_get_tx_context : HS → evmc_tx_context;
  h_get_block_hash : HS → Z → Z;
  h_emit_log : HS → bytes → bytes → list Z → HS;
}.

(** [evmc_get_instruction_metrics_table(EVMC_LATEST_REVISION)]: gas cost
    ([int16_t]), stack arguments and stack items returned. *)
Record metrics := MkMetrics { gas_cost : Z; num_stack_arguments : Z; num_stack_returned_items : Z }.
Class Metrics := { evmc_metrics : Z → metrics }.

(** ** State *)

Record Frame := MkFrame {
  f_rev : Z;
  f_msg : evmc_message;
  f_code : bytes;            (* m_pCode, m_codeSize *)
}.

(** [m_bounce]: the member function to run next. *)
Inductive bounce := InitEntry | InterpretCases | CaseCreate | CaseCall | Finished.

#[global] Instance bounce_eq_dec : EqDecision bounce.
Proof. solve_decision. Defined.

Record VM `{Host} := MkVM {
  vm_io_gas : Z;
  vm_tx_context : option evmc_tx_context;
  vm_bounce : bounce;
  vm_output : bytes;
  vm_mem : bytes;
  vm_code : bytes;
  vm_returnData : bytes;
  vm_stack : list Z;
  vm_SP : Z;
  vm_SPP : Z;
  vm_OP : Z;
  vm_PC : Z;
  vm_runGas : Z;
  vm_newMemSize : Z;
  vm_copyMemSize : Z;
  vm_jumpDests : list Z;
  vm_host : HS;
}.
Arguments MkVM {_}.

Definition stackLimit : Z := 1024.

Section vm.
Context {crypto : Crypto} {host : Host} {mtr : Metrics}.

Abbreviation VMM := (SM VM).

Definition set_io_gas (x : Z) (s : VM) : VM := MkVM x (vm_tx_context s) (vm_bounce s) (vm_output s)
  (vm_mem s) (vm_code s) (vm_returnData s) (vm_stack s) (vm_SP s) (vm_SPP s) (vm_OP s) (vm_PC s)
  (vm_runGas s) (vm_newMemSize s) (vm_copyMemSize s) (vm_jumpDests s) (vm_host s).
Definition set_tx_context (x : option evmc_tx_context) (s : VM) : VM := MkVM (vm_io_gas s) x
  (vm_bounce s) (vm_output s) (vm_mem s) (vm_code s) (vm_returnData s) (vm_stack s) (vm_SP s)
  (vm_SPP s) (vm_OP s) (vm_PC s) (vm_runGas s) (vm_newMemSize s) (vm_copyMemSize s) (vm_jumpDests
  s) (vm_host s).
Definition set_bounce (x : bounce) (s : VM) : VM := MkVM (vm_io_gas s) (vm_tx_context s) x
  (vm_output s) (vm_mem s) (vm_code s) (vm_returnData s) (vm_stack s) (vm_SP s) (vm_SPP s) (vm_OP
  s) (vm_PC s) (vm_runGas s) (vm_newMemSize s) (vm_copyMemSize s) (vm_jumpDests s) (vm_host s).
Definition set_output (x : bytes) (s : VM) : VM := MkVM (vm_io_gas s) (vm_tx_context s) (vm_bounce
  s) x (vm_mem s) (vm_code s) (vm_returnData s) (vm_stack s) (vm_SP s) (vm_SPP s) (vm_OP s) (vm_PC
  s) (vm_runGas s) (vm_newMemSize s) (vm_copyMemSize s) (vm_jumpDests s) (vm_host s).
Definition set_mem (x : bytes) (s : VM) : VM := MkVM (vm_io_gas s) (vm_tx_context s) (vm_bounce s)
  (vm_output s) x (vm_code s) (vm_returnData s) (vm_stack s) (vm_SP s) (vm_SPP s) (vm_OP s) (vm_PC
  s) (vm_runGas s) (vm_newMemSize s) (vm_copyMemSize s) (vm_jumpDests s) (vm_host s).
Definition set_code (x : bytes) (s : VM) : VM := MkVM (vm_io_gas s) (vm_tx_context s) (vm_bounce s)
  (vm_output s) (vm_mem s) x (vm_returnData s) (vm_stack s) (vm_SP s) (vm_SPP s) (vm_OP s) (vm_PC
  s) (vm_runGas s) (vm_newMemSize s) (vm_copyMemSize s) (vm_jumpDests s) (vm_host s).
Definition set_returnData (x : bytes) (s : VM) : VM := MkVM (vm_io_gas s) (vm_tx_context s)
  (vm_bounce s) (vm_output s) (vm_mem s) (vm_code s) x (vm_stack s) (vm_SP s) (vm_SPP s) (vm_OP s)
  (vm_PC s) (vm_runGas s) (vm_newMemSize s) (vm_copyMemSize s) (vm_jumpDests s) (vm_host s).
Definition set_stack (x : list Z) (s : VM) : VM := MkVM (vm_io_gas s) (vm_tx_context s) (vm_bounce
  s) (vm_output s) (vm_mem s) (vm_code s) (vm_returnData s) x (vm_SP s) (vm_SPP s) (vm_OP s) (vm_PC
  s) (vm_runGas s) (vm_newMemSize s) (vm_copyMemSize s) (vm_jumpDests s) (vm_host s).
Definition set_SP (x : Z) (s : VM) : VM := MkVM (vm_io_gas s) (vm_tx_context s) (vm_bounce s)
  (vm_output s) (vm_mem s) (vm_code s) (vm_returnData s) (vm_stack s) x (vm_SPP s) (vm_OP s) (vm_PC
  s) (vm_runGas s) (vm_newMemSize s) (vm_copyMemSize s) (vm_jumpDests s) (vm_host s).
Definition set_SPP (x : Z) (s : VM) : VM := MkVM (vm_io_gas s) (vm_tx_context s) (vm_bounce s)
  (vm_output s) (vm_mem s) (vm_code s) (vm_returnData s) (vm_stack s) (vm_SP s) x (vm_OP s) (vm_PC
  s) (vm_runGas s) (vm_newMemSize s) (vm_copyMemSize s) (vm_jumpDests s) (vm_host s).
Definition set_OP (x : Z) (s : VM) : VM := MkVM (vm_io_gas s) (vm_tx_context s) (vm_bounce s)
  (vm_output s) (vm_mem s) (vm_code s) (vm_returnData s) (vm_stack s) (vm_SP s) (vm_SPP s) x (vm_PC
  s) (vm_runGas s) (vm_newMemSize s) (vm_copyMemSize s) (vm_jumpDests s) (vm_host s).
Definition set_PC (x : Z) (s : VM) : VM := MkVM (vm_io_gas s) (vm_tx_context s) (vm_bounce s)
  (vm_output s) (vm_mem s) (vm_code s) (vm_returnData s) (vm_stack s) (vm_SP s) (vm_SPP s) (vm_OP
  s) x (vm_runGas s) (vm_newMemSize s) (vm_copyMemSize s) (vm_jumpDests s) (vm_host s).
Definition set_runGas (x : Z) (s : VM) : VM := MkVM (vm_io_gas s) (vm_tx_context s) (vm_bounce s)
  (vm_output s) (vm_mem s) (vm_code s) (vm_returnData s) (vm_stack s) (vm_SP s) (vm_SPP s) (vm_OP
  s) (vm_PC s) x (vm_newMemSize s) (vm_copyMemSize s) (vm_jumpDests s) (vm_host s).
Definition set_newMemSize (x : Z) (s : VM) : VM := MkVM (vm_io_gas s) (vm_tx_context s) (vm_bounce
  s) (vm_output s) (vm_mem s) (vm_code s) (vm_returnData s) (vm_stack s) (vm_SP s) (vm_SPP s)
  (vm_OP s) (vm_PC s) (vm_runGas s) x (vm_copyMemSize s) (vm_jumpDests s) (vm_host s).
Definition set_copyMemSize (x : Z) (s : VM) : VM := MkVM (vm_io_gas s) (vm_tx_context s) (vm_bounce
  s) (vm_output s) (vm_mem s) (vm_code s) (vm_returnData s) (vm_stack s) (vm_SP s) (vm_SPP s)
  (vm_OP s) (vm_PC s) (vm_runGas s) (vm_newMemSize s) x (vm_jumpDests s) (vm_host s).
Definition set_jumpDests (x : list Z) (s : VM) : VM := MkVM (vm_io_gas s) (vm_tx_context s)
  (vm_bounce s) (vm_output s) (vm_mem s) (vm_code s) (vm_returnData s) (vm_stack s) (vm_SP s)
  (vm_SPP s) (vm_OP s) (vm_PC s) (vm_runGas s) (vm_newMemSize s) (vm_copyMemSize s) x (vm_host s).
Definition set_host (x : HS) (s : VM) : VM := MkVM (vm_io_gas s) (vm_tx_context s) (vm_bounce s)
  (vm_output s) (vm_mem s) (vm_code s) (vm_returnData s) (vm_stack s) (vm_SP s) (vm_SPP s) (vm_OP
  s) (vm_PC s) (vm_runGas s) (vm_newMemSize s) (vm_copyMemSize s) (vm_jumpDests s) x.

(** ** Stack, memory, gas *)

(** [m_SP[n]]. *)
Definition sp (n : Z) : VMM Z :=
  s ← sget;
  match decide (0 ≤ vm_SP s + n), vm_stack s !! Z.to_nat (vm_SP s + n) with
  | left _, Some v => mret v
  | _, _ => sthrow UB
  end.

(** A write to [m_stack[i]]. *)
Definition set_slot (i v : Z) : VMM unit :=
  s ← sget;
  sthrow_if (i < 0 ∨ Z.of_nat (length (vm_stack s)) ≤ i) UB;;
  smodify (set_stack (<[Z.to_nat i := v]> (vm_stack s))).

(** [m_SPP[0] = v] and [m_SP[n] = v]. *)
Definition set_spp (v : Z) : VMM unit := s ← sget; set_slot (vm_SPP s) v.
Definition set_sp (n v : Z) : VMM unit := s ← sget; set_slot (vm_SP s + n) v.

(** [m_code[i]]. *)
Definition code_at (i : Z) : VMM Z :=
  s ← sget;
  match decide (0 ≤ i), vm_code s !! Z.to_nat i with
  | left _, Some v => mret v
  | _, _ => sthrow UB
  end.

(** [++m_PC] before [NEXT] and in the cases. *)
Definition inc_pc : VMM unit := smodify (λ s, set_PC (u64 (vm_PC s + 1)) s).

(** [size] bytes of the memory from [off]. *)
Definition mem_slice (off size : Z) : VMM bytes :=
  s ← sget;
  if decide (size = 0) then mret []
  else
    sthrow_if (len (vm_mem s) < off + size) UB;;
    mret (take (Z.to_nat size) (drop (Z.to_nat off) (vm_mem s))).

(** [memcpy] of [d] to the memory at [off]. *)
Definition mem_write (off : Z) (d : bytes) : VMM unit :=
  s ← sget;
  if decide (d = []) then mret tt
  else
    sthrow_if (len (vm_mem s) < off + len d) UB;;
    smodify (set_mem (take (Z.to_nat off) (vm_mem s) ++ d ++ drop (Z.to_nat (off + len d)) (vm_mem s))).

Definition toInt63 (v : Z) : VMM Z :=
  sthrow_if (v > INT64_MAX) OutOfGas;; mret (u64 v).

Definition memNeed (offset size : Z) : VMM Z :=
  toInt63 (if decide (size ≠ 0) then offset + size else 0).

Definition memoryGas : Z := 3.
Definition quadCoeffDiv : Z := 512.
Definition copyGas : Z := 3.

Definition gasForMem (size : Z) : VMM Z :=
  let s := size / 32 in
  toInt63 (memoryGas * s + s * s / quadCoeffDiv).

Definition updateIOGas : VMM unit :=
  s ← sget;
  sthrow_if (vm_io_gas s < vm_runGas s) OutOfGas;;
  smodify (set_io_gas (vm_io_gas s - vm_runGas s)).

Definition updateGas : VMM unit :=
  s ← sget;
  swhen (len (vm_mem s) < vm_newMemSize s)
    (a ← gasForMem (vm_newMemSize s);
     b ← gasForMem (len (vm_mem s));
     d ← toInt63 (u64 (a - b));
     smodify (set_runGas (u64 (vm_runGas s + d))));;
  s ← sget;
  smodify (set_runGas (u64 (vm_runGas s + u64 (copyGas * (u64 (vm_copyMemSize s + 31) / 32)))));;
  s ← sget;
  sthrow_if (vm_io_gas s < vm_runGas s) OutOfGas.

Definition updateMem (newMem : Z) : VMM unit :=
  smodify (set_newMemSize (u64 (u64 (newMem + 31) / 32 * 32)));;
  updateGas;;
  s ← sget;
  swhen (len (vm_mem s) < vm_newMemSize s)
    (smodify (set_mem (vm_mem s ++ replicate (Z.to_nat (vm_newMemSize s - len (vm_mem s))) 0))).

Definition logGas : Z := 375.
Definition logTopicGas : Z := 375.
Definition logDataGas : Z := 8.

Definition set_gas (g : Z) : VMM unit := smodify (set_runGas g).

Definition logGasMem : VMM unit :=
  s ← sget;
  let n := u32 (vm_OP s - opcode LOG0) in
  size ← sp 1;
  g ← toInt63 (logGas + logTopicGas * n + logDataGas * size);
  set_gas g;;
  off ← sp 0;
  need ← memNeed off size;
  updateMem need.

(** [throwBadStack]. *)
Definition throwBadStack (removed : Z) : VMM unit :=
  s ← sget;
  if decide (stackLimit - vm_SPP s < removed) then sthrow StackUnderflow else sthrow OutOfStack.

Definition adjustStack (removed added : Z) : VMM unit :=
  smodify (λ s, set_SP (vm_SPP s) s);;
  smodify (λ s, set_SPP (vm_SPP s + removed) s);;
  s ← sget;
  swhen (stackLimit < vm_SPP s) (throwBadStack removed);;
  smodify (λ s, set_SPP (vm_SPP s - added) s);;
  s ← sget;
  swhen (vm_SPP s < 0) (throwBadStack removed).

(** [initMetrics]: the table of EVM-C with the metrics of the synthetic
    instructions. *)
Definition c_metrics (op : Z) : metrics :=
  if decide (op = opcode PUSHC) then evmc_metrics (opcode PUSH1)
  else if decide (op = opcode JUMPC) then evmc_metrics (opcode JUMP)
  else if decide (op = opcode JUMPCI) then evmc_metrics (opcode JUMPI)
  else evmc_metrics op.

Definition fetchInstruction : VMM unit :=
  s ← sget;
  op ← code_at (vm_PC s);
  smodify (set_OP op);;
  let metric := c_metrics op in
  adjustStack (num_stack_arguments metric) (num_stack_returned_items metric);;
  set_gas (u64 (gas_cost metric));;
  smodify (λ s, set_newMemSize (len (vm_mem s)) s);;
  smodify (set_copyMemSize 0).

Definition getTxContext : VMM evmc_tx_context :=
  s ← sget;
  match vm_tx_context s with
  | Some c => mret c
  | None => let c := h_get_tx_context (vm_host s) in smodify (set_tx_context (Some c));; mret c
  end.

(** ** Jump destinations *)

Definition is_push (op : Z) : bool := bool_decide (opcode PUSH1 ≤ op ≤ opcode PUSH32).
Definition is_synthetic (op : Z) : bool :=
  bool_decide (op = opcode PUSHC ∨ op = opcode JUMPC ∨ op = opcode JUMPCI).

(** The loop of [optimize] over [pc < nBytes]: the code with the synthetic
    instructions overwritten, and the jump destinations. Each round moves [pc]
    forward, so [nBytes] rounds are enough. *)
Fixpoint optimize_loop (rounds : nat) (nBytes pc : Z) (code : bytes) (dests : list Z) :
    res (bytes * list Z) :=
  if decide (pc < nBytes) then
    match rounds with
    | O => Throw OutOfFuel
    | S k =>
        let op := byte_at code pc in
        let code := if is_synthetic op then <[Z.to_nat pc := opcode INVALID]> code else code in
        if decide (op = opcode JUMPDEST) then optimize_loop k nBytes (pc + 1) code (dests ++ [pc])
        else if is_push op then optimize_loop k nBytes (pc + (op - opcode PUSH1 + 1) + 1) code dests
        else optimize_loop k nBytes (pc + 1) code dests
    end
  else Ok (code, dests).

(** [copyCode(33)] and the first loop of [optimize]; the second pass is
    compiled out in the default configuration. *)
Definition copyCode (code : bytes) (extra : nat) : bytes := code ++ replicate extra 0.
Definition optimize (f : Frame) : VMM unit :=
  '(code, dests) ← slift (optimize_loop (length (f_code f)) (len (f_code f)) 0
                            (copyCode (f_code f) 33) []);
  smodify (set_code code);;
  smodify (λ s, set_jumpDests (vm_jumpDests s ++ dests) s).

Definition initEntry (f : Frame) : VMM unit :=
  smodify (set_bounce InterpretCases);;
  optimize f.

(** [std::binary_search]: halving the range [first, first + count). *)
Fixpoint lower_bound (rounds : nat) (l : list Z) (first count x : Z) : Z :=
  match rounds with
  | O => first
  | S k =>
      if decide (0 < count) then
        let step := count / 2 in
        if decide (nth (Z.to_nat (first + step)) l 0 < x)
        then lower_bound k l (first + step + 1) (count - (step + 1)) x
        else lower_bound k l first step x
      else first
  end.
Definition binary_search (l : list Z) (x : Z) : bool :=
  match l !! Z.to_nat (lower_bound (length l) l 0 (len l) x) with
  | Some v => negb (bool_decide (x < v))
  | None => false
  end.

(** [verifyJumpDest(dest)]. *)
Definition verifyJumpDest (dest : Z) : VMM Z :=
  s ← sget;
  if decide (dest ≤ INT64_MAX ∧ binary_search (vm_jumpDests s) (u64 dest) = true) then mret (u64 dest)
  else sthrow BadJumpDestination.

(** ** Copying *)

(** [copyDataToMemory(data, sp)]. *)
Definition copyDataToMemory (data : bytes) : VMM unit :=
  o ← sp 0;
  bigIndex ← sp 1;
  z ← sp 2;
  let offset := u64 o in
  let index := u64 bigIndex in
  let size := u64 z in
  let sizeToBeCopied :=
    if decide (bigIndex + size > len data)
    then (if decide (len data < bigIndex) then 0 else u64 (len data - index))
    else size in
  swhen (sizeToBeCopied > 0)
    (mem_write offset (take (Z.to_nat sizeToBeCopied) (drop (Z.to_nat index) data)));;
  swhen (size > sizeToBeCopied)
    (mem_write (u64 (offset + sizeToBeCopied)) (replicate (Z.to_nat (size - sizeToBeCopied)) 0)).

(** ** The cases of [interpretCases]

    [BREAK] returns to the trampoline, [NEXT] increments the program counter
    and continues, [CONTINUE] continues. *)

Section cases.
Context (f : Frame).

Definition rev_before (r : Z) : Prop := f_rev f < r.
#[local] Instance rev_before_dec r : Decision (rev_before r) := ltac:(unfold rev_before; apply _).

Definition deny_static : VMM unit := sthrow_if (msg_static (f_msg f) = true) DisallowedStateChange.
Definition require_rev (r : Z) : VMM unit := sthrow_if (rev_before r) BadInstruction.

Definition case_CREATE2 : VMM unit :=
  require_rev EVMC_CONSTANTINOPLE;;
  deny_static;;
  smodify (set_bounce CaseCreate).

Definition case_CREATE : VMM unit :=
  deny_static;;
  smodify (set_bounce CaseCreate).

(** DELEGATECALL, STATICCALL, CALL and CALLCODE. *)
Definition case_CALL : VMM unit :=
  s ← sget;
  sthrow_if (vm_OP s = opcode DELEGATECALL ∧ rev_before EVMC_HOMESTEAD) BadInstruction;;
  sthrow_if (vm_OP s = opcode STATICCALL ∧ rev_before EVMC_BYZANTIUM) BadInstruction;;
  swhen (vm_OP s = opcode CALL ∧ msg_static (f_msg f) = true)
    (v ← sp 2; sthrow_if (v ≠ 0) DisallowedStateChange);;
  smodify (set_bounce CaseCall).

(** The output of RETURN and REVERT; [m_mem] is moved into it. *)
Definition take_output : VMM unit :=
  smodify (set_copyMemSize 0);;
  o ← sp 0;
  z ← sp 1;
  need ← memNeed o z;
  updateMem need;;
  updateIOGas;;
  d ← mem_slice (u64 o) (u64 z);
  smodify (λ s, set_mem [] (set_output d s)).

Definition case_RETURN : VMM unit :=
  take_output;;
  smodify (set_bounce Finished).

(** The exception carries the output, which is left in [vm_output]. *)
Definition case_REVERT : VMM unit :=
  require_rev EVMC_BYZANTIUM;;
  take_output;;
  sthrow RevertInstruction.

Definition callNewAccount : Z := 25000.

Definition case_SUICIDE : VMM unit :=
  deny_static;;
  set_gas (if decide (rev_before EVMC_TANGERINE_WHISTLE) then 0 else 5000);;
  a ← sp 0;
  let destination := asAddress a in
  s ← sget;
  let balance := h_get_balance (vm_host s) (msg_destination (f_msg f)) in
  swhen ((balance > 0 ∨ rev_before EVMC_SPURIOUS_DRAGON) ∧
         ¬ rev_before EVMC_TANGERINE_WHISTLE ∧ h_account_exists (vm_host s) destination = false)
    (set_gas (u64 (vm_runGas s + callNewAccount)));;
  updateIOGas;;
  smodify (λ s, set_host (h_selfdestruct (vm_host s) (msg_destination (f_msg f)) destination) s);;
  smodify (set_bounce Finished).

Definition case_STOP : VMM unit :=
  updateIOGas;;
  smodify (set_bounce Finished).

Definition case_MLOAD : VMM unit :=
  a ← sp 0;
  n ← toInt63 a;
  updateMem (u64 (n + 32));;
  updateIOGas;;
  d ← mem_slice (u32 a) 32;
  set_spp (fromBigEndian id d);;
  inc_pc.

Definition case_MSTORE : VMM unit :=
  a ← sp 0;
  n ← toInt63 a;
  updateMem (u64 (n + 32));;
  updateIOGas;;
  v ← sp 1;
  mem_write (u32 a) (toBigEndian 32 v);;
  inc_pc.

Definition case_MSTORE8 : VMM unit :=
  a ← sp 0;
  n ← toInt63 a;
  updateMem (u64 (n + 1));;
  updateIOGas;;
  v ← sp 1;
  mem_write (u32 a) [Z.land v 0xff];;
  inc_pc.

Definition sha3Gas : Z := 30.
Definition sha3WordGas : Z := 6.

Definition case_SHA3 : VMM unit :=
  z ← sp 1;
  g ← toInt63 (sha3Gas + (z + 31) / 32 * sha3WordGas);
  set_gas g;;
  o ← sp 0;
  need ← memNeed o z;
  updateMem need;;
  updateIOGas;;
  d ← mem_slice (u64 o) (u64 z);
  set_spp (fromBigEndian id (sha3 d));;
  inc_pc.

(** LOG0 to LOG4: [n] topics. *)
Definition topics (n : nat) : VMM (list Z) :=
  (fix go k i := match k with
                 | O => mret []
                 | S k => t ← sp i; ts ← go k (i + 1); mret (t :: ts)
                 end) n 2.
Definition case_LOG (n : nat) : VMM unit :=
  deny_static;;
  logGasMem;;
  updateIOGas;;
  o ← sp 0;
  z ← sp 1;
  d ← mem_slice (u64 o) (u64 z);
  ts ← topics n;
  smodify (λ s, set_host (h_emit_log (vm_host s) (msg_destination (f_msg f)) d ts) s);;
  inc_pc.

Definition stepGas5 : Z := 10.

Definition case_EXP : VMM unit :=
  expon ← sp 1;
  let byteCost := if decide (rev_before EVMC_SPURIOUS_DRAGON) then 10 else 50 in
  g ← toInt63 (stepGas5 + byteCost * (32 - firstBitSet (toBigEndian 32 expon) 0 / 8));
  set_gas g;;
  updateIOGas;;
  base ← sp 0;
  r ← slift (exp256 base expon);
  set_spp r;;
  inc_pc.

(** The ordinary instructions on one, two and three words. *)
Definition unop (op : Z → Z) : VMM unit :=
  updateIOGas;;
  a ← sp 0;
  set_spp (op a);;
  inc_pc.
Definition binop (op : Z → Z → Z) : VMM unit :=
  updateIOGas;;
  a ← sp 0;
  b ← sp 1;
  set_spp (op a b);;
  inc_pc.
(** The same for a division. *)
Definition divop (op : Z → Z → res Z) : VMM unit :=
  updateIOGas;;
  a ← sp 0;
  b ← sp 1;
  v ← slift (op a b);
  set_spp v;;
  inc_pc.
Definition ternop (op : Z → Z → Z → Z) : VMM unit :=
  updateIOGas;;
  a ← sp 0;
  b ← sp 1;
  c ← sp 2;
  set_spp (op a b c);;
  inc_pc.

(** SDIV also decrements [m_SP], which the next fetch overwrites. *)
Definition case_SDIV : VMM unit :=
  updateIOGas;;
  a ← sp 0;
  b ← sp 1;
  v ← slift (alu_sdiv a b);
  set_spp v;;
  smodify (λ s, set_SP (vm_SP s - 1) s);;
  inc_pc.

Definition shift_op (op : Z → Z → Z) : VMM unit :=
  require_rev EVMC_CONSTANTINOPLE;;
  binop op.

(** SIGNEXTEND changes [m_SP[1]] in place. *)
Definition case_SIGNEXTEND : VMM unit :=
  updateIOGas;;
  a ← sp 0;
  b ← sp 1;
  set_sp 1 (alu_signextend a b);;
  inc_pc.

(** Instructions that only push a word of the environment. *)
Definition push_env (m : VMM Z) : VMM unit :=
  updateIOGas;;
  v ← m;
  set_spp v;;
  inc_pc.

Definition case_ADDRESS : VMM unit := push_env (mret (fromAddress (msg_destination (f_msg f)))).
Definition case_ORIGIN : VMM unit := push_env (c ← getTxContext; mret (fromAddress (txc_origin c))).

Definition case_BALANCE : VMM unit :=
  set_gas (if decide (rev_before EVMC_TANGERINE_WHISTLE) then 20 else 400);;
  updateIOGas;;
  a ← sp 0;
  s ← sget;
  set_spp (h_get_balance (vm_host s) (asAddress a));;
  inc_pc.

Definition case_CALLER : VMM unit := push_env (mret (fromAddress (msg_sender (f_msg f)))).
Definition case_CALLVALUE : VMM unit := push_env (mret (msg_value (f_msg f))).

(** The loop of CALLDATALOAD: 32 bytes, zero beyond the data. *)
Definition data_byte (data : bytes) (i : Z) : Z := if decide (i < len data) then byte_at data i else 0.
Definition case_CALLDATALOAD : VMM unit :=
  updateIOGas;;
  let data := msg_input (f_msg f) in
  a ← sp 0;
  (if decide (a + 31 < len data)
   then set_sp 0 (fromBigEndian id (take 32 (drop (Z.to_nat (u64 a)) data)))
   else if decide (len data ≤ a) then set_sp 0 0
   else set_sp 0 (fromBigEndian id ((λ j, data_byte data (u64 a + j)) <$> seqZ 0 32)));;
  inc_pc.

Definition case_CALLDATASIZE : VMM unit := push_env (mret (len (msg_input (f_msg f)))).

Definition case_RETURNDATASIZE : VMM unit :=
  require_rev EVMC_BYZANTIUM;;
  push_env (s ← sget; mret (len (vm_returnData s))).

Definition case_CODESIZE : VMM unit := push_env (mret (len (f_code f))).

Definition case_EXTCODESIZE : VMM unit :=
  set_gas (if decide (rev_before EVMC_TANGERINE_WHISTLE) then 20 else 700);;
  updateIOGas;;
  a ← sp 0;
  s ← sget;
  set_spp (h_get_code_size (vm_host s) (asAddress a));;
  inc_pc.

(** The gas and memory of the copying instructions. *)
Definition copy_gas : VMM unit :=
  z ← sp 2;
  n ← toInt63 z;
  smodify (set_copyMemSize n);;
  o ← sp 0;
  need ← memNeed o z;
  updateMem need;;
  updateIOGas.

Definition case_CALLDATACOPY : VMM unit :=
  copy_gas;;
  copyDataToMemory (msg_input (f_msg f));;
  inc_pc.

Definition case_RETURNDATACOPY : VMM unit :=
  require_rev EVMC_BYZANTIUM;;
  i ← sp 1;
  z ← sp 2;
  s ← sget;
  sthrow_if (len (vm_returnData s) < i + z) BufferOverrun;;
  copy_gas;;
  s ← sget;
  copyDataToMemory (vm_returnData s);;
  inc_pc.

Definition case_EXTCODEHASH : VMM unit :=
  require_rev EVMC_CONSTANTINOPLE;;
  updateIOGas;;
  a ← sp 0;
  s ← sget;
  set_spp (h_get_code_hash (vm_host s) (asAddress a));;
  inc_pc.

Definition case_CODECOPY : VMM unit :=
  copy_gas;;
  copyDataToMemory (f_code f);;
  inc_pc.

Definition case_EXTCODECOPY : VMM unit :=
  set_gas (if decide (rev_before EVMC_TANGERINE_WHISTLE) then 20 else 700);;
  z ← sp 3;
  size ← toInt63 z;
  smodify (set_copyMemSize size);;
  o ← sp 1;
  need ← memNeed o z;
  updateMem need;;
  updateIOGas;;
  a ← sp 0;
  c ← sp 2;
  let memoryOffset := u64 o in
  let codeOffset := if decide (c > UINT64_MAX) then UINT64_MAX else u64 c in
  s ← sget;
  let copied := h_copy_code (vm_host s) (asAddress a) codeOffset size in
  mem_write memoryOffset copied;;
  mem_write (u64 (memoryOffset + len copied)) (replicate (Z.to_nat (size - len copied)) 0);;
  inc_pc.

Definition case_GASPRICE : VMM unit := push_env (c ← getTxContext; mret (txc_gas_price c)).

Definition stepGas6 : Z := 20.

Definition case_BLOCKHASH : VMM unit :=
  set_gas stepGas6;;
  updateIOGas;;
  c ← getTxContext;
  number ← sp 0;
  (if decide (number < txc_number c ∧ 256 `max` txc_number c - 256 ≤ number)
   then s ← sget; set_spp (h_get_block_hash (vm_host s) (i64 number))
   else set_spp 0);;
  inc_pc.

Definition case_COINBASE : VMM unit := push_env (c ← getTxContext; mret (fromAddress (txc_coinbase c))).
Definition case_TIMESTAMP : VMM unit := push_env (c ← getTxContext; mret (u256 (txc_timestamp c))).
Definition case_NUMBER : VMM unit := push_env (c ← getTxContext; mret (u256 (txc_number c))).
Definition case_DIFFICULTY : VMM unit := push_env (c ← getTxContext; mret (txc_difficulty c)).
Definition case_GASLIMIT : VMM unit := push_env (c ← getTxContext; mret (u256 (txc_gas_limit c))).

Definition case_POP : VMM unit :=
  updateIOGas;;
  smodify (λ s, set_SP (vm_SP s - 1) s);;
  inc_pc.

Definition case_PUSH1 : VMM unit :=
  updateIOGas;;
  inc_pc;;
  s ← sget;
  v ← code_at (vm_PC s);
  set_spp v;;
  inc_pc.

(** The loop of PUSH2 to PUSH32. *)
Fixpoint push_loop (numBytes : nat) (v : Z) : VMM Z :=
  match numBytes with
  | O => mret v
  | S k =>
      s ← sget;
      b ← code_at (vm_PC s);
      inc_pc;;
      push_loop k (Z.lor (u256 (Z.shiftl v 8)) b)
  end.
Definition case_PUSH : VMM unit :=
  updateIOGas;;
  s ← sget;
  let numBytes := vm_OP s - opcode PUSH1 + 1 in
  inc_pc;;
  v ← push_loop (Z.to_nat numBytes) 0;
  set_spp v.

Definition case_JUMP : VMM unit :=
  updateIOGas;;
  a ← sp 0;
  pc ← verifyJumpDest a;
  smodify (set_PC pc).

Definition case_JUMPI : VMM unit :=
  updateIOGas;;
  c ← sp 1;
  if decide (c ≠ 0) then a ← sp 0; pc ← verifyJumpDest a; smodify (set_PC pc)
  else inc_pc.

Definition case_DUP : VMM unit :=
  updateIOGas;;
  s ← sget;
  v ← sp (vm_OP s - opcode DUP1);
  set_spp v;;
  inc_pc.

Definition case_SWAP : VMM unit :=
  updateIOGas;;
  s ← sget;
  let n := vm_OP s - opcode SWAP1 + 1 in
  a ← sp 0;
  b ← sp n;
  set_sp 0 b;;
  set_sp n a;;
  inc_pc.

Definition case_SLOAD : VMM unit :=
  set_gas (if decide (rev_before EVMC_TANGERINE_WHISTLE) then 50 else 200);;
  updateIOGas;;
  k ← sp 0;
  s ← sget;
  set_spp (h_get_storage (vm_host s) (msg_destination (f_msg f)) k);;
  inc_pc.

Definition sstoreSetGas : Z := 20000.
Definition sstoreResetGas : Z := 5000.

Definition case_SSTORE : VMM unit :=
  deny_static;;
  set_gas sstoreResetGas;;
  updateIOGas;;
  k ← sp 0;
  v ← sp 1;
  s ← sget;
  let '(status, h) := h_set_storage (vm_host s) (msg_destination (f_msg f)) k v in
  smodify (set_host h);;
  swhen (status = STORAGE_ADDED) (set_gas (sstoreSetGas - sstoreResetGas);; updateIOGas);;
  inc_pc.

Definition case_PC : VMM unit := push_env (s ← sget; mret (vm_PC s)).
Definition case_MSIZE : VMM unit := push_env (s ← sget; mret (len (vm_mem s))).
Definition case_GAS : VMM unit := push_env (s ← sget; mret (vm_io_gas s)).

Definition jumpdestGas : Z := 1.
Definition case_JUMPDEST : VMM unit :=
  set_gas jumpdestGas;;
  updateIOGas;;
  inc_pc.

(** INVALID, the subroutine and vector instructions, and the synthetic
    instructions, which the default configuration does not generate. *)
Definition case_INVALID : VMM unit := sthrow BadInstruction.

(** One instruction: the fetch and the case its label names. *)
Definition case_of (i : Instruction) : VMM unit :=
  match i with
  | CREATE2 => case_CREATE2
  | CREATE => case_CREATE
  | DELEGATECALL | STATICCALL | CALL | CALLCODE => case_CALL
  | RETURN => case_RETURN
  | REVERT => case_REVERT
  | SUICIDE => case_SUICIDE
  | STOP => case_STOP
  | MLOAD => case_MLOAD
  | MSTORE => case_MSTORE
  | MSTORE8 => case_MSTORE8
  | SHA3 => case_SHA3
  | LOG0 => case_LOG 0
  | LOG1 => case_LOG 1
  | LOG2 => case_LOG 2
  | LOG3 => case_LOG 3
  | LOG4 => case_LOG 4
  | EXP => case_EXP
  | ADD => binop alu_add
  | MUL => binop alu_mul
  | SUB => binop alu_sub
  | DIV => divop alu_div
  | SDIV => case_SDIV
  | MOD => divop alu_mod
  | SMOD => divop alu_smod
  | NOT => unop alu_not
  | LT => binop alu_lt
  | GT => binop alu_gt
  | SLT => binop alu_slt
  | SGT => binop alu_sgt
  | EQ => binop alu_eq
  | ISZERO => unop alu_iszero
  | AND => binop alu_and
  | OR => binop alu_or
  | XOR => binop alu_xor
  | BYTE => binop alu_byte
  | SHL => shift_op alu_shl
  | SHR => shift_op alu_shr
  | SAR => shift_op alu_sar
  | ADDMOD => ternop alu_addmod
  | MULMOD => ternop alu_mulmod
  | SIGNEXTEND => case_SIGNEXTEND
  | ADDRESS => case_ADDRESS
  | ORIGIN => case_ORIGIN
  | BALANCE => case_BALANCE
  | CALLER => case_CALLER
  | CALLVALUE => case_CALLVALUE
  | CALLDATALOAD => case_CALLDATALOAD
  | CALLDATASIZE => case_CALLDATASIZE
  | RETURNDATASIZE => case_RETURNDATASIZE
  | CODESIZE => case_CODESIZE
  | EXTCODESIZE => case_EXTCODESIZE
  | CALLDATACOPY => case_CALLDATACOPY
  | RETURNDATACOPY => case_RETURNDATACOPY
  | EXTCODEHASH => case_EXTCODEHASH
  | CODECOPY => case_CODECOPY
  | EXTCODECOPY => case_EXTCODECOPY
  | GASPRICE => case_GASPRICE
  | BLOCKHASH => case_BLOCKHASH
  | COINBASE => case_COINBASE
  | TIMESTAMP => case_TIMESTAMP
  | NUMBER => case_NUMBER
  | DIFFICULTY => case_DIFFICULTY
  | GASLIMIT => case_GASLIMIT
  | POP => case_POP
  | PUSH1 => case_PUSH1
  | PUSH2 | PUSH3 | PUSH4 | PUSH5 | PUSH6 | PUSH7 | PUSH8 | PUSH9 | PUSH10 | PUSH11 | PUSH12
  | PUSH13 | PUSH14 | PUSH15 | PUSH16 | PUSH17 | PUSH18 | PUSH19 | PUSH20 | PUSH21 | PUSH22
  | PUSH23 | PUSH24 | PUSH25 | PUSH26 | PUSH27 | PUSH28 | PUSH29 | PUSH30 | PUSH31 | PUSH32 => case_PUSH
  | JUMP => case_JUMP
  | JUMPI => case_JUMPI
  | DUP1 | DUP2 | DUP3 | DUP4 | DUP5 | DUP6 | DUP7 | DUP8 | DUP9 | DUP10 | DUP11 | DUP12 | DUP13
  | DUP14 | DUP15 | DUP16 => case_DUP
  | SWAP1 | SWAP2 | SWAP3 | SWAP4 | SWAP5 | SWAP6 | SWAP7 | SWAP8 | SWAP9 | SWAP10 | SWAP11
  | SWAP12 | SWAP13 | SWAP14 | SWAP15 | SWAP16 => case_SWAP
  | SLOAD => case_SLOAD
  | SSTORE => case_SSTORE
  | PC => case_PC
  | MSIZE => case_MSIZE
  | GAS => case_GAS
  | JUMPDEST => case_JUMPDEST
  | PUSHC | JUMPC | JUMPCI | JUMPTO | JUMPIF | JUMPSUB | JUMPV | JUMPSUBV | BEGINSUB | BEGINDATA
  | RETURNSUB | PUTLOCAL | GETLOCAL | XADD | XMUL | XSUB | XDIV | XSDIV | XMOD | XSMOD | XLT | XGT
  | XSLT | XSGT | XEQ | XISZERO | XAND | XOOR | XXOR | XNOT | XSHL | XSHR | XSAR | XROL | XROR
  | XPUSH | XMLOAD | XMSTORE | XSLOAD | XSSTORE | XVTOWIDE | XWIDETOV | XGET | XPUT | XSWIZZLE
  | XSHUFFLE | INVALID => case_INVALID
  end.

Definition interpretCases : VMM unit :=
  fetchInstruction;;
  s ← sget;
  case_of (dispatch (vm_OP s)).

(** ** Calls *)

Definition createGas : Z := 32000.
Definition zero_address : bytes := zero_hash address_size.

Definition caseCreate : VMM unit :=
  smodify (set_bounce InterpretCases);;
  set_gas createGas;;
  endowment ← sp 0;
  initOff ← sp 1;
  initSize ← sp 2;
  s ← sget;
  salt ← (if decide (vm_OP s = opcode CREATE2) then sp 3 else mret 0);
  need ← memNeed initOff initSize;
  updateMem need;;
  updateIOGas;;
  smodify (set_returnData []);;
  s ← sget;
  let balance := h_get_balance (vm_host s) (msg_destination (f_msg f)) in
  (if decide (endowment ≤ balance ∧ msg_depth (f_msg f) < 1024) then
     let gas := i64 (vm_io_gas s) in
     let gas := if decide (rev_before EVMC_TANGERINE_WHISTLE) then gas else gas - Z.quot gas 64 in
     d ← mem_slice (u64 initOff) (u64 initSize);
     let msg := MkMessage (if decide (vm_OP s = opcode CREATE) then EVMC_CREATE else EVMC_CREATE2)
                  false (msg_depth (f_msg f) + 1) gas zero_address (msg_destination (f_msg f)) d
                  endowment salt in
     let '(r, h) := h_call (vm_host s) msg in
     smodify (set_host h);;
     set_spp (if decide (res_status r = EVMC_SUCCESS) then fromAddress (res_create_address r) else 0);;
     smodify (set_returnData (res_output r));;
     smodify (λ s, set_io_gas (u64 (vm_io_gas s - (gas - res_gas_left r))) s)
   else set_spp 0);;
  inc_pc.

Definition valueTransferGas : Z := 9000.
Definition callStipend : Z := 2300.

(** [caseCallSetup]: whether to call, the message, and the part of the memory
    that receives the output. The depth of the message is not set. *)
Definition caseCallSetup : VMM (bool * evmc_message * (Z * Z)) :=
  set_gas (if decide (rev_before EVMC_TANGERINE_WHISTLE) then 40 else 700);;
  s ← sget;
  let op := vm_OP s in
  let kind := if decide (op = opcode CALLCODE) then EVMC_CALLCODE
              else if decide (op = opcode DELEGATECALL) then EVMC_DELEGATECALL else EVMC_CALL in
  let static := bool_decide (op = opcode STATICCALL) || msg_static (f_msg f) in
  let haveValueArg := bool_decide (op = opcode CALL ∨ op = opcode CALLCODE) in
  a ← sp 1;
  let destination := asAddress a in
  let exists_ := h_account_exists (vm_host s) destination in
  swhen (op = opcode CALL ∧ exists_ = false)
    (v ← sp 2;
     swhen (v > 0 ∨ rev_before EVMC_SPURIOUS_DRAGON)
       (smodify (λ s, set_runGas (u64 (vm_runGas s + callNewAccount)) s)));;
  swhen (haveValueArg = true)
    (v ← sp 2;
     swhen (v > 0) (smodify (λ s, set_runGas (u64 (vm_runGas s + valueTransferGas)) s)));;
  let sizesOffset := if haveValueArg then 3 else 2 in
  inputOffset ← sp sizesOffset;
  inputSize ← sp (sizesOffset + 1);
  outputOffset ← sp (sizesOffset + 2);
  outputSize ← sp (sizesOffset + 3);
  inputMemNeed ← memNeed inputOffset inputSize;
  outputMemNeed ← memNeed outputOffset outputSize;
  smodify (set_newMemSize (inputMemNeed `max` outputMemNeed));;
  updateMem (inputMemNeed `max` outputMemNeed);;
  updateIOGas;;
  callGas ← sp 0;
  s ← sget;
  let callGas := if decide (rev_before EVMC_TANGERINE_WHISTLE) then callGas
                 else callGas `min` (vm_io_gas s - vm_io_gas s / 64) in
  gas ← toInt63 callGas;
  set_gas gas;;
  updateIOGas;;
  input ← mem_slice (u64 inputOffset) (u64 inputSize);
  s ← sget;
  '(value, gas, balanceOk) ←
    (if haveValueArg then
       v ← sp 2;
       mret (if decide (v > 0)
             then (v, gas + callStipend,
                   bool_decide (v ≤ h_get_balance (vm_host s) (msg_destination (f_msg f))))
             else (0, gas, true))
     else mret (if decide (op = opcode DELEGATECALL) then msg_value (f_msg f) else 0, gas, true));
  let sender := if decide (op = opcode DELEGATECALL) then msg_sender (f_msg f)
                else msg_destination (f_msg f) in
  let go := balanceOk && bool_decide (msg_depth (f_msg f) < 1024) in
  mret (go, MkMessage kind static 0 gas destination sender input value 0,
        (u64 outputOffset, u64 outputSize)).

(** [bytesConstRef::copyTo]: as much as fits. *)
Definition caseCall : VMM unit :=
  smodify (set_bounce InterpretCases);;
  smodify (set_returnData []);;
  '(go, msg, (outOff, outSize)) ← caseCallSetup;
  (if (go : bool) then
     s ← sget;
     let '(r, h) := h_call (vm_host s) msg in
     smodify (set_host h);;
     smodify (set_returnData (res_output r));;
     mem_write outOff (take (Z.to_nat outSize) (res_output r));;
     set_spp (bool_word (bool_decide (res_status r = EVMC_SUCCESS)));;
     smodify (λ s, set_io_gas (u64 (vm_io_gas s + res_gas_left r)) s)
   else
     set_spp 0;;
     smodify (λ s, set_io_gas (u64 (vm_io_gas s + msg_gas msg)) s));;
  inc_pc.

(** ** The trampoline *)

Definition vm_step : VMM unit :=
  s ← sget;
  match vm_bounce s with
  | InitEntry => initEntry f
  | InterpretCases => interpretCases
  | CaseCreate => caseCreate
  | CaseCall => caseCall
  | Finished => mret tt
  end.

Fixpoint vm_loop (fuel : nat) : VMM unit :=
  match fuel with
  | O => sthrow OutOfFuel
  | S k =>
      vm_step;;
      s ← sget;
      if decide (vm_bounce s = Finished) then mret tt else vm_loop k
  end.

(** A new object as [exec] starts it. *)
Definition vm_start (h : HS) : VM :=
  MkVM (u64 (msg_gas (f_msg f))) None InitEntry [] [] [] [] (replicate (Z.to_nat stackLimit) 0)
    stackLimit stackLimit 0 0 0 0 0 [] h.

(** Every round but the calls pays gas, so twice the gas is enough rounds. *)
Definition exec_rounds : nat := Z.to_nat (2 * u64 (msg_gas (f_msg f)) + 3).

Definition exec : VMM bytes :=
  vm_loop exec_rounds;;
  s ← sget;
  mret (vm_output s).

(** [execute]: exceptions become status codes. *)
Definition execute (h : HS) : res evmc_result * HS :=
  let '(r, s) := exec (vm_start h) in
  let failed st := (Ok (MkResult st 0 [] zero_address), vm_host s) in
  match r with
  | Ok out => (Ok (MkResult EVMC_SUCCESS (vm_io_gas s) out zero_address), vm_host s)
  | Throw RevertInstruction =>
      (Ok (MkResult EVMC_REVERT (vm_io_gas s) (vm_output s) zero_address), vm_host s)
  | Throw BadInstruction => failed EVMC_UNDEFINED_INSTRUCTION
  | Throw OutOfStack => failed EVMC_STACK_OVERFLOW
  | Throw StackUnderflow => failed EVMC_STACK_UNDERFLOW
  | Throw BufferOverrun => failed EVMC_INVALID_MEMORY_ACCESS
  | Throw OutOfGas => failed EVMC_OUT_OF_GAS
  | Throw BadJumpDestination => failed EVMC_BAD_JUMP_DESTINATION
  | Throw DisallowedStateChange => failed EVMC_STATIC_MODE_VIOLATION
  | Throw e => if catchable e then failed EVMC_INTERNAL_ERROR else (Throw e, vm_host s)
  end.
End cases.
End vm.
