(* ===== verification/VMAlu.v ===== *)
(** * Arithmetic of the interpreter

    The words the arithmetic cases push are the ones the instruction set
    prescribes: exponentiation by squaring, two's complement division,
    comparison, shift and sign extension; and every case gives a word from
    words. *)

From S2P Require Import Prelude RLP RLPFacts Crypto VMInstr.

Local Open Scope Z_scope.

Definition word (z : Z) : Prop := 0 ≤ z < 2 ^ 256.

(** ** Ranges *)

Lemma u256_word z : word (u256 z).
Proof. unfold word, u256. apply Z.mod_pos_bound. lia. Qed.

Lemma word_small z k : 0 ≤ z < 2 ^ k → k ≤ 256 → word z.
Proof.
  intros Hz Hk. unfold word. split; [lia|].
  destruct (decide (0 ≤ k)); [|rewrite Z.pow_neg_r in Hz by lia; lia].
  pose proof (Z.pow_le_mono_r 2 k 256). lia.
Qed.

Lemma u64_word z : word (u64 z).
Proof. apply (word_small _ 64); [apply u64_range|lia]. Qed.

Lemma bool_word_word b : word (bool_word b).
Proof. destruct b; unfold word, bool_word; lia. Qed.

(** A word has no bit from 256 on. *)
Lemma word_bits x : word x ↔ 0 ≤ x ∧ ∀ n, 256 ≤ n → Z.testbit x n = false.
Proof.
  unfold word. split.
  - intros Hx. split; [lia|]. apply Z.bounded_iff_bits_nonneg; lia.
  - intros [H0 Hb]. split; [done|]. apply Z.bounded_iff_bits_nonneg; [lia|done|]. intros l Hl. by apply Hb.
Qed.

Lemma word_lor a b : word a → word b → word (Z.lor a b).
Proof.
  rewrite !word_bits. intros [Ha Ha'] [Hb Hb']. split; [by apply Z.lor_nonneg|].
  intros n Hn. by rewrite Z.lor_spec, Ha', Hb'.
Qed.

Lemma word_land a b : word a → 0 ≤ b → word (Z.land a b).
Proof.
  rewrite !word_bits. intros [Ha Ha'] Hb. split; [apply Z.land_nonneg; auto|].
  intros n Hn. by rewrite Z.land_spec, Ha'.
Qed.

Lemma word_lxor a b : word a → word b → word (Z.lxor a b).
Proof.
  rewrite !word_bits. intros [Ha Ha'] [Hb Hb']. split; [by apply Z.lxor_nonneg|].
  intros n Hn. by rewrite Z.lxor_spec, Ha', Hb'.
Qed.

Lemma word_shiftr a n : word a → 0 ≤ n → word (Z.shiftr a n).
Proof.
  unfold word. intros Ha Hn. rewrite Z.shiftr_div_pow2 by done.
  pose proof (Z.pow_pos_nonneg 2 n). split; [apply Z.div_pos; lia|].
  apply Z.le_lt_trans with a; [|lia]. apply Z.div_le_upper_bound; [lia|]. nia.
Qed.

(** ** Two's complement *)

Lemma testbit_high x : word x → Z.testbit x 255 = bool_decide (2 ^ 255 ≤ x).
Proof.
  unfold word. intros Hx. rewrite Z.testbit_odd, Z.shiftr_div_pow2 by lia.
  case_bool_decide as Hb.
  - replace (x / 2 ^ 255) with 1; [done|]. apply Z.div_unique with (x - 2 ^ 255); lia.
  - rewrite Z.div_small by lia. done.
Qed.

(** [u2s] is the only number in the signed range congruent to the word. *)
Lemma u2s_spec x : word x → - 2 ^ 255 ≤ u2s x < 2 ^ 255 ∧ u256 (u2s x) = x.
Proof.
  intros Hx. unfold u2s. rewrite testbit_high by done. unfold word in Hx. case_bool_decide.
  - split; [lia|]. unfold u256. symmetry. apply Z.mod_unique with (-1); lia.
  - split; [lia|]. apply u256_small. lia.
Qed.

Lemma s2u_spec s : s2u s = u256 s.
Proof.
  unfold s2u. case_decide; [done|]. unfold u256.
  rewrite Z.add_comm, <- (Z.mul_1_l (2 ^ 256)) at 1. apply Z.mod_add. lia.
Qed.

Lemma s2u_u2s x : word x → s2u (u2s x) = x.
Proof. intros Hx. rewrite s2u_spec. by apply u2s_spec. Qed.

Lemma u2s_u256 s : - 2 ^ 255 ≤ s < 2 ^ 255 → u2s (u256 s) = s.
Proof.
  intros Hs. destruct (u2s_spec (u256 s) (u256_word s)) as [Hr Hc].
  unfold u256 in Hc at 1 3. assert ((u2s (u256 s) - s) `mod` 2 ^ 256 = 0) as Hd.
  { rewrite Zminus_mod, Hc, Z.sub_diag. apply Z.mod_0_l. lia. }
  apply Z.mod_divide in Hd as [k Hk]; [|lia]. assert (k = 0) by lia. lia.
Qed.

(** ** Exponentiation *)

Lemma exp_loop_correct fuel b e r :
  0 ≤ e < 2 ^ Z.of_nat fuel → word r → exp_loop fuel b e r = Ok (u256 (r * b ^ e)).
Proof.
  revert b e r. induction fuel as [|k IH]; intros b e r He Hr; simpl.
  - assert (e = 0) as -> by (simpl in He; lia). rewrite decide_True, Z.pow_0_r, Z.mul_1_r by done.
    by rewrite u256_small.
  - case_decide as H0; [subst e; rewrite Z.pow_0_r, Z.mul_1_r; by rewrite u256_small|].
    rewrite Nat2Z.inj_succ, Z.pow_succ_r in He by lia.
    pose proof (Z.div2_odd e) as Hodd. rewrite <- Z.div2_spec.
    assert (0 ≤ Z.div2 e < 2 ^ Z.of_nat k) as Hd by (destruct (Z.odd e); simpl in Hodd; lia).
    rewrite IH; [|done|destruct (Z.odd e); [apply u256_word|done]]. f_equal. unfold u256.
    set (r' := if Z.odd e then _ else _).
    rewrite Zmult_mod, Z.mod_pow_l, <- Zmult_mod.
    assert ((b * b) ^ Z.div2 e = b ^ (2 * Z.div2 e)) as ->.
    { rewrite Z.pow_mul_r by lia. by rewrite Z.pow_2_r. }
    unfold r'. destruct (Z.odd e); cbn [Z.b2z] in Hodd.
    + rewrite Zmult_mod_idemp_l. f_equal. rewrite Hodd at 2. rewrite Z.pow_add_r, Z.pow_1_r by lia. lia.
    + f_equal. f_equal. f_equal. lia.
Qed.

Lemma exp256_word b e : word e → ∃ r, exp256 b e = Ok r ∧ word r.
Proof.
  intros He. unfold exp256. rewrite exp_loop_correct; [|exact He|unfold word; lia].
  eexists. split; [done|apply u256_word].
Qed.

Lemma leading_zeros_bound fuel d ret : ret ≤ leading_zeros fuel d ret ≤ ret + Z.of_nat fuel.
Proof.
  revert d ret. induction fuel as [|k IH]; intros d ret; simpl; [lia|]. case_decide; [lia|].
  specialize (IH (u8 (Z.shiftl d 1)) (ret + 1)). lia.
Qed.

Lemma firstBitSet_bound d ret : ret ≤ firstBitSet d ret ≤ ret + 8 * len d.
Proof.
  revert ret. induction d as [|b d IH]; intros ret; cbn [firstBitSet]; [rewrite len_nil; lia|].
  rewrite len_cons. pose proof (len_nonneg d). case_decide.
  - pose proof (leading_zeros_bound 8 b ret). lia.
  - specialize (IH (ret + 8)). lia.
Qed.

(** ** The values of the divisions *)

Definition quot_word (a b : Z) : Z := if decide (b = 0) then 0 else Z.quot a b.
Definition rem_word (a b : Z) : Z := if decide (b = 0) then 0 else Z.rem a b.
Definition squot_word (a b : Z) : Z := if decide (b = 0) then 0 else s2u (Z.quot (u2s a) (u2s b)).
Definition srem_word (a b : Z) : Z := if decide (b = 0) then 0 else s2u (Z.rem (u2s a) (u2s b)).

Lemma u2s_zero b : b ≠ 0 → u2s b ≠ 0.
Proof.
  intros Hb. unfold u2s. destruct (Z.testbit b 255) eqn:E; [|done]. intros Hz.
  assert (b = 2 ^ 256) as -> by lia. by vm_compute in E.
Qed.

(** The divisor is tested before it is used. *)
Lemma alu_div_ok a b : alu_div a b = Ok (quot_word a b).
Proof.
  unfold alu_div, divWorkaround, quot_word. destruct (decide (b = 0)) as [->|Hb]; [done|].
  by rewrite decide_True, throw_if_false, bind_ok.
Qed.

Lemma alu_mod_ok a b : alu_mod a b = Ok (rem_word a b).
Proof.
  unfold alu_mod, modWorkaround, rem_word. destruct (decide (b = 0)) as [->|Hb]; [done|].
  by rewrite decide_True, throw_if_false, bind_ok.
Qed.

Lemma alu_sdiv_ok a b : alu_sdiv a b = Ok (squot_word a b).
Proof.
  unfold alu_sdiv, divWorkaround, squot_word. destruct (decide (b = 0)) as [->|Hb]; [done|].
  by rewrite decide_True, throw_if_false, bind_ok by (done || by apply u2s_zero).
Qed.

Lemma alu_smod_ok a b : alu_smod a b = Ok (srem_word a b).
Proof.
  unfold alu_smod, modWorkaround, srem_word. destruct (decide (b = 0)) as [->|Hb]; [done|].
  by rewrite decide_True, throw_if_false, bind_ok by (done || by apply u2s_zero).
Qed.

(** ** Closure *)

Section closure.
Context (a b c : Z) (Ha : word a) (Hb : word b) (Hc : word c).

Lemma quot_word_word : word (quot_word a b).
Proof.
  unfold quot_word. unfold word in *. case_decide; [lia|].
  rewrite Z.quot_div_nonneg by lia. split; [apply Z.div_pos; lia|].
  apply Z.le_lt_trans with a; [|lia]. apply Z.div_le_upper_bound; nia.
Qed.

Lemma rem_word_word : word (rem_word a b).
Proof.
  unfold rem_word. unfold word in *. case_decide; [lia|].
  rewrite Z.rem_mod_nonneg by lia. pose proof (Z.mod_pos_bound a b). lia.
Qed.

Lemma s2u_word s : word (s2u s).
Proof. rewrite s2u_spec. apply u256_word. Qed.

Lemma word_0 : word 0.
Proof. unfold word. lia. Qed.

Lemma alu_byte_word : word (alu_byte a b).
Proof.
  unfold alu_byte. case_decide; [|apply word_0]. apply word_land; [|lia].
  apply word_shiftr; [done|]. pose proof (u32_range (8 * (31 - a))). lia.
Qed.

Lemma alu_shift_words : word (alu_shl a b) ∧ word (alu_shr a b) ∧ word (alu_sar a b).
Proof.
  pose proof (u32_range a). split_and!.
  - unfold alu_shl. case_decide; [apply word_0|apply u256_word].
  - unfold alu_shr. case_decide; [apply word_0|]. apply word_shiftr; [done|lia].
  - unfold alu_sar. cbv zeta. repeat case_decide; [|apply word_0| |].
    + unfold word, allbits. lia.
    + apply word_lor; [|apply u256_word]. apply word_shiftr; [done|lia].
    + apply word_shiftr; [done|lia].
Qed.

Lemma alu_signextend_word : word (alu_signextend a b).
Proof.
  unfold alu_signextend. cbv zeta. case_decide; [|done]. case_match.
  - apply word_lor; [done|apply u256_word].
  - apply word_land; [done|]. rewrite Z.shiftl_1_l.
    pose proof (Z.pow_pos_nonneg 2 (u32 (u32 a * 8 + 7))). pose proof (u32_range (u32 a * 8 + 7)). lia.
Qed.

Lemma alu_modular_words : word (alu_addmod a b c) ∧ word (alu_mulmod a b c).
Proof.
  unfold alu_addmod, alu_mulmod. split; (case_decide; [apply u256_word|apply word_0]).
Qed.
End closure.

(** The divisions give words. *)
Lemma alu_div_value a b : word a → word b → ∃ v, alu_div a b = Ok v ∧ word v.
Proof. intros Ha Hb. exists (quot_word a b). split; [apply alu_div_ok|by apply quot_word_word]. Qed.

Lemma alu_mod_value a b : word a → word b → ∃ v, alu_mod a b = Ok v ∧ word v.
Proof. intros Ha Hb. exists (rem_word a b). split; [apply alu_mod_ok|by apply rem_word_word]. Qed.

Lemma alu_sdiv_value a b : word a → word b → ∃ v, alu_sdiv a b = Ok v ∧ word v.
Proof.
  intros _ _. exists (squot_word a b). split; [apply alu_sdiv_ok|]. unfold squot_word.
  case_decide; [apply word_0|apply s2u_word].
Qed.

Lemma alu_smod_value a b : word a → word b → ∃ v, alu_smod a b = Ok v ∧ word v.
Proof.
  intros _ _. exists (srem_word a b). split; [apply alu_smod_ok|]. unfold srem_word.
  case_decide; [apply word_0|apply s2u_word].
Qed.

Lemma asAddress_ok x : hash_ok address_size (asAddress x).
Proof.
  unfold asAddress, right160, hash_ok. pose proof (toBigEndian_ok 32 x) as Hok.
  split; [by apply Forall_drop|]. unfold len. rewrite length_drop, length_toBigEndian. done.
Qed.

Lemma fromBigEndian_snoc d b :
  is_byte b → fromBigEndian id (d ++ [b]) = 256 * fromBigEndian id d + b.
Proof.
  unfold is_byte. intros Hb. rewrite fromBigEndian_app. unfold id.
  rewrite <- Z.add_nocarry_lor; [rewrite Z.shiftl_mul_pow2 by lia; lia|].
  apply Z.bits_inj'. intros n Hn. rewrite Z.bits_0, Z.land_spec.
  destruct (decide (n < 8)); [by rewrite Z.shiftl_spec_low|].
  assert (Z.testbit b n = false) as ->; [|apply andb_false_r].
  destruct (Z.bounded_iff_bits_nonneg 8 b) as [Hbit _]; [lia..|]. apply Hbit; lia.
Qed.

Lemma fromBigEndian_bound d : bytes_ok d → 0 ≤ fromBigEndian id d < 2 ^ (8 * len d).
Proof.
  induction d as [|b d IH] using rev_ind; intros Hd; [done|].
  apply bytes_ok_app in Hd as [Hd Hb]. inversion_clear Hb as [|?? Hb1 _].
  rename Hb1 into Hb.
  rewrite fromBigEndian_snoc, len_app, len_cons, len_nil by done. specialize (IH Hd). unfold is_byte in Hb.
  replace (8 * (len d + (1 + 0))) with (8 + 8 * len d) by lia. pose proof (len_nonneg d).
  rewrite Z.pow_add_r by lia. change (2 ^ 8) with 256. nia.
Qed.

Lemma hash_word n d : hash_ok n d → n ≤ 32 → word (fromBigEndian id d).
Proof.
  intros [Hd Hl] Hn. apply (word_small _ (8 * n)); [|lia]. rewrite <- Hl. by apply fromBigEndian_bound.
Qed.

(** ** Shifts and sign extension *)

(** A number below a multiple of a power of two joins it without carries. *)
Lemma lor_disjoint x y k : 0 ≤ k → 0 ≤ x < 2 ^ k → Z.lor x (y * 2 ^ k) = x + y * 2 ^ k.
Proof.
  intros Hk Hx. symmetry. apply Z.add_nocarry_lor. apply Z.bits_inj'. intros n Hn.
  rewrite Z.bits_0, Z.land_spec. destruct (decide (n < k)).
  - rewrite Z.mul_pow2_bits_low by done. apply andb_false_r.
  - destruct (Z.bounded_iff_bits_nonneg k x) as [Hbit _]; [lia..|]. by rewrite Hbit by lia.
Qed.

Lemma u256_ones_high k : 0 ≤ k ≤ 256 → u256 (- 2 ^ k) = (2 ^ (256 - k) - 1) * 2 ^ k.
Proof.
  intros Hk. assert (2 ^ (256 - k) * 2 ^ k = 2 ^ 256) as He by (rewrite <- Z.pow_add_r by lia; f_equal; lia).
  unfold u256. symmetry. apply Z.mod_unique with (-1); [|lia].
  pose proof (Z.pow_pos_nonneg 2 k). pose proof (Z.pow_pos_nonneg 2 (256 - k)). nia.
Qed.

Lemma land_hibit b : word b → (Z.land b hibit ≠ 0) ↔ 2 ^ 255 ≤ b.
Proof.
  intros Hb. pose proof (testbit_high b Hb) as Ht. split; intros H.
  - destruct (decide (2 ^ 255 ≤ b)) as [|Hf]; [done|]. exfalso. apply H.
    rewrite bool_decide_eq_false_2 in Ht by done.
    apply Z.bits_inj'. intros n Hn. rewrite Z.bits_0, Z.land_spec. unfold hibit.
    rewrite Z.pow2_bits_eqb by lia. destruct (Z.eqb_spec 255 n) as [<-|]; [by rewrite Ht|apply andb_false_r].
  - intros Hz. apply (f_equal (λ z, Z.testbit z 255)) in Hz. rewrite Z.land_spec, Ht, Z.bits_0 in Hz.
    by rewrite bool_decide_eq_true_2 in Hz.
Qed.

Lemma alu_sar_correct a b : word a → word b → u2s (alu_sar a b) = u2s b / 2 ^ a.
Proof.
  intros Ha Hb. pose proof (land_hibit b Hb) as Hh. pose proof (testbit_high b Hb) as Hu2s.
  unfold word in Ha, Hb. unfold u2s at 2. rewrite Hu2s. unfold alu_sar.
  destruct (decide (256 ≤ a)) as [H256|H256].
  { assert (2 ^ 256 ≤ 2 ^ a) by (apply Z.pow_le_mono_r; lia).
    destruct (decide (Z.land b hibit ≠ 0)) as [Hn|Hn].
    - rewrite bool_decide_eq_true_2 by tauto. change (u2s allbits) with (-1).
      apply Z.div_unique with (2 ^ a - 2 ^ 256 + b); lia.
    - rewrite bool_decide_eq_false_2 by tauto. rewrite Z.div_small by lia. done. }
  cbv zeta. rewrite u32_small by lia. assert (0 < 2 ^ a) by (apply Z.pow_pos_nonneg; lia).
  rewrite Z.shiftr_div_pow2 by lia.
  destruct (decide (Z.land b hibit ≠ 0)) as [Hn|Hn].
  - rewrite bool_decide_eq_true_2 by tauto.
    assert (u256 (Z.shiftl allbits (256 - a)) = (2 ^ a - 1) * 2 ^ (256 - a)) as ->.
    { rewrite Z.shiftl_mul_pow2 by lia. pose proof (u256_ones_high (256 - a)) as Ho.
      replace (256 - (256 - a)) with a in Ho by lia. rewrite <- Ho by lia. unfold u256, allbits.
      replace ((2 ^ 256 - 1) * 2 ^ (256 - a)) with (- 2 ^ (256 - a) + 2 ^ (256 - a) * 2 ^ 256) by lia.
      apply Z.mod_add. lia. }
    assert (2 ^ a * 2 ^ (256 - a) = 2 ^ 256) as He by (rewrite <- Z.pow_add_r by lia; f_equal; lia).
    assert (b / 2 ^ a < 2 ^ (256 - a)) by (apply Z.div_lt_upper_bound; lia).
    assert (0 ≤ b / 2 ^ a) by (apply Z.div_pos; lia).
    assert (2 ^ (256 - a) ≤ 2 ^ 256) by (apply Z.pow_le_mono_r; lia).
    rewrite lor_disjoint by lia. rewrite <- (u2s_u256 (- (2 ^ 256 - b) / 2 ^ a)).
    + f_equal. replace (- (2 ^ 256 - b)) with (b + (- 2 ^ (256 - a)) * 2 ^ a) by lia.
      rewrite Z.div_add by lia. unfold u256. apply Z.mod_unique with (-1); lia.
    + split; [apply Z.div_le_lower_bound; nia|]. apply Z.div_lt_upper_bound; nia.
  - rewrite bool_decide_eq_false_2 by tauto. rewrite <- u2s_u256.
    + f_equal. symmetry. apply u256_small. split; [apply Z.div_pos; lia|]. apply Z.div_lt_upper_bound; nia.
    + split; [pose proof (Z.div_pos b (2 ^ a)); lia|]. apply Z.div_lt_upper_bound; nia.
Qed.

Lemma alu_shl_correct a b : word a → alu_shl a b = (b * 2 ^ a) `mod` 2 ^ 256.
Proof.
  unfold word. intros Ha. unfold alu_shl. case_decide.
  - replace (2 ^ a) with (2 ^ (a - 256) * 2 ^ 256) by (rewrite <- Z.pow_add_r by lia; f_equal; lia).
    by rewrite Z.mul_assoc, Z.mod_mul by lia.
  - rewrite u32_small by lia. by rewrite Z.shiftl_mul_pow2 by lia.
Qed.

Lemma alu_shr_correct a b : word a → word b → alu_shr a b = b / 2 ^ a.
Proof.
  unfold word. intros Ha Hb. unfold alu_shr. case_decide.
  - assert (2 ^ 256 ≤ 2 ^ a) by (apply Z.pow_le_mono_r; lia). by rewrite Z.div_small by lia.
  - rewrite u32_small by lia. by rewrite Z.shiftr_div_pow2 by lia.
Qed.

Lemma mod_pow2_succ b t : 0 ≤ t →
  b `mod` 2 ^ (t + 1) = b `mod` 2 ^ t + (if Z.testbit b t then 2 ^ t else 0).
Proof.
  intros Ht. rewrite Z.pow_add_r, Z.pow_1_r by lia. pose proof (Z.pow_pos_nonneg 2 t).
  rewrite Z.rem_mul_r by lia. f_equal. rewrite Z.testbit_odd, Z.shiftr_div_pow2 by done.
  rewrite Zmod_odd. destruct (Z.odd _); lia.
Qed.

(** SIGNEXTEND reads the low [a + 1] bytes as a signed number. *)
Lemma alu_signextend_correct a b : word a → word b → a < 31 →
  u2s (alu_signextend a b) = (b + 2 ^ (8 * a + 7)) `mod` 2 ^ (8 * a + 8) - 2 ^ (8 * a + 7).
Proof.
  unfold word. intros Ha Hb H31. unfold alu_signextend. rewrite decide_True by done. cbv zeta.
  rewrite (u32_small a), u32_small by lia. replace (a * 8 + 7) with (8 * a + 7) by lia.
  set (t := 8 * a + 7). assert (0 ≤ t < 255) as Ht by lia. replace (8 * a + 8) with (t + 1) by lia.
  rewrite Z.shiftl_1_l. pose proof (Z.pow_pos_nonneg 2 t). pose proof (Z.mod_pos_bound b (2 ^ t)).
  assert (2 ^ t ≤ 2 ^ 254) by (apply Z.pow_le_mono_r; lia).
  assert (2 ^ (t + 1) = 2 * 2 ^ t) as Hp by (rewrite Z.pow_add_r; lia).
  pose proof (mod_pow2_succ b t) as Hm. rewrite <- Zplus_mod_idemp_l, Hm by lia.
  destruct (Z.testbit b t) eqn:Ebit.
  - replace (Z.lnot (2 ^ t - 1)) with (- 2 ^ t) by (unfold Z.lnot; lia). rewrite u256_ones_high by lia.
    assert (Z.lor b ((2 ^ (256 - t) - 1) * 2 ^ t) = b `mod` 2 ^ t + (2 ^ (256 - t) - 1) * 2 ^ t) as ->.
    { rewrite <- lor_disjoint by lia. apply Z.bits_inj'. intros n Hn. rewrite !Z.lor_spec.
      destruct (decide (n < t)); [by rewrite Z.mod_pow2_bits_low|].
      rewrite Z.mod_pow2_bits_high by lia. rewrite <- Z.shiftl_mul_pow2, Z.shiftl_spec by lia.
      destruct (decide (n < 256)).
      - replace (2 ^ (256 - t) - 1) with (Z.ones (256 - t)) by (rewrite Z.ones_equiv; lia).
        rewrite Z.ones_spec_low by lia. by rewrite !orb_true_r.
      - destruct (Z.bounded_iff_bits_nonneg 256 b) as [Hbit _]; [lia..|]. by rewrite Hbit by lia. }
    assert (2 ^ (256 - t) * 2 ^ t = 2 ^ 256) as He by (rewrite <- Z.pow_add_r by lia; f_equal; lia).
    replace ((b `mod` 2 ^ t + 2 ^ t + 2 ^ t) `mod` 2 ^ (t + 1)) with (b `mod` 2 ^ t)
      by (apply Z.mod_unique with 1; lia).
    rewrite <- (u2s_u256 (b `mod` 2 ^ t - 2 ^ t)) by lia. f_equal.
    unfold u256. apply Z.mod_unique with (-1); lia.
  - replace (2 ^ t - 1) with (Z.ones t) by (rewrite Z.ones_equiv; lia). rewrite Z.land_ones by lia.
    rewrite (Z.mod_small (b `mod` 2 ^ t + 0 + 2 ^ t)) by lia.
    rewrite <- (u2s_u256 (b `mod` 2 ^ t + 0 + 2 ^ t - 2 ^ t)) by lia. f_equal. rewrite u256_small; lia.
Qed.

(** ** Signed division *)

Lemma quot_bound x y : y ≠ 0 → Z.abs (Z.quot x y) ≤ Z.abs x ∧ (Z.abs y ≠ 1 → x ≠ 0 → Z.abs (Z.quot x y) < Z.abs x).
Proof.
  intros Hy. rewrite <- Z.quot_abs by done. rewrite Z.quot_div_nonneg by lia. split.
  - apply Z.div_le_upper_bound; nia.
  - intros H1 Hx. apply Z.div_lt; lia.
Qed.

Lemma alu_sdiv_correct a b : word a → word b → b ≠ 0 → ¬ (u2s a = - 2 ^ 255 ∧ u2s b = -1) →
  u2s <$> alu_sdiv a b = Ok (Z.quot (u2s a) (u2s b)).
Proof.
  intros Ha Hb Hne Hov. rewrite alu_sdiv_ok. cbn. f_equal. unfold squot_word. rewrite decide_False, s2u_spec by done.
  apply u2s_u256. pose proof (u2s_spec a Ha) as [Hra _]. pose proof (u2s_spec b Hb) as [Hrb _].
  pose proof (u2s_zero b Hne) as Hnz. destruct (quot_bound (u2s a) (u2s b) Hnz) as [Hle Hlt].
  destruct (decide (u2s b = 1)) as [->|]; [rewrite Z.quot_1_r; lia|].
  destruct (decide (u2s b = -1)) as [Hm|].
  - rewrite Hm. change (-1) with (- (1)). rewrite Z.quot_opp_r, Z.quot_1_r by lia. lia.
  - destruct (decide (u2s a = 0)) as [->|]; [rewrite Z.quot_0_l by done; lia|].
    specialize (Hlt ltac:(lia) ltac:(lia)). lia.
Qed.

Lemma alu_sdiv_overflow a b : word a → word b → u2s a = - 2 ^ 255 → u2s b = -1 → alu_sdiv a b = Ok a.
Proof.
  intros Ha Hb Hma Hmb. rewrite alu_sdiv_ok. f_equal. unfold squot_word.
  rewrite decide_False by (intros ->; by vm_compute in Hmb). rewrite s2u_spec, Hma, Hmb.
  destruct (u2s_spec a Ha) as [_ <-]. rewrite Hma. by vm_compute.
Qed.

Lemma alu_smod_correct a b : word a → word b → b ≠ 0 →
  u2s <$> alu_smod a b = Ok (Z.rem (u2s a) (u2s b)).
Proof.
  intros Ha Hb Hne. rewrite alu_smod_ok. cbn. f_equal. unfold srem_word. rewrite decide_False, s2u_spec by done.
  apply u2s_u256. pose proof (u2s_spec a Ha) as [Hra _]. pose proof (u2s_spec b Hb) as [Hrb _].
  pose proof (u2s_zero b Hne) as Hnz. pose proof (Z.rem_bound_abs (u2s a) (u2s b) Hnz). lia.
Qed.

(** Division by zero gives zero. *)
Lemma alu_by_zero a : alu_div a 0 = Ok 0 ∧ alu_mod a 0 = Ok 0 ∧ alu_sdiv a 0 = Ok 0 ∧ alu_smod a 0 = Ok 0.
Proof. done. Qed.

Lemma alu_divmod_correct a b : word a → word b → b ≠ 0 → alu_div a b = Ok (a / b) ∧ alu_mod a b = Ok (a `mod` b).
Proof.
  unfold word. intros Ha Hb Hne. rewrite alu_div_ok, alu_mod_ok. unfold quot_word, rem_word. rewrite !decide_False by done.
  by rewrite Z.quot_div_nonneg, Z.rem_mod_nonneg by lia.
Qed.

(** ** Bytes *)

Lemma toBigEndian_lookup n v i : (i < n)%nat →
  toBigEndian n v !! i = Some (Z.land (Z.shiftr v (8 * (Z.of_nat n - 1 - Z.of_nat i))) 0xff).
Proof.
  revert v i. induction n as [|n IH]; intros v i Hi; [lia|]. cbn [toBigEndian].
  destruct (decide (i < n)%nat).
  - rewrite lookup_app_l by (by rewrite length_toBigEndian). rewrite IH by done. f_equal. f_equal.
    rewrite Z.shiftr_shiftr by lia. f_equal. lia.
  - assert (i = n) as -> by lia. rewrite lookup_app_r by (by rewrite length_toBigEndian).
    rewrite length_toBigEndian, Nat.sub_diag. cbn [lookup list_lookup]. f_equal.
    replace (8 * (Z.of_nat (S n) - 1 - Z.of_nat n)) with 0 by lia. by rewrite Z.shiftr_0_r.
Qed.

Lemma alu_byte_correct a b : word a → word b →
  alu_byte a b = default 0 (toBigEndian 32 b !! Z.to_nat a).
Proof.
  unfold word. intros Ha Hb. unfold alu_byte. case_decide as H32.
  - rewrite toBigEndian_lookup by lia. cbn [default]. rewrite u32_small by lia. rewrite Z2Nat.id by lia. done.
  - rewrite lookup_ge_None_2; [done|]. rewrite length_toBigEndian. lia.
Qed.
