(* ===== verification/VMJump.v ===== *)
(** * Jump destinations

    The first pass of [optimize] finds exactly the JUMPDEST bytes that start
    an instruction, in order, and neutralises the synthetic opcodes that start
    one; the binary search of [verifyJumpDest] decides membership. *)

From stdpp Require Import sorting.
From S2P Require Import Prelude StateErr RLP RLPFacts Crypto VMInstr VM VMAlu.

Local Open Scope Z_scope.

(** ** Instruction boundaries *)

(** Bytes an instruction takes: PUSHn has [n] bytes of data. *)
Definition instr_size (op : Z) : Z := if is_push op then op - opcode PUSH1 + 2 else 1.

(** The positions at which an instruction starts, in a decoding from 0. *)
Inductive boundary (code : bytes) : Z → Prop :=
  | boundary_start : boundary code 0
  | boundary_next pc :
      boundary code pc → pc < len code → boundary code (pc + instr_size (byte_at code pc)).

Lemma instr_size_range op : 1 ≤ instr_size op ≤ 33.
Proof. unfold instr_size, is_push. case_bool_decide as H; [|lia]. cbn [opcode] in *. lia. Qed.

Lemma boundary_nonneg code pc : boundary code pc → 0 ≤ pc.
Proof. induction 1 as [|pc _ IH]; [lia|]. pose proof (instr_size_range (byte_at code pc)). lia. Qed.

Lemma boundary_bound code pc : boundary code pc → pc ≤ len code + 32.
Proof.
  destruct 1 as [|pc _ Hlt]; [pose proof (len_nonneg code); lia|].
  pose proof (instr_size_range (byte_at code pc)). lia.
Qed.

(** No instruction starts inside another one. *)
Lemma boundary_gap code p q :
  boundary code p → boundary code q → p < q → p < len code → p + instr_size (byte_at code p) ≤ q.
Proof.
  remember (Z.to_nat (p + q)) as n eqn:Hn. revert p q Hn.
  induction n as [n IH] using lt_wf_ind. intros p q -> Hp Hq Hlt Hlen.
  pose proof (boundary_nonneg _ _ Hp). inversion Hq as [Hq0|q' Hq' Hl' Hqe]; [lia|]. subst q.
  pose proof (boundary_nonneg _ _ Hq'). pose proof (instr_size_range (byte_at code q')).
  destruct (Z.lt_trichotomy p q') as [Hpq|[<-|Hqp]]; [|lia|].
  - pose proof (IH (Z.to_nat (p + q')) ltac:(lia) p q' eq_refl Hp Hq' Hpq Hlen). lia.
  - pose proof (IH (Z.to_nat (q' + p)) ltac:(lia) q' p eq_refl Hq' Hp Hqp Hl'). lia.
Qed.

(** ** The pass *)

(** What the code array holds at [i]. *)
Definition loaded_byte (code : bytes) (i : Z) : Z := if decide (i < len code) then byte_at code i else 0.
Definition neutralised (code : bytes) (i : Z) : Prop :=
  boundary code i ∧ i < len code ∧ is_synthetic (byte_at code i) = true.

(** Progress of the pass at [pc]: positions from [pc] on are not yet treated. *)
Record scanned (code c : bytes) (pc : Z) (dests : list Z) : Prop := {
  sc_len : len c = len code + 33;
  sc_same i : 0 ≤ i < len code + 33 → (neutralised code i ∧ i < pc → byte_at c i = opcode INVALID) ∧
                (¬ (neutralised code i ∧ i < pc) → byte_at c i = loaded_byte code i);
  sc_sorted : StronglySorted Z.lt dests;
  sc_dests x : x ∈ dests ↔ boundary code x ∧ x < len code ∧ x < pc ∧ byte_at code x = opcode JUMPDEST;
}.

Lemma is_synthetic_not op : is_synthetic op = true → op ≠ opcode JUMPDEST ∧ is_push op = false.
Proof.
  unfold is_synthetic, is_push. intros H%bool_decide_eq_true. cbn [opcode] in *.
  split; [lia|]. apply bool_decide_eq_false_2. lia.
Qed.

Lemma scanned_start code : scanned code (copyCode code 33) 0 [].
Proof.
  unfold copyCode. pose proof (len_nonneg code). constructor.
  - unfold len. rewrite length_app, length_replicate. lia.
  - intros i Hi. split; [lia|]. intros _. unfold loaded_byte, byte_at. rewrite nth_lookup. case_decide as Hl.
    + rewrite lookup_app_l, nth_lookup; [done|]. unfold len in Hl. lia.
    + unfold len in *. rewrite lookup_app_r by lia. rewrite lookup_replicate_2 by lia. done.
  - constructor.
  - intros x. split; [intros []%elem_of_nil|]. intros (Hb & _ & Hlt & _). apply boundary_nonneg in Hb. lia.
Qed.

(** The next boundary: positions in between are no boundaries. *)
Lemma boundary_between code pc i :
  boundary code pc → pc < len code → boundary code i → i < pc + instr_size (byte_at code pc) →
  i ≠ pc → i < pc.
Proof.
  intros Hpc Hlen Hi Hlt Hne. destruct (decide (i < pc)); [done|].
  pose proof (boundary_gap code pc i Hpc Hi ltac:(lia) Hlen). lia.
Qed.

Lemma scanned_mono_code code c pc dests :
  boundary code pc → pc < len code → scanned code c pc dests →
  let c' := if is_synthetic (byte_at code pc) then <[Z.to_nat pc := opcode INVALID]> c else c in
  len c' = len code + 33 ∧
  ∀ i, 0 ≤ i < len code + 33 →
    (neutralised code i ∧ i < pc + instr_size (byte_at code pc) → byte_at c' i = opcode INVALID) ∧
    (¬ (neutralised code i ∧ i < pc + instr_size (byte_at code pc)) → byte_at c' i = loaded_byte code i).
Proof.
  intros Hb Hlen [Hl Hs _ _] c'. pose proof (boundary_nonneg _ _ Hb).
  pose proof (instr_size_range (byte_at code pc)). split.
  { unfold c'. destruct (is_synthetic _); [|done]. unfold len in *. by rewrite length_insert. }
  intros i Hi. destruct (decide (i = pc)) as [->|Hne].
  - unfold c'. destruct (is_synthetic (byte_at code pc)) eqn:Es.
    + assert (byte_at (<[Z.to_nat pc:=opcode INVALID]> c) pc = opcode INVALID) as ->.
      { unfold byte_at. rewrite !nth_lookup, list_lookup_insert_eq; [done|]. unfold len in *. lia. }
      split; [done|]. intros Hn. exfalso. apply Hn. split; [by split_and!|lia].
    + split; [intros [(_ & _ & Hsyn) _]; congruence|]. intros _. apply (Hs pc Hi). lia.
  - assert (byte_at c' i = byte_at c i) as ->.
    { unfold c'. destruct (is_synthetic _); [|done]. unfold byte_at. rewrite !nth_lookup, list_lookup_insert_ne by lia. done. }
    destruct (Hs i Hi) as [H1 H2]. split.
    + intros [Hn Hlt]. apply H1. split; [done|]. by apply (boundary_between code pc i); [..|apply Hn| |].
    + intros Hn. apply H2. intros [Hn' Hlt]. apply Hn. split; [done|lia].
Qed.

Lemma scanned_next code c pc dests :
  boundary code pc → pc < len code → scanned code c pc dests →
  let op := byte_at code pc in
  scanned code (if is_synthetic op then <[Z.to_nat pc := opcode INVALID]> c else c)
    (pc + instr_size op) (if decide (op = opcode JUMPDEST) then dests ++ [pc] else dests).
Proof.
  intros Hb Hlen Hsc op. destruct (scanned_mono_code code c pc dests Hb Hlen Hsc) as [H1 H2].
  destruct Hsc as [_ _ Hsort Hd]. pose proof (instr_size_range (byte_at code pc)).
  split; [done|done| |].
  - case_decide; [|done]. apply StronglySorted_app; split_and!; [|done|by repeat constructor].
    intros x y Hx%Hd ->%list_elem_of_singleton. lia.
  - intros x. unfold op. destruct (decide (x = pc)) as [->|Hne].
    + case_decide as Hj; [rewrite elem_of_app, list_elem_of_singleton|].
      * split; [|auto]. intros _. split_and!; [done|done|lia|done].
      * rewrite Hd. split; [lia|naive_solver].
    + assert (x ∈ (if decide (byte_at code pc = opcode JUMPDEST) then dests ++ [pc] else dests) ↔ x ∈ dests)
        as ->. { case_decide; [|done]. rewrite elem_of_app, list_elem_of_singleton. naive_solver. }
      rewrite Hd. split; [intros (?&?&?&?); split_and!; [done|done|lia|done]|].
      intros (Hbx & ? & Hlt & ?). split_and!; [done|done| |done].
      by apply (boundary_between code pc x).
Qed.

Lemma scanned_here code c pc dests : boundary code pc → pc < len code →
  scanned code c pc dests → byte_at c pc = byte_at code pc.
Proof.
  intros Hb Hlen [_ Hs _ _]. pose proof (boundary_nonneg _ _ Hb).
  destruct (Hs pc ltac:(lia)) as [_ ->]; [|lia]. unfold loaded_byte. by rewrite decide_True.
Qed.

Lemma optimize_loop_scanned code rounds c pc dests :
  boundary code pc → scanned code c pc dests → len code - pc ≤ Z.of_nat rounds →
  ∃ c' dests' pc', optimize_loop rounds (len code) pc c dests = Ok (c', dests') ∧
    len code ≤ pc' ∧ scanned code c' pc' dests'.
Proof.
  revert c pc dests. induction rounds as [|k IH]; intros c pc dests Hb Hsc Hr; cbn [optimize_loop].
  { rewrite decide_False by lia. exists c, dests, pc. split_and!; [done|lia|done]. }
  case_decide as Hlt; [|exists c, dests, pc; split_and!; [done|lia|done]]. cbv zeta. rewrite (scanned_here code c pc dests) by done.
  pose proof (scanned_next code c pc dests Hb Hlt Hsc) as Hnext. cbv zeta in Hnext.
  pose proof (boundary_next code pc Hb Hlt) as Hb'. unfold instr_size in Hnext, Hb'.
  case_decide as Hj.
  - rewrite Hj in *. cbn -[optimize_loop len] in Hnext, Hb'. apply IH; [done|done|lia].
  - destruct (is_push (byte_at code pc)) eqn:Ep.
    + replace (pc + (byte_at code pc - opcode PUSH1 + 1) + 1) with (pc + (byte_at code pc - opcode PUSH1 + 2)) by lia.
      apply IH; [done|done|]. unfold is_push in Ep. apply bool_decide_eq_true in Ep. lia.
    + apply IH; [done|done|lia].
Qed.

(** ** The result of the pass *)

(** The jump destinations and the code array [optimize] leaves. *)
Definition dests_ok (code : bytes) (l : list Z) : Prop :=
  StronglySorted Z.lt l ∧
  ∀ x, x ∈ l ↔ boundary code x ∧ x < len code ∧ byte_at code x = opcode JUMPDEST.

Record code_loaded (code c : bytes) : Prop := {
  cl_len : len c = len code + 33;
  cl_neutral i : neutralised code i → byte_at c i = opcode INVALID;
  cl_same i : 0 ≤ i < len code + 33 → ¬ neutralised code i → byte_at c i = loaded_byte code i;
}.

Lemma optimize_loop_ok code :
  ∃ c dests, optimize_loop (length code) (len code) 0 (copyCode code 33) [] = Ok (c, dests) ∧
    code_loaded code c ∧ dests_ok code dests.
Proof.
  destruct (optimize_loop_scanned code (length code) (copyCode code 33) 0 []) as (c & l & pc & He & Hpc & [Hl Hs Hso Hd]);
    [constructor|apply scanned_start|unfold len; lia|].
  exists c, l. split; [done|]. split; [split; [done| |]|split; [done|]].
  - intros i Hn. pose proof Hn as (Hb & Hlt & _). apply boundary_nonneg in Hb. apply Hs; [lia|split; [done|lia]].
  - intros i Hi Hn. apply Hs; [done|tauto].
  - intros x. rewrite Hd. split; [tauto|]. intros (? & ? & ?). split_and!; [done|done|lia|done].
Qed.

(** ** Binary search *)

Lemma sorted_nth_lt l i j : StronglySorted Z.lt l → (i < j < length l)%nat → nth i l 0 < nth j l 0.
Proof.
  intros Hs. revert i j. induction Hs as [|x l Hs IH Hx]; intros i j Hij; [simpl in Hij; lia|].
  simpl in Hij. destruct j as [|j]; [lia|]. destruct i as [|i]; cbn [nth].
  - rewrite list.Forall_forall in Hx. apply Hx. rewrite list_elem_of_In. apply nth_In. lia.
  - apply IH. lia.
Qed.

(** [lower_bound] narrows to the first element that is not below [x]. *)
Lemma lower_bound_spec rounds l first count x :
  StronglySorted Z.lt l → 0 ≤ first → 0 ≤ count → first + count ≤ len l → count ≤ Z.of_nat rounds →
  (∀ i, 0 ≤ i < first → nth (Z.to_nat i) l 0 < x) →
  (∀ i, first + count ≤ i < len l → x ≤ nth (Z.to_nat i) l 0) →
  let r := lower_bound rounds l first count x in
  0 ≤ r ≤ len l ∧ (∀ i, 0 ≤ i < r → nth (Z.to_nat i) l 0 < x) ∧ (∀ i, r ≤ i < len l → x ≤ nth (Z.to_nat i) l 0).
Proof.
  intros Hs. revert first count. induction rounds as [|k IH]; intros first count Hf Hc Hl Hr Hlo Hhi;
    cbn [lower_bound]; cbv zeta.
  { assert (count = 0) as -> by lia. rewrite Z.add_0_r in Hhi. split_and!; [lia|lia|done|done]. }
  case_decide as H0; [|assert (count = 0) as -> by lia; rewrite Z.add_0_r in Hhi; split_and!; [lia|lia|done|done]].
  assert (0 ≤ count / 2 < count) by (split; [apply Z.div_pos; lia|apply Z.div_lt; lia]).
  assert (∀ i j, 0 ≤ i < j → j < len l → nth (Z.to_nat i) l 0 < nth (Z.to_nat j) l 0) as Hmono.
  { intros i j Hi Hj. apply sorted_nth_lt; [done|]. unfold len in Hj. lia. }
  case_decide as Hn.
  - apply IH; [lia|lia|lia|lia| |intros i Hi; apply Hhi; lia]. intros i Hi.
    destruct (decide (i = first + count / 2)) as [->|]; [done|].
    pose proof (Hmono i (first + count / 2) ltac:(lia) ltac:(lia)). lia.
  - apply IH; [lia|lia|lia|lia|done|]. intros i Hi.
    destruct (decide (i = first + count / 2)) as [->|]; [lia|].
    pose proof (Hmono (first + count / 2) i ltac:(lia) ltac:(lia)). lia.
Qed.

Lemma binary_search_spec l x : StronglySorted Z.lt l → binary_search l x = true ↔ x ∈ l.
Proof.
  intros Hs. unfold binary_search. pose proof (len_nonneg l).
  destruct (lower_bound_spec (length l) l 0 (len l) x Hs) as ((Hr0 & Hrl) & Hlo & Hhi); [unfold len; lia..|].
  set (r := lower_bound _ _ _ _ _) in *. assert (∀ i v, l !! i = Some v → nth i l 0 = v) as Hnth.
  { intros i v Hi. by apply nth_lookup_Some with (d := 0) in Hi. }
  split.
  - destruct (l !! Z.to_nat r) as [v|] eqn:E; [|done]. intros Hv.
    apply negb_true_iff, bool_decide_eq_false in Hv. pose proof (lookup_lt_Some _ _ _ E).
    pose proof (Hhi r ltac:(unfold len; lia)) as Hge. rewrite (Hnth _ _ E) in Hge.
    assert (x = v) as -> by lia. by eapply list_elem_of_lookup_2.
  - intros [i Hi]%list_elem_of_lookup_1. pose proof (lookup_lt_Some _ _ _ Hi).
    assert (¬ Z.of_nat i < r) as Hge.
    { intros Hlt. specialize (Hlo (Z.of_nat i) ltac:(lia)). rewrite Nat2Z.id, (Hnth _ _ Hi) in Hlo. lia. }
    destruct (l !! Z.to_nat r) as [v|] eqn:E; [|apply lookup_ge_None in E; unfold len in *; lia].
    apply negb_true_iff, bool_decide_eq_false_2. rewrite <- (Hnth _ _ E).
    destruct (decide (Z.of_nat i = r)) as [<-|]; [rewrite Nat2Z.id, (Hnth _ _ Hi); lia|].
    pose proof (sorted_nth_lt l (Z.to_nat r) i Hs ltac:(lia)) as Hl. rewrite (Hnth _ _ Hi) in Hl. lia.
Qed.
