(* ===== verification/VMTyped.v ===== *)
(** * Typed interpreter states

    What the interpreter relies on of its host and of the instruction metrics,
    the well-typed states between two rounds of the trampoline, and the rules
    for symbolic execution of the primitives the cases are made of. *)

From S2P Require Import Prelude StateErr RLP RLPFacts Crypto VMInstr VM VMAlu VMJump.

Local Open Scope Z_scope.

(** ** What is outside *)

Record txc_ok (c : evmc_tx_context) : Prop := {
  txc_price_ok : word (txc_gas_price c);
  txc_origin_ok : hash_ok address_size (txc_origin c);
  txc_coinbase_ok : hash_ok address_size (txc_coinbase c);
  txc_difficulty_ok : word (txc_difficulty c);
}.

(** EVM-C: numbers are 256 bits wide, addresses 160; a call returns at most
    the gas it was given; [copy_code] fills at most the buffer. *)
Class HostLaws `{Host} : Prop := {
  hl_storage h a k : word (h_get_storage h a k);
  hl_balance h a : word (h_get_balance h a);
  hl_code_size h a : word (h_get_code_size h a);
  hl_code_hash h a : word (h_get_code_hash h a);
  hl_block_hash h n : word (h_get_block_hash h n);
  hl_copy_code h a off size :
    0 ≤ size → bytes_ok (h_copy_code h a off size) ∧ len (h_copy_code h a off size) ≤ size;
  hl_txc h : txc_ok (h_get_tx_context h);
  hl_call h msg : 0 ≤ msg_gas msg →
    let r := (h_call h msg).1 in
    0 ≤ res_gas_left r ≤ msg_gas msg ∧ bytes_ok (res_output r) ∧ len (res_output r) < 2 ^ 63 ∧
    hash_ok address_size (res_create_address r);
}.

(** The instructions with a case of their own. *)
Definition executable (i : Instruction) : bool :=
  match i with
  | PUSHC | JUMPC | JUMPCI | JUMPTO | JUMPIF | JUMPSUB | JUMPV | JUMPSUBV | BEGINSUB | BEGINDATA
  | RETURNSUB | PUTLOCAL | GETLOCAL | XADD | XMUL | XSUB | XDIV | XSDIV | XMOD | XSMOD | XLT | XGT
  | XSLT | XSGT | XEQ | XISZERO | XAND | XOOR | XXOR | XNOT | XSHL | XSHR | XSAR | XROL | XROR
  | XPUSH | XMLOAD | XMSTORE | XSLOAD | XSSTORE | XVTOWIDE | XWIDETOV | XGET | XPUT | XSWIZZLE
  | XSHUFFLE | INVALID => false
  | _ => true
  end.

Abbreviation args i := (info_args (instructionInfo i)).
Abbreviation rets i := (info_ret (instructionInfo i)).

(** EVM-C and the instruction table of the sources agree on the arities and
    the tiers; EXTCODEHASH, whose case relies on the metrics, has a cost. *)
Class MetricsLaws `{Metrics} : Prop := {
  ml_args i : executable i = true → num_stack_arguments (evmc_metrics (opcode i)) = args i;
  ml_rets i : executable i = true → num_stack_returned_items (evmc_metrics (opcode i)) = rets i;
  ml_gas i : executable i = true → 0 ≤ gas_cost (evmc_metrics (opcode i)) < 2 ^ 15;
  ml_tier i t : executable i = true → tierGas (info_tier (instructionInfo i)) = Some t →
    gas_cost (evmc_metrics (opcode i)) = t;
  ml_extcodehash : 0 < gas_cost (evmc_metrics (opcode EXTCODEHASH));
}.

(** Frames a host may start. *)
Record frame_ok (f : Frame) : Prop := {
  fr_code : bytes_ok (f_code f) ∧ len (f_code f) < 2 ^ 62;
  fr_input : bytes_ok (msg_input (f_msg f)) ∧ len (msg_input (f_msg f)) < 2 ^ 62;
  fr_gas : 0 ≤ msg_gas (f_msg f) < 2 ^ 63;
  fr_destination : hash_ok address_size (msg_destination (f_msg f));
  fr_sender : hash_ok address_size (msg_sender (f_msg f));
  fr_value : word (msg_value (f_msg f));
}.

Section typed.
Context {crypto : Crypto} {host : Host} {mtr : Metrics}.
Context (f : Frame).

(** ** States *)

(** The data of a running frame. *)
Record live (s : VM) : Prop := {
  lv_stack : length (vm_stack s) = 1024%nat;
  lv_words : Forall word (vm_stack s);
  lv_mem : bytes_ok (vm_mem s);
  lv_mem_size : (32 | len (vm_mem s)) ∧ len (vm_mem s) ≤ 2 ^ 42;
  lv_returnData : bytes_ok (vm_returnData s) ∧ len (vm_returnData s) < 2 ^ 63;
  lv_txc : ∀ c, vm_tx_context s = Some c → txc_ok c;
  lv_gas : 0 ≤ vm_io_gas s < 2 ^ 63;
  lv_pc : boundary (f_code f) (vm_PC s);
  lv_output : vm_output s = [];
}.

Record loaded (s : VM) : Prop := {
  ld_code : code_loaded (f_code f) (vm_code s);
  ld_dests : dests_ok (f_code f) (vm_jumpDests s);
}.

(** Between the fetch of [i] and the end of its case, with [g] gas left:
    after a case has moved [m_SP]... *)
Record settled (i : Instruction) (g : Z) (s : VM) : Prop := {
  se_live : live s;
  se_loaded : loaded s;
  se_bounce : vm_bounce s = InterpretCases;
  se_SPP : 0 ≤ vm_SPP s ≤ 1024;
  se_here : vm_PC s < len (f_code f) ∧ byte_at (f_code f) (vm_PC s) = opcode i;
  se_gas : vm_io_gas s = g;
}.

(** ... while [m_SP] and [m_SPP] are where the fetch left them... *)
Record closing (i : Instruction) (g : Z) (s : VM) : Prop := {
  cs_settled : settled i g s;
  cs_SP : 0 ≤ vm_SP s ∧ vm_SP s + args i ≤ 1024;
  cs_SPP : vm_SPP s = vm_SP s + args i - rets i;
  cs_OP : vm_OP s = opcode i;
}.

(** ... and before anything is pushed: [w n] is the operand [m_SP[n]], [r] the
    gas to be charged, [m] the size of the memory, [c] the bytes to copy. *)
Record operating (i : Instruction) (g r m c : Z) (w : Z → Z) (s : VM) : Prop := {
  op_closing : closing i g s;
  op_operand n : 0 ≤ n < args i → vm_stack s !! Z.to_nat (vm_SP s + n) = Some (w n) ∧ word (w n);
  op_run : vm_runGas s = r;
  op_mem : len (vm_mem s) = m;
  op_copy : vm_copyMemSize s = c;
}.

(** The states at the trampoline. A frame waits for a sub-call with its
    operands on the stack. *)
Definition waiting (s : VM) (ops : list Instruction) : Prop :=
  ∃ i r m w, i ∈ ops ∧ operating i (vm_io_gas s) r m 0 w (set_bounce InterpretCases s).

Definition typed (s : VM) : Prop :=
  match vm_bounce s with
  | InitEntry => live s ∧ vm_SPP s = 1024 ∧ vm_jumpDests s = []
  | InterpretCases => live s ∧ loaded s ∧ 0 ≤ vm_SPP s ≤ 1024
  | CaseCreate => waiting s [CREATE; CREATE2]
  | CaseCall => waiting s [CALL; CALLCODE; DELEGATECALL; STATICCALL]
  | Finished => 0 ≤ vm_io_gas s < 2 ^ 63 ∧ bytes_ok (vm_output s)
  end.

(** What a round does to the gas. *)
Definition stepped (g : Z) (s : VM) : Prop :=
  typed s ∧
  match vm_bounce s with
  | InitEntry => False
  | InterpretCases => vm_io_gas s < g
  | _ => vm_io_gas s ≤ g
  end.

(** The exceptions of the interpreter. *)
Definition vm_error (g : Z) (e : exn) (s : VM) : Prop :=
  match e with
  | OutOfGas | BadInstruction | BadJumpDestination | OutOfStack | StackUnderflow
  | DisallowedStateChange | BufferOverrun => True
  | RevertInstruction => 0 ≤ vm_io_gas s ≤ g ∧ bytes_ok (vm_output s)
  | _ => False
  end.

(** ** Irrelevant fields *)

Ltac same_fields :=
  intros; repeat match goal with H : settled _ _ _ |- _ => destruct H | H : live _ |- _ => destruct H
                                | H : loaded _ |- _ => destruct H end;
  repeat match goal with |- settled _ _ _ => constructor | |- live _ => constructor
                       | |- loaded _ => constructor end; try done.

Lemma settled_runGas i g x s : settled i g s → settled i g (set_runGas x s).
Proof. same_fields. Qed.
Lemma settled_newMemSize i g x s : settled i g s → settled i g (set_newMemSize x s).
Proof. same_fields. Qed.
Lemma settled_copyMemSize i g x s : settled i g s → settled i g (set_copyMemSize x s).
Proof. same_fields. Qed.
Lemma settled_host i g x s : settled i g s → settled i g (set_host x s).
Proof. same_fields. Qed.
Lemma settled_SP i g x s : settled i g s → settled i g (set_SP x s).
Proof. same_fields. Qed.
Lemma settled_returnData i g d s :
  bytes_ok d → len d < 2 ^ 63 → settled i g s → settled i g (set_returnData d s).
Proof. same_fields. Qed.
Lemma settled_gas i g g' s : 0 ≤ g' < 2 ^ 63 → settled i g s → settled i g' (set_io_gas g' s).
Proof. same_fields. Qed.
Lemma settled_stack i g st s :
  length st = 1024%nat → Forall word st → settled i g s → settled i g (set_stack st s).
Proof. same_fields. Qed.
Lemma settled_mem i g d s :
  bytes_ok d → (32 | len d) → len d ≤ 2 ^ 42 → settled i g s → settled i g (set_mem d s).
Proof. same_fields. Qed.
Lemma settled_txc i g c s : txc_ok c → settled i g s → settled i g (set_tx_context (Some c) s).
Proof. same_fields. simpl. by intros ? [= <-]. Qed.

Lemma closing_lift i g g' s s' :
  closing i g s → settled i g' s' → vm_SP s' = vm_SP s → vm_SPP s' = vm_SPP s → vm_OP s' = vm_OP s →
  closing i g' s'.
Proof. intros [] ? E1 E2 E3. constructor; rewrite ?E1, ?E2, ?E3; done. Qed.

Lemma operating_lift i g r m c w g' r' m' c' s s' :
  operating i g r m c w s → settled i g' s' →
  vm_SP s' = vm_SP s → vm_SPP s' = vm_SPP s → vm_OP s' = vm_OP s → vm_stack s' = vm_stack s →
  vm_runGas s' = r' → len (vm_mem s') = m' → vm_copyMemSize s' = c' →
  operating i g' r' m' c' w s'.
Proof.
  intros [] ? E1 E2 E3 E4 ???. constructor; rewrite ?E1, ?E4; try done. by eapply closing_lift.
Qed.

Lemma operating_settled i g r m c w s : operating i g r m c w s → settled i g s.
Proof. by intros [[] ]. Qed.

Lemma operating_gas i g r m c w s : operating i g r m c w s → 0 ≤ g < 2 ^ 63.
Proof. intros [[[[] _ _ _ _ <-] _ _ _] _ _ _ _]. done. Qed.

Lemma operating_mem i g r m c w s : operating i g r m c w s → (32 | m) ∧ 0 ≤ m ≤ 2 ^ 42.
Proof. intros [[[[] ] ] _ _ <- _]. split; [tauto|]. split; [apply len_nonneg|tauto]. Qed.

(** ** Rules *)

Section rules.
Context (g0 : Z).
Implicit Types (i : Instruction) (w : Z → Z).

Lemma wp_toInt63 v Q s : 0 ≤ v → (v ≤ INT64_MAX → Q v s) → wp (toInt63 v) Q (vm_error g0) s.
Proof.
  intros Hv HQ. apply wp_bind, wp_throw_if; [done|]. intros Hle. apply wp_ret.
  rewrite u64_small; [apply HQ; lia|unfold INT64_MAX in *; lia].
Qed.

Lemma wp_memNeed o z Q s : word o → word z →
  (∀ n, 0 ≤ n < 2 ^ 63 → (z ≠ 0 ∧ n = o + z) ∨ (z = 0 ∧ n = 0) → Q n s) →
  wp (memNeed o z) Q (vm_error g0) s.
Proof.
  unfold word. intros Ho Hz HQ. unfold memNeed. case_decide as H0.
  - apply wp_toInt63; [lia|]. unfold INT64_MAX. intros ?. apply HQ; [lia|auto].
  - apply wp_toInt63; [lia|]. intros ?. apply HQ; [lia|]. right. split; [lia|done].
Qed.

Lemma wp_sp i g r m c w n Q s :
  operating i g r m c w s → 0 ≤ n < args i → (word (w n) → Q (w n) s) → wp (sp n) Q (vm_error g0) s.
Proof.
  intros [[_ [] _ _] Hw _ _ _] Hn HQ. destruct (Hw n Hn) as [E Hword]. apply wp_bind, wp_get.
  rewrite E. destruct (decide _); [by apply wp_ret, HQ|lia].
Qed.

Lemma wp_set_gas i g r m c w x Q s :
  operating i g r m c w s → (∀ s', operating i g x m c w s' → Q tt s') →
  wp (set_gas x) Q (vm_error g0) s.
Proof.
  intros Hop HQ. apply wp_modify, HQ. pose proof Hop as [_ _ _ <- <-].
  apply (operating_lift _ _ _ _ _ _ _ _ _ _ _ _ Hop); [|done..]. apply settled_runGas; try done. exact (operating_settled _ _ _ _ _ _ _ Hop).
Qed.

Lemma wp_set_copyMemSize i g r m c w x Q s :
  operating i g r m c w s → (∀ s', operating i g r m x w s' → Q tt s') →
  wp (smodify (set_copyMemSize x)) Q (vm_error g0) s.
Proof.
  intros Hop HQ. apply wp_modify, HQ. pose proof Hop as [_ _ <- <- _].
  apply (operating_lift _ _ _ _ _ _ _ _ _ _ _ _ Hop); [|done..]. apply settled_copyMemSize; try done. exact (operating_settled _ _ _ _ _ _ _ Hop).
Qed.

Lemma wp_set_newMemSize i g r m c w x Q s :
  operating i g r m c w s →
  (∀ s', operating i g r m c w s' → vm_newMemSize s' = x → Q tt s') →
  wp (smodify (set_newMemSize x)) Q (vm_error g0) s.
Proof.
  intros Hop HQ. apply wp_modify, HQ; [|done]. pose proof Hop as [_ _ <- <- <-].
  apply (operating_lift _ _ _ _ _ _ _ _ _ _ _ _ Hop); [|done..]. apply settled_newMemSize; try done. exact (operating_settled _ _ _ _ _ _ _ Hop).
Qed.

Lemma wp_set_host i g r m c w h Q s :
  operating i g r m c w s → (∀ s', operating i g r m c w s' → Q tt s') →
  wp (smodify (λ s, set_host (h s) s)) Q (vm_error g0) s.
Proof.
  intros Hop HQ. apply wp_modify, HQ. pose proof Hop as [_ _ <- <- <-].
  apply (operating_lift _ _ _ _ _ _ _ _ _ _ _ _ Hop); [|done..]. apply settled_host; try done. exact (operating_settled _ _ _ _ _ _ _ Hop).
Qed.

Lemma wp_set_returnData i g r m c w d Q s :
  operating i g r m c w s → bytes_ok d → len d < 2 ^ 63 → (∀ s', operating i g r m c w s' → Q tt s') →
  wp (smodify (set_returnData d)) Q (vm_error g0) s.
Proof.
  intros Hop ?? HQ. apply wp_modify, HQ. pose proof Hop as [_ _ <- <- <-].
  apply (operating_lift _ _ _ _ _ _ _ _ _ _ _ _ Hop); [|done..]. apply settled_returnData; try done. exact (operating_settled _ _ _ _ _ _ _ Hop).
Qed.

Lemma wp_updateIOGas i g r m c w Q s :
  operating i g r m c w s → 0 ≤ r → (∀ s', r ≤ g → operating i (g - r) r m c w s' → Q tt s') →
  wp updateIOGas Q (vm_error g0) s.
Proof.
  intros Hop Hr HQ. apply wp_bind, wp_get, wp_bind, wp_throw_if; [done|]. intros Hle.
  pose proof (operating_gas _ _ _ _ _ _ _ Hop). pose proof (operating_settled _ _ _ _ _ _ _ Hop) as Hse.
  pose proof Hop as [_ _ <- <- <-]. pose proof Hse as [_ _ _ _ _ <-].
  apply wp_modify, HQ; [lia|]. apply (operating_lift _ _ _ _ _ _ _ _ _ _ _ _ Hop); [|done..].
  eapply settled_gas; [lia|done].
Qed.

Lemma wp_getTxContext `{!HostLaws} i g r m c w Q s :
  operating i g r m c w s →
  (∀ t s', txc_ok t → operating i g r m c w s' → Q t s') → wp getTxContext Q (vm_error g0) s.
Proof.
  intros Hop HQ. apply wp_bind, wp_get. pose proof (operating_settled _ _ _ _ _ _ _ Hop) as Hse.
  destruct (vm_tx_context s) as [t|] eqn:E.
  - apply wp_ret, HQ; [|done]. destruct Hse as [[]]. auto.
  - cbv zeta. apply wp_bind, wp_modify, wp_ret, HQ; [apply hl_txc|]. pose proof Hop as [_ _ <- <- <-].
    apply (operating_lift _ _ _ _ _ _ _ _ _ _ _ _ Hop); [|done..]. apply settled_txc; [apply hl_txc|done].
Qed.
(** The price of a memory of [size] bytes. *)
Definition mem_price (size : Z) : Z := memoryGas * (size / 32) + size / 32 * (size / 32) / quadCoeffDiv.

Lemma mem_price_mono a b : 0 ≤ a ≤ b → 0 ≤ mem_price a ≤ mem_price b.
Proof.
  intros Hab. unfold mem_price, memoryGas, quadCoeffDiv.
  assert (0 ≤ a / 32 ≤ b / 32) by (split; [apply Z.div_pos; lia|apply Z.div_le_mono; lia]).
  assert (0 ≤ a / 32 * (a / 32) / 512 ≤ b / 32 * (b / 32) / 512)
    by (split; [apply Z.div_pos; nia|apply Z.div_le_mono; nia]). lia.
Qed.

Lemma mem_price_bound a : 0 ≤ a → mem_price a ≤ INT64_MAX → a ≤ 2 ^ 42.
Proof.
  intros Ha. unfold mem_price, memoryGas, quadCoeffDiv, INT64_MAX. intros Hp.
  destruct (decide (a ≤ 2 ^ 42)); [done|exfalso].
  assert (2 ^ 37 ≤ a / 32) by (apply Z.div_le_lower_bound; lia).
  assert (2 ^ 65 ≤ a / 32 * (a / 32) / 512) by (apply Z.div_le_lower_bound; nia). lia.
Qed.

Lemma wp_gasForMem size Q s : 0 ≤ size → (mem_price size ≤ INT64_MAX → Q (mem_price size) s) →
  wp (gasForMem size) Q (vm_error g0) s.
Proof.
  intros Hs HQ. unfold gasForMem. cbv zeta. apply wp_toInt63; [|exact HQ].
  pose proof (mem_price_mono 0 size). unfold mem_price in *. lia.
Qed.

(** [updateGas] adds the price of the new memory and of the copy. *)
Lemma wp_updateGas g r m c n Q s :
  vm_io_gas s = g → vm_runGas s = r → len (vm_mem s) = m → vm_copyMemSize s = c → vm_newMemSize s = n →
  0 ≤ r → 0 ≤ m → 0 ≤ c < 2 ^ 63 → r + copyGas * ((c + 31) / 32) ≤ 2 ^ 63 →
  (∀ r', r ≤ r' ≤ g → (m < n → n ≤ 2 ^ 42) → Q tt (set_runGas r' s)) →
  wp updateGas Q (vm_error g0) s.
Proof.
  intros Eg Er Em Ec En Hr Hm Hc Hb HQ. apply wp_bind, wp_get. rewrite Er, Em, En. unfold copyGas in Hb.
  assert (0 ≤ (c + 31) / 32 ≤ c + 31) by (split; [apply Z.div_pos; lia|apply Z.div_le_upper_bound; lia]).
  assert (∀ d, 0 ≤ d ≤ INT64_MAX → (m < n → n ≤ 2 ^ 42) → wp (s ← sget;
    smodify (set_runGas (u64 (vm_runGas s + u64 (copyGas * (u64 (vm_copyMemSize s + 31) / 32)))));;
    s ← sget; sthrow_if (vm_io_gas s < vm_runGas s) OutOfGas) Q (vm_error g0) (set_runGas (r + d) s)) as Htail.
  { intros d Hd Hn. unfold INT64_MAX in Hd. unfold copyGas. apply wp_bind, wp_get, wp_bind, wp_modify, wp_bind, wp_get.
    change (vm_copyMemSize (set_runGas (r + d) s)) with (vm_copyMemSize s). rewrite Ec.
    rewrite (u64_small (c + 31)), (u64_small (3 * _)) by lia. cbn [vm_runGas set_runGas].
    rewrite u64_small by lia. apply wp_throw_if; [done|]. cbn [vm_runGas vm_io_gas set_runGas].
    rewrite Eg. intros Hle. apply HQ; [lia|done]. }
  apply wp_bind, wp_when.
  - intros Hlt. pose proof (mem_price_mono m n). apply wp_bind, wp_gasForMem; [lia|]. intros Ha.
    apply wp_bind, wp_gasForMem; [lia|]. intros _.
    unfold INT64_MAX in Ha. pose proof (mem_price_bound n) as Hn42. unfold INT64_MAX in Hn42.
    rewrite (u64_small (mem_price n - mem_price m)) by lia.
    apply wp_bind, wp_toInt63; [lia|]. intros Hd. apply wp_modify. unfold INT64_MAX in Hd.
    rewrite u64_small by lia. apply Htail; [unfold INT64_MAX; lia|lia].
  - intros Hge. replace s with (set_runGas (r + 0) s) at 1; [apply Htail; [unfold INT64_MAX; lia|lia]|].
    destruct s. cbn in Er. unfold set_runGas. cbn. by rewrite Er, Z.add_0_r.
Qed.

Lemma divide_round n : (32 | n / 32 * 32).
Proof. by exists (n / 32). Qed.

Lemma wp_updateMem i g r m c w n Q s :
  operating i g r m c w s → 0 ≤ n ≤ 2 ^ 63 + 32 → 0 ≤ r → 0 ≤ c < 2 ^ 63 →
  r + copyGas * ((c + 31) / 32) ≤ 2 ^ 63 →
  (∀ r' m' s', r ≤ r' ≤ g → n ≤ m' → operating i g r' m' c w s' → Q tt s') →
  wp (updateMem n) Q (vm_error g0) s.
Proof.
  intros Hop Hn Hr Hc Hb HQ. unfold updateMem.
  pose proof (operating_mem _ _ _ _ _ _ _ Hop) as [Hm32 Hm]. pose proof (operating_settled _ _ _ _ _ _ _ Hop) as Hse.
  rewrite (u64_small (n + 31)) by lia.
  pose proof (Z.mod_pos_bound (n + 31) 32). pose proof (Z.div_mod (n + 31) 32).
  set (n' := (n + 31) / 32 * 32). assert (n ≤ n' < n + 32) as Hn' by lia. rewrite (u64_small n') by lia.
  pose proof Hop as [_ _ Er Em Ec]. pose proof Hse as [_ _ _ _ _ Eg].
  apply wp_bind, wp_modify, wp_bind. eapply (wp_updateGas g r m c n'); try done; [lia|].
  intros r' Hr' Hn42. apply wp_bind, wp_get, wp_when.
  - cbn [vm_mem vm_newMemSize set_runGas set_newMemSize]. intros Hlt. apply wp_modify.
    assert (len (vm_mem s ++ replicate (Z.to_nat (n' - len (vm_mem s))) 0) = n') as Hlen.
    { unfold len in *. rewrite length_app, length_replicate. lia. }
    apply (HQ r' n'); [done|lia|]. apply (operating_lift _ _ _ _ _ _ _ _ _ _ _ _ Hop); try done.
    apply settled_mem; [|rewrite Hlen; apply divide_round|lia|by apply settled_runGas, settled_newMemSize].
    apply bytes_ok_app. split; [by destruct Hse as [[]]|]. apply list.Forall_replicate. unfold is_byte. lia.
  - cbn [vm_mem vm_newMemSize set_runGas set_newMemSize]. intros Hge.
    apply (HQ r' m); [done|lia|]. apply (operating_lift _ _ _ _ _ _ _ _ _ _ _ _ Hop); try done.
    by apply settled_runGas, settled_newMemSize.
Qed.
Lemma wp_mem_slice i g r m c w off size Q s :
  operating i g r m c w s → 0 ≤ size → size = 0 ∨ (0 ≤ off ∧ off + size ≤ m) →
  (∀ d, bytes_ok d → len d = size → Q d s) → wp (mem_slice off size) Q (vm_error g0) s.
Proof.
  intros Hop Hs Hin HQ. apply wp_bind, wp_get. apply wp_if.
  - intros ->. apply wp_ret, HQ; [constructor|done].
  - intros Hne. pose proof Hop as [_ _ _ Em _]. apply wp_bind, wp_throw_if; [lia|]. intros _. apply wp_ret, HQ.
    + apply Forall_take, Forall_drop. by destruct (operating_settled _ _ _ _ _ _ _ Hop) as [[]].
    + unfold len in *. rewrite length_take, length_drop. lia.
Qed.

Lemma wp_mem_write i g r m c w off d Q s :
  operating i g r m c w s → bytes_ok d → d = [] ∨ (0 ≤ off ∧ off + len d ≤ m) →
  (∀ s', operating i g r m c w s' → Q tt s') → wp (mem_write off d) Q (vm_error g0) s.
Proof.
  intros Hop Hd Hin HQ. apply wp_bind, wp_get. apply wp_if.
  - intros _. by apply wp_ret, HQ.
  - intros Hne. pose proof Hop as [_ _ Er Em Ec]. pose proof (operating_settled _ _ _ _ _ _ _ Hop) as Hse.
    apply wp_bind, wp_throw_if; [destruct Hin; [done|lia]|]. intros _. destruct Hin as [|Hin]; [done|].
    apply wp_modify, HQ. pose proof (len_nonneg d). pose proof Hse as [[]].
    assert (len (take (Z.to_nat off) (vm_mem s) ++ d ++ drop (Z.to_nat (off + len d)) (vm_mem s)) = m) as Hlen.
    { unfold len in *. rewrite !length_app, length_take, length_drop. lia. }
    apply (operating_lift _ _ _ _ _ _ _ _ _ _ _ _ Hop); try done.
    apply settled_mem; [|rewrite Hlen, <- Em; tauto|rewrite Hlen, <- Em; tauto|done].
    apply bytes_ok_app. split; [by apply Forall_take|]. apply bytes_ok_app. split; [done|by apply Forall_drop].
Qed.

(** Writes to the stack; from the first one on the operands are forgotten. *)
Lemma wp_set_slot i g k v Q s :
  closing i g s → 0 ≤ k < 1024 → word v → (∀ s', closing i g s' → Q tt s') →
  wp (set_slot k v) Q (vm_error g0) s.
Proof.
  intros Hcl Hk Hv HQ. pose proof (cs_settled _ _ _ Hcl) as Hse. pose proof Hse as [[]].
  apply wp_bind, wp_get, wp_bind, wp_throw_if; [lia|]. intros _. apply wp_modify, HQ.
  eapply closing_lift; [done| |done..]. apply settled_stack; [by rewrite length_insert|by apply Forall_insert|done].
Qed.

Lemma wp_set_spp i g v Q s :
  closing i g s → 1 ≤ rets i → word v → (∀ s', closing i g s' → Q tt s') →
  wp (set_spp v) Q (vm_error g0) s.
Proof.
  intros Hcl Hr Hv HQ. apply wp_bind, wp_get. apply (wp_set_slot i g); [done| |done|done].
  destruct Hcl as [[]]. lia.
Qed.

Lemma wp_set_sp i g n v Q s :
  closing i g s → 0 ≤ n < args i → word v → (∀ s', closing i g s' → Q tt s') →
  wp (set_sp n v) Q (vm_error g0) s.
Proof.
  intros Hcl Hn Hv HQ. apply wp_bind, wp_get. apply (wp_set_slot i g); [done| |done|done].
  destruct Hcl as [[]]. lia.
Qed.

(** ** Ends of a case *)

Lemma settled_pc_range i g s : frame_ok f → settled i g s → 0 ≤ vm_PC s < 2 ^ 62.
Proof. intros [[]] [[] _ _ _ [] _]. pose proof (boundary_nonneg _ _ lv_pc0). lia. Qed.

Lemma wp_goto i g pc Q s :
  settled i g s → boundary (f_code f) pc → g < g0 → (∀ s', stepped g0 s' → Q tt s') →
  wp (smodify (set_PC pc)) Q (vm_error g0) s.
Proof.
  intros [[] [] Hb Hspp Hpc Hg] Hpc' Hlt HQ. apply wp_modify, HQ. split.
  - unfold typed. cbn [vm_bounce set_PC]. rewrite Hb. split; [by constructor|split; [by constructor|done]].
  - cbn [vm_bounce vm_io_gas set_PC]. rewrite Hb. lia.
Qed.

Lemma wp_inc_pc i g s :
  frame_ok f → settled i g s → instr_size (opcode i) = 1 → g < g0 →
  wp inc_pc (λ _, stepped g0) (vm_error g0) s.
Proof.
  intros Hf Hse Hsize Hlt. pose proof (settled_pc_range _ _ _ Hf Hse) as Hpc.
  pose proof Hse as [[] _ _ _ [Hlen Hop] _]. pose proof (boundary_next _ _ lv_pc0 Hlen) as Hnext.
  rewrite Hop, Hsize in Hnext. unfold inc_pc.
  apply wp_modify. rewrite u64_small by lia. by apply (wp_goto i g _ (λ _, stepped g0) s).
Qed.

(** A case that ends the run with [d] as output. *)
Lemma stepped_finish i g s d : settled i g s → g ≤ g0 → bytes_ok d →
  stepped g0 (set_bounce Finished (set_mem [] (set_output d s))).
Proof. intros [[] _ _ _ _ <-] Hle Hd. split; [|cbn; lia]. unfold typed. cbn. by split. Qed.

Lemma stepped_stop i g s : settled i g s → g ≤ g0 → stepped g0 (set_bounce Finished s).
Proof.
  intros [[] _ _ _ _ <-] Hle. split; [|cbn; lia]. unfold typed. cbn. split; [lia|]. rewrite lv_output0. constructor.
Qed.

Lemma stepped_wait i g r m w s b ops :
  operating i g r m 0 w s → g ≤ g0 → i ∈ ops →
  (b = CaseCreate ∧ ops = [CREATE; CREATE2]) ∨ (b = CaseCall ∧ ops = [CALL; CALLCODE; DELEGATECALL; STATICCALL]) →
  stepped g0 (set_bounce b s).
Proof.
  intros Hop Hle Hi Hb. pose proof (operating_settled _ _ _ _ _ _ _ Hop) as [Hl Hld Hbn Hspp Hh Hg].
  assert (waiting (set_bounce b s) ops) as Hw.
  { exists i, r, m, w. split; [done|]. cbn [vm_io_gas set_bounce]. rewrite Hg.
    pose proof Hop as [_ _ <- <- <-].
    apply (operating_lift _ _ _ _ _ _ _ _ _ _ _ _ Hop); try done.
    pose proof (operating_settled _ _ _ _ _ _ _ Hop). same_fields. }
  destruct Hb as [[-> ->]|[-> ->]]; (split; [done|cbn; lia]).
Qed.

Lemma wp_verifyJumpDest i g r m c w a Q s :
  operating i g r m c w s → word a →
  (∀ pc, boundary (f_code f) pc → Q pc s) → wp (verifyJumpDest a) Q (vm_error g0) s.
Proof.
  intros Hop Ha HQ. apply wp_bind, wp_get. apply wp_if; [|intros _; by apply wp_throw].
  intros [_ Hs]. apply wp_ret, HQ. destruct (operating_settled _ _ _ _ _ _ _ Hop) as [_ [_ [Hso Hd]] _ _ _ _].
  apply binary_search_spec in Hs; [|done]. by apply Hd.
Qed.
End rules.
End typed.
