(* ===== verification/VMCases.v ===== *)
(** * Type safety of the cases

    Each case of [interpretCases], run from a typed state after its fetch,
    stays within the stack, the memory and the code, charges gas, and ends in
    a typed state or in one of the exceptions of the interpreter. *)

From S2P Require Import Prelude StateErr RLP RLPFacts Crypto VMInstr VM VMAlu VMJump VMTyped.

Local Open Scope Z_scope.

(** One step of symbolic execution: the rule of the primitive at the head. *)
Ltac vm_lia :=
  first [lia | unfold copyGas, word, INT64_MAX in *; try change ((0 + 31) / 32) with 0; lia].
Ltac vm_side := first [eassumption | done | vm_lia].
Ltac vm_op Hop rule :=
  eapply rule; [exact Hop|try vm_side..|]; clear Hop.
Ltac vm_step :=
  lazymatch goal with
  | |- wp (_ ≫= _) _ _ _ => apply wp_bind
  | |- wp (mret _) _ _ _ => apply wp_ret
  | |- wp sget _ _ _ => apply wp_get
  | |- wp (deny_static _) _ _ _ => apply wp_throw_if; [done|intros ?]
  | |- wp (require_rev _ _) _ _ _ => apply wp_throw_if; [done|intros ?]
  | |- wp (sthrow_if _ _) _ _ _ => apply wp_throw_if; [try done|intros ?]
  | |- wp (toInt63 _) _ _ _ => apply wp_toInt63; [try vm_lia|intros ?Hv]
  | |- wp (memNeed _ _) _ _ _ => apply wp_memNeed; [try done|try done|intros ?n ?Hn0 ?Hn]
  | |- wp (if decide _ then _ else _) _ _ _ => apply wp_if; intros ?
  | |- wp (swhen _ _) _ _ _ => apply wp_when; intros ?
  | Hop : operating _ _ _ _ _ _ _ ?s |- wp (sp _) _ _ ?s => eapply wp_sp; [exact Hop|try lia|intros ?Hw]
  | Hop : operating _ _ _ _ _ _ _ ?s |- wp (set_gas _) _ _ ?s => vm_op Hop wp_set_gas; intros ?s ?Hop
  | Hop : operating _ _ _ _ _ _ _ ?s |- wp updateIOGas _ _ ?s => vm_op Hop wp_updateIOGas; intros ?s ?Hle ?Hop
  | Hop : operating _ _ _ _ _ _ _ ?s |- wp (updateMem _) _ _ ?s =>
      vm_op Hop wp_updateMem; intros ?r ?m ?s ?Hr ?Hm ?Hop
  | Hop : operating _ _ _ _ _ _ _ ?s |- wp (mem_slice _ _) _ _ ?s =>
      eapply wp_mem_slice; [exact Hop|try vm_lia|try vm_lia|intros ?d ?Hd ?Hl]
  | Hop : operating _ _ _ _ _ _ _ ?s |- wp getTxContext _ _ ?s =>
      eapply wp_getTxContext; [apply _|exact Hop|]; clear Hop; intros ?t ?s ?Ht ?Hop
  | Hop : operating _ _ _ _ _ _ _ ?s |- wp (smodify (set_copyMemSize _)) _ _ ?s =>
      vm_op Hop wp_set_copyMemSize; intros ?s ?Hop
  | Hop : operating _ _ _ _ _ _ _ ?s |- wp (smodify (set_newMemSize _)) _ _ ?s =>
      vm_op Hop wp_set_newMemSize; intros ?s ?Hop ?Hnew
  | Hop : operating _ _ _ _ _ _ _ ?s |- wp (smodify (λ st, set_host _ st)) _ _ ?s =>
      vm_op Hop wp_set_host; intros ?s ?Hop
  | Hop : operating _ _ _ _ _ _ _ ?s |- wp (set_spp _) _ _ ?s => apply op_closing in Hop
  | Hop : operating _ _ _ _ _ _ _ ?s |- wp (set_sp _ _) _ _ ?s => apply op_closing in Hop
  | Hop : closing _ _ _ ?s |- wp (set_spp _) _ _ ?s => vm_op Hop wp_set_spp; [..|intros ?s ?Hop]
  | Hop : closing _ _ _ ?s |- wp (set_sp _ _) _ _ ?s => vm_op Hop wp_set_sp; [..|intros ?s ?Hop]
  | Hop : operating _ _ _ _ _ _ _ ?s |- wp inc_pc _ _ ?s => apply operating_settled in Hop
  | Hop : closing _ _ _ ?s |- wp inc_pc _ _ ?s => apply cs_settled in Hop
  | Hop : settled _ _ _ ?s |- wp inc_pc _ _ ?s => eapply wp_inc_pc; [done|exact Hop|done|vm_lia]
  end.
Ltac vm_run := repeat vm_step.

Lemma byte_at_ok d k : bytes_ok d → is_byte (byte_at d k).
Proof.
  intros Hd. unfold byte_at. rewrite nth_lookup. destruct (d !! _) as [b|] eqn:E; cbn.
  - by eapply Forall_lookup_1.
  - unfold is_byte. lia.
Qed.

Lemma bytes_word d : bytes_ok d → len d = 32 → word (fromBigEndian id d).
Proof. intros Hd Hl. by apply (hash_word 32). Qed.

Lemma len_word d : len d < 2 ^ 64 → word (len d).
Proof. intros. unfold word. pose proof (len_nonneg d). lia. Qed.

Section cases.
Context {crypto : Crypto} {host : Host} {mtr : Metrics}.
Context {Hcrypto : CryptoLaws} {Hhost : HostLaws}.
Context (f : Frame) (Hf : frame_ok f).

Section one.
Context (i : Instruction) (g r m : Z) (w : Z → Z) (s : VM).
Context (Hop : operating f i g r m 0 w s) (Hr : 0 ≤ r < 2 ^ 15).

Abbreviation safe m := (wp m (λ _, stepped f g) (vm_error g) s).

(** ** Arithmetic *)

Section ordinary.
Context (Hpaid : 0 < r) (Hret : rets i = 1) (Hsize : instr_size (opcode i) = 1).

Lemma unop_safe op : args i = 1 → (∀ a, word a → word (op a)) → safe (unop op).
Proof using All. intros Ha Hc. unfold unop. vm_run. auto. Qed.

Lemma binop_safe op : args i = 2 → (∀ a b, word a → word b → word (op a b)) → safe (binop op).
Proof using All. intros Ha Hc. unfold binop. vm_run. auto. Qed.

Lemma divop_safe op : args i = 2 → (∀ a b, word a → word b → ∃ v, op a b = Ok v ∧ word v) → safe (divop op).
Proof using All.
  intros Ha Hc. unfold divop. vm_run. destruct (Hc (w 0) (w 1)) as (v & E & Hv); [done..|].
  eapply wp_eq; [unfold slift; by rewrite E|]. vm_run.
Qed.

Lemma ternop_safe op :
  args i = 3 → (∀ a b c, word a → word b → word c → word (op a b c)) → safe (ternop op).
Proof using All. intros Ha Hc. unfold ternop. vm_run. auto. Qed.

Lemma shift_op_safe op :
  args i = 2 → (∀ a b, word a → word b → word (op a b)) → safe (shift_op f op).
Proof using All. intros Ha Hc. unfold shift_op, binop. vm_run. auto. Qed.

Lemma case_SDIV_safe : args i = 2 → safe case_SDIV.
Proof using All.
  intros Ha. unfold case_SDIV. vm_run. destruct (alu_sdiv_value (w 0) (w 1)) as (v & E & Hv); [done..|].
  eapply wp_eq; [unfold slift; by rewrite E|]. vm_run.
  apply wp_modify. eapply wp_inc_pc; [done|apply settled_SP; by eapply cs_settled|done|lia].
Qed.

Lemma case_SIGNEXTEND_safe : args i = 2 → safe case_SIGNEXTEND.
Proof using All. intros Ha. unfold case_SIGNEXTEND. vm_run. by apply alu_signextend_word. Qed.

(** ** Environment *)

Lemma push_env_safe (e : SM VM Z) :
  (∀ g' s', operating f i g' r m 0 w s' →
     wp e (λ v s2, word v ∧ operating f i g' r m 0 w s2) (vm_error g) s') →
  safe (push_env e).
Proof using All.
  intros He. unfold push_env. vm_run. eapply wp_mono; [by apply He| |done].
  intros v s2 [Hv Hop2]. vm_run.
Qed.

Lemma push_value_safe v : word v → safe (push_env (mret v)).
Proof using All. intros Hv. apply push_env_safe. intros g' s' H'. by apply wp_ret. Qed.

Lemma push_state_safe (F : VM → Z) :
  (∀ g' s', operating f i g' r m 0 w s' → word (F s')) → safe (push_env (s ← sget; mret (F s))).
Proof using All. intros HF. apply push_env_safe. intros g' s' H'. vm_run. split; [by eapply HF|done]. Qed.

Lemma push_txc_safe (F : evmc_tx_context → Z) :
  (∀ t, txc_ok t → word (F t)) → safe (push_env (c ← getTxContext; mret (F c))).
Proof using All.
  intros HF. apply push_env_safe. intros g' s' H'. vm_run. split; [by apply HF|done].
Qed.

Lemma case_RETURNDATASIZE_safe : safe (case_RETURNDATASIZE f).
Proof using All.
  unfold case_RETURNDATASIZE. vm_run. apply push_state_safe. intros g' s' H'.
  destruct (operating_settled _ _ _ _ _ _ _ _ H') as [[]]. apply len_word. lia.
Qed.

Lemma case_PC_safe : safe case_PC.
Proof using All.
  apply push_state_safe. intros g' s' H'. apply operating_settled in H'.
  pose proof (settled_pc_range _ _ _ _ Hf H'). unfold word. lia.
Qed.

Lemma case_MSIZE_safe : safe case_MSIZE.
Proof using All.
  apply push_state_safe. intros g' s' H'. pose proof (operating_mem _ _ _ _ _ _ _ _ H') as [_ Hm].
  destruct H' as [_ _ _ -> _]. unfold word. lia.
Qed.

Lemma case_GAS_safe : safe case_GAS.
Proof using All.
  apply push_state_safe. intros g' s' H'. destruct (operating_settled _ _ _ _ _ _ _ _ H') as [[]].
  unfold word. lia.
Qed.

Lemma case_CALLDATALOAD_safe : args i = 1 → safe (case_CALLDATALOAD f).
Proof using All.
  intros Ha. destruct Hf as [_ [Hin Hlin] _ _ _ _]. unfold case_CALLDATALOAD. vm_run.
  - unfold word in Hw. rewrite u64_small by lia. unfold len in *. apply bytes_word.
    + by apply Forall_take, Forall_drop.
    + unfold len. rewrite length_take, length_drop. lia.
  - apply bytes_word; [|done]. apply Forall_fmap, list.Forall_forall. intros j Hj. cbn.
    unfold data_byte. case_decide; [by apply byte_at_ok|unfold is_byte; lia].
Qed.
End ordinary.

(** ** Host reads *)

Section reads.
Context (Hret : rets i = 1) (Hsize : instr_size (opcode i) = 1) (Ha : args i = 1).

Lemma case_BALANCE_safe : safe (case_BALANCE f).
Proof using All. unfold case_BALANCE. case_decide; vm_run; apply hl_balance. Qed.

Lemma case_EXTCODESIZE_safe : safe (case_EXTCODESIZE f).
Proof using All. unfold case_EXTCODESIZE. case_decide; vm_run; apply hl_code_size. Qed.

Lemma case_EXTCODEHASH_safe : 0 < r → safe (case_EXTCODEHASH f).
Proof using All. intros Hp. unfold case_EXTCODEHASH. vm_run. apply hl_code_hash. Qed.

Lemma case_SLOAD_safe : safe (case_SLOAD f).
Proof using All. unfold case_SLOAD. case_decide; vm_run; apply hl_storage. Qed.

Lemma case_BLOCKHASH_safe : safe case_BLOCKHASH.
Proof using All. unfold case_BLOCKHASH, stepGas6. vm_run. apply hl_block_hash. Qed.
End reads.

(** ** Memory *)

Lemma u32_le a : 0 ≤ a → 0 ≤ u32 a ≤ a.
Proof. intros Ha. unfold u32. split; [apply Z.mod_pos_bound; lia|apply Z.mod_le; lia]. Qed.

Lemma need_fits o z n m' : word o → word z → 0 ≤ n < 2 ^ 63 → (z ≠ 0 ∧ n = o + z) ∨ (z = 0 ∧ n = 0) →
  n ≤ m' → 0 ≤ u64 z ∧ u64 z = z ∧ (u64 z = 0 ∨ (0 ≤ u64 o ∧ u64 o + u64 z ≤ m')).
Proof.
  unfold word. intros Ho Hz Hn Hcase Hm. rewrite (u64_small z) by lia.
  split; [lia|]. split; [done|]. destruct Hcase as [[Hne ->]|[-> _]]; [|by left].
  right. rewrite u64_small by lia. lia.
Qed.

Section memory.
Context (Hpaid : 0 < r) (Hsize : instr_size (opcode i) = 1).

Lemma case_MLOAD_safe : args i = 1 → rets i = 1 → safe case_MLOAD.
Proof using All.
  intros Ha Hret. unfold case_MLOAD. do 5 vm_step. pose proof (u32_le (w 0)).
  rewrite u64_small by vm_lia. vm_run. by apply bytes_word.
Qed.

Lemma case_MSTORE_safe : args i = 2 → safe case_MSTORE.
Proof using All.
  intros Ha. unfold case_MSTORE. do 5 vm_step. pose proof (u32_le (w 0)).
  rewrite u64_small by vm_lia. vm_run.
  eapply wp_mem_write; [done|apply toBigEndian_ok| |intros s' Hs'; vm_run].
  right. unfold len. rewrite length_toBigEndian. vm_lia.
Qed.

Lemma case_MSTORE8_safe : args i = 2 → safe case_MSTORE8.
Proof using All.
  intros Ha. unfold case_MSTORE8. do 5 vm_step. pose proof (u32_le (w 0)).
  rewrite u64_small by vm_lia. vm_run.
  eapply wp_mem_write; [done| | |intros s' Hs'; vm_run].
  - constructor; [|constructor]. rewrite land_ff. unfold is_byte. pose proof (Z.mod_pos_bound (w 1) 256). lia.
  - right. rewrite len_cons, len_nil. vm_lia.
Qed.
End memory.

Lemma case_SHA3_safe : args i = 2 → rets i = 1 → instr_size (opcode i) = 1 → safe case_SHA3.
Proof using All.
  intros Ha Hret Hsize. unfold case_SHA3, sha3Gas, sha3WordGas. do 3 vm_step.
  assert (0 ≤ (w 1 + 31) / 32) by (apply Z.div_pos; vm_lia). vm_run.
  all: try (destruct (need_fits _ _ _ _ Hw0 Hw Hn0 Hn Hm) as (? & ? & ?); done).
  apply (hash_word 32); [apply sha3_ok|lia].
Qed.

(** ** Gas of EXP *)

Lemma case_EXP_safe : args i = 2 → rets i = 1 → instr_size (opcode i) = 1 → safe (case_EXP f).
Proof using All.
  intros Ha Hret Hsize. unfold case_EXP, stepGas5. do 2 vm_step. cbv zeta.
  pose proof (firstBitSet_bound (toBigEndian 32 (w 1)) 0) as Hb.
  assert (len (toBigEndian 32 (w 1)) = 32) as Hl by (unfold len; by rewrite length_toBigEndian). rewrite Hl in Hb.
  assert (0 ≤ firstBitSet (toBigEndian 32 (w 1)) 0 / 8 ≤ 32)
    by (split; [apply Z.div_pos; lia|apply Z.div_le_upper_bound; lia]).
  destruct (exp256_word (w 0) (w 1) Hw) as (v & He & Hv).
  case_decide; vm_run; (eapply wp_eq; [unfold slift; by rewrite He|]; vm_run).
Qed.

(** ** Copies *)

Lemma copy_words_bound c : 0 ≤ c < 2 ^ 63 → 0 ≤ copyGas * ((c + 31) / 32) ≤ 2 ^ 61.
Proof.
  intros Hc. unfold copyGas. assert (0 ≤ (c + 31) / 32) by (apply Z.div_pos; lia).
  assert ((c + 31) / 32 < 2 ^ 58 + 2) by (apply Z.div_lt_upper_bound; lia). lia.
Qed.

(** The operand [n] of [operating] after [memNeed] on [o] and [z]. *)
Lemma wp_charge_copy Q zi oi s1 r1 g1 :
  operating f i g1 r1 m 0 w s1 → 0 ≤ zi < args i → 0 ≤ oi < args i → 0 < r1 < 2 ^ 15 → g1 ≤ g →
  (∀ g' r' m' s', g' < g → w zi ≤ INT64_MAX → word (w zi) → word (w oi) → w zi = 0 ∨ w oi + w zi ≤ m' →
     operating f i g' r' m' (w zi) w s' → Q tt s') →
  wp (z ← sp zi; n ← toInt63 z; smodify (set_copyMemSize n);; o ← sp oi; need ← memNeed o z;
      updateMem need;; updateIOGas) Q (vm_error g) s1.
Proof using All.
  intros Hop1 Hz Ho Hr1 Hg1 HQ. do 8 vm_step.
  match goal with H : operating _ _ _ _ _ _ _ _ |- _ => rename H into Hop2 end.
  pose proof (copy_words_bound (w zi)) as Hcw. do 2 vm_step.
  match goal with H : operating _ _ _ _ _ _ _ _ |- _ => rename H into Hop3 end.
  vm_step. eapply wp_updateMem; [exact Hop3|lia|lia|vm_lia|vm_lia|]. clear Hop3.
  intros r' m' s' Hr' Hm' Hop4. vm_run.
  eapply HQ; [|done|done|done| |done]; [lia|]. destruct Hn as [[_ ->]|[? _]]; [right; lia|by left].
Qed.

Lemma wp_copyDataToMemory Q data g1 r1 m1 c1 s1 :
  operating f i g1 r1 m1 c1 w s1 → args i = 3 → bytes_ok data → len data < 2 ^ 63 → w 2 ≤ INT64_MAX →
  w 2 = 0 ∨ w 0 + w 2 ≤ m1 → (∀ s', operating f i g1 r1 m1 c1 w s' → Q tt s') →
  wp (copyDataToMemory data) Q (vm_error g) s1.
Proof using All.
  intros Hop1 Ha Hd Hld H63 Hfit HQ. unfold copyDataToMemory. do 6 vm_step. cbv zeta.
  pose proof (operating_mem _ _ _ _ _ _ _ _ Hop1) as [_ Hm1]. pose proof (len_nonneg data) as Hl0.
  unfold word, INT64_MAX in *. rewrite (u64_small (w 2)) by lia.
  set (n := if decide (w 1 + w 2 > len data) then _ else _).
  assert (0 ≤ n ≤ w 2 ∧ (0 < n → n ≤ len data - w 1 ∧ w 1 ≤ len data)) as Hn.
  { unfold n. repeat case_decide; [lia| |lia]. rewrite (u64_small (w 1)), u64_small by lia. lia. }
  clearbody n. apply wp_bind.
  eapply wp_mono with (Q' := λ _ s', operating f i g1 r1 m1 c1 w s') (E' := vm_error g); [| |done].
  - vm_step; [|done]. eapply wp_mem_write; [done|by apply Forall_take, Forall_drop| |done].
    right. rewrite (u64_small (w 0)), (u64_small (w 1)) by lia. unfold len in *. rewrite length_take, length_drop. lia.
  - intros _ s2 Hop2. vm_step; [|by apply HQ]. eapply wp_mem_write; [done| | |done].
    + apply list.Forall_replicate. unfold is_byte. lia.
    + right. rewrite (u64_small (w 0)), u64_small by lia. unfold len. rewrite length_replicate. lia.
Qed.

Section copies.
Context (Hpaid : 0 < r) (Hsize : instr_size (opcode i) = 1).

Lemma copy_gas_safe data :
  args i = 3 → bytes_ok data → len data < 2 ^ 63 → safe (copy_gas;; copyDataToMemory data;; inc_pc).
Proof using All.
  intros Ha Hd Hl. vm_step. eapply wp_charge_copy; [done|lia|lia|lia|lia|].
  intros g' r' m' s' Hlt H63 ? ? Hfit Hop'. vm_step. eapply wp_copyDataToMemory; [done..|].
  intros s2 Hop2. vm_run.
Qed.

Lemma case_CALLDATACOPY_safe : args i = 3 → safe (case_CALLDATACOPY f).
Proof using All. intros Ha. destruct Hf as [_ [] _ _ _ _]. apply copy_gas_safe; [done|done|lia]. Qed.

Lemma case_CODECOPY_safe : args i = 3 → safe (case_CODECOPY f).
Proof using All. intros Ha. destruct Hf as [[] _ _ _ _ _]. apply copy_gas_safe; [done|done|lia]. Qed.

Lemma case_RETURNDATACOPY_safe : args i = 3 → safe (case_RETURNDATACOPY f).
Proof using All.
  intros Ha. unfold case_RETURNDATACOPY. vm_run.
  eapply wp_charge_copy; [done|lia|lia|lia|lia|].
  intros g' r' m' s' Hlt H63 ? ? Hfit Hop'. do 2 vm_step.
  pose proof (operating_settled _ _ _ _ _ _ _ _ Hop') as [[]]. vm_step.
  eapply wp_copyDataToMemory; [done|done|tauto|lia|done|done|]. intros s2 Hop2. vm_run.
Qed.
End copies.
End one.
End cases.

(** * Type safety of pushes, jumps, effects and ends of a run *)

(** The word PUSHn reads from its data. *)
Definition push_word (v : Z) (d : bytes) : Z :=
  fold_left (λ v b, Z.lor (u256 (Z.shiftl v 8)) b) d v.

Lemma push_word_word v d : word v → bytes_ok d → word (push_word v d).
Proof.
  intros Hv Hd. revert v Hv. induction Hd as [|b d Hb Hd IH]; intros v Hv; [done|]. cbn. apply IH.
  apply word_lor; [apply u256_word|]. unfold is_byte, word in *. lia.
Qed.

Section control.
Context {crypto : Crypto} {host : Host} {mtr : Metrics}.
Context {Hcrypto : CryptoLaws} {Hhost : HostLaws}.
Context (f : Frame) (Hf : frame_ok f).

Lemma code_at_run k s :
  loaded f s → 0 ≤ k < len (f_code f) + 33 → code_at k s = (Ok (byte_at (vm_code s) k), s).
Proof.
  intros [[Hl _ _] _] Hk. unfold code_at, mbind, sm_bind, sget. destruct (decide (0 ≤ k)); [|lia].
  unfold byte_at. rewrite nth_lookup. destruct (vm_code s !! Z.to_nat k) eqn:E; [done|].
  apply lookup_ge_None in E. unfold len in *. lia.
Qed.

(** The code array holds bytes, and what follows an instruction is data. *)
Lemma code_byte s k : loaded f s → 0 ≤ k < len (f_code f) + 33 → is_byte (byte_at (vm_code s) k).
Proof.
  intros [[_ Hn Hs] _] Hk. destruct (decide (is_byte (byte_at (vm_code s) k))) as [|Hne]; [done|].
  exfalso. apply Hne. destruct Hf as [[Hb _] _ _ _ _ _].
  assert (¬ neutralised (f_code f) k) as Hnk.
  { intros Hk'. apply Hne. rewrite Hn by done. unfold is_byte. cbn. lia. }
  rewrite Hs by done. unfold loaded_byte. case_decide; [by apply byte_at_ok|unfold is_byte; lia].
Qed.

Definition code_slice (s : VM) (k : nat) : bytes :=
  (λ j, byte_at (vm_code s) (vm_PC s + j)) <$> seqZ 0 (Z.of_nat k).

Lemma set_PC_same s : set_PC (vm_PC s) s = s.
Proof. by destruct s. Qed.

Lemma push_loop_run k v s :
  loaded f s → 0 ≤ vm_PC s → vm_PC s + Z.of_nat k ≤ len (f_code f) + 33 →
  push_loop k v s = (Ok (push_word v (code_slice s k)), set_PC (vm_PC s + Z.of_nat k) s).
Proof.
  destruct Hf as [[_ Hlen] _ _ _ _ _]. revert v s. induction k as [|k IH]; intros v s Hld H0 Hk; cbn [push_loop].
  { rewrite Z.add_0_r, set_PC_same. done. }
  rewrite (sm_bind_ok sget _ s s s) by done.
  rewrite (sm_bind_ok _ _ _ _ _ (code_at_run (vm_PC s) s Hld ltac:(lia))).
  rewrite (sm_bind_ok inc_pc _ s tt (set_PC (vm_PC s + 1) s)).
  2: { unfold inc_pc, smodify. by rewrite u64_small by lia. }
  rewrite IH; [|by destruct Hld|cbn; lia|cbn; lia].
  f_equal; [|unfold set_PC; cbn; f_equal; lia]. f_equal.
  unfold code_slice. replace (seqZ 0 (Z.of_nat (S k))) with (0 :: seqZ 1 (Z.of_nat k)).
  2: { rewrite (seqZ_cons 0) by lia. f_equal. f_equal; lia. }
  rewrite fmap_cons. cbn [push_word fold_left]. unfold push_word. cbn [fold_left]. rewrite Z.add_0_r.
  f_equal. assert (seqZ 1 (Z.of_nat k) = Z.add 1 <$> seqZ 0 (Z.of_nat k)) as -> by (by rewrite fmap_add_seqZ).
  rewrite <- list_fmap_compose.
  apply list_fmap_ext. intros j x _. cbn [compose vm_code vm_PC set_PC]. f_equal. lia.
Qed.

Section one.
Context (i : Instruction) (g r m : Z) (w : Z → Z) (s : VM).
Context (Hop : operating f i g r m 0 w s) (Hr : 0 ≤ r < 2 ^ 15).

Abbreviation safe m := (wp m (λ _, stepped f g) (vm_error g) s).

(** ** Pushes *)

Lemma set_spp_run v s1 :
  length (vm_stack s1) = 1024%nat → 0 ≤ vm_SPP s1 < 1024 →
  set_spp v s1 = (Ok tt, set_stack (<[Z.to_nat (vm_SPP s1) := v]> (vm_stack s1)) s1).
Proof.
  intros Hl Hs. unfold set_spp, set_slot. rewrite !(sm_bind_ok sget _ s1 s1 s1) by done.
  rewrite (sm_bind_ok _ _ s1 tt s1); [done|]. apply sthrow_if_false. lia.
Qed.

Lemma stepped_push g1 pc v s1 :
  settled f i g1 s1 → boundary (f_code f) pc → word v → g1 < g →
  stepped f g (set_stack (<[Z.to_nat (vm_SPP s1) := v]> (vm_stack s1)) (set_PC pc s1)).
Proof.
  intros [[] [] Hb Hspp _ Hg] Hpc Hv Hg1. split.
  - unfold typed. cbn [vm_bounce set_stack set_PC]. rewrite Hb. split; [|split; [by constructor|done]].
    constructor; cbn; try done; [by rewrite length_insert|by apply Forall_insert].
  - cbn [vm_bounce set_stack set_PC vm_io_gas]. rewrite Hb. lia.
Qed.

Lemma wp_push_loop k g1 s1 :
  settled f i g1 s1 → vm_SPP s1 < 1024 → g1 < g →
  instr_size (opcode i) = Z.of_nat k + 1 →
  wp (inc_pc;; v ← push_loop k 0; set_spp v) (λ _, stepped f g) (vm_error g) s1.
Proof using Hf.
  intros Hse Hlt Hg1 Hsize. pose proof (settled_pc_range _ _ _ _ Hf Hse) as Hpc.
  pose proof Hse as [[] Hld _ _ [Hlen Hhere] _]. pose proof (boundary_next _ _ lv_pc Hlen) as Hnext.
  rewrite Hhere, Hsize in Hnext. pose proof (instr_size_range (opcode i)).
  apply wp_bind. eapply wp_eq; [unfold inc_pc, smodify; rewrite u64_small by lia; done|].
  apply wp_bind. eapply wp_eq; [apply push_loop_run; [by destruct Hld|cbn; lia|cbn; lia]|].
  change (set_PC (vm_PC (set_PC (vm_PC s1 + 1) s1) + Z.of_nat k) (set_PC (vm_PC s1 + 1) s1))
    with (set_PC (vm_PC s1 + 1 + Z.of_nat k) s1).
  replace (vm_PC s1 + 1 + Z.of_nat k) with (vm_PC s1 + (Z.of_nat k + 1)) by lia.
  eapply wp_eq; [apply set_spp_run; [done|destruct Hse; cbn; lia]|].
  apply (stepped_push g1 _ _ s1 Hse Hnext); [|done]. apply push_word_word; [apply word_0|].
  apply Forall_fmap, list.Forall_forall. intros j Hj%elem_of_seqZ. apply code_byte; [by destruct Hld|cbn; lia].
Qed.

Lemma closing_SPP g1 s1 : closing f i g1 s1 → 1 ≤ rets i → vm_SPP s1 < 1024.
Proof. intros [] ?. lia. Qed.

Lemma case_PUSH_safe :
  0 < r → args i = 0 → rets i = 1 → instr_size (opcode i) = opcode i - opcode PUSH1 + 2 →
  safe case_PUSH.
Proof using All.
  intros Hp Ha Hret Hsize. unfold case_PUSH. do 4 vm_step.
  pose proof (instr_size_range (opcode i)). match goal with H : operating _ _ _ _ _ _ _ _ |- _ => apply op_closing in H; rename H into Hcl end.
  rewrite (cs_OP _ _ _ _ Hcl). eapply wp_push_loop; [by eapply cs_settled|eapply closing_SPP; [done|lia]|lia|].
  rewrite Hsize. lia.
Qed.

Lemma case_PUSH1_safe :
  0 < r → args i = 0 → rets i = 1 → instr_size (opcode i) = 2 → safe case_PUSH1.
Proof using All.
  intros Hp Ha Hret Hsize. unfold case_PUSH1. do 2 vm_step.
  match goal with H : operating _ _ _ _ _ _ _ _ |- _ => apply op_closing in H; rename H into Hcl end.
  pose proof (cs_settled _ _ _ _ Hcl) as Hse. pose proof (closing_SPP _ _ Hcl ltac:(lia)) as Hspp.
  pose proof (settled_pc_range _ _ _ _ Hf Hse) as Hpc. pose proof Hse as [[] Hld _ _ [Hlen Hhere] _].
  pose proof (boundary_next _ _ lv_pc Hlen) as Hnext. rewrite Hhere, Hsize in Hnext.
  apply wp_bind. eapply wp_eq; [unfold inc_pc, smodify; rewrite u64_small by lia; done|]. do 2 vm_step.
  apply wp_bind. eapply wp_eq; [apply code_at_run; [by destruct Hld|cbn; lia]|]. apply wp_bind.
  assert (word (byte_at (vm_code s0) (vm_PC s0 + 1))) as Hv.
  { pose proof (code_byte s0 (vm_PC s0 + 1) Hld ltac:(lia)). unfold is_byte, word in *. lia. }
  eapply wp_eq; [apply set_spp_run; [done|destruct Hse; cbn; lia]|]. apply wp_modify.
  cbn [vm_PC set_stack set_PC]. rewrite u64_small by lia.
  replace (vm_PC s0 + 1 + 1) with (vm_PC s0 + 2) by lia.
  apply (stepped_push (g - r) _ _ s0 Hse Hnext Hv). lia.
Qed.

(** ** Jumps and moves *)

Lemma case_JUMPDEST_safe : instr_size (opcode i) = 1 → safe case_JUMPDEST.
Proof using All. intros Hsize. unfold case_JUMPDEST, jumpdestGas. vm_run. Qed.

Lemma case_POP_safe : 0 < r → instr_size (opcode i) = 1 → safe case_POP.
Proof using All.
  intros Hp Hsize. unfold case_POP. vm_run. apply wp_modify.
  eapply wp_inc_pc; [done|apply settled_SP; by eapply operating_settled|done|lia].
Qed.

Lemma case_JUMP_safe : 0 < r → args i = 1 → safe case_JUMP.
Proof using All.
  intros Hp Ha. unfold case_JUMP. vm_run. eapply wp_verifyJumpDest; [done|done|]. intros pc Hpc.
  eapply wp_goto; [by eapply operating_settled|done|lia|done].
Qed.

Lemma case_JUMPI_safe : 0 < r → args i = 2 → instr_size (opcode i) = 1 → safe case_JUMPI.
Proof using All.
  intros Hp Ha Hsize. unfold case_JUMPI. vm_run. eapply wp_verifyJumpDest; [done|done|]. intros pc Hpc.
  eapply wp_goto; [by eapply operating_settled|done|lia|done].
Qed.

Lemma case_DUP_safe :
  0 < r → args i = opcode i - opcode DUP1 + 1 → 1 ≤ args i → rets i = args i + 1 → instr_size (opcode i) = 1 →
  safe case_DUP.
Proof using All.
  intros Hp Ha Ha1 Hret Hsize. unfold case_DUP. do 4 vm_step.
  match goal with H : operating _ _ _ _ _ _ _ _ |- _ => rewrite (cs_OP _ _ _ _ (op_closing _ _ _ _ _ _ _ _ H)) end.
  vm_run.
Qed.

Lemma case_SWAP_safe :
  0 < r → args i = opcode i - opcode SWAP1 + 2 → 2 ≤ args i → instr_size (opcode i) = 1 → safe case_SWAP.
Proof using All.
  intros Hp Ha Ha2 Hsize. unfold case_SWAP. do 4 vm_step. cbv zeta.
  match goal with H : operating _ _ _ _ _ _ _ _ |- _ => rewrite (cs_OP _ _ _ _ (op_closing _ _ _ _ _ _ _ _ H)) end.
  vm_run.
Qed.

(** ** Ends of the run *)

(** [m_mem] moved out, the frame keeps its gas and its output. *)
Lemma wp_take_output Q :
  args i = 2 →
  (∀ g' d s', g' ≤ g → settled f i g' s' → bytes_ok d → Q tt (set_mem [] (set_output d s'))) →
  wp take_output Q (vm_error g) s.
Proof using All.
  intros Ha HQ. unfold take_output. vm_run.
  all: try (destruct (need_fits _ _ _ _ Hw Hw0 Hn0 Hn Hm) as (? & ? & ?); done).
  apply wp_modify. eapply HQ; [|by eapply operating_settled|done]. lia.
Qed.

Lemma case_RETURN_safe : args i = 2 → safe case_RETURN.
Proof using All.
  intros Ha. unfold case_RETURN. vm_step. apply wp_take_output; [done|].
  intros g' d s' Hle Hse Hd. apply wp_modify. by eapply stepped_finish.
Qed.

Lemma case_REVERT_safe : args i = 2 → safe (case_REVERT f).
Proof using All.
  intros Ha. unfold case_REVERT. do 2 vm_step. vm_step. apply wp_take_output; [done|].
  intros g' d s' Hle Hse Hd. apply wp_throw. destruct Hse as [[] _ _ _ _ <-]. cbn. split; [lia|done].
Qed.

Lemma case_SUICIDE_safe : args i = 1 → safe (case_SUICIDE f).
Proof using All.
  intros Ha. unfold case_SUICIDE, callNewAccount. do 4 vm_step.
  match goal with H : operating _ _ _ ?x _ _ _ _ |- _ => assert (0 ≤ x ≤ 5000) as Hx by (case_decide; lia); revert H; generalize dependent x end.
  intros x Hx Hop'. vm_step. vm_step. cbv zeta. do 2 vm_step.
  apply wp_bind. eapply wp_mono with (E' := vm_error g)
    (Q' := λ _ s', ∃ r', 0 ≤ r' ≤ 2 ^ 15 ∧ operating f i g r' m 0 w s'); [| |done].
  - pose proof Hop' as [_ _ -> _ _]. vm_step; [|exists x; split; [lia|done]].
    rewrite u64_small by lia. vm_run. eexists. split; [|done]. lia.
  - intros _ s' (r' & Hr' & Hop2). vm_run. apply wp_modify. eapply stepped_stop; [by eapply operating_settled|lia].
Qed.

(** ** Effects *)

Lemma case_SSTORE_safe : args i = 2 → instr_size (opcode i) = 1 → safe (case_SSTORE f).
Proof using All.
  intros Ha Hsize. unfold case_SSTORE, sstoreResetGas, sstoreSetGas. vm_run. case_match.
  vm_run. eapply (wp_set_host f g i _ _ _ _ _ (λ _, _)); [done|]. intros s' Hop'. vm_run.
Qed.

Lemma wp_topics n Q g1 r1 m1 s1 :
  operating f i g1 r1 m1 0 w s1 → Z.of_nat n + 2 ≤ args i → (∀ ts, Q ts s1) →
  wp (topics n) Q (vm_error g) s1.
Proof.
  intros Hop1 Hn. unfold topics. assert (0 ≤ 2) as H2 by lia. revert H2 Hn.
  generalize 2 as j. revert Q. induction n as [|n IH]; intros Q j Hj Hn HQ; [by apply wp_ret|].
  vm_run. apply IH; [lia|lia|]. intros ts. vm_run. apply HQ.
Qed.

Lemma case_LOG_safe n :
  args i = Z.of_nat n + 2 → opcode i = opcode LOG0 + Z.of_nat n → Z.of_nat n ≤ 4 →
  instr_size (opcode i) = 1 → safe (case_LOG f n).
Proof using All.
  intros Ha Hopc Hn4 Hsize. unfold case_LOG, logGasMem, logGas, logTopicGas, logDataGas. do 5 vm_step.
  pose proof (op_closing _ _ _ _ _ _ _ _ Hop) as Hcl. rewrite (cs_OP _ _ _ _ Hcl), Hopc. cbv zeta.
  replace (opcode LOG0 + Z.of_nat n - opcode LOG0) with (Z.of_nat n) by lia. rewrite u32_small by lia.
  clear Hcl. vm_run.
  all: try (destruct (need_fits _ _ _ _ Hw0 Hw Hn0 Hn Hm) as (? & ? & ?); done).
  eapply wp_topics; [done|lia|]. intros ts. vm_run.
Qed.

Lemma case_EXTCODECOPY_safe : args i = 4 → instr_size (opcode i) = 1 → safe (case_EXTCODECOPY f).
Proof using All.
  intros Ha Hsize. unfold case_EXTCODECOPY. do 2 vm_step.
  match goal with H : operating _ _ _ ?x _ _ _ _ |- _ =>
    assert (20 ≤ x ≤ 700) as Hx by (case_decide; lia); revert H; generalize dependent x end.
  intros x Hx Hop'. do 2 vm_step. pose proof (copy_words_bound (w 3)) as Hcw. vm_run.
  match goal with |- context [h_copy_code ?h ?a ?o ?z] =>
    destruct (hl_copy_code h a o z) as [Hcb Hcl]; [vm_lia|]; set (d := h_copy_code h a o z) in * end.
  pose proof (len_nonneg d). destruct (need_fits _ _ _ _ Hw0 Hw Hn0 Hn Hm) as (_ & Hz & Hfit). rewrite Hz in Hfit.
  assert (w 3 = 0 → d = []) as Hd0. { intros Hz0. apply nil_length_inv. unfold len in *. lia. }
  eapply wp_mem_write; [done|done|destruct Hfit; [left; auto|right; lia]|]. intros s' Hop2. vm_step.
  eapply wp_mem_write; [done|apply list.Forall_replicate; unfold is_byte; lia| |intros ? ?; vm_run].
  destruct Hfit as [Hf0|Hfit]; [left; rewrite Hf0, (Hd0 Hf0); done|right].
  unfold word in *. pose proof (operating_mem _ _ _ _ _ _ _ _ Hop2) as [_ Hmm].
  rewrite u64_small by lia. unfold len in *. rewrite length_replicate. lia.
Qed.

(** ** Calls *)

Lemma case_CREATE_safe : i ∈ [CREATE; CREATE2] → safe (case_CREATE f).
Proof using All. intros Hi. unfold case_CREATE. vm_run. apply wp_modify. eapply stepped_wait; [done|lia|done|by left]. Qed.

Lemma case_CREATE2_safe : i ∈ [CREATE; CREATE2] → safe (case_CREATE2 f).
Proof using All. intros Hi. unfold case_CREATE2. vm_run. apply wp_modify. eapply stepped_wait; [done|lia|done|by left]. Qed.

Lemma case_CALL_safe : i ∈ [CALL; CALLCODE; DELEGATECALL; STATICCALL] → safe (case_CALL f).
Proof using All.
  intros Hi. assert (3 ≤ args i) as Ha.
  { clear - Hi. repeat (apply elem_of_cons in Hi as [->|Hi]; [done|]). by apply elem_of_nil in Hi. }
  unfold case_CALL. vm_run; apply wp_modify; (eapply stepped_wait; [done|lia|done|by right]).
Qed.
End one.
End control.
