(* ===== verification/VMSafe.v ===== *)
(** * Type safety of the interpreter

    Sub-calls, the fetch, and the trampoline: a typed state steps to a typed
    state, or the run ends with an exception of the interpreter. *)

From S2P Require Import Prelude StateErr RLP RLPFacts Crypto VMInstr VM VMAlu VMJump VMTyped VMCases.

Local Open Scope Z_scope.

Section safe.
Context {crypto : Crypto} {host : Host} {mtr : Metrics}.
Context {Hcrypto : CryptoLaws} {Hhost : HostLaws} {Hmetrics : MetricsLaws}.
Context (f : Frame) (Hf : frame_ok f).

(** ** Sub-calls *)

Section calls.
Context (i : Instruction) (g r m : Z) (w : Z → Z) (s0 s : VM).
Context (Hs : set_bounce InterpretCases s0 = s) (Hop : operating f i g r m 0 w s).

Definition resumed (s' : VM) : Prop := stepped f g s' ∧ vm_bounce s' = InterpretCases.

(** What is left of a call: the program counter moves on. *)
Lemma wp_then_inc_pc (body : SM VM unit) s1 :
  instr_size (opcode i) = 1 →
  wp body (λ _ s', ∃ g', g' < g ∧ settled f i g' s') (vm_error g) s1 →
  wp (body;; inc_pc) (λ _, resumed) (vm_error g) s1.
Proof using Hf.
  intros Hsize Hbody. apply wp_bind. eapply wp_mono; [exact Hbody| |done].
  intros _ s' (g' & Hlt & Hse). split; [by apply (wp_inc_pc f g i g' s')|]. by destruct Hse.
Qed.

Lemma wp_add_gas x r1 g1 m1 c1 Q s1 :
  operating f i g1 r1 m1 c1 w s1 → 0 ≤ r1 + x < 2 ^ 64 →
  (∀ s', operating f i g1 (r1 + x) m1 c1 w s' → Q tt s') →
  wp (smodify (λ s, set_runGas (u64 (vm_runGas s + x)) s)) Q (vm_error g) s1.
Proof.
  intros Hop1 Hx HQ. apply wp_modify. pose proof Hop1 as [_ _ Hr1 _ _]. rewrite Hr1, u64_small by lia.
  by apply (wp_set_gas f g i g1 r1 m1 c1 w (r1 + x) Q s1).
Qed.

Lemma settled_after_call d x g1 s1 :
  settled f i g1 s1 → bytes_ok d → len d < 2 ^ 63 → 0 ≤ g1 + x < 2 ^ 63 →
  settled f i (g1 + x) (set_io_gas (u64 (g1 + x)) (set_returnData d s1)).
Proof.
  intros Hse Hd Hl Hx. rewrite u64_small by lia. eapply settled_gas; [done|]. by apply settled_returnData.
Qed.

Lemma caseCreate_safe : i ∈ [CREATE; CREATE2] → wp (caseCreate f) (λ _, resumed) (vm_error g) s0.
Proof using All.
  intros Hi. assert (3 ≤ args i ∧ rets i = 1 ∧ instr_size (opcode i) = 1 ∧ (opcode i = opcode CREATE2 → args i = 4))
    as (Ha & Hret & Hsize & Ha4).
  { clear - Hi. repeat (apply elem_of_cons in Hi as [->|Hi]; [repeat split; vm_compute; congruence|]). by apply elem_of_nil in Hi. }
  unfold caseCreate, createGas. apply wp_bind, wp_modify. rewrite Hs. clear Hs. do 9 vm_step.
  match goal with H : operating _ _ _ _ _ _ _ ?x |- _ => rename H into Hop1, x into s1 end. apply wp_bind.
  eapply wp_mono with (E' := vm_error g) (Q' := λ v s', s' = s1 ∧ word v); [| |done].
  { pose proof (cs_OP _ _ _ _ (op_closing _ _ _ _ _ _ _ _ Hop1)) as HOP.
    rewrite HOP. by vm_run. }
  intros salt ? [-> Hsalt]. do 6 vm_step. vm_step.
  match goal with H : operating _ _ _ _ _ _ _ ?x |- _ => rename H into Hop2 end.
  eapply wp_set_returnData; [exact Hop2|constructor|done|]. clear Hop2. intros sa Hop2.
  do 2 vm_step. cbv zeta. apply wp_then_inc_pc; [done|].
  pose proof (operating_gas _ _ _ _ _ _ _ _ Hop2) as Hg.
  pose proof (operating_settled _ _ _ _ _ _ _ _ Hop2) as [_ _ _ _ _ Hio]. rewrite Hio.
  destruct (need_fits _ _ _ _ Hw0 Hw1 Hn0 Hn Hm) as (Hz0 & Hz & Hfit).
  vm_step; [|vm_run; eexists; split; [|by eapply cs_settled]; lia]. rewrite i64_small by lia.
  set (gas := if decide (rev_before f EVMC_TANGERINE_WHISTLE) then _ else _). assert (0 ≤ gas ≤ g - r0) as Hgas.
  { unfold gas. rewrite Z.quot_div_nonneg by lia. assert (0 ≤ (g - r0) / 64 ≤ g - r0)
      by (split; [apply Z.div_pos; lia|apply Z.div_le_upper_bound; lia]). case_decide; lia. }
  clearbody gas. do 2 vm_step. match goal with |- context [h_call ?h ?mm] => pose proof (hl_call h mm) as Hcall; destruct (h_call h mm) as [res h'] end.
  cbn [fst msg_gas] in Hcall. destruct Hcall as (Hleft & Hout & Hlo & Haddr); [lia|]. vm_step.
  eapply (wp_set_host f g i _ _ _ _ _ (λ _, _)); [done|]. intros sb Hop3. vm_run.
  { case_decide; [|apply word_0]. by apply (hash_word address_size). }
  match goal with H : closing _ _ _ _ |- _ => apply cs_settled in H; rename H into Hse end.
  apply wp_modify, wp_modify. pose proof Hse as [_ _ _ _ _ Hio3]. cbn [vm_io_gas set_returnData]. rewrite Hio3.
  exists (g - r0 - (gas - res_gas_left res)). split; [lia|].
  by apply (settled_after_call _ (- (gas - res_gas_left res)) (g - r0)); [..|lia].
Qed.

(** What [caseCallSetup] leaves: the frame has paid more than the message may
    bring back, and the output area is inside the memory. *)
Definition call_ready (r : bool * evmc_message * (Z * Z)) (s' : VM) : Prop :=
  let '(_, msg, (o, z)) := r in
  ∃ g' r' m', operating f i g' r' m' 0 w s' ∧ 0 ≤ msg_gas msg ∧ g' + msg_gas msg < g ∧
    0 ≤ z ∧ (z = 0 ∨ (0 ≤ o ∧ o + z ≤ m')).

(** The surcharges for a new account and for a value. *)
Lemma wp_call_surcharge {A} (rest : SM VM A) (have : bool) Q r1 s1 :
  operating f i g r1 m 0 w s1 → 40 ≤ r1 ≤ 700 → 3 ≤ args i →
  (∀ r2 s2, 40 ≤ r2 ≤ 40000 → (have = true → 0 < w 2 → 9040 ≤ r2) → operating f i g r2 m 0 w s2 →
     wp rest Q (vm_error g) s2) →
  ∀ (C : Prop) (HC : Decision C) (D : Z → Prop) (HD : ∀ v, Decision (D v)),
  wp (swhen C (v ← sp 2; swhen (D v)
         (smodify (λ s, set_runGas (u64 (vm_runGas s + callNewAccount)) s)));;
      swhen (have = true)
        (v ← sp 2; swhen (v > 0) (smodify (λ s, set_runGas (u64 (vm_runGas s + valueTransferGas)) s)));;
      rest)
     Q (vm_error g) s1.
Proof.
  intros Hop1 Hr1 Ha HQ C HC D HD. unfold callNewAccount, valueTransferGas. apply wp_bind.
  eapply wp_mono with (E' := vm_error g) (Q' := λ _ s', ∃ r2, 40 ≤ r2 ≤ 30000 ∧ operating f i g r2 m 0 w s');
    [| |done].
  - vm_run; [|exists r1; split; [lia|done]..]. eapply wp_add_gas; [done|lia|].
    intros s' Hop'. eexists. split; [|done]. lia.
  - intros _ s2 (r2 & Hr2 & Hop2). vm_run; [|eapply (HQ r2); [lia|intros; first [done|lia]|done]..].
    eapply wp_add_gas; [done|lia|]. intros s' Hop'. eapply HQ; [| |done]; lia.
Qed.

Lemma caseCallSetup_safe sc :
  operating f i g r m 0 w sc → i ∈ [CALL; CALLCODE; DELEGATECALL; STATICCALL] →
  wp (caseCallSetup f) call_ready (vm_error g) sc.
Proof using Hf Hhost.
  intros Hop' Hi. set (have := bool_decide (opcode i = opcode CALL ∨ opcode i = opcode CALLCODE)).
  assert (6 ≤ args i ∧ (if have then 3 else 2) + 4 ≤ args i) as (Ha & Ha').
  { clear - Hi. repeat (apply elem_of_cons in Hi as [->|Hi]; [vm_compute; split; congruence|]). by apply elem_of_nil in Hi. }
  unfold caseCallSetup. do 4 vm_step.
  match goal with H : operating _ _ _ _ _ _ _ ?x |- _ => rename H into Hop1, x into s1 end.
  rewrite (cs_OP _ _ _ _ (op_closing _ _ _ _ _ _ _ _ Hop1)). cbv zeta. fold have. do 2 vm_step.
  eapply wp_call_surcharge; [exact Hop1|case_decide; lia|lia|]. clear Hop1.
  intros r2 s2 Hr2 Hval Hop2. set (o := if have then 3 else 2) in *.
  assert (0 ≤ o) by (unfold o; destruct have; lia). do 22 vm_step.
  match goal with H : operating _ _ _ _ _ _ _ _ |- _ => rename H into Hop3 end.
  pose proof (operating_settled _ _ _ _ _ _ _ _ Hop3) as [_ _ _ _ _ Hio]. rewrite Hio.
  pose proof (operating_gas _ _ _ _ _ _ _ _ Hop3) as Hg.
  set (cg := if decide (rev_before f EVMC_TANGERINE_WHISTLE) then _ else _). assert (0 ≤ cg) as Hcg.
  { unfold cg, word in *. assert ((g - r0) / 64 ≤ g - r0) by (apply Z.div_le_upper_bound; lia). case_decide; lia. }
  clearbody cg.
  destruct (need_fits _ _ _ m0 Hw0 Hw1 Hn0 Hn ltac:(lia)) as (Hi0 & _ & Hifit).
  destruct (need_fits _ _ _ m0 Hw2 Hw3 Hn1 Hn2 ltac:(lia)) as (Ho0 & _ & Hofit).
  do 8 vm_step. do 2 vm_step. apply wp_bind.
  set (stip := if decide (9040 ≤ r2) then callStipend else 0).
  assert (0 ≤ stip ∧ 40 + stip < r2 + 1 ∧ (have = true → 0 < w 2 → stip = callStipend)) as (Hst0 & Hst & Hstip).
  { unfold stip, callStipend. case_decide; [lia|]. split_and!; [lia|lia|]. intros; exfalso; auto. }
  clearbody stip. eapply wp_mono with (E' := vm_error g) (Q' := λ (p : Z * Z * bool) s',
    let '(_, gas, _) := p in cg ≤ gas ≤ cg + stip ∧ ∃ r', operating f i (g - r0 - cg) r' m0 0 w s'); [| |done].
  - unfold o in *. destruct have; vm_run; [|split; [lia|eauto]]. case_decide as Hv2; (split; [|eauto]); [|lia].
    rewrite Hstip by (done || lia). lia.
  - intros [[v gas] ok] s' [Hgas (r' & Hop')]. apply wp_ret.
    exists (g - r0 - cg), r', m0. cbn [msg_gas]. split_and!; [done|lia|lia|done|done].
Qed.

Lemma caseCall_safe :
  i ∈ [CALL; CALLCODE; DELEGATECALL; STATICCALL] → wp (caseCall f) (λ _, resumed) (vm_error g) s0.
Proof using All.
  intros Hi. assert (rets i = 1 ∧ instr_size (opcode i) = 1) as [Hret Hsize].
  { clear - Hi. repeat (apply elem_of_cons in Hi as [->|Hi]; [vm_compute; split; congruence|]). by apply elem_of_nil in Hi. }
  unfold caseCall. apply wp_bind, wp_modify. rewrite Hs. apply wp_bind.
  eapply wp_set_returnData; [exact Hop|constructor|done|]. intros s1 Hop1. apply wp_bind.
  eapply wp_mono; [by apply caseCallSetup_safe| |done].
  intros [[go msg] [o z]] s2 (g' & r' & m' & Hop2 & Hmg & Hlt & Hz0 & Hfit).
  pose proof (operating_gas _ _ _ _ _ _ _ _ Hop2) as Hg'. pose proof (operating_gas _ _ _ _ _ _ _ _ Hop) as Hg.
  clear Hop Hs Hop1. apply wp_then_inc_pc; [done|]. destruct go.
  - vm_run. pose proof (hl_call (vm_host s2) msg Hmg) as Hcall. destruct (h_call (vm_host s2) msg) as [res h'].
    cbn [fst] in Hcall. destruct Hcall as (Hleft & Hout & Hlo & _). vm_step.
    eapply (wp_set_host f g i _ _ _ _ _ (λ _, _)); [exact Hop2|]. clear Hop2. intros s3 Hop3. vm_step.
    eapply wp_set_returnData; [exact Hop3|done|done|]. clear Hop3. intros s4 Hop4. vm_step.
    eapply wp_mem_write; [exact Hop4|by apply Forall_take| |].
    { destruct Hfit as [->|Hfit]; [by left|right]. unfold len in *. rewrite length_take. lia. }
    clear Hop4. intros s5 Hop5. vm_run; [apply bool_word_word|].
    match goal with H : closing _ _ _ _ |- _ => apply cs_settled in H; rename H into Hse end.
    apply wp_modify. pose proof Hse as [_ _ _ _ _ ->]. exists (g' + res_gas_left res). split; [lia|].
    rewrite u64_small by lia. eapply settled_gas; [lia|done].
  - vm_run. match goal with H : closing _ _ _ _ |- _ => apply cs_settled in H; rename H into Hse end.
    apply wp_modify. pose proof Hse as [_ _ _ _ _ ->]. exists (g' + msg_gas msg). split; [lia|].
    rewrite u64_small by lia. eapply settled_gas; [lia|done].
Qed.
End calls.

(** ** The fetch *)

(** Bytes with a case of their own are the values of their instructions. *)
Lemma dispatch_executable b : is_byte b → executable (dispatch b) = true → opcode (dispatch b) = b.
Proof.
  intros Hb. assert (Forall (λ b, executable (dispatch b) = true → opcode (dispatch b) = b) (seqZ 0 256)) as Hall.
  { apply (bool_decide_unpack _). vm_compute. done. }
  rewrite list.Forall_forall in Hall. apply Hall, elem_of_seqZ. unfold is_byte in Hb. lia.
Qed.

Lemma c_metrics_executable i : executable i = true → c_metrics (opcode i) = evmc_metrics (opcode i).
Proof. by destruct i. Qed.

(** The state the fetch leaves. *)
Definition fetched (b : Z) (s : VM) : VM :=
  let metric := c_metrics b in
  let s := set_SP (vm_SPP s) (set_OP b s) in
  let s := set_SPP (vm_SPP s + num_stack_arguments metric - num_stack_returned_items metric) s in
  set_copyMemSize 0 (set_newMemSize (len (vm_mem s)) (set_runGas (u64 (gas_cost metric)) s)).

Lemma wp_throwBadStack g n Q s : wp (throwBadStack n) Q (vm_error g) s.
Proof. apply wp_bind, wp_get. case_decide; by apply wp_throw. Qed.

Lemma wp_fetch g Q s :
  live f s → loaded f s →
  let b := byte_at (vm_code s) (vm_PC s) in
  let metric := c_metrics b in
  (is_byte b → vm_SPP s + num_stack_arguments metric ≤ 1024 →
   0 ≤ vm_SPP s + num_stack_arguments metric - num_stack_returned_items metric → Q tt (fetched b s)) →
  wp fetchInstruction Q (vm_error g) s.
Proof using Hf.
  intros Hl Hld b metric HQ. pose proof Hl as [].
  pose proof (boundary_nonneg _ _ lv_pc). pose proof (boundary_bound _ _ lv_pc).
  pose proof (code_byte f Hf s (vm_PC s) Hld ltac:(lia)) as Hb. unfold fetchInstruction. do 2 vm_step.
  apply wp_bind. eapply wp_eq; [apply (code_at_run f); [done|lia]|]. fold b. apply wp_bind, wp_modify.
  cbv zeta. fold metric. apply wp_bind. unfold adjustStack, stackLimit. apply wp_bind, wp_modify, wp_bind, wp_modify.
  vm_run; [apply wp_throwBadStack|]. apply wp_modify. vm_run; [apply wp_throwBadStack|].
  apply wp_modify, wp_bind, wp_modify, wp_modify. cbn in *. apply HQ; [done|lia|lia].
Qed.

(** The state after the fetch of [i] with a case of its own. *)
Lemma fetched_operating i s :
  live f s → loaded f s → vm_bounce s = InterpretCases → 0 ≤ vm_SPP s ≤ 1024 →
  byte_at (vm_code s) (vm_PC s) = opcode i → executable i = true → i ≠ STOP →
  vm_SPP s + args i ≤ 1024 → 0 ≤ vm_SPP s + args i - rets i →
  ∃ w, operating f i (vm_io_gas s) (gas_cost (evmc_metrics (opcode i))) (len (vm_mem s)) 0 w (fetched (opcode i) s).
Proof using All.
  intros Hl Hld Hb Hspp Hop He Hne H1 H2. pose proof Hl as []. pose proof Hld as [[Hcl Hneu Hsame] Hdests].
  pose proof (boundary_nonneg _ _ lv_pc). pose proof (boundary_bound _ _ lv_pc).
  assert (¬ neutralised (f_code f) (vm_PC s)) as Hnn.
  { intros Hn. rewrite (Hneu _ Hn) in Hop. clear - Hop He. destruct i; done. }
  rewrite (Hsame (vm_PC s) ltac:(lia) Hnn) in Hop. unfold loaded_byte in Hop.
  assert (vm_PC s < len (f_code f)) as Hlt.
  { case_decide; [done|]. exfalso. clear - Hop Hne. destruct i; try done. }
  rewrite decide_True in Hop by done. pose proof (ml_gas i He) as Hgas.
  assert (0 ≤ args i ∧ 0 ≤ rets i) as [Ha0 Hr0] by (clear; by destruct i).
  exists (λ n, default 0 (vm_stack s !! Z.to_nat (vm_SPP s + n))).
  unfold fetched. cbv zeta. rewrite c_metrics_executable, ml_args, ml_rets, u64_small by (done || lia).
  constructor; [|intros n Hn|done..].
  - constructor; cbn; [|lia|done|done]. constructor; cbn; [|by constructor|done|lia|done|done]. by constructor.
  - cbn. destruct (vm_stack s !! Z.to_nat (vm_SPP s + n)) as [v|] eqn:E.
    + split; [done|]. by eapply (Forall_lookup_1 word).
    + apply lookup_ge_None in E. lia.
Qed.

(** STOP, also where the program counter has left the code. *)
Lemma case_STOP_safe s :
  live f s → 0 ≤ vm_runGas s → wp case_STOP (λ _, stepped f (vm_io_gas s)) (vm_error (vm_io_gas s)) s.
Proof.
  intros [] Hr. unfold case_STOP, updateIOGas. vm_run. apply wp_modify, wp_modify.
  split; cbn; [|lia]. unfold typed. cbn. split; [lia|]. rewrite lv_output. constructor.
Qed.

Ltac alu_word :=
  intros; first [ apply u256_word | apply bool_word_word | apply s2u_word
                | by apply alu_div_value | by apply alu_mod_value | by apply alu_smod_value | by apply alu_byte_word | by apply word_lor
                | by apply word_lxor | by apply word_land; unfold word in *; lia
                | by apply alu_shift_words | by apply alu_modular_words ].

Lemma fr_words : word (fromAddress (msg_destination (f_msg f))) ∧ word (fromAddress (msg_sender (f_msg f))) ∧
  word (len (msg_input (f_msg f))) ∧ word (len (f_code f)).
Proof using Hf.
  destruct Hf as [[] [] _ Hd Hs _]. split_and!; [by apply (hash_word address_size)..|apply len_word; lia|apply len_word; lia].
Qed.

Lemma txc_words t : txc_ok t → word (fromAddress (txc_origin t)) ∧ word (fromAddress (txc_coinbase t)).
Proof. intros []. split; by apply (hash_word address_size). Qed.

Ltac paid :=
  lazymatch goal with
  | |- 0 < gas_cost (evmc_metrics (opcode ?j)) => first [exact ml_extcodehash | rewrite (ml_tier j _ eq_refl eq_refl); lia]
  end.
Ltac side := first [eassumption | reflexivity | paid | by apply ml_gas | apply fr_words | apply fr_value; done | alu_word
                   | solve [intros; apply txc_words; done] | solve [intros t []; done] | by set_solver | lia].
Ltac close :=
  lazymatch goal with
  | |- wp (unop _) _ _ _ => eapply unop_safe
  | |- wp (binop _) _ _ _ => eapply binop_safe
  | |- wp (divop _) _ _ _ => eapply divop_safe
  | |- wp (ternop _) _ _ _ => eapply ternop_safe
  | |- wp (shift_op _ _) _ _ _ => eapply shift_op_safe
  | |- wp (case_SDIV) _ _ _ => eapply case_SDIV_safe
  | |- wp (case_SIGNEXTEND) _ _ _ => eapply case_SIGNEXTEND_safe
  | |- wp (case_PC) _ _ _ => eapply case_PC_safe
  | |- wp (case_MSIZE) _ _ _ => eapply case_MSIZE_safe
  | |- wp (case_GAS) _ _ _ => eapply case_GAS_safe
  | |- wp (case_BLOCKHASH) _ _ _ => eapply case_BLOCKHASH_safe
  | |- wp (case_MLOAD) _ _ _ => eapply case_MLOAD_safe
  | |- wp (case_MSTORE) _ _ _ => eapply case_MSTORE_safe
  | |- wp (case_MSTORE8) _ _ _ => eapply case_MSTORE8_safe
  | |- wp (case_SHA3) _ _ _ => eapply case_SHA3_safe
  | |- wp (case_PUSH1) _ _ _ => eapply case_PUSH1_safe
  | |- wp (case_PUSH) _ _ _ => eapply case_PUSH_safe
  | |- wp (case_JUMPDEST) _ _ _ => eapply case_JUMPDEST_safe
  | |- wp (case_POP) _ _ _ => eapply case_POP_safe
  | |- wp (case_JUMP) _ _ _ => eapply case_JUMP_safe
  | |- wp (case_JUMPI) _ _ _ => eapply case_JUMPI_safe
  | |- wp (case_DUP) _ _ _ => eapply case_DUP_safe
  | |- wp (case_SWAP) _ _ _ => eapply case_SWAP_safe
  | |- wp (case_RETURN) _ _ _ => eapply case_RETURN_safe
  | |- wp (case_RETURNDATASIZE _) _ _ _ => eapply case_RETURNDATASIZE_safe
  | |- wp (case_CALLDATALOAD _) _ _ _ => eapply case_CALLDATALOAD_safe
  | |- wp (case_BALANCE _) _ _ _ => eapply case_BALANCE_safe
  | |- wp (case_EXTCODESIZE _) _ _ _ => eapply case_EXTCODESIZE_safe
  | |- wp (case_EXTCODEHASH _) _ _ _ => eapply case_EXTCODEHASH_safe
  | |- wp (case_SLOAD _) _ _ _ => eapply case_SLOAD_safe
  | |- wp (case_EXP _) _ _ _ => eapply case_EXP_safe
  | |- wp (case_CALLDATACOPY _) _ _ _ => eapply case_CALLDATACOPY_safe
  | |- wp (case_CODECOPY _) _ _ _ => eapply case_CODECOPY_safe
  | |- wp (case_RETURNDATACOPY _) _ _ _ => eapply case_RETURNDATACOPY_safe
  | |- wp (case_REVERT _) _ _ _ => eapply case_REVERT_safe
  | |- wp (case_SUICIDE _) _ _ _ => eapply case_SUICIDE_safe
  | |- wp (case_SSTORE _) _ _ _ => eapply case_SSTORE_safe
  | |- wp (case_EXTCODECOPY _) _ _ _ => eapply case_EXTCODECOPY_safe
  | |- wp (case_CREATE2 _) _ _ _ => eapply case_CREATE2_safe
  | |- wp (case_CREATE _) _ _ _ => eapply case_CREATE_safe
  | |- wp (case_CALL _) _ _ _ => eapply case_CALL_safe
  | |- wp (case_ADDRESS _) _ _ _ => eapply push_value_safe
  | |- wp (case_CALLER _) _ _ _ => eapply push_value_safe
  | |- wp (case_CALLVALUE _) _ _ _ => eapply push_value_safe
  | |- wp (case_CALLDATASIZE _) _ _ _ => eapply push_value_safe
  | |- wp (case_CODESIZE _) _ _ _ => eapply push_value_safe
  | |- wp (case_ORIGIN) _ _ _ => eapply push_txc_safe
  | |- wp (case_GASPRICE) _ _ _ => eapply push_txc_safe
  | |- wp (case_COINBASE) _ _ _ => eapply push_txc_safe
  | |- wp (case_TIMESTAMP) _ _ _ => eapply push_txc_safe
  | |- wp (case_NUMBER) _ _ _ => eapply push_txc_safe
  | |- wp (case_DIFFICULTY) _ _ _ => eapply push_txc_safe
  | |- wp (case_GASLIMIT) _ _ _ => eapply push_txc_safe
  | |- wp (case_LOG _ _) _ _ _ => eapply case_LOG_safe
  end.

Lemma case_of_safe i g m w s :
  operating f i g (gas_cost (evmc_metrics (opcode i))) m 0 w s → executable i = true → i ≠ STOP →
  wp (case_of f i) (λ _, stepped f g) (vm_error g) s.
Proof using All.
  intros Hop He Hne. pose proof (ml_gas i He) as Hgas. destruct i; try discriminate He; try congruence; cbn [case_of].
  all: close; try side.
  all: cbn; lia.
Qed.

Lemma interpretCases_safe s :
  typed f s → vm_bounce s = InterpretCases →
  wp (interpretCases f) (λ _, stepped f (vm_io_gas s)) (vm_error (vm_io_gas s)) s.
Proof using All.
  intros Hty Hb. unfold typed in Hty. rewrite Hb in Hty. destruct Hty as (Hl & Hld & Hspp).
  unfold interpretCases. apply wp_bind. apply wp_fetch; [done|done|].
  set (b := byte_at (vm_code s) (vm_PC s)). intros Hbyte H1 H2. apply wp_bind, wp_get.
  change (vm_OP (fetched b s)) with b.
  destruct (executable (dispatch b)) eqn:He.
  - pose proof (dispatch_executable b Hbyte He) as Hb'. set (i := dispatch b) in *.
    rewrite <- Hb', c_metrics_executable in H1, H2 by done. rewrite ml_args in H1, H2 by done.
    rewrite ml_rets in H2 by done. rewrite <- Hb'.
    destruct (decide (i = STOP)) as [Hi|Hi].
    + rewrite Hi. apply (case_STOP_safe (fetched (opcode STOP) s)); [by destruct Hl|].
      cbn. apply u64_range.
    + destruct (fetched_operating i s) as [w Hop]; try done. by eapply case_of_safe.
  - assert (case_of f (dispatch b) = case_INVALID) as -> by (destruct (dispatch b); done). by apply wp_throw.
Qed.

(** ** The trampoline *)

Lemma initEntry_safe s :
  typed f s → vm_bounce s = InitEntry →
  wp (initEntry f) (λ _ s', typed f s' ∧ vm_bounce s' = InterpretCases ∧ vm_io_gas s' = vm_io_gas s)
    (vm_error (vm_io_gas s)) s.
Proof.
  intros Hty Hb. unfold typed in Hty. rewrite Hb in Hty. destruct Hty as (Hl & Hspp & Hd).
  destruct (optimize_loop_ok (f_code f)) as (c & dests & He & Hc & Hdests).
  unfold initEntry, optimize. apply wp_bind, wp_modify, wp_bind. eapply wp_eq; [unfold slift; by rewrite He|].
  apply wp_bind, wp_modify, wp_modify. cbn [vm_jumpDests set_code set_bounce]. rewrite Hd. cbn [app].
  split_and!; [|done|done]. unfold typed. cbn. split_and!; [by destruct Hl|by constructor|lia|lia].
Qed.

(** What a round costs: twice the gas, and whether a call is pending. *)
Definition weight (b : bounce) : Z :=
  match b with InitEntry => 2 | InterpretCases => 1 | CaseCreate | CaseCall => 0 | Finished => 0 end.
Definition rounds_left (s : VM) : Z := 2 * vm_io_gas s + weight (vm_bounce s).

Definition round_ok (s s' : VM) : Prop :=
  typed f s' ∧ vm_io_gas s' ≤ vm_io_gas s ∧ (vm_bounce s' = Finished ∨ rounds_left s' < rounds_left s).

Lemma stepped_round_interpret s s' :
  vm_bounce s = InterpretCases → stepped f (vm_io_gas s) s' → round_ok s s'.
Proof.
  intros Hb [Hty Hg]. split; [done|]. unfold rounds_left. rewrite Hb. cbn.
  destruct (vm_bounce s'); cbn; (split; [lia|]); first [by left|right; lia].
Qed.

Lemma resumed_round g s s' :
  vm_bounce s = CaseCreate ∨ vm_bounce s = CaseCall → vm_io_gas s = g → resumed g s' → round_ok s s'.
Proof.
  intros Hb Hg [[Hty Hlt] Hb']. rewrite Hb' in Hlt. split; [done|]. unfold rounds_left. rewrite Hb'. cbn.
  split; [lia|right]. destruct Hb as [-> | ->]; cbn; lia.
Qed.

Lemma vm_step_safe s :
  typed f s → vm_bounce s ≠ Finished → wp (vm_step f) (λ _, round_ok s) (vm_error (vm_io_gas s)) s.
Proof using All.
  intros Hty Hfin. apply wp_bind, wp_get. destruct (vm_bounce s) eqn:Hb; [| | | |done].
  - eapply wp_mono; [by apply initEntry_safe| |done]. intros ? s' (Hty' & Hb' & Hg).
    split; [done|]. unfold rounds_left. rewrite Hb, Hb'. cbn. lia.
  - eapply wp_mono; [by apply interpretCases_safe| |done]. intros ? s'. by apply stepped_round_interpret.
  - unfold typed in Hty. rewrite Hb in Hty. destruct Hty as (i & r & m & w & Hi & Hop).
    eapply wp_mono; [by eapply caseCreate_safe| |done]. intros ? s'. apply resumed_round; auto.
  - unfold typed in Hty. rewrite Hb in Hty. destruct Hty as (i & r & m & w & Hi & Hop).
    eapply wp_mono; [by eapply caseCall_safe| |done]. intros ? s'. apply resumed_round; auto.
Qed.

Lemma vm_loop_safe fuel s :
  typed f s → vm_bounce s ≠ Finished → rounds_left s < Z.of_nat fuel →
  wp (vm_loop f fuel) (λ _ s', typed f s' ∧ vm_bounce s' = Finished ∧ vm_io_gas s' ≤ vm_io_gas s)
    (vm_error (vm_io_gas s)) s.
Proof using All.
  revert s. induction fuel as [|k IH]; intros s Hty Hfin Hr.
  { assert (0 ≤ vm_io_gas s); [|unfold rounds_left in Hr; destruct (vm_bounce s); cbn in Hr; lia].
    unfold typed in Hty. destruct (vm_bounce s); [destruct Hty as [[] _]; lia|destruct Hty as [[] _]; lia| | |done];
    destruct Hty as (i & r & m & w & _ & Hop); apply operating_gas in Hop; lia. }
  cbn [vm_loop]. apply wp_bind. eapply wp_mono; [by apply vm_step_safe| |done].
  intros ? s' (Hty' & Hg & Hcase). apply wp_bind, wp_get. apply wp_if; intros Hb; [by apply wp_ret|].
  destruct Hcase as [|Hcase]; [done|]. eapply wp_mono; [apply IH; [done|done|lia]| |].
  - intros ? s2 (? & ? & ?). split_and!; [done|done|lia].
  - intros e s2 He. destruct e; try done. destruct He as [He ?]. split; [|done]. lia.
Qed.

Lemma vm_start_typed h : typed f (vm_start f h).
Proof using Hf.
  unfold typed, vm_start. cbn [vm_bounce]. destruct Hf as [_ _ Hg _ _ _]. split_and!; [|done|done].
  constructor; cbn -[replicate]; try done.
  - apply list.Forall_replicate. apply word_0.
  - constructor.
  - split; [by exists 0|]. rewrite len_nil. lia.
  - split; [constructor|rewrite len_nil; lia].
  - rewrite u64_small by lia. done.
  - constructor.
Qed.

Lemma exec_safe h :
  wp (exec f) (λ out s', bytes_ok out ∧ 0 ≤ vm_io_gas s' ≤ msg_gas (f_msg f))
    (vm_error (msg_gas (f_msg f))) (vm_start f h).
Proof using All.
  pose proof Hf as [_ _ Hg _ _ _]. assert (vm_io_gas (vm_start f h) = msg_gas (f_msg f)) as Hgas.
  { cbn. by rewrite u64_small by lia. }
  unfold exec. apply wp_bind. rewrite <- Hgas. eapply wp_mono; [|intros ? s' Hs'|done].
  - apply vm_loop_safe; [apply vm_start_typed|done|]. unfold exec_rounds, rounds_left. rewrite Hgas.
    rewrite u64_small by lia. cbn. lia.
  - cbn beta in Hs'. destruct Hs' as (Hty & Hb & Hle). apply wp_bind, wp_get, wp_ret.
    unfold typed in Hty. rewrite Hb in Hty. destruct Hty as [? ?]. split; [done|lia].
Qed.
End safe.
