(* ===== verification/VMStatic.v ===== *)
(** * Static frames

    In a frame whose message carries the static flag no case changes the
    state of the host, except through a sub-call, whose message is static
    too. *)

From S2P Require Import Prelude StateErr RLP Crypto VMInstr VM.

Local Open Scope Z_scope.

Lemma wp_any {S A} (m : SM S A) (Q : A → S → Prop) (E : exn → S → Prop) s :
  (∀ a s', Q a s') → (∀ e s', E e s') → wp m Q E s.
Proof. intros HQ HE. unfold wp. destruct (m s) as [[a|e] s']; auto. Qed.

Section static.
Context {crypto : Crypto} {host : Host} {mtr : Metrics}.
Context (f : Frame) (Hstatic : msg_static (f_msg f) = true).

(** [R] is kept by static calls, e.g. "the storage is the same". *)
Context (R : HS → HS → Prop) (Hcall : ∀ h msg, msg_static msg = true → R h (h_call h msg).2).
Context `{!Reflexive R, !Transitive R} (h0 : HS).

Definition quiet (s : VM) : Prop := R h0 (vm_host s) ∧ vm_bounce s ≠ CaseCreate.

Lemma keeps_field (F : VM → VM) :
  (∀ s, vm_host (F s) = vm_host s) → (∀ s, vm_bounce (F s) = vm_bounce s ∨ vm_bounce (F s) ≠ CaseCreate) →
  keeps quiet (smodify F).
Proof.
  intros Hh Hb. apply keeps_modify. intros s [HR Hne]. split; [by rewrite Hh|].
  destruct (Hb s) as [->|]; done.
Qed.

(** Behind [deny_static] nothing runs. *)
Lemma keeps_deny {A} (k : unit → SM VM A) : keeps quiet (deny_static f ≫= k).
Proof using Hstatic.
  intros s Hs. unfold deny_static. rewrite (sm_bind_throw _ _ s DisallowedStateChange s); [done|].
  by apply sthrow_if_true.
Qed.

Ltac quiet :=
  repeat first [ solve [eauto with keeps] | apply keeps_deny
               | solve [apply keeps_field; [done|first [by left|by right]]] | keeps_step ].

Lemma keeps_sp n : keeps quiet (sp n).
Proof. unfold sp. quiet. Qed.
#[local] Hint Resolve keeps_sp : keeps.
Lemma keeps_set_slot k v : keeps quiet (set_slot k v).
Proof. unfold set_slot. quiet. Qed.
#[local] Hint Resolve keeps_set_slot : keeps.
Lemma keeps_set_spp v : keeps quiet (set_spp v).
Proof. unfold set_spp. quiet. Qed.
Lemma keeps_set_sp n v : keeps quiet (set_sp n v).
Proof. unfold set_sp. quiet. Qed.
Lemma keeps_code_at n : keeps quiet (code_at n).
Proof. unfold code_at. quiet. Qed.
Lemma keeps_inc_pc : keeps quiet inc_pc.
Proof. unfold inc_pc. quiet. Qed.
Lemma keeps_mem_slice o z : keeps quiet (mem_slice o z).
Proof. unfold mem_slice. quiet. Qed.
Lemma keeps_mem_write o d : keeps quiet (mem_write o d).
Proof. unfold mem_write. quiet. Qed.
Lemma keeps_toInt63 v : keeps quiet (toInt63 v).
Proof. unfold toInt63. quiet. Qed.
Lemma keeps_set_gas v : keeps quiet (set_gas v).
Proof. unfold set_gas. quiet. Qed.
#[local] Hint Resolve keeps_set_spp keeps_set_sp keeps_code_at keeps_inc_pc keeps_mem_slice keeps_mem_write
  keeps_toInt63 keeps_set_gas : keeps.
Lemma keeps_memNeed o z : keeps quiet (memNeed o z).
Proof. unfold memNeed. quiet. Qed.
Lemma keeps_updateIOGas : keeps quiet updateIOGas.
Proof. unfold updateIOGas. quiet. Qed.
Lemma keeps_updateMem n : keeps quiet (updateMem n).
Proof. unfold updateMem, updateGas, gasForMem. quiet. Qed.
Lemma keeps_getTxContext : keeps quiet getTxContext.
Proof. unfold getTxContext. quiet. Qed.
Lemma keeps_verifyJumpDest a : keeps quiet (verifyJumpDest a).
Proof. unfold verifyJumpDest. quiet. Qed.
#[local] Hint Resolve keeps_memNeed keeps_updateIOGas keeps_updateMem keeps_getTxContext keeps_verifyJumpDest : keeps.
Lemma keeps_copyDataToMemory d : keeps quiet (copyDataToMemory d).
Proof. unfold copyDataToMemory. quiet. Qed.
Lemma keeps_take_output : keeps quiet take_output.
Proof. unfold take_output. quiet. Qed.
Lemma keeps_copy_gas : keeps quiet copy_gas.
Proof. unfold copy_gas. quiet. Qed.
Lemma keeps_push_loop k v : keeps quiet (push_loop k v).
Proof. revert v. induction k as [|k IH]; intros v; cbn [push_loop]; quiet. Qed.
Lemma keeps_require_rev r : keeps quiet (require_rev f r).
Proof. unfold require_rev. quiet. Qed.
#[local] Hint Resolve keeps_copyDataToMemory keeps_take_output keeps_copy_gas keeps_push_loop keeps_require_rev : keeps.
Lemma keeps_push_env m : keeps quiet m → keeps quiet (push_env m).
Proof. intros Hm. unfold push_env. quiet. Qed.
Lemma keeps_fetch : keeps quiet fetchInstruction.
Proof. unfold fetchInstruction, adjustStack, throwBadStack. quiet. Qed.
#[local] Hint Resolve keeps_fetch : keeps.

Lemma keeps_case i : keeps quiet (case_of f i).
Proof using Hstatic.
  destruct i; cbn [case_of]; cbv beta delta [
    unop binop divop ternop shift_op push_env logGasMem case_CREATE2 case_CREATE case_CALL
    case_RETURN case_REVERT case_SUICIDE case_STOP case_MLOAD case_MSTORE case_MSTORE8
    case_SHA3 case_LOG case_EXP case_SDIV case_SIGNEXTEND case_ADDRESS case_ORIGIN case_BALANCE
    case_CALLER case_CALLVALUE case_CALLDATALOAD case_CALLDATASIZE case_RETURNDATASIZE
    case_CODESIZE case_EXTCODESIZE case_CALLDATACOPY case_RETURNDATACOPY case_EXTCODEHASH
    case_CODECOPY case_EXTCODECOPY case_GASPRICE case_BLOCKHASH case_COINBASE case_TIMESTAMP
    case_NUMBER case_DIFFICULTY case_GASLIMIT case_POP case_PUSH1 case_PUSH case_JUMP
    case_JUMPI case_DUP case_SWAP case_SLOAD case_SSTORE case_PC case_MSIZE case_GAS
    case_JUMPDEST case_INVALID ]; quiet.
Qed.

(** The message of a call is static in a static frame. *)
Lemma caseCallSetup_static s :
  wp (caseCallSetup f) (λ r _, msg_static r.1.2 = true) (λ _ _, True) s.
Proof using Hstatic.
  unfold caseCallSetup. repeat (apply wp_bind, wp_any; [intros ? ?|done]; cbv zeta).
  match goal with p : Z * Z * bool |- _ => destruct p as [[v g] ok] end.
  apply wp_ret. cbn. rewrite Hstatic. apply orb_true_r.
Qed.

Lemma keeps_caseCallSetup : keeps quiet (caseCallSetup f).
Proof. unfold caseCallSetup. quiet. Qed.

(** The call itself, on the current host. *)
Lemma keeps_host_call {A} msg (k : evmc_result → SM VM A) :
  msg_static msg = true → (∀ r, keeps quiet (k r)) →
  keeps quiet (s ← sget; let '(r, h) := h_call (vm_host s) msg in smodify (set_host h);; k r).
Proof using All.
  intros Hmsg Hk s [HR Hne]. rewrite (sm_bind_ok sget _ s s s) by done.
  pose proof (Hcall (vm_host s) msg Hmsg) as Hc. destruct (h_call (vm_host s) msg) as [r h]. cbn [snd] in Hc.
  rewrite (sm_bind_ok _ _ s tt (set_host h s)) by done. apply Hk. split; [by etrans|done].
Qed.

Lemma keeps_caseCall : keeps quiet (caseCall f).
Proof using All.
  unfold caseCall. do 2 (apply keeps_bind; [quiet|intros ?]).
  apply keeps_bind_eq; [apply keeps_caseCallSetup|]. intros s [[go msg] [o z]] s' Hs E.
  pose proof (keeps_caseCallSetup s Hs) as Hs'. rewrite E in Hs'.
  pose proof (caseCallSetup_static s) as Hst. unfold wp in Hst. rewrite E in Hst. cbn in Hst.
  clear E Hs. revert s' Hs'. change (keeps quiet ((if go
    then s ← sget; let '(r, h) := h_call (vm_host s) msg in smodify (set_host h);;
         (smodify (set_returnData (res_output r));; mem_write o (take (Z.to_nat z) (res_output r));;
          set_spp (bool_word (bool_decide (res_status r = EVMC_SUCCESS)));;
          smodify (λ s, set_io_gas (u64 (vm_io_gas s + res_gas_left r)) s))
    else set_spp 0;; smodify (λ s, set_io_gas (u64 (vm_io_gas s + msg_gas msg)) s));; inc_pc)).
  apply keeps_bind; [|intros ?; quiet]. destruct go; [|quiet].
  apply (keeps_host_call msg (λ r, smodify (set_returnData (res_output r));; mem_write o (take (Z.to_nat z) (res_output r));;
          set_spp (bool_word (bool_decide (res_status r = EVMC_SUCCESS)));;
          smodify (λ s, set_io_gas (u64 (vm_io_gas s + res_gas_left r)) s))); [done|]. intros r. quiet.
Qed.

Lemma keeps_vm_step : keeps quiet (vm_step f).
Proof using All.
  intros s Hs. unfold vm_step. rewrite (sm_bind_ok sget _ s s s) by done. pose proof Hs as [_ Hne].
  destruct (vm_bounce s) eqn:Hb; [| |done| |done].
  - clear Hne Hb. revert s Hs. change (keeps quiet (initEntry f)).
    unfold initEntry, optimize. quiet.
  - assert (keeps quiet (interpretCases f)) as Hk by (unfold interpretCases; quiet; apply keeps_case). by apply Hk.
  - by apply keeps_caseCall.
Qed.

Lemma keeps_vm_loop fuel : keeps quiet (vm_loop f fuel).
Proof using All.
  induction fuel as [|k IH]; cbn [vm_loop]; [quiet|]. apply keeps_bind; [apply keeps_vm_step|intros ?]. quiet.
Qed.

Lemma execute_host h : (execute f h).2 = vm_host (exec f (vm_start f h)).2.
Proof.
  unfold execute. destruct (exec f (vm_start f h)) as [[out|e] s]; [done|]. destruct e; done.
Qed.

Lemma static_host : R h0 (execute f h0).2.
Proof using All.
  rewrite execute_host. assert (keeps quiet (exec f)) as Hk.
  { unfold exec. apply keeps_bind; [apply keeps_vm_loop|intros ?]. quiet. }
  apply (Hk (vm_start f h0)). split; [done|done].
Qed.
End static.
