(* ===== verification/VMStack.v ===== *)
(** * The operand stack as an abstract machine

    A specification of the instructions that only work on the stack, over a
    list of words, a program counter and the gas, and the proof that the
    array with its two pointers implements it, errors included. *)

From S2P Require Import Prelude StateErr RLP RLPFacts Crypto VMInstr VM VMAlu VMJump VMTyped VMCases VMSafe.

Local Open Scope Z_scope.

(** ** Specification *)

(** [size] bytes of [d] from [off], zero beyond its end. *)
Definition padded (d : bytes) (off size : Z) : bytes := data_byte d <$> seqZ off size.

Lemma padded_inside d a n :
  0 ≤ a → 0 ≤ n → a + n ≤ len d → padded d a n = take (Z.to_nat n) (drop (Z.to_nat a) d).
Proof.
  intros Ha Hn Hl. unfold len in Hl. apply list_eq. intros j. unfold padded. rewrite list_lookup_fmap.
  destruct (decide (j < Z.to_nat n)%nat) as [Hj|Hj].
  - rewrite lookup_seqZ_lt, lookup_take_lt, lookup_drop by lia. cbn. unfold data_byte, byte_at.
    rewrite decide_True by (unfold len; lia). rewrite nth_lookup.
    replace (Z.to_nat (a + Z.of_nat j)) with (Z.to_nat a + j)%nat by lia.
    destruct (d !! _) eqn:E; [done|]. apply lookup_ge_None in E. lia.
  - rewrite lookup_seqZ_ge by lia. symmetry. apply lookup_ge_None_2. rewrite length_take. lia.
Qed.

Lemma padded_outside d a n : len d ≤ a → padded d a n = replicate (Z.to_nat n) 0.
Proof.
  intros Ha. apply list_eq. intros j. unfold padded. rewrite list_lookup_fmap.
  destruct (decide (j < Z.to_nat n)%nat) as [Hj|Hj].
  - rewrite lookup_seqZ_lt, lookup_replicate_2 by lia. cbn. unfold data_byte. by rewrite decide_False by lia.
  - rewrite lookup_seqZ_ge by lia. symmetry. apply lookup_ge_None_2. rewrite length_replicate. lia.
Qed.

Lemma padded_shift d a n : padded d a n = (λ j, data_byte d (a + j)) <$> seqZ 0 n.
Proof.
  unfold padded. rewrite <- (Z.add_0_r a) at 1. rewrite <- fmap_add_seqZ, <- list_fmap_compose. done.
Qed.

Section spec.
Context (f : Frame).

Definition op1 (op : Z → Z) (l : list Z) : Z := op (nth 0 l 0).
Definition op2 (op : Z → Z → Z) (l : list Z) : Z := op (nth 0 l 0) (nth 1 l 0).
Definition op3 (op : Z → Z → Z → Z) (l : list Z) : Z := op (nth 0 l 0) (nth 1 l 0) (nth 2 l 0).

(** Instructions that replace their operands by one word. *)
Definition stack_value (pc : Z) (i : Instruction) : option (list Z → Z) :=
  match i with
  | ADD => Some (op2 alu_add) | MUL => Some (op2 alu_mul) | SUB => Some (op2 alu_sub)
  | DIV => Some (op2 quot_word) | SDIV => Some (op2 squot_word) | MOD => Some (op2 rem_word)
  | SMOD => Some (op2 srem_word) | ADDMOD => Some (op3 alu_addmod) | MULMOD => Some (op3 alu_mulmod)
  | SIGNEXTEND => Some (op2 alu_signextend) | LT => Some (op2 alu_lt) | GT => Some (op2 alu_gt)
  | SLT => Some (op2 alu_slt) | SGT => Some (op2 alu_sgt) | EQ => Some (op2 alu_eq)
  | ISZERO => Some (op1 alu_iszero) | AND => Some (op2 alu_and) | OR => Some (op2 alu_or)
  | XOR => Some (op2 alu_xor) | NOT => Some (op1 alu_not) | BYTE => Some (op2 alu_byte)
  | SHL => Some (op2 alu_shl) | SHR => Some (op2 alu_shr) | SAR => Some (op2 alu_sar)
  | ADDRESS => Some (λ _, fromAddress (msg_destination (f_msg f)))
  | CALLER => Some (λ _, fromAddress (msg_sender (f_msg f)))
  | CALLVALUE => Some (λ _, msg_value (f_msg f))
  | CALLDATASIZE => Some (λ _, len (msg_input (f_msg f)))
  | CODESIZE => Some (λ _, len (f_code f))
  | CALLDATALOAD => Some (λ l, fromBigEndian id (padded (msg_input (f_msg f)) (nth 0 l 0) 32))
  | PC => Some (λ _, pc)
  | _ => None
  end.

(** What an instruction puts in place of its operands, top first. *)
Definition stack_effect (pc : Z) (i : Instruction) (l : list Z) : option (list Z) :=
  let op := opcode i in
  if decide (opcode PUSH1 ≤ op ≤ opcode PUSH32) then
    Some [fromBigEndian id (padded (f_code f) (pc + 1) (op - opcode PUSH1 + 1))]
  else if decide (opcode DUP1 ≤ op ≤ opcode DUP16) then Some (nth (length l - 1) l 0 :: l)
  else if decide (opcode SWAP1 ≤ op ≤ opcode SWAP16) then
    Some (<[(length l - 1)%nat := nth 0 l 0]> (<[0%nat := nth (length l - 1) l 0]> l))
  else if decide (i = POP) then Some []
  else (λ v, [v l]) <$> stack_value pc i.

Record amachine := AMachine { am_stack : list Z; am_pc : Z; am_gas : Z }.

(** One instruction of the abstract machine, for a gas price [t]. *)
Definition am_step (i : Instruction) (t : Z) (a : amachine) : option (res amachine) :=
  let n := Z.to_nat (args i) in
  out ← stack_effect (am_pc a) i (take n (am_stack a));
  Some (throw_if (len (am_stack a) < args i) StackUnderflow;;
        throw_if (1024 < len (am_stack a) - args i + rets i) OutOfStack;;
        throw_if (i ∈ [SHL; SHR; SAR] ∧ f_rev f < EVMC_CONSTANTINOPLE) BadInstruction;;
        throw_if (am_gas a < t) OutOfGas;;
        Ok (AMachine (out ++ drop n (am_stack a)) (am_pc a + instr_size (opcode i)) (am_gas a - t))).
End spec.

(** ** The state seen as the abstract machine *)

Section refines.
Context {crypto : Crypto} {host : Host} {mtr : Metrics}.
Context (f : Frame).

Definition am_abs (s : VM) : amachine :=
  AMachine (drop (Z.to_nat (vm_SPP s)) (vm_stack s)) (vm_PC s) (vm_io_gas s).

(** What such an instruction leaves alone. *)
Definition same_rest (s s' : VM) : Prop :=
  vm_mem s' = vm_mem s ∧ vm_returnData s' = vm_returnData s ∧ vm_output s' = vm_output s ∧
  vm_host s' = vm_host s ∧ vm_code s' = vm_code s ∧ vm_bounce s' = vm_bounce s.

Lemma same_rest_trans s1 s2 s3 : same_rest s1 s2 → same_rest s2 s3 → same_rest s1 s3.
Proof. unfold same_rest. intuition congruence. Qed.

(** ** Precise rules *)

Lemma wp_updateIOGas_eq Q (E : exn → VM → Prop) s :
  (vm_io_gas s < vm_runGas s → E OutOfGas s) →
  (vm_runGas s ≤ vm_io_gas s → Q tt (set_io_gas (vm_io_gas s - vm_runGas s) s)) →
  wp updateIOGas Q E s.
Proof.
  intros HE HQ. apply wp_bind, wp_get, wp_bind, wp_throw_if; [done|]. intros Hle. apply wp_modify, HQ. lia.
Qed.

Lemma wp_sp_at n v Q (E : exn → VM → Prop) s :
  0 ≤ vm_SP s + n → vm_stack s !! Z.to_nat (vm_SP s + n) = Some v → Q v s → wp (sp n) Q E s.
Proof.
  intros H0 Hv HQ. apply wp_bind, wp_get. rewrite Hv. destruct (decide _); [by apply wp_ret|lia].
Qed.

Lemma wp_slot_at k v Q (E : exn → VM → Prop) s :
  0 ≤ k < Z.of_nat (length (vm_stack s)) → Q tt (set_stack (<[Z.to_nat k := v]> (vm_stack s)) s) →
  wp (set_slot k v) Q E s.
Proof. intros Hk HQ. apply wp_bind, wp_get, wp_bind, wp_throw_if; [lia|]. intros _. by apply wp_modify. Qed.

(** ** One result *)

Section value.
Context (Q : unit → VM → Prop) (E : exn → VM → Prop) (l : list Z) (s : VM).
Context (Hlen : length (vm_stack s) = 1024%nat).
Context (Hl : ∀ n, (n < length l)%nat →
  vm_stack s !! Z.to_nat (vm_SP s + Z.of_nat n) = Some (nth n l 0)).
Context (HSP : 0 ≤ vm_SP s) (HSPP : 0 ≤ vm_SPP s < 1024).
Context (Hgas : vm_io_gas s < vm_runGas s → E OutOfGas s).

(** The state after the result [v] is written. *)
Definition pushed (x v : Z) : VM :=
  set_PC (u64 (vm_PC s + 1)) (set_SP x (set_stack (<[Z.to_nat (vm_SPP s) := v]> (vm_stack s))
    (set_io_gas (vm_io_gas s - vm_runGas s) s))).
Definition gives (v : Z) : Prop := vm_runGas s ≤ vm_io_gas s → ∀ x, Q tt (pushed x v).

Ltac operand n :=
  apply wp_bind, (wp_sp_at (Z.of_nat n) (nth n l 0)); [cbn; lia|apply Hl; lia|].

Lemma gives_same v : gives v → vm_runGas s ≤ vm_io_gas s →
  Q tt (set_PC (u64 (vm_PC s + 1)) (set_stack (<[Z.to_nat (vm_SPP s) := v]> (vm_stack s))
    (set_io_gas (vm_io_gas s - vm_runGas s) s))).
Proof. intros HQ Hle. exact (HQ Hle (vm_SP s)). Qed.

Ltac result :=
  apply wp_bind, wp_bind, wp_get, wp_slot_at; [cbn; lia|]; apply wp_modify; by apply gives_same.

Lemma unop_gives op : length l = 1%nat → gives (op1 op l) → wp (unop op) Q E s.
Proof using All.
  intros Hn HQ. apply wp_bind, wp_updateIOGas_eq; [done|]. intros Hle. operand 0%nat. result.
Qed.

Lemma binop_gives op : length l = 2%nat → gives (op2 op l) → wp (binop op) Q E s.
Proof using All.
  intros Hn HQ. apply wp_bind, wp_updateIOGas_eq; [done|]. intros Hle. operand 0%nat. operand 1%nat. result.
Qed.

Lemma divop_gives op v : length l = 2%nat → (∀ a b, op a b = Ok (v a b)) → gives (op2 v l) → wp (divop op) Q E s.
Proof using All.
  intros Hn Hop HQ. apply wp_bind, wp_updateIOGas_eq; [done|]. intros Hle. operand 0%nat. operand 1%nat.
  rewrite Hop. apply wp_bind, wp_ret. result.
Qed.

Lemma ternop_gives op : length l = 3%nat → gives (op3 op l) → wp (ternop op) Q E s.
Proof using All.
  intros Hn HQ. apply wp_bind, wp_updateIOGas_eq; [done|]. intros Hle.
  operand 0%nat. operand 1%nat. operand 2%nat. result.
Qed.

Lemma shift_op_gives op :
  length l = 2%nat → (f_rev f < EVMC_CONSTANTINOPLE → E BadInstruction s) →
  (EVMC_CONSTANTINOPLE ≤ f_rev f → gives (op2 op l)) → wp (shift_op f op) Q E s.
Proof using All.
  intros Hn HE HQ. apply wp_bind, wp_throw_if; [done|]. unfold rev_before. intros Hrev.
  apply binop_gives; [done|]. apply HQ. lia.
Qed.

Lemma sdiv_gives : length l = 2%nat → gives (op2 squot_word l) → wp case_SDIV Q E s.
Proof using All.
  intros Hn HQ. apply wp_bind, wp_updateIOGas_eq; [done|]. intros Hle. operand 0%nat. operand 1%nat.
  rewrite alu_sdiv_ok. apply wp_bind, wp_ret.
  apply wp_bind, wp_bind, wp_get, wp_slot_at; [cbn; lia|]. apply wp_bind, wp_modify, wp_modify.
  exact (HQ Hle (vm_SP s - 1)).
Qed.

Lemma push_gives v : gives v → wp (push_env (mret v)) Q E s.
Proof using All.
  intros HQ. apply wp_bind, wp_updateIOGas_eq; [done|]. intros Hle. apply wp_bind, wp_ret. result.
Qed.

Lemma pc_gives : gives (vm_PC s) → wp case_PC Q E s.
Proof using All.
  intros HQ. apply wp_bind, wp_updateIOGas_eq; [done|]. intros Hle. apply wp_bind, wp_bind, wp_get, wp_ret. result.
Qed.

(** SIGNEXTEND and CALLDATALOAD write where [m_SPP] points. *)
Lemma signextend_gives :
  length l = 2%nat → vm_SPP s = vm_SP s + 1 → gives (op2 alu_signextend l) → wp case_SIGNEXTEND Q E s.
Proof using All.
  intros Hn Hspp HQ. apply wp_bind, wp_updateIOGas_eq; [done|]. intros Hle. operand 0%nat. operand 1%nat.
  apply wp_bind, wp_bind, wp_get, wp_slot_at; [cbn; lia|]. apply wp_modify. cbn [vm_SP set_io_gas].
  rewrite <- Hspp. by apply gives_same.
Qed.

Lemma calldataload_gives :
  length l = 1%nat → vm_SPP s = vm_SP s → word (nth 0 l 0) → len (msg_input (f_msg f)) < 2 ^ 62 →
  gives (fromBigEndian id (padded (msg_input (f_msg f)) (nth 0 l 0) 32)) → wp (case_CALLDATALOAD f) Q E s.
Proof using All.
  intros Hn Hspp Hw Hin HQ. apply wp_bind, wp_updateIOGas_eq; [done|]. intros Hle. operand 0%nat.
  assert (∀ v, v = fromBigEndian id (padded (msg_input (f_msg f)) (nth 0 l 0) 32) →
    wp (set_sp 0 v;; inc_pc) Q E (set_io_gas (vm_io_gas s - vm_runGas s) s)) as Hset.
  { intros v ->. apply wp_bind, wp_bind, wp_get, wp_slot_at; [cbn; lia|]. apply wp_modify. cbn [vm_SP set_io_gas].
    rewrite Z.add_0_r, <- Hspp. by apply gives_same. }
  set (d := msg_input (f_msg f)) in *. set (a := nth 0 l 0) in *. pose proof (len_nonneg d).
  unfold word in Hw. case_decide as H1; [|case_decide as H2]; apply Hset.
  - rewrite u64_small, padded_inside by lia. done.
  - by rewrite padded_outside by lia.
  - rewrite u64_small, padded_shift by lia. done.
Qed.

Lemma case_gives i v :
  stack_value f (vm_PC s) i = Some v → frame_ok f → Forall word l →
  Z.of_nat (length l) = args i → vm_SPP s = vm_SP s + args i - 1 →
  (i ∈ [SHL; SHR; SAR] ∧ f_rev f < EVMC_CONSTANTINOPLE → E BadInstruction s) →
  (¬ (i ∈ [SHL; SHR; SAR] ∧ f_rev f < EVMC_CONSTANTINOPLE) → gives (v l)) → wp (case_of f i) Q E s.
Proof using All.
  intros Hv Hf Hw Hn Hspp HE HQ. pose proof Hf as [_ [_ Hin] _ _ _ _].
  assert (length l = Z.to_nat (args i)) as Hn' by lia. clear Hn.
  assert (EVMC_CONSTANTINOPLE ≤ f_rev f ∨ i ∉ [SHL; SHR; SAR] → gives (v l)) as HQ'.
  { intros [H|H]; apply HQ; intros [? ?]; [lia|done]. }
  destruct i; cbn [stack_value] in Hv; lazymatch type of Hv with None = _ => discriminate Hv | _ => idtac end.
  all: apply Some_inj in Hv; subst v.
  all: cbn [case_of].
  all: lazymatch goal with
       | |- wp (binop _) _ _ _ => apply binop_gives
       | |- wp (divop _) _ _ _ => eapply divop_gives
       | |- wp (unop _) _ _ _ => apply unop_gives
       | |- wp (ternop _) _ _ _ => apply ternop_gives
       | |- wp (shift_op _ _) _ _ _ => apply shift_op_gives
       | |- wp case_SDIV _ _ _ => apply sdiv_gives
       | |- wp case_SIGNEXTEND _ _ _ => apply signextend_gives
       | |- wp (case_CALLDATALOAD _) _ _ _ => apply calldataload_gives
       | |- wp case_PC _ _ _ => apply pc_gives
       | _ => apply push_gives
       end.
  all: first [ exact Hn' | exact alu_div_ok | exact alu_mod_ok | exact alu_smod_ok | apply HQ'; right; by apply (bool_decide_unpack _)
             | intros Hrev; apply HE; split; [by apply (bool_decide_unpack _)|done]
             | intros Hrev; apply HQ'; left; exact Hrev | exact Hin | idtac ].
  - rewrite Hspp. cbn. lia.
  - rewrite Hspp. cbn. lia.
  - destruct Hw as [|x l' Hx _]; [|done]. apply word_0.
Qed.

(** ** Moves *)

Lemma dup_gives i :
  vm_OP s = opcode i → (0 < length l)%nat → Z.of_nat (length l) = opcode i - opcode DUP1 + 1 →
  gives (nth (length l - 1) l 0) → wp case_DUP Q E s.
Proof using All.
  intros HOP Hl0 Hn HQ. apply wp_bind, wp_updateIOGas_eq; [done|]. intros Hle. apply wp_bind, wp_get.
  cbn [vm_OP set_io_gas]. rewrite HOP.
  replace (opcode i - opcode DUP1) with (Z.of_nat (length l - 1)) by lia. operand (length l - 1)%nat. result.
Qed.

Lemma pop_gives :
  (vm_runGas s ≤ vm_io_gas s →
   Q tt (set_PC (u64 (vm_PC s + 1)) (set_SP (vm_SP s - 1) (set_io_gas (vm_io_gas s - vm_runGas s) s)))) →
  wp case_POP Q E s.
Proof using All.
  intros HQ. apply wp_bind, wp_updateIOGas_eq; [done|]. intros Hle. apply wp_bind, wp_modify, wp_modify. by apply HQ.
Qed.
End value.

Lemma swap_gives (Q : unit → VM → Prop) (E : exn → VM → Prop) l s i :
  length (vm_stack s) = 1024%nat → 0 ≤ vm_SP s → vm_SP s + Z.of_nat (length l) ≤ 1024 →
  (∀ n, (n < length l)%nat → vm_stack s !! Z.to_nat (vm_SP s + Z.of_nat n) = Some (nth n l 0)) →
  (vm_io_gas s < vm_runGas s → E OutOfGas s) →
  vm_OP s = opcode i → (1 < length l)%nat → Z.of_nat (length l) = opcode i - opcode SWAP1 + 2 →
  (vm_runGas s ≤ vm_io_gas s →
   Q tt (set_PC (u64 (vm_PC s + 1)) (set_stack
     (<[Z.to_nat (vm_SP s + Z.of_nat (length l - 1)) := nth 0 l 0]>
        (<[Z.to_nat (vm_SP s) := nth (length l - 1) l 0]> (vm_stack s)))
     (set_io_gas (vm_io_gas s - vm_runGas s) s)))) →
  wp case_SWAP Q E s.
Proof.
  intros Hlen HSP Hfit Hl Hgas HOP Hl1 Hn HQ. apply wp_bind, wp_updateIOGas_eq; [done|]. intros Hle.
  apply wp_bind, wp_get. cbv zeta. cbn [vm_OP set_io_gas]. rewrite HOP.
  replace (opcode i - opcode SWAP1 + 1) with (Z.of_nat (length l - 1)) by lia.
  apply wp_bind, (wp_sp_at (Z.of_nat 0) (nth 0 l 0)); [cbn; lia|apply Hl; lia|].
  apply wp_bind, (wp_sp_at _ (nth (length l - 1) l 0)); [cbn; lia|apply Hl; lia|].
  apply wp_bind, wp_bind, wp_get, wp_slot_at; [cbn; lia|].
  apply wp_bind, wp_bind, wp_get, wp_slot_at; [cbn; rewrite length_insert; lia|]. apply wp_modify.
  cbn [vm_SP vm_stack set_stack set_io_gas]. rewrite Z.add_0_r. by apply HQ.
Qed.

(** ** Push data *)

Lemma push_word_snoc v d b : push_word v (d ++ [b]) = Z.lor (u256 (Z.shiftl (push_word v d) 8)) b.
Proof. unfold push_word. by rewrite fold_left_app. Qed.

Lemma push_word_spec d : bytes_ok d → len d ≤ 32 → push_word 0 d = fromBigEndian id d.
Proof.
  induction d as [|b d IH] using rev_ind; intros Hd Hl; [done|].
  apply bytes_ok_app in Hd as [Hd Hb]. rewrite len_app, len_cons, len_nil in Hl.
  rewrite push_word_snoc, fromBigEndian_app, IH by (done || lia).
  pose proof (fromBigEndian_bound d Hd) as Hbound. set (x := fromBigEndian id d) in *. unfold id. f_equal. rewrite Z.shiftl_mul_pow2 by lia. apply u256_small.
  assert (2 ^ (8 * len d) ≤ 2 ^ 248) by (apply Z.pow_le_mono_r; lia). lia.
Qed.

(** The data after an instruction is what the contract holds, although the
    pass over the code has patched it elsewhere. *)
Lemma code_slice_padded s k :
  loaded f s → boundary (f_code f) (vm_PC s) → vm_PC s < len (f_code f) →
  instr_size (byte_at (f_code f) (vm_PC s)) = Z.of_nat k + 1 →
  code_slice (set_PC (vm_PC s + 1) s) k = padded (f_code f) (vm_PC s + 1) (Z.of_nat k).
Proof.
  intros [[_ _ Hsame] _] Hb Hlt Hsize. rewrite padded_shift. unfold code_slice.
  apply list_fmap_ext. intros j x Hj%list_elem_of_lookup_2%elem_of_seqZ. cbn [vm_code vm_PC set_PC].
  pose proof (boundary_nonneg _ _ Hb). pose proof (instr_size_range (byte_at (f_code f) (vm_PC s))).
  rewrite Hsame; [done|lia|]. intros (Hb' & _).
  pose proof (boundary_gap _ _ _ Hb Hb' ltac:(lia) Hlt). lia.
Qed.

(** ** The fetch, with its errors *)

Lemma wp_fetch_eq Q (E : exn → VM → Prop) s :
  frame_ok f → live f s → loaded f s →
  let b := byte_at (vm_code s) (vm_PC s) in
  let a := num_stack_arguments (c_metrics b) in
  let r := num_stack_returned_items (c_metrics b) in
  0 ≤ a ≤ 1024 →
  (1024 < vm_SPP s + a → ∀ s', E StackUnderflow s') →
  (vm_SPP s + a ≤ 1024 → vm_SPP s + a - r < 0 → ∀ s', E OutOfStack s') →
  (vm_SPP s + a ≤ 1024 → 0 ≤ vm_SPP s + a - r → Q tt (fetched b s)) → wp fetchInstruction Q E s.
Proof.
  intros Hf Hl Hld b a r Ha Hunder Hover HQ. pose proof Hl as [].
  pose proof (boundary_nonneg _ _ lv_pc). pose proof (boundary_bound _ _ lv_pc).
  unfold fetchInstruction. apply wp_bind, wp_get, wp_bind. eapply wp_eq; [apply (code_at_run f); [done|lia]|].
  fold b. apply wp_bind, wp_modify. cbv zeta. fold a r. apply wp_bind. unfold adjustStack, stackLimit.
  apply wp_bind, wp_modify, wp_bind, wp_modify, wp_bind, wp_get, wp_bind.
  apply wp_when; cbn [vm_SPP set_SPP set_SP set_OP]; intros H1.
  { unfold throwBadStack, stackLimit. apply wp_bind, wp_get, wp_if; cbn [vm_SPP set_SPP set_SP set_OP]; [|lia].
    intros _. apply wp_throw, Hunder. lia. }
  apply wp_bind, wp_modify, wp_bind, wp_get, wp_when; cbn [vm_SPP set_SPP set_SP set_OP]; intros H2.
  { unfold throwBadStack, stackLimit. apply wp_bind, wp_get, wp_if; cbn [vm_SPP set_SPP set_SP set_OP]; [lia|].
    intros _. apply wp_throw, Hover; lia. }
  apply wp_bind, wp_modify, wp_bind, wp_modify, wp_modify. apply HQ; lia.
Qed.

(** ** Refinement *)

Lemma drop_insert_here {A} (k : nat) (x : A) l : (k < length l)%nat → drop k (<[k:=x]> l) = x :: drop (S k) l.
Proof.
  intros Hk. rewrite (drop_S _ x); [|by apply list_lookup_insert_eq]. f_equal. by rewrite drop_insert_lt by lia.
Qed.

(** The state after the fetch of [i] at price [t]. *)
Record after_fetch (i : Instruction) (t : Z) (s s1 : VM) : Prop := {
  af_stack : vm_stack s1 = vm_stack s;
  af_SP : vm_SP s1 = vm_SPP s;
  af_SPP : vm_SPP s1 = vm_SPP s + args i - rets i;
  af_OP : vm_OP s1 = opcode i;
  af_PC : vm_PC s1 = vm_PC s;
  af_gas : vm_io_gas s1 = vm_io_gas s;
  af_run : vm_runGas s1 = t;
  af_rest : same_rest s s1;
  af_loaded : loaded f s1;
}.

Lemma tier_range i t : tierGas (info_tier (instructionInfo i)) = Some t → 0 ≤ t < 2 ^ 15.
Proof. destruct i; cbn; intros Htier; congruence || (injection Htier as <-; lia). Qed.

Lemma fetched_after {Hmetrics : MetricsLaws} i t s :
  loaded f s → executable i = true → tierGas (info_tier (instructionInfo i)) = Some t →
  after_fetch i t s (fetched (opcode i) s).
Proof.
  intros [] He Ht. pose proof (tier_range i t Ht).
  constructor; unfold fetched; cbn; rewrite ?c_metrics_executable, ?ml_args, ?ml_rets by done; try done.
  rewrite (ml_tier i t), u64_small by (done || lia). done.
Qed.

Section step.
Context (Hf : frame_ok f) (i : Instruction) (t : Z) (s s1 : VM) (out : list Z).
Context (Hl : live f s) (Hld : loaded f s) (Hspp : 0 ≤ vm_SPP s ≤ 1024).
Context (He : executable i = true) (Hns : i ≠ STOP) (Hbyte : byte_at (vm_code s) (vm_PC s) = opcode i).
Context (H1 : vm_SPP s + args i ≤ 1024) (H2 : 0 ≤ vm_SPP s + args i - rets i).
Context (Haf : after_fetch i t s s1).

Abbreviation l := (take (Z.to_nat (args i)) (drop (Z.to_nat (vm_SPP s)) (vm_stack s))).
Abbreviation target := (AMachine (out ++ drop (Z.to_nat (args i)) (drop (Z.to_nat (vm_SPP s)) (vm_stack s)))
  (vm_PC s + instr_size (opcode i)) (vm_io_gas s - t)).

Lemma args_range : 0 ≤ args i ∧ 0 ≤ rets i.
Proof. clear. by destruct i. Qed.

Lemma step_operands :
  Z.of_nat (length l) = args i ∧
  ∀ n, (n < length l)%nat → vm_stack s1 !! Z.to_nat (vm_SP s1 + Z.of_nat n) = Some (nth n l 0).
Proof using H1 Hl Hspp Haf.
  pose proof args_range. pose proof Hl as []. assert (Z.of_nat (length l) = args i) as Hlen.
  { rewrite length_take, length_drop. lia. }
  split; [done|]. intros n Hn. rewrite (af_stack _ _ _ _ Haf), (af_SP _ _ _ _ Haf).
  rewrite nth_lookup, lookup_take_lt, lookup_drop by lia.
  replace (Z.to_nat (vm_SPP s) + n)%nat with (Z.to_nat (vm_SPP s + Z.of_nat n)) by lia.
  destruct (vm_stack s !! _) eqn:E; [done|]. apply lookup_ge_None in E. lia.
Qed.

Lemma step_here : boundary (f_code f) (vm_PC s) ∧ vm_PC s < len (f_code f) ∧
  byte_at (f_code f) (vm_PC s) = opcode i ∧ 0 ≤ vm_PC s < 2 ^ 62.
Proof using Hf He Hns Hbyte Hl Hld.
  pose proof Hl as []. pose proof Hld as [[_ Hneu Hsame] _].
  pose proof (boundary_nonneg _ _ lv_pc). pose proof (boundary_bound _ _ lv_pc).
  assert (¬ neutralised (f_code f) (vm_PC s)) as Hnn.
  { intros Hn. rewrite (Hneu _ Hn) in Hbyte. clear - Hbyte He. destruct i; done. }
  rewrite (Hsame (vm_PC s) ltac:(lia) Hnn) in Hbyte. unfold loaded_byte in Hbyte. case_decide.
  - destruct Hf as [[_ ?] _ _ _ _ _]. split_and!; [done|done|done|lia|lia].
  - exfalso. clear - Hbyte Hns. destruct i; done.
Qed.

(** ** The cases *)

Context (E : exn → VM → Prop).
Context (HEgas : vm_io_gas s < t → ∀ s', E OutOfGas s').
Context (HErev : i ∈ [SHL; SHR; SAR] ∧ f_rev f < EVMC_CONSTANTINOPLE → ∀ s', E BadInstruction s').

Definition reaches (u : unit) (s' : VM) : Prop :=
  am_abs s' = target ∧ same_rest s s' ∧ t ≤ vm_io_gas s.

Lemma reaches_eq s' : drop (Z.to_nat (vm_SPP s')) (vm_stack s') =
    out ++ drop (Z.to_nat (args i)) (drop (Z.to_nat (vm_SPP s)) (vm_stack s)) →
  vm_PC s' = vm_PC s + instr_size (opcode i) → vm_io_gas s' = vm_io_gas s - t → same_rest s1 s' →
  vm_runGas s1 ≤ vm_io_gas s1 → reaches tt s'.
Proof using Haf.
  intros Hst Hpc Hg Hrest Hle. rewrite (af_gas _ _ _ _ Haf), (af_run _ _ _ _ Haf) in Hle.
  split_and!; [unfold am_abs; by rewrite Hst, Hpc, Hg| |done].
  exact (same_rest_trans _ _ _ (af_rest _ _ _ _ Haf) Hrest).
Qed.

(** Where the result of an instruction goes. *)
Lemma top_replaced v : 1 ≤ rets i →
  drop (Z.to_nat (vm_SPP s1)) (<[Z.to_nat (vm_SPP s1) := v]> (vm_stack s1)) =
  v :: drop (Z.to_nat (vm_SPP s + args i - rets i + 1)) (vm_stack s).
Proof using Hl H1 H2 Haf.
  intros Hr. pose proof Hl as []. rewrite (af_stack _ _ _ _ Haf), (af_SPP _ _ _ _ Haf).
  rewrite drop_insert_here by lia. f_equal. f_equal. lia.
Qed.

Lemma step_gas : vm_io_gas s1 < vm_runGas s1 → E OutOfGas s1.
Proof using HEgas Haf. rewrite (af_gas _ _ _ _ Haf), (af_run _ _ _ _ Haf). intros Hlt. by apply HEgas. Qed.

Lemma pushed_reaches v x :
  out = v :: take (Z.to_nat (rets i - 1)) (drop (Z.to_nat (vm_SPP s + args i - rets i + 1)) (vm_stack s)) →
  1 ≤ rets i → instr_size (opcode i) = 1 → vm_runGas s1 ≤ vm_io_gas s1 → reaches tt (pushed s1 x v).
Proof using All.
  intros Hout Hr Hsize Hle. destruct step_here as (_ & _ & _ & Hpc). pose proof args_range. apply reaches_eq; [| | |done|done].
  - change (vm_SPP (pushed s1 x v)) with (vm_SPP s1).
    change (vm_stack (pushed s1 x v)) with (<[Z.to_nat (vm_SPP s1) := v]> (vm_stack s1)).
    rewrite top_replaced, Hout by lia. cbn [app]. f_equal. rewrite drop_drop.
    rewrite <- (take_drop (Z.to_nat (rets i - 1)) (drop _ _)) at 1. f_equal. rewrite drop_drop. f_equal. lia.
  - change (vm_PC (pushed s1 x v)) with (u64 (vm_PC s1 + 1)). rewrite (af_PC _ _ _ _ Haf), Hsize, u64_small by lia. done.
  - change (vm_io_gas (pushed s1 x v)) with (vm_io_gas s1 - vm_runGas s1).
    by rewrite (af_gas _ _ _ _ Haf), (af_run _ _ _ _ Haf).
Qed.

Lemma value_step v :
  stack_value f (vm_PC s) i = Some v → out = [v l] → wp (case_of f i) reaches E s1.
Proof using All.
  intros Hv Hout. destruct step_operands as [Hlen Hop]. pose proof Haf as [Hst HSP HSPP _ HPC _ _ _ _].
  assert (rets i = 1 ∧ instr_size (opcode i) = 1) as [Hr Hsize].
  { clear - Hv. destruct i; cbn in Hv; lazymatch type of Hv with None = _ => discriminate Hv | _ => done end. }
  pose proof Hl as []. pose proof args_range. rewrite <- HPC in Hv.
  eapply (case_gives reaches E l s1); try done.
  - by rewrite Hst.
  - lia.
  - lia.
  - apply step_gas.
  - by apply Forall_take, Forall_drop.
  - lia.
  - intros Hb. by apply HErev.
  - intros _ Hle x. apply pushed_reaches; [|lia|done|done]. rewrite Hout, Hr. done.
Qed.

(** The families, with the arities of their members. *)
Lemma family_range lo hi : (lo = PUSH1 ∧ hi = PUSH32) ∨ (lo = DUP1 ∧ hi = DUP16) ∨ (lo = SWAP1 ∧ hi = SWAP16) →
  opcode lo ≤ opcode i ≤ opcode hi →
  match lo with
  | PUSH1 => args i = 0 ∧ rets i = 1 ∧ instr_size (opcode i) = opcode i - opcode PUSH1 + 2 ∧
             (i = PUSH1 ∨ case_of f i = case_PUSH)
  | DUP1 => args i = opcode i - opcode DUP1 + 1 ∧ rets i = args i + 1 ∧ instr_size (opcode i) = 1 ∧
            case_of f i = case_DUP
  | _ => args i = opcode i - opcode SWAP1 + 2 ∧ rets i = args i ∧ instr_size (opcode i) = 1 ∧
         case_of f i = case_SWAP
  end.
Proof.
  clear. intros [[-> ->]|[[-> ->]|[-> ->]]] [Hlo Hhi]; destruct i;
    first [exfalso; cbn in Hlo, Hhi; lia | split_and!; try done; first [by left|by right]].
Qed.

Lemma dup_step :
  opcode DUP1 ≤ opcode i ≤ opcode DUP16 → out = nth (length l - 1) l 0 :: l → wp (case_of f i) reaches E s1.
Proof using All.
  intros Hi Hout. destruct (family_range DUP1 DUP16 ltac:(auto) Hi) as (Ha & Hr & Hsize & ->).
  destruct step_operands as [Hlen Hop]. pose proof Haf as [Hst HSP HSPP HOP _ _ _ _ _]. pose proof Hl as [].
  eapply (dup_gives reaches E l s1); try done; [by rewrite Hst|lia|lia|apply step_gas|lia|lia|].
  intros Hle x. apply pushed_reaches; [|lia|done|done]. rewrite Hout. f_equal. f_equal; [|f_equal]; lia.
Qed.

Lemma swap_step :
  opcode SWAP1 ≤ opcode i ≤ opcode SWAP16 →
  out = <[(length l - 1)%nat := nth 0 l 0]> (<[0%nat := nth (length l - 1) l 0]> l) →
  wp (case_of f i) reaches E s1.
Proof using All.
  intros Hi Hout. destruct (family_range SWAP1 SWAP16 ltac:(auto) Hi) as (Ha & Hr & Hsize & ->).
  destruct step_operands as [Hlen Hop]. pose proof Haf as [Hst HSP HSPP HOP HPC Hg Hrun _ _]. pose proof Hl as [].
  destruct step_here as (_ & _ & _ & Hpc).
  eapply (swap_gives reaches E l s1); try done; [by rewrite Hst|lia|lia|apply step_gas|lia|lia|].
  intros Hle. apply reaches_eq; [| | |done|done].
  - cbn [vm_SPP vm_stack set_PC set_stack set_io_gas]. rewrite HSPP, HSP, Hst.
    replace (vm_SPP s + args i - rets i) with (vm_SPP s) by lia. rewrite Hout.
    rewrite !drop_insert_ge by lia. rewrite Nat.sub_diag.
    replace (Z.to_nat (vm_SPP s + Z.of_nat (length l - 1)) - Z.to_nat (vm_SPP s))%nat with (length l - 1)%nat by lia.
    rewrite <- !insert_app_l by (rewrite ?length_insert; lia). by rewrite take_drop.
  - cbn [vm_PC set_PC]. rewrite HPC, Hsize, u64_small by lia. done.
  - cbn [vm_io_gas set_PC set_stack set_io_gas]. by rewrite Hg, Hrun.
Qed.

Lemma pop_step : i = POP → out = [] → wp (case_of f i) reaches E s1.
Proof using All.
  intros Hi Hout. pose proof Haf as [Hst HSP HSPP HOP HPC Hg Hrun _ _]. destruct step_here as (_ & _ & _ & Hpc).
  assert (args i = 1 ∧ rets i = 0 ∧ instr_size (opcode i) = 1 ∧ case_of f i = case_POP) as (Ha & Hr & Hsize & ->)
    by (by rewrite Hi).
  unfold case_POP. apply wp_bind, wp_updateIOGas_eq; [apply step_gas|]. intros Hle. apply wp_bind, wp_modify, wp_modify.
  apply reaches_eq; [| | |done|done].
  - cbn [vm_SPP vm_stack set_PC set_SP set_io_gas]. rewrite HSPP, Hst, Hout, drop_drop. cbn [app]. f_equal. lia.
  - cbn [vm_PC set_PC set_SP set_io_gas]. rewrite HPC, Hsize, u64_small by lia. done.
  - cbn [vm_io_gas set_PC set_SP set_io_gas]. by rewrite Hg, Hrun.
Qed.

(** The word PUSHn reads with its loop. *)
Lemma push_loop_value k s2 :
  loaded f s2 → vm_PC s2 = vm_PC s → instr_size (opcode i) = Z.of_nat k + 1 →
  push_loop k 0 (set_PC (vm_PC s + 1) s2) =
    (Ok (fromBigEndian id (padded (f_code f) (vm_PC s + 1) (Z.of_nat k))), set_PC (vm_PC s + 1 + Z.of_nat k) s2).
Proof using Hf He Hns Hbyte Hl Hld.
  intros Hld2 HPC Hsize. destruct step_here as (Hb & Hlt & Hhere & Hpc). pose proof (instr_size_range (opcode i)).
  assert (loaded f (set_PC (vm_PC s + 1) s2)) as Hld3 by (by destruct Hld2).
  assert (code_slice (set_PC (vm_PC s + 1) s2) k = padded (f_code f) (vm_PC s + 1) (Z.of_nat k)) as Hslice.
  { rewrite <- HPC. apply code_slice_padded; rewrite ?HPC; try done. by rewrite Hhere. }
  rewrite (push_loop_run f Hf) by (done || cbn [vm_PC set_PC]; lia). rewrite push_word_spec, Hslice; [done| |].
  - rewrite Hslice. unfold padded. apply Forall_fmap, list.Forall_forall. intros j Hj. cbn. unfold data_byte.
    case_decide; [apply byte_at_ok; by destruct Hf as [[]]|unfold is_byte; lia].
  - unfold len, code_slice. rewrite length_fmap, length_seqZ. lia.
Qed.

Lemma push_reaches v s2 :
  out = [v] → args i = 0 → rets i = 1 → vm_stack s2 = vm_stack s1 → vm_SPP s2 = vm_SPP s1 → vm_io_gas s2 = vm_io_gas s - t →
  same_rest s1 s2 → vm_runGas s1 ≤ vm_io_gas s1 →
  reaches tt (set_stack (<[Z.to_nat (vm_SPP s2) := v]> (vm_stack s2)) (set_PC (vm_PC s + instr_size (opcode i)) s2)).
Proof using All.
  intros Hout Ha Hr Hst2 HSPP2 Hg Hrest Hle. apply reaches_eq; [|done|done|done|done].
  cbn [vm_SPP vm_stack set_PC set_stack]. rewrite HSPP2, Hst2, top_replaced, Hout, drop_drop by lia.
  cbn [app]. f_equal. f_equal. lia.
Qed.

Lemma push_step :
  opcode PUSH1 ≤ opcode i ≤ opcode PUSH32 →
  out = [fromBigEndian id (padded (f_code f) (vm_PC s + 1) (opcode i - opcode PUSH1 + 1))] →
  wp (case_of f i) reaches E s1.
Proof using All.
  intros Hi Hout. destruct (family_range PUSH1 PUSH32 ltac:(auto) Hi) as (Ha & Hr & Hsize & Hcase).
  pose proof Haf as [Hst HSP HSPP HOP HPC Hg Hrun Hrest Hld1]. pose proof Hl as [].
  destruct step_here as (Hb & Hlt & Hhere & Hpc). pose proof (instr_size_range (opcode i)).
  set (k := Z.to_nat (opcode i - opcode PUSH1 + 1)). set (s2 := set_io_gas (vm_io_gas s1 - vm_runGas s1) s1).
  assert (loaded f s2) as Hld2 by (by destruct Hld1).
  pose proof (push_loop_value k s2 Hld2 HPC ltac:(lia)) as Hloop.
  replace (opcode i - opcode PUSH1 + 1) with (Z.of_nat k) in Hout by lia.
  set (v := fromBigEndian id (padded (f_code f) (vm_PC s + 1) (Z.of_nat k))) in *.
  pose proof (push_reaches v s2 Hout Ha Hr eq_refl eq_refl) as Hreach.
  specialize (Hreach ltac:(unfold s2; cbn; lia) ltac:(done)).
  assert (length (vm_stack s2) = 1024%nat) as Hlen2 by (by unfold s2; cbn; rewrite Hst).
  assert (0 ≤ vm_SPP s2 < 1024) as HSPP2 by (unfold s2; cbn; lia).
  assert (vm_PC s2 = vm_PC s) as HPC2 by done. assert (vm_OP s2 = opcode i) as HOP2 by done.
  assert (wp updateIOGas (λ _ s', s' = s2 ∧ vm_runGas s1 ≤ vm_io_gas s1) E s1) as Hpay
    by (apply wp_updateIOGas_eq; [apply step_gas|done]).
  clearbody s2 v. destruct Hcase as [Hi1| ->].
  - rewrite Hi1. cbn [case_of]. unfold case_PUSH1. apply wp_bind. eapply wp_mono; [exact Hpay| |done]. intros _ ? [-> Hle].
    specialize (Hreach Hle).
    assert (k = 1%nat) as Hk by (unfold k; rewrite Hi1; done). rewrite Hk in Hloop. cbn [push_loop] in Hloop.
    apply wp_bind. eapply wp_eq; [unfold inc_pc, smodify; rewrite u64_small by lia; done|]. rewrite HPC2.
    apply wp_bind, wp_get, wp_bind. change (vm_PC (set_PC (vm_PC s + 1) s2)) with (vm_PC s + 1).
    assert (loaded f (set_PC (vm_PC s + 1) s2)) as Hld3 by (by destruct Hld2).
    pose proof (code_at_run f (vm_PC s + 1) _ Hld3 ltac:(lia)) as Hcode. eapply wp_eq; [exact Hcode|].
    set (b := byte_at (vm_code (set_PC _ _)) _) in *. rewrite (sm_bind_ok sget _ _ _ _ eq_refl) in Hloop.
    change (vm_PC (set_PC (vm_PC s + 1) s2)) with (vm_PC s + 1) in Hloop. rewrite (sm_bind_ok _ _ _ _ _ Hcode) in Hloop.
    assert (v = b) as -> by (injection Hloop as Hv _; symmetry; exact Hv).
    apply wp_bind. eapply wp_eq; [by apply set_spp_run|]. apply wp_modify.
    match goal with |- reaches tt (set_PC (u64 (?x + 1)) _) => change x with (vm_PC s + 1) end. rewrite u64_small by lia.
    replace (vm_PC s + 1 + 1) with (vm_PC s + instr_size (opcode i)) by (rewrite Hsize, Hi1; cbn; lia). exact Hreach.
  - unfold case_PUSH. apply wp_bind. eapply wp_mono; [exact Hpay| |done]. intros _ ? [-> Hle].
    specialize (Hreach Hle).
    apply wp_bind, wp_get. cbv zeta. rewrite HOP2. fold k. apply wp_bind.
    eapply wp_eq; [unfold inc_pc, smodify; rewrite u64_small by lia; done|]. rewrite HPC2.
    apply wp_bind. eapply wp_eq; [exact Hloop|]. eapply wp_eq; [by apply set_spp_run|].
    replace (vm_PC s + 1 + Z.of_nat k) with (vm_PC s + instr_size (opcode i)) by lia. exact Hreach.
Qed.

Lemma effect_step :
  stack_effect f (vm_PC s) i l = Some out → wp (case_of f i) reaches E s1.
Proof using All.
  unfold stack_effect. cbv zeta. intros Hout.
  destruct (decide (opcode PUSH1 ≤ opcode i ≤ opcode PUSH32)); [apply push_step; [done|congruence]|].
  destruct (decide (opcode DUP1 ≤ opcode i ≤ opcode DUP16)); [apply dup_step; [done|congruence]|].
  destruct (decide (opcode SWAP1 ≤ opcode i ≤ opcode SWAP16)); [apply swap_step; [done|congruence]|].
  destruct (decide (i = POP)); [apply pop_step; [done|congruence]|].
  destruct (stack_value f (vm_PC s) i) as [v|] eqn:Ev; [|done]. apply (value_step v); [done|]. cbn in Hout. congruence.
Qed.
End step.

Lemma dispatch_opcode i : executable i = true → dispatch (opcode i) = i.
Proof. by destruct i. Qed.

Lemma stack_effect_executable pc i l out : stack_effect f pc i l = Some out → executable i = true ∧ i ≠ STOP.
Proof. by destruct i. Qed.

Lemma shift_too_early i Q (E : exn → VM → Prop) s :
  i ∈ [SHL; SHR; SAR] ∧ f_rev f < EVMC_CONSTANTINOPLE → E BadInstruction s → wp (case_of f i) Q E s.
Proof.
  intros [Hi Hrev] HE. repeat (apply elem_of_cons in Hi as [->|Hi]; [by apply wp_bind, wp_throw_if|]).
  by apply elem_of_nil in Hi.
Qed.

(** One instruction on the array, against one on the list. *)
Lemma am_step_refines {Hmetrics : MetricsLaws} i t r s :
  frame_ok f → typed f s → vm_bounce s = InterpretCases → byte_at (vm_code s) (vm_PC s) = opcode i →
  tierGas (info_tier (instructionInfo i)) = Some t → am_step f i t (am_abs s) = Some r →
  wp (interpretCases f) (λ _ s', r = Ok (am_abs s') ∧ same_rest s s') (λ e _, r = Throw e) s.
Proof.
  intros Hf Hty Hb Hbyte Ht Hr. unfold typed in Hty. rewrite Hb in Hty. destruct Hty as (Hl & Hld & Hspp).
  unfold am_step in Hr. destruct (stack_effect _ _ _ _) as [out|] eqn:Eout; [|done]. apply Some_inj in Hr.
  cbn [mbind option_bind am_stack am_pc am_gas am_abs] in *.
  destruct (stack_effect_executable _ _ _ _ Eout) as [He Hns]. pose proof Hl as [].
  assert (len (drop (Z.to_nat (vm_SPP s)) (vm_stack s)) = 1024 - vm_SPP s) as Hlen
    by (unfold len; rewrite length_drop; lia). rewrite Hlen in Hr.
  assert (0 ≤ args i ≤ 17 ∧ 0 ≤ rets i) as [Ha Hr0] by (clear; destruct i; cbn; lia).
  unfold interpretCases. apply wp_bind. eapply wp_fetch_eq; [done|done|done|..]; cbv zeta;
    rewrite Hbyte, c_metrics_executable, ?ml_args, ?ml_rets by done.
  - lia.
  - intros Hu s'. subst r. by rewrite (throw_if_true (1024 - vm_SPP s < args i)) by lia.
  - intros Hu Ho s'. subst r. rewrite (throw_if_false (1024 - vm_SPP s < args i)) by lia. cbn.
    by rewrite (throw_if_true (1024 < 1024 - vm_SPP s - args i + rets i)) by lia.
  - intros H1 H2. rewrite (throw_if_false (1024 - vm_SPP s < args i)) in Hr by lia. cbn [mbind res_bind] in Hr.
    rewrite (throw_if_false (1024 < 1024 - vm_SPP s - args i + rets i)) in Hr by lia. cbn [mbind res_bind] in Hr.
    pose proof (fetched_after i t s Hld He Ht) as Haf. apply wp_bind, wp_get.
    rewrite (af_OP _ _ _ _ Haf), dispatch_opcode by done.
    destruct (decide (i ∈ [SHL; SHR; SAR] ∧ f_rev f < EVMC_CONSTANTINOPLE)) as [Hbad|Hok].
    { rewrite (throw_if_true _ _ Hbad) in Hr. apply shift_too_early; [done|]. by rewrite <- Hr. }
    rewrite (throw_if_false _ _ Hok) in Hr. cbn [mbind res_bind] in Hr.
    eapply wp_mono with (Q' := reaches i t s out) (E' := λ e _, r = Throw e); [| |done].
    + apply (effect_step Hf i t s _ out); try done. intros Hlt _. by rewrite (throw_if_true _ _ Hlt) in Hr.
    + intros _ s' (Habs & Hrest & Hge). split; [|done]. rewrite Habs, <- Hr. by rewrite (throw_if_false (vm_io_gas s < t)) by lia.
Qed.
End refines.
