(* ===== verification/VMProps.v ===== *)
(** * Properties of the interpreter

    What a host may rely on: every round keeps the types of the state and ends
    in an exception of the interpreter otherwise; [execute] always returns,
    never with more gas than it was given; a static frame changes nothing; the
    operand stack is an abstract stack machine; arithmetic and jump analysis
    do what the instruction set prescribes. *)

From S2P Require Import Prelude StateErr RLP RLPFacts Crypto VMInstr VM VMAlu VMJump VMTyped VMCases VMSafe VMStatic VMStack.

Local Open Scope Z_scope.

(** ** A host and a metrics table *)

#[local] Existing Instance example_crypto.
#[local] Existing Instance example_crypto_laws.

(** Counts the calls that may change the state; calls return half their gas. *)
#[local] Instance example_host : Host := {|
  HS := Z;
  h_account_exists _ _ := true;
  h_get_storage _ _ k := u256 k;
  h_set_storage h _ _ _ := (STORAGE_ADDED, h + 1);
  h_get_balance _ _ := 1000;
  h_get_code_size _ _ := 2;
  h_get_code_hash _ _ := 7;
  h_copy_code _ _ _ size := take (Z.to_nat size) [1; 2];
  h_selfdestruct h _ _ := h + 1;
  h_call h msg := (MkResult EVMC_SUCCESS (msg_gas msg / 2) [5; 6] zero_address,
                   if msg_static msg then h else h + 1);
  h_get_tx_context _ := MkTxContext 1 zero_address zero_address 10 20 30 40;
  h_get_block_hash _ n := u256 n;
  h_emit_log h _ _ _ := h + 1;
|}.

#[local] Instance example_metrics : Metrics := {|
  evmc_metrics op := let info := instructionInfo (dispatch op) in
    MkMetrics (default 400 (tierGas (info_tier info))) (info_args info) (info_ret info);
|}.

Ltac bytes_tac := repeat (constructor; [unfold is_byte; lia|]); constructor.

Lemma zero_address_ok : hash_ok address_size zero_address.
Proof. by apply zero_hash_ok. Qed.

#[local] Instance example_host_laws : HostLaws.
Proof.
  split; cbn -[take]; intros; try apply u256_word; try (unfold word; lia).
  - split; [apply Forall_take; bytes_tac|]. unfold len. rewrite length_take. lia.
  - split; cbn; try (unfold word; lia); apply zero_address_ok.
  - split_and!; [apply Z.div_pos; lia|apply Z.div_le_upper_bound; lia|bytes_tac|done|apply zero_address_ok].
Qed.

#[local] Instance example_metrics_laws : MetricsLaws.
Proof.
  split; unfold evmc_metrics, example_metrics; cbv zeta; cbn [num_stack_arguments num_stack_returned_items gas_cost].
  - intros i He. by rewrite dispatch_opcode.
  - intros i He. by rewrite dispatch_opcode.
  - intros i He. rewrite dispatch_opcode by done. destruct i; cbn; lia.
  - intros i t He Ht. rewrite dispatch_opcode by done. by rewrite Ht.
  - done.
Qed.

(** PUSH1 2, PUSH1 3, ADD, PUSH1 0, MSTORE, PUSH1 32, PUSH1 0, RETURN. *)
Definition example_code : bytes :=
  [0x60; 2; 0x60; 3; 0x01; 0x60; 0; 0x52; 0x60; 32; 0x60; 0; 0xf3].
Definition example_frame (static : bool) : Frame :=
  MkFrame EVMC_CONSTANTINOPLE
    (MkMessage EVMC_CALL static 0 1000 zero_address zero_address [1; 2; 3] 0 0) example_code.

Definition example_hs : @HS example_host := 0.
Definition example_start : VM := vm_start (example_frame false) example_hs.

Lemma example_frame_ok b : frame_ok (example_frame b).
Proof.
  split; cbn; try apply zero_address_ok; try (unfold word; lia).
  - split; [bytes_tac|done].
  - split; [bytes_tac|done].
Qed.

(** ** Type safety *)

Definition vm_exceptions : list exn :=
  [OutOfGas; BadInstruction; BadJumpDestination; OutOfStack; StackUnderflow; DisallowedStateChange;
   BufferOverrun; RevertInstruction].

Lemma vm_error_exception `{Host} g e s : vm_error g e s → e ∈ vm_exceptions.
Proof. unfold vm_exceptions. destruct e; intros He; try done; rewrite !elem_of_cons; tauto. Qed.

(** C4. Type safety of the interpreter: a round of the trampoline from a typed
    state (a stack of 1024 words with [m_SP] and [m_SPP] inside it, a memory of
    whole words, a program counter at the start of an instruction, sorted jump
    destinations, gas within [int64_t]) ends in a typed state with no more
    gas, or in one of the exceptions of the interpreter. It never reads or
    writes outside the stack, the memory or the code, and no size or gas
    computation wraps. *)
Theorem vm_round_typed `{Crypto, Host, Metrics} `{!CryptoLaws, !HostLaws, !MetricsLaws} (f : Frame) (s : VM) :
  frame_ok f → typed f s → vm_bounce s ≠ Finished →
  (∃ s', vm_step f s = (Ok tt, s') ∧ typed f s' ∧ vm_io_gas s' ≤ vm_io_gas s) ∨
  (∃ e s', vm_step f s = (Throw e, s') ∧ e ∈ vm_exceptions).
Proof.
  intros Hf Hty Hfin. pose proof (vm_step_safe f Hf s Hty Hfin) as Hwp.
  apply wp_run in Hwp as [([] & s' & E & Hty' & Hg & _)|(e & s' & E & He)]; [left; eauto|right].
  exists e, s'. split; [done|]. by eapply vm_error_exception.
Qed.

Lemma vm_round_typed_witness :
  (∃ s', vm_step (example_frame false) example_start = (Ok tt, s') ∧ typed (example_frame false) s' ∧
     vm_io_gas s' ≤ 1000) ∨
  (∃ e s', vm_step (example_frame false) example_start = (Throw e, s') ∧ e ∈ vm_exceptions).
Proof.
  apply (vm_round_typed (example_frame false) example_start);
    [apply example_frame_ok|apply vm_start_typed, example_frame_ok|discriminate].
Defined.

(** ** Termination and gas *)

(** C5. [execute] always returns: there is a result for every message and
    every host, although the trampoline has no bound of its own. The gas left
    is between zero and the gas of the message, the output is bytes, and a run
    that neither succeeds nor reverts has no output and no gas left. The status
    is never [EVMC_INTERNAL_ERROR] or [EVMC_FAILURE]. *)
Theorem execute_total `{Crypto, Host, Metrics} `{!CryptoLaws, !HostLaws, !MetricsLaws} (f : Frame) (h : HS) :
  frame_ok f →
  ∃ r h', execute f h = (Ok r, h') ∧ 0 ≤ res_gas_left r ≤ msg_gas (f_msg f) ∧ bytes_ok (res_output r) ∧
    res_status r ≠ EVMC_INTERNAL_ERROR ∧ res_status r ≠ EVMC_FAILURE ∧
    (res_status r ≠ EVMC_SUCCESS → res_status r ≠ EVMC_REVERT → res_gas_left r = 0 ∧ res_output r = []).
Proof.
  intros Hf. pose proof (exec_safe f Hf h) as Hwp. pose proof Hf as [_ _ Hg _ _ _]. unfold execute.
  apply wp_run in Hwp as [(out & s' & -> & Hout & Hgas)|(e & s' & -> & He)].
  - eexists _, _. split; [done|]. cbn. split_and!; try done; lia.
  - pose proof (Forall_nil_2 is_byte) as Hnil. destruct e; try done; eexists _, _; (split; [reflexivity|]); cbn;
      split_and!; try done; try lia; first [apply He | exact Hnil].
Qed.

Lemma execute_total_witness :
  frame_ok (example_frame false) ∧
  ∃ r h', execute (example_frame false) example_hs = (Ok r, h') ∧ 0 ≤ res_gas_left r ≤ 1000 ∧ bytes_ok (res_output r) ∧
    res_status r ≠ EVMC_INTERNAL_ERROR ∧ res_status r ≠ EVMC_FAILURE ∧
    (res_status r ≠ EVMC_SUCCESS → res_status r ≠ EVMC_REVERT → res_gas_left r = 0 ∧ res_output r = []).
Proof. split; [apply example_frame_ok|]. apply (execute_total (example_frame false) example_hs), example_frame_ok. Defined.

(** The example returns [2 + 3] in a word of memory. *)
Example execute_example :
  execute (example_frame false) example_hs =
    (Ok (MkResult EVMC_SUCCESS 976 (toBigEndian 32 5) zero_address), example_hs).
Proof. vm_compute. reflexivity. Qed.

(** ** Static frames *)

(** C34. A frame whose message carries the static flag leaves the host as it
    was, up to any preorder that calls with a static message respect (for
    instance "the same storage, balances and logs"): SSTORE, LOG, CREATE,
    CREATE2 and SELFDESTRUCT throw, and the messages of its own calls are
    static. *)
Theorem static_frame_quiet `{Crypto, Host, Metrics} (f : Frame) (R : HS → HS → Prop) `{!PreOrder R} (h : HS) :
  msg_static (f_msg f) = true → (∀ h msg, msg_static msg = true → R h (h_call h msg).2) →
  R h (execute f h).2.
Proof. intros Hs Hcall. exact (static_host f Hs R Hcall h). Qed.

(** A static frame that calls another contract. *)
Definition static_code : bytes :=
  [0x60; 0; 0x60; 0; 0x60; 0; 0x60; 0; 0x60; 0; 0x60; 9; 0x60; 200; 0xf1; 0x00].
Definition static_frame : Frame :=
  MkFrame EVMC_CONSTANTINOPLE (MkMessage EVMC_CALL true 0 5000 zero_address zero_address [] 0 0) static_code.

Lemma static_frame_quiet_witness :
  msg_static (f_msg static_frame) = true ∧ (execute static_frame example_hs).2 = example_hs.
Proof.
  split; [reflexivity|]. symmetry.
  apply (static_frame_quiet static_frame (=) example_hs); [reflexivity|].
  intros h msg Hmsg. cbn. by rewrite Hmsg.
Defined.

(** ** The stack machine *)

(** C6. The array [m_stack] with its two pointers implements a stack of words.
    For every instruction that only works on the stack (arithmetic, pushes,
    duplications, swaps, POP and the constants of the frame), a round from a
    typed state does what one step of the abstract machine does on the list
    from [m_SPP] on: the same words, the same program counter, the same gas;
    and it throws StackUnderflow, OutOfStack, BadInstruction or OutOfGas
    exactly when, and in the order in which, the abstract machine does. The
    memory, the host, the output and the return data stay as they are. *)
Theorem stack_machine_refined `{Crypto, Host, Metrics} `{!MetricsLaws} (f : Frame) (s : VM) (i : Instruction) (t : Z) (r : res amachine) :
  frame_ok f → typed f s → vm_bounce s = InterpretCases → byte_at (vm_code s) (vm_PC s) = opcode i →
  tierGas (info_tier (instructionInfo i)) = Some t → am_step f i t (am_abs s) = Some r →
  match interpretCases f s with
  | (Ok _, s') => r = Ok (am_abs s') ∧ same_rest s s'
  | (Throw e, _) => r = Throw e
  end.
Proof. intros Hf Hty Hb Hc Ht Hr. exact (am_step_refines f i t r s Hf Hty Hb Hc Ht Hr). Qed.

(** The state of the example after the jump analysis. *)
Definition example_loaded : VM := (initEntry (example_frame false) example_start).2.

Lemma example_loaded_typed : typed (example_frame false) example_loaded ∧ vm_bounce example_loaded = InterpretCases.
Proof.
  assert (typed (example_frame false) example_start) as Hty by apply vm_start_typed, example_frame_ok.
  pose proof (initEntry_safe (example_frame false) example_start Hty eq_refl) as Hwp.
  assert ((initEntry (example_frame false) example_start).1 = Ok tt) as Hok by (vm_compute; reflexivity).
  unfold example_loaded, wp in *. destruct (initEntry _ _) as [[[]|e] s']; [tauto|discriminate Hok].
Qed.

Lemma stack_machine_refined_witness :
  byte_at (vm_code example_loaded) (vm_PC example_loaded) = opcode PUSH1 ∧
  match interpretCases (example_frame false) example_loaded with
  | (Ok _, s') => (Ok (AMachine [2] 2 997) : res amachine) = Ok (am_abs s') ∧ same_rest example_loaded s'
  | (Throw e, _) => (Ok (AMachine [2] 2 997) : res amachine) = Throw e
  end.
Proof.
  split; [vm_compute; reflexivity|].
  apply (stack_machine_refined (example_frame false) example_loaded PUSH1 3);
    [apply example_frame_ok|apply example_loaded_typed|apply example_loaded_typed|vm_compute; reflexivity..].
Defined.

(** ** Arithmetic *)

(** C36. The arithmetic of the cases is that of the instruction set, over
    two's complement words: DIV and MOD are the division of natural numbers;
    SDIV truncates towards zero, except for the quotient that does not fit,
    which is the dividend; SMOD has the sign of the dividend; the four give 0
    for the divisor 0, by which they do not divide; SHL multiplies by a power of two modulo 2^256, SHR and
    SAR divide by it rounding down, unsigned and signed, for every shift
    amount; SIGNEXTEND reads the low [a + 1] bytes as a signed number and from
    31 on changes nothing; BYTE counts from the most significant byte; and
    EXP, by squaring, is the power modulo 2^256 within its 256 rounds. *)
Theorem alu_correct (a b : Z) :
  word a → word b →
  (alu_div a 0 = Ok 0 ∧ alu_mod a 0 = Ok 0 ∧ alu_sdiv a 0 = Ok 0 ∧ alu_smod a 0 = Ok 0) ∧
  (b ≠ 0 → alu_div a b = Ok (a / b) ∧ alu_mod a b = Ok (a `mod` b)) ∧
  (b ≠ 0 → ¬ (u2s a = - 2 ^ 255 ∧ u2s b = -1) → u2s <$> alu_sdiv a b = Ok (Z.quot (u2s a) (u2s b))) ∧
  (u2s a = - 2 ^ 255 → u2s b = -1 → alu_sdiv a b = Ok a) ∧
  (b ≠ 0 → u2s <$> alu_smod a b = Ok (Z.rem (u2s a) (u2s b))) ∧
  alu_shl a b = (b * 2 ^ a) `mod` 2 ^ 256 ∧
  alu_shr a b = b / 2 ^ a ∧
  u2s (alu_sar a b) = u2s b / 2 ^ a ∧
  (a < 31 → u2s (alu_signextend a b) = (b + 2 ^ (8 * a + 7)) `mod` 2 ^ (8 * a + 8) - 2 ^ (8 * a + 7)) ∧
  (31 ≤ a → alu_signextend a b = b) ∧
  alu_byte a b = default 0 (toBigEndian 32 b !! Z.to_nat a) ∧
  exp256 a b = Ok (a ^ b `mod` 2 ^ 256).
Proof.
  intros Ha Hb. split; [apply alu_by_zero|]. split_and!.
  - by apply alu_divmod_correct.
  - by apply alu_sdiv_correct.
  - by apply alu_sdiv_overflow.
  - by apply alu_smod_correct.
  - by apply alu_shl_correct.
  - by apply alu_shr_correct.
  - by apply alu_sar_correct.
  - by apply alu_signextend_correct.
  - intros H31. unfold alu_signextend. by rewrite decide_False by lia.
  - by apply alu_byte_correct.
  - unfold exp256. rewrite exp_loop_correct; [|exact Hb|unfold word; lia]. by rewrite Z.mul_1_l.
Qed.

Lemma alu_correct_witness :
  word 1 ∧ word (2 ^ 256 - 4) ∧ u2s (alu_sar 1 (2 ^ 256 - 4)) = -2.
Proof.
  split; [unfold word; lia|]. split; [unfold word; lia|].
  destruct (alu_correct 1 (2 ^ 256 - 4)) as (_ & _ & _ & _ & _ & _ & _ & Hsar & _); [unfold word; lia|unfold word; lia|].
  rewrite Hsar. vm_compute. reflexivity.
Defined.

(** ** Jumps *)

(** C35. The pass over the code and the binary search accept exactly the
    JUMPDEST bytes at which a decoding of the code from its start begins an
    instruction: a JUMPDEST inside the data of a PUSH is rejected, and every
    other target throws BadJumpDestination. *)
Theorem jump_targets_exact `{Crypto, Host, Metrics} (f : Frame) (h : HS) (d : Z) :
  frame_ok f → word d →
  ∃ s, initEntry f (vm_start f h) = (Ok tt, s) ∧
    (boundary (f_code f) d ∧ d < len (f_code f) ∧ byte_at (f_code f) d = opcode JUMPDEST →
       verifyJumpDest d s = (Ok d, s)) ∧
    (¬ (boundary (f_code f) d ∧ d < len (f_code f) ∧ byte_at (f_code f) d = opcode JUMPDEST) →
       verifyJumpDest d s = (Throw BadJumpDestination, s)).
Proof.
  intros Hf Hd. destruct (optimize_loop_ok (f_code f)) as (c & dests & He & _ & Hso & Hdests).
  exists (set_jumpDests dests (set_code c (set_bounce InterpretCases (vm_start f h)))). split.
  { unfold initEntry, optimize. rewrite (sm_bind_ok (smodify (set_bounce InterpretCases)) _ _ tt _ eq_refl).
    rewrite He. reflexivity. }
  pose proof Hf as [[_ Hlen] _ _ _ _ _]. unfold word in Hd.
  unfold verifyJumpDest. rewrite (sm_bind_ok sget _ _ _ _ eq_refl). cbn [vm_jumpDests set_jumpDests].
  split; intros Hin.
  - rewrite u64_small by lia. rewrite decide_True; [done|]. split; [unfold INT64_MAX; lia|].
    apply binary_search_spec; [done|]. by apply Hdests.
  - rewrite decide_False; [done|]. intros [Hmax Hs]. apply Hin. apply Hdests.
    unfold INT64_MAX in Hmax. rewrite u64_small in Hs by lia. by apply binary_search_spec in Hs.
Qed.

(** PUSH1 0x5b hides a JUMPDEST; the next byte is one. *)
Definition jump_frame : Frame :=
  MkFrame EVMC_CONSTANTINOPLE (MkMessage EVMC_CALL false 0 5000 zero_address zero_address [] 0 0) [0x60; 0x5b; 0x5b].

Lemma jump_frame_ok : frame_ok jump_frame.
Proof.
  split; cbn; try apply zero_address_ok; try (unfold word; lia); (split; [bytes_tac|done]).
Qed.

Lemma jump_targets_exact_witness :
  (∃ s, initEntry jump_frame (vm_start jump_frame example_hs) = (Ok tt, s) ∧ verifyJumpDest 2 s = (Ok 2, s)) ∧
  (∃ s, initEntry jump_frame (vm_start jump_frame example_hs) = (Ok tt, s) ∧
        verifyJumpDest 1 s = (Throw BadJumpDestination, s)).
Proof.
  split.
  - destruct (jump_targets_exact jump_frame example_hs 2 jump_frame_ok) as (s & E & Hyes & _); [unfold word; lia|].
    exists s. split; [exact E|]. apply Hyes. split_and!; [|reflexivity..].
    exact (boundary_next (f_code jump_frame) 0 (boundary_start _) eq_refl).
  - destruct (jump_targets_exact jump_frame example_hs 1 jump_frame_ok) as (s & E & _ & Hno); [unfold word; lia|].
    exists s. split; [exact E|]. apply Hno. intros (Hb & _).
    pose proof (boundary_gap _ 0 1 (boundary_start _) Hb ltac:(lia) ltac:(reflexivity)) as Hgap. vm_compute in Hgap.
    by apply Hgap.
Defined.
