(* ===== verification/RaftMsg.v ===== *)
(** * Raft messages

    Models libconsensus/raft/Common.h: the packet every Raft message travels
    in and the four messages with their RLP codecs. The members a message
    inherits from [RaftMsg] are a record inside it; [populate] of a derived
    class goes on reading from the object its base class read from. *)

From S2P Require Import Prelude RLP Hex Crypto PBFTMsg.

Local Open Scope Z_scope.

(** ** Enumerations *)

(** [RaftPacketType]. *)
Definition RaftVoteReqPacket : Z := 0.
Definition RaftVoteRespPacket : Z := 1.
Definition RaftHeartBeatPacket : Z := 2.
Definition RaftHeartBeatRespPacket : Z := 3.
Definition RaftPacketCount : Z := 4.

Inductive RaftRole := EN_STATE_LEADER | EN_STATE_FOLLOWER | EN_STATE_CANDIDATE.

#[global] Instance RaftRole_eq_dec : EqDecision RaftRole.
Proof. solve_decision. Defined.

(** [VoteRespFlag] is a byte: a message may carry any value. *)
Definition VOTE_RESP_REJECT : Z := 0.
Definition VOTE_RESP_LEADER_REJECT : Z := 1.
Definition VOTE_RESP_LASTTERM_ERROR : Z := 2.
Definition VOTE_RESP_OUTDATED : Z := 3.
Definition VOTE_RESP_FIRST_VOTE : Z := 4.
Definition VOTE_RESP_DISCARD : Z := 5.
Definition VOTE_RESP_GRANTED : Z := 6.

Inductive HandleVoteResult := TO_LEADER | TO_FOLLOWER | NONE.

#[global] Instance HandleVoteResult_eq_dec : EqDecision HandleVoteResult.
Proof. solve_decision. Defined.

(** ** The packet *)

Record RaftMsgPacket := MkRaftPacket {
  rp_nodeIdx : Z;           (* u256 *)
  rp_nodeId : bytes;
  rp_packetType : Z;        (* byte *)
  rp_data : bytes;
  rp_timestamp : Z;         (* uint64_t *)
  rp_endpoint : bytes;
}.

Definition RaftMsgPacket_new (now : Z) : RaftMsgPacket :=
  MkRaftPacket 0 (zero_hash h512_size) RaftVoteReqPacket [] now [].

Definition raft_packet_encode (p : RaftMsgPacket) : res bytes :=
  s ← append_unsigned RLPStream0 (rp_packetType p);
  s ← append_bytes s (rp_data p) false;
  out s.

(** [populate]: the type is the first byte, the data the rest; there is no
    enclosing list. *)
Definition raft_packet_decode (p : RaftMsgPacket) (d : bytes) : res RaftMsgPacket :=
  r0 ← RLP_new (cropped d 0 1) VeryStrict;
  t ← toInt 4 u32 r0 ThrowOnFail;
  r1 ← RLP_new (cropped_from d 1) VeryStrict;
  b ← toBytes r1 LaissezFaire;
  Ok (MkRaftPacket (rp_nodeIdx p) (rp_nodeId p) (u8 t) b (rp_timestamp p) (rp_endpoint p)).

Definition raft_setOtherField (p : RaftMsgPacket) (i : Z) (nodeId ep : bytes) (now : Z) : RaftMsgPacket :=
  MkRaftPacket (u256 i) nodeId (rp_packetType p) (rp_data p) now ep.

(** ** The messages *)

Record RaftMsg := MkRaftMsg {
  rm_idx : Z;               (* u256 *)
  rm_term : Z;              (* size_t *)
  rm_height : Z;            (* int64_t *)
  rm_blockHash : bytes;
}.

(** [_s << idx << term << height << blockHash]: [term] and [height] match
    [append(unsigned)]. *)
Definition raft_stream (m : RaftMsg) (s : RLPStream) : res RLPStream :=
  s ← append_u256 s (rm_idx m);
  s ← append_unsigned s (rm_term m);
  s ← append_unsigned s (rm_height m);
  append_bytes s (rm_blockHash m) false.

Definition raft_populate (rlp : bytes) : res (RaftMsg * rlp_cache) :=
  '(f0, c) ← rlp_index rlp rlp_cache0 0;
  i ← toInt_u256 f0 Strict;
  '(f1, c) ← rlp_index rlp c 1;
  t ← toInt_u64 f1 Strict;
  '(f2, c) ← rlp_index rlp c 2;
  h ← toInt_i64 f2 Strict;
  '(f3, c) ← rlp_index rlp c 3;
  bh ← toHash h256_size f3 VeryStrict;
  Ok (MkRaftMsg i t h bh, c).

Record RaftVoteReq := MkVoteReq {
  vq_msg : RaftMsg;
  vq_candidate : Z;         (* u256 *)
  vq_lastLeaderTerm : Z;    (* size_t *)
  vq_lastBlockNumber : Z;   (* int64_t *)
}.

Definition voteReq_stream (m : RaftVoteReq) (s : RLPStream) : res RLPStream :=
  s ← raft_stream (vq_msg m) s;
  s ← append_u256 s (vq_candidate m);
  s ← append_unsigned s (vq_lastLeaderTerm m);
  append_unsigned s (vq_lastBlockNumber m).

Definition voteReq_populate (rlp : bytes) : res RaftVoteReq :=
  '(m, c) ← raft_populate rlp;
  '(f4, c) ← rlp_index rlp c 4;
  cand ← toInt_u256 f4 Strict;
  '(f5, c) ← rlp_index rlp c 5;
  t ← toInt_u64 f5 Strict;
  '(f6, _) ← rlp_index rlp c 6;
  n ← toInt_i64 f6 Strict;
  Ok (MkVoteReq m cand t n).

Record RaftVoteResp := MkVoteResp {
  vr_msg : RaftMsg;
  vr_voteFlag : Z;          (* byte *)
  vr_lastLeaderTerm : Z;    (* size_t *)
}.

Definition voteResp_stream (m : RaftVoteResp) (s : RLPStream) : res RLPStream :=
  s ← raft_stream (vr_msg m) s;
  s ← append_unsigned s (vr_voteFlag m);
  append_unsigned s (vr_lastLeaderTerm m).

Definition voteResp_populate (rlp : bytes) : res RaftVoteResp :=
  '(m, c) ← raft_populate rlp;
  '(f4, c) ← rlp_index rlp c 4;
  flag ← toInt_u8 f4 Strict;
  '(f5, _) ← rlp_index rlp c 5;
  t ← toInt_u64 f5 Strict;
  Ok (MkVoteResp m flag t).

Record RaftHeartBeat := MkHeartBeat {
  hb_msg : RaftMsg;
  hb_leader : Z;                 (* u256 *)
  hb_uncommitedBlock : bytes;
  hb_uncommitedBlockNumber : Z;  (* int64_t *)
}.

Definition hasData (m : RaftHeartBeat) : bool := bool_decide (hb_uncommitedBlock m ≠ []).

Definition heartBeat_stream (m : RaftHeartBeat) (s : RLPStream) : res RLPStream :=
  s ← raft_stream (hb_msg m) s;
  s ← append_u256 s (hb_leader m);
  s ← append_bytes s (hb_uncommitedBlock m) false;
  append_unsigned s (hb_uncommitedBlockNumber m).

Definition heartBeat_populate (rlp : bytes) : res RaftHeartBeat :=
  '(m, c) ← raft_populate rlp;
  '(f4, c) ← rlp_index rlp c 4;
  l ← toInt_u256 f4 Strict;
  '(f5, c) ← rlp_index rlp c 5;
  b ← toBytes f5 LaissezFaire;
  '(f6, _) ← rlp_index rlp c 6;
  n ← toInt_i64 f6 Strict;
  Ok (MkHeartBeat m l b n).

Record RaftHeartBeatResp := MkHeartBeatResp {
  hr_msg : RaftMsg;
  hr_uncommitedBlockHash : bytes;
}.

Definition heartBeatResp_stream (m : RaftHeartBeatResp) (s : RLPStream) : res RLPStream :=
  s ← raft_stream (hr_msg m) s;
  append_bytes s (hr_uncommitedBlockHash m) false.

Definition heartBeatResp_populate (rlp : bytes) : res RaftHeartBeatResp :=
  '(m, c) ← raft_populate rlp;
  '(f4, _) ← rlp_index rlp c 4;
  h ← toHash h256_size f4 Strict;
  Ok (MkHeartBeatResp m h).

(** [RLP(ref(data))[0]], what the handlers populate a message from. *)
Definition packet_body (data : bytes) : res bytes :=
  r ← RLP_new data VeryStrict;
  fst <$> rlp_index r rlp_cache0 0.

(** ** Vote counts *)

Record VoteState := MkVotes {
  vs_vote : Z; vs_unVote : Z; vs_lastTermErr : Z; vs_firstVote : Z; vs_discardedVote : Z; vs_outdated : Z }.

Definition VoteState0 : VoteState := MkVotes 0 0 0 0 0 0.

Definition totalVoteCount (v : VoteState) : Z :=
  u64 (vs_vote v + vs_unVote v + vs_lastTermErr v + vs_firstVote v + vs_discardedVote v + vs_outdated v).
