(* ===== verification/RaftEngine.v ===== *)
(** * The Raft engine

    Models libconsensus/raft/RaftEngine.h and RaftEngine.cpp. The members are
    a record of records (configuration, timers, votes, the uncommitted block);
    every method is a computation of the monad [SM] over it. The other
    components are the class [NodeEnv] of Engine.v, the storage that holds the
    miner list is the one of Table.v, and [std::rand] is an oracle.

    The worker thread runs [workLoop]; its position in the loops of
    [runAsLeader], [runAsFollower] and [runAsCandidate], with their local
    variables, is the type [position], and [thread_step] is one iteration of
    the innermost loop. [commit] is called by the sealer's thread and waits on
    a condition variable: it is split at the wait into [commit_begin] and
    [commit_end]. A message handler that locks [m_commitMutex] while the same
    thread holds it is undefined ([rc_locked]). *)

From stdpp Require Import sorting.
From S2P Require Import Prelude StateErr RLP Hex Crypto PBFTMsg Transaction Block Engine PBFTEngine Table RaftMsg.

Local Open Scope Z_scope.

Section state.
Context `{NodeEnv}.

(** The members of [ConsensusEngineBase], and those of the engine that concern the configuration. *)
Record RaftBase := MkRBase {
  rb_consensusBlockNumber : Z; (* int64_t *)
  rb_highestBlock : BlockHeader;
  rb_nodeNum : Z; (* uint16_t *)
  rb_f : Z; (* uint16_t *)
  rb_accountType : NodeAccountType;
  rb_idx : Z; (* uint16_t *)
  rb_minerList : list bytes;
  rb_allowFutureBlocks : bool;
  rb_started : bool; (* m_startConsensusEngine *)
  rb_cfgErr : bool;
  rb_key : bytes; (* the secret of m_keyPair *)
  rb_storage : option Storage; (* nullptr: None *)
  rb_lastObtainMinerNum : Z; (* int64_t *)
  rb_lastBlockTime : Z; (* uint64_t *)
}.

(** Timers: time points in nanoseconds, the others [unsigned] milliseconds. *)
Record RaftTimers := MkRTimers {
  rt_electTimeout : Z;
  rt_minElectTimeout : Z;
  rt_maxElectTimeout : Z;
  rt_minElectTimeoutInit : Z;
  rt_maxElectTimeoutInit : Z;
  rt_minElectTimeoutBoundary : Z;
  rt_maxElectTimeoutBoundary : Z;
  rt_lastElectTime : Z; (* time_point *)
  rt_heartbeatTimeout : Z;
  rt_heartbeatInterval : Z;
  rt_lastHeartbeatTime : Z; (* time_point *)
  rt_lastHeartbeatReset : Z; (* time_point *)
  rt_increaseTime : Z;
}.

(** Role, term and votes. *)
Record RaftVote := MkRVote {
  rv_state : RaftRole;
  rv_term : Z; (* size_t *)
  rv_lastLeaderTerm : Z; (* size_t *)
  rv_leader : Z; (* u256 *)
  rv_vote : Z; (* u256 *)
  rv_firstVote : Z; (* u256 *)
  rv_heartbeatCount : Z; (* unsigned *)
}.

(** The block that waits for its acknowledgements. *)
Record RaftCommit := MkRCommit {
  rc_uncommittedBlock : Block;
  rc_uncommittedBlockNumber : Z; (* int64_t *)
  rc_commitReady : bool;
  rc_waiting : bool; (* m_waitingForCommitting *)
  rc_fingerPrint : gmap bytes (gset bytes); (* m_commitFingerPrint *)
  rc_locked : bool; (* the worker holds m_commitMutex *)
}.

(** The engine, with what it shares with the rest of the node. *)
Record RaftEngine := MkRaftEngine {
  r_base : RaftBase;
  r_timers : RaftTimers;
  r_votes : RaftVote;
  r_commit : RaftCommit;
  r_msgQueue : list RaftMsgPacket;
  r_memberBlock : gmap bytes (Z * bytes); (* height, hash *)
  r_world : W;
  r_tick : nat; (* clock readings so far *)
  r_rands : nat; (* calls of rand so far *)
  r_events : list event; (* newest first *)
}.

Definition rb_with_consensusBlockNumber (x : Z) (e : RaftBase) : RaftBase := MkRBase x (rb_highestBlock e) (rb_nodeNum
  e) (rb_f e) (rb_accountType e) (rb_idx e) (rb_minerList e) (rb_allowFutureBlocks e) (rb_started e) (rb_cfgErr e)
  (rb_key e) (rb_storage e) (rb_lastObtainMinerNum e) (rb_lastBlockTime e).
Definition rb_with_highestBlock (x : BlockHeader) (e : RaftBase) : RaftBase := MkRBase (rb_consensusBlockNumber e) x
  (rb_nodeNum e) (rb_f e) (rb_accountType e) (rb_idx e) (rb_minerList e) (rb_allowFutureBlocks e) (rb_started e)
  (rb_cfgErr e) (rb_key e) (rb_storage e) (rb_lastObtainMinerNum e) (rb_lastBlockTime e).
Definition rb_with_nodeNum (x : Z) (e : RaftBase) : RaftBase := MkRBase (rb_consensusBlockNumber e) (rb_highestBlock
  e) x (rb_f e) (rb_accountType e) (rb_idx e) (rb_minerList e) (rb_allowFutureBlocks e) (rb_started e) (rb_cfgErr e)
  (rb_key e) (rb_storage e) (rb_lastObtainMinerNum e) (rb_lastBlockTime e).
Definition rb_with_f (x : Z) (e : RaftBase) : RaftBase := MkRBase (rb_consensusBlockNumber e) (rb_highestBlock e)
  (rb_nodeNum e) x (rb_accountType e) (rb_idx e) (rb_minerList e) (rb_allowFutureBlocks e) (rb_started e) (rb_cfgErr
  e) (rb_key e) (rb_storage e) (rb_lastObtainMinerNum e) (rb_lastBlockTime e).
Definition rb_with_accountType (x : NodeAccountType) (e : RaftBase) : RaftBase := MkRBase (rb_consensusBlockNumber e)
  (rb_highestBlock e) (rb_nodeNum e) (rb_f e) x (rb_idx e) (rb_minerList e) (rb_allowFutureBlocks e) (rb_started e)
  (rb_cfgErr e) (rb_key e) (rb_storage e) (rb_lastObtainMinerNum e) (rb_lastBlockTime e).
Definition rb_with_idx (x : Z) (e : RaftBase) : RaftBase := MkRBase (rb_consensusBlockNumber e) (rb_highestBlock e)
  (rb_nodeNum e) (rb_f e) (rb_accountType e) x (rb_minerList e) (rb_allowFutureBlocks e) (rb_started e) (rb_cfgErr e)
  (rb_key e) (rb_storage e) (rb_lastObtainMinerNum e) (rb_lastBlockTime e).
Definition rb_with_minerList (x : list bytes) (e : RaftBase) : RaftBase := MkRBase (rb_consensusBlockNumber e)
  (rb_highestBlock e) (rb_nodeNum e) (rb_f e) (rb_accountType e) (rb_idx e) x (rb_allowFutureBlocks e) (rb_started e)
  (rb_cfgErr e) (rb_key e) (rb_storage e) (rb_lastObtainMinerNum e) (rb_lastBlockTime e).
Definition rb_with_allowFutureBlocks (x : bool) (e : RaftBase) : RaftBase := MkRBase (rb_consensusBlockNumber e)
  (rb_highestBlock e) (rb_nodeNum e) (rb_f e) (rb_accountType e) (rb_idx e) (rb_minerList e) x (rb_started e)
  (rb_cfgErr e) (rb_key e) (rb_storage e) (rb_lastObtainMinerNum e) (rb_lastBlockTime e).
Definition rb_with_started (x : bool) (e : RaftBase) : RaftBase := MkRBase (rb_consensusBlockNumber e)
  (rb_highestBlock e) (rb_nodeNum e) (rb_f e) (rb_accountType e) (rb_idx e) (rb_minerList e) (rb_allowFutureBlocks e)
  x (rb_cfgErr e) (rb_key e) (rb_storage e) (rb_lastObtainMinerNum e) (rb_lastBlockTime e).
Definition rb_with_cfgErr (x : bool) (e : RaftBase) : RaftBase := MkRBase (rb_consensusBlockNumber e) (rb_highestBlock
  e) (rb_nodeNum e) (rb_f e) (rb_accountType e) (rb_idx e) (rb_minerList e) (rb_allowFutureBlocks e) (rb_started e) x
  (rb_key e) (rb_storage e) (rb_lastObtainMinerNum e) (rb_lastBlockTime e).
Definition rb_with_key (x : bytes) (e : RaftBase) : RaftBase := MkRBase (rb_consensusBlockNumber e) (rb_highestBlock
  e) (rb_nodeNum e) (rb_f e) (rb_accountType e) (rb_idx e) (rb_minerList e) (rb_allowFutureBlocks e) (rb_started e)
  (rb_cfgErr e) x (rb_storage e) (rb_lastObtainMinerNum e) (rb_lastBlockTime e).
Definition rb_with_storage (x : option Storage) (e : RaftBase) : RaftBase := MkRBase (rb_consensusBlockNumber e)
  (rb_highestBlock e) (rb_nodeNum e) (rb_f e) (rb_accountType e) (rb_idx e) (rb_minerList e) (rb_allowFutureBlocks e)
  (rb_started e) (rb_cfgErr e) (rb_key e) x (rb_lastObtainMinerNum e) (rb_lastBlockTime e).
Definition rb_with_lastObtainMinerNum (x : Z) (e : RaftBase) : RaftBase := MkRBase (rb_consensusBlockNumber e)
  (rb_highestBlock e) (rb_nodeNum e) (rb_f e) (rb_accountType e) (rb_idx e) (rb_minerList e) (rb_allowFutureBlocks e)
  (rb_started e) (rb_cfgErr e) (rb_key e) (rb_storage e) x (rb_lastBlockTime e).
Definition rb_with_lastBlockTime (x : Z) (e : RaftBase) : RaftBase := MkRBase (rb_consensusBlockNumber e)
  (rb_highestBlock e) (rb_nodeNum e) (rb_f e) (rb_accountType e) (rb_idx e) (rb_minerList e) (rb_allowFutureBlocks e)
  (rb_started e) (rb_cfgErr e) (rb_key e) (rb_storage e) (rb_lastObtainMinerNum e) x.

Definition rt_with_electTimeout (x : Z) (e : RaftTimers) : RaftTimers := MkRTimers x (rt_minElectTimeout e)
  (rt_maxElectTimeout e) (rt_minElectTimeoutInit e) (rt_maxElectTimeoutInit e) (rt_minElectTimeoutBoundary e)
  (rt_maxElectTimeoutBoundary e) (rt_lastElectTime e) (rt_heartbeatTimeout e) (rt_heartbeatInterval e)
  (rt_lastHeartbeatTime e) (rt_lastHeartbeatReset e) (rt_increaseTime e).
Definition rt_with_minElectTimeout (x : Z) (e : RaftTimers) : RaftTimers := MkRTimers (rt_electTimeout e) x
  (rt_maxElectTimeout e) (rt_minElectTimeoutInit e) (rt_maxElectTimeoutInit e) (rt_minElectTimeoutBoundary e)
  (rt_maxElectTimeoutBoundary e) (rt_lastElectTime e) (rt_heartbeatTimeout e) (rt_heartbeatInterval e)
  (rt_lastHeartbeatTime e) (rt_lastHeartbeatReset e) (rt_increaseTime e).
Definition rt_with_maxElectTimeout (x : Z) (e : RaftTimers) : RaftTimers := MkRTimers (rt_electTimeout e)
  (rt_minElectTimeout e) x (rt_minElectTimeoutInit e) (rt_maxElectTimeoutInit e) (rt_minElectTimeoutBoundary e)
  (rt_maxElectTimeoutBoundary e) (rt_lastElectTime e) (rt_heartbeatTimeout e) (rt_heartbeatInterval e)
  (rt_lastHeartbeatTime e) (rt_lastHeartbeatReset e) (rt_increaseTime e).
Definition rt_with_minElectTimeoutInit (x : Z) (e : RaftTimers) : RaftTimers := MkRTimers (rt_electTimeout e)
  (rt_minElectTimeout e) (rt_maxElectTimeout e) x (rt_maxElectTimeoutInit e) (rt_minElectTimeoutBoundary e)
  (rt_maxElectTimeoutBoundary e) (rt_lastElectTime e) (rt_heartbeatTimeout e) (rt_heartbeatInterval e)
  (rt_lastHeartbeatTime e) (rt_lastHeartbeatReset e) (rt_increaseTime e).
Definition rt_with_maxElectTimeoutInit (x : Z) (e : RaftTimers) : RaftTimers := MkRTimers (rt_electTimeout e)
  (rt_minElectTimeout e) (rt_maxElectTimeout e) (rt_minElectTimeoutInit e) x (rt_minElectTimeoutBoundary e)
  (rt_maxElectTimeoutBoundary e) (rt_lastElectTime e) (rt_heartbeatTimeout e) (rt_heartbeatInterval e)
  (rt_lastHeartbeatTime e) (rt_lastHeartbeatReset e) (rt_increaseTime e).
Definition rt_with_minElectTimeoutBoundary (x : Z) (e : RaftTimers) : RaftTimers := MkRTimers (rt_electTimeout e)
  (rt_minElectTimeout e) (rt_maxElectTimeout e) (rt_minElectTimeoutInit e) (rt_maxElectTimeoutInit e) x
  (rt_maxElectTimeoutBoundary e) (rt_lastElectTime e) (rt_heartbeatTimeout e) (rt_heartbeatInterval e)
  (rt_lastHeartbeatTime e) (rt_lastHeartbeatReset e) (rt_increaseTime e).
Definition rt_with_maxElectTimeoutBoundary (x : Z) (e : RaftTimers) : RaftTimers := MkRTimers (rt_electTimeout e)
  (rt_minElectTimeout e) (rt_maxElectTimeout e) (rt_minElectTimeoutInit e) (rt_maxElectTimeoutInit e)
  (rt_minElectTimeoutBoundary e) x (rt_lastElectTime e) (rt_heartbeatTimeout e) (rt_heartbeatInterval e)
  (rt_lastHeartbeatTime e) (rt_lastHeartbeatReset e) (rt_increaseTime e).
Definition rt_with_lastElectTime (x : Z) (e : RaftTimers) : RaftTimers := MkRTimers (rt_electTimeout e)
  (rt_minElectTimeout e) (rt_maxElectTimeout e) (rt_minElectTimeoutInit e) (rt_maxElectTimeoutInit e)
  (rt_minElectTimeoutBoundary e) (rt_maxElectTimeoutBoundary e) x (rt_heartbeatTimeout e) (rt_heartbeatInterval e)
  (rt_lastHeartbeatTime e) (rt_lastHeartbeatReset e) (rt_increaseTime e).
Definition rt_with_heartbeatTimeout (x : Z) (e : RaftTimers) : RaftTimers := MkRTimers (rt_electTimeout e)
  (rt_minElectTimeout e) (rt_maxElectTimeout e) (rt_minElectTimeoutInit e) (rt_maxElectTimeoutInit e)
  (rt_minElectTimeoutBoundary e) (rt_maxElectTimeoutBoundary e) (rt_lastElectTime e) x (rt_heartbeatInterval e)
  (rt_lastHeartbeatTime e) (rt_lastHeartbeatReset e) (rt_increaseTime e).
Definition rt_with_heartbeatInterval (x : Z) (e : RaftTimers) : RaftTimers := MkRTimers (rt_electTimeout e)
  (rt_minElectTimeout e) (rt_maxElectTimeout e) (rt_minElectTimeoutInit e) (rt_maxElectTimeoutInit e)
  (rt_minElectTimeoutBoundary e) (rt_maxElectTimeoutBoundary e) (rt_lastElectTime e) (rt_heartbeatTimeout e) x
  (rt_lastHeartbeatTime e) (rt_lastHeartbeatReset e) (rt_increaseTime e).
Definition rt_with_lastHeartbeatTime (x : Z) (e : RaftTimers) : RaftTimers := MkRTimers (rt_electTimeout e)
  (rt_minElectTimeout e) (rt_maxElectTimeout e) (rt_minElectTimeoutInit e) (rt_maxElectTimeoutInit e)
  (rt_minElectTimeoutBoundary e) (rt_maxElectTimeoutBoundary e) (rt_lastElectTime e) (rt_heartbeatTimeout e)
  (rt_heartbeatInterval e) x (rt_lastHeartbeatReset e) (rt_increaseTime e).
Definition rt_with_lastHeartbeatReset (x : Z) (e : RaftTimers) : RaftTimers := MkRTimers (rt_electTimeout e)
  (rt_minElectTimeout e) (rt_maxElectTimeout e) (rt_minElectTimeoutInit e) (rt_maxElectTimeoutInit e)
  (rt_minElectTimeoutBoundary e) (rt_maxElectTimeoutBoundary e) (rt_lastElectTime e) (rt_heartbeatTimeout e)
  (rt_heartbeatInterval e) (rt_lastHeartbeatTime e) x (rt_increaseTime e).
Definition rt_with_increaseTime (x : Z) (e : RaftTimers) : RaftTimers := MkRTimers (rt_electTimeout e)
  (rt_minElectTimeout e) (rt_maxElectTimeout e) (rt_minElectTimeoutInit e) (rt_maxElectTimeoutInit e)
  (rt_minElectTimeoutBoundary e) (rt_maxElectTimeoutBoundary e) (rt_lastElectTime e) (rt_heartbeatTimeout e)
  (rt_heartbeatInterval e) (rt_lastHeartbeatTime e) (rt_lastHeartbeatReset e) x.

Definition rv_with_state (x : RaftRole) (e : RaftVote) : RaftVote := MkRVote x (rv_term e) (rv_lastLeaderTerm e)
  (rv_leader e) (rv_vote e) (rv_firstVote e) (rv_heartbeatCount e).
Definition rv_with_term (x : Z) (e : RaftVote) : RaftVote := MkRVote (rv_state e) x (rv_lastLeaderTerm e) (rv_leader
  e) (rv_vote e) (rv_firstVote e) (rv_heartbeatCount e).
Definition rv_with_lastLeaderTerm (x : Z) (e : RaftVote) : RaftVote := MkRVote (rv_state e) (rv_term e) x (rv_leader
  e) (rv_vote e) (rv_firstVote e) (rv_heartbeatCount e).
Definition rv_with_leader (x : Z) (e : RaftVote) : RaftVote := MkRVote (rv_state e) (rv_term e) (rv_lastLeaderTerm e)
  x (rv_vote e) (rv_firstVote e) (rv_heartbeatCount e).
Definition rv_with_vote (x : Z) (e : RaftVote) : RaftVote := MkRVote (rv_state e) (rv_term e) (rv_lastLeaderTerm e)
  (rv_leader e) x (rv_firstVote e) (rv_heartbeatCount e).
Definition rv_with_firstVote (x : Z) (e : RaftVote) : RaftVote := MkRVote (rv_state e) (rv_term e) (rv_lastLeaderTerm
  e) (rv_leader e) (rv_vote e) x (rv_heartbeatCount e).
Definition rv_with_heartbeatCount (x : Z) (e : RaftVote) : RaftVote := MkRVote (rv_state e) (rv_term e)
  (rv_lastLeaderTerm e) (rv_leader e) (rv_vote e) (rv_firstVote e) x.

Definition rc_with_uncommittedBlock (x : Block) (e : RaftCommit) : RaftCommit := MkRCommit x
  (rc_uncommittedBlockNumber e) (rc_commitReady e) (rc_waiting e) (rc_fingerPrint e) (rc_locked e).
Definition rc_with_uncommittedBlockNumber (x : Z) (e : RaftCommit) : RaftCommit := MkRCommit (rc_uncommittedBlock e) x
  (rc_commitReady e) (rc_waiting e) (rc_fingerPrint e) (rc_locked e).
Definition rc_with_commitReady (x : bool) (e : RaftCommit) : RaftCommit := MkRCommit (rc_uncommittedBlock e)
  (rc_uncommittedBlockNumber e) x (rc_waiting e) (rc_fingerPrint e) (rc_locked e).
Definition rc_with_waiting (x : bool) (e : RaftCommit) : RaftCommit := MkRCommit (rc_uncommittedBlock e)
  (rc_uncommittedBlockNumber e) (rc_commitReady e) x (rc_fingerPrint e) (rc_locked e).
Definition rc_with_fingerPrint (x : gmap bytes (gset bytes)) (e : RaftCommit) : RaftCommit := MkRCommit
  (rc_uncommittedBlock e) (rc_uncommittedBlockNumber e) (rc_commitReady e) (rc_waiting e) x (rc_locked e).
Definition rc_with_locked (x : bool) (e : RaftCommit) : RaftCommit := MkRCommit (rc_uncommittedBlock e)
  (rc_uncommittedBlockNumber e) (rc_commitReady e) (rc_waiting e) (rc_fingerPrint e) x.

Definition r_with_base (x : RaftBase) (e : RaftEngine) : RaftEngine := MkRaftEngine x (r_timers e) (r_votes e)
  (r_commit e) (r_msgQueue e) (r_memberBlock e) (r_world e) (r_tick e) (r_rands e) (r_events e).
Definition r_with_timers (x : RaftTimers) (e : RaftEngine) : RaftEngine := MkRaftEngine (r_base e) x (r_votes e)
  (r_commit e) (r_msgQueue e) (r_memberBlock e) (r_world e) (r_tick e) (r_rands e) (r_events e).
Definition r_with_votes (x : RaftVote) (e : RaftEngine) : RaftEngine := MkRaftEngine (r_base e) (r_timers e) x
  (r_commit e) (r_msgQueue e) (r_memberBlock e) (r_world e) (r_tick e) (r_rands e) (r_events e).
Definition r_with_commit (x : RaftCommit) (e : RaftEngine) : RaftEngine := MkRaftEngine (r_base e) (r_timers e)
  (r_votes e) x (r_msgQueue e) (r_memberBlock e) (r_world e) (r_tick e) (r_rands e) (r_events e).
Definition r_with_msgQueue (x : list RaftMsgPacket) (e : RaftEngine) : RaftEngine := MkRaftEngine (r_base e) (r_timers
  e) (r_votes e) (r_commit e) x (r_memberBlock e) (r_world e) (r_tick e) (r_rands e) (r_events e).
Definition r_with_memberBlock (x : gmap bytes (Z * bytes)) (e : RaftEngine) : RaftEngine := MkRaftEngine (r_base e)
  (r_timers e) (r_votes e) (r_commit e) (r_msgQueue e) x (r_world e) (r_tick e) (r_rands e) (r_events e).
Definition r_with_world (x : W) (e : RaftEngine) : RaftEngine := MkRaftEngine (r_base e) (r_timers e) (r_votes e)
  (r_commit e) (r_msgQueue e) (r_memberBlock e) x (r_tick e) (r_rands e) (r_events e).
Definition r_with_tick (x : nat) (e : RaftEngine) : RaftEngine := MkRaftEngine (r_base e) (r_timers e) (r_votes e)
  (r_commit e) (r_msgQueue e) (r_memberBlock e) (r_world e) x (r_rands e) (r_events e).
Definition r_with_rands (x : nat) (e : RaftEngine) : RaftEngine := MkRaftEngine (r_base e) (r_timers e) (r_votes e)
  (r_commit e) (r_msgQueue e) (r_memberBlock e) (r_world e) (r_tick e) x (r_events e).
Definition r_with_events (x : list event) (e : RaftEngine) : RaftEngine := MkRaftEngine (r_base e) (r_timers e)
  (r_votes e) (r_commit e) (r_msgQueue e) (r_memberBlock e) (r_world e) (r_tick e) (r_rands e) x.
End state.

Section engine.
Context `{Crypto, NodeEnv, Text, Random}.

Abbreviation RM := (SM RaftEngine).

Definition upd_base (f : RaftBase → RaftBase) : RM unit := smodify (λ e, r_with_base (f (r_base e)) e).
Definition upd_timers (f : RaftTimers → RaftTimers) : RM unit := smodify (λ e, r_with_timers (f (r_timers e)) e).
Definition upd_votes (f : RaftVote → RaftVote) : RM unit := smodify (λ e, r_with_votes (f (r_votes e)) e).
Definition upd_commit (f : RaftCommit → RaftCommit) : RM unit := smodify (λ e, r_with_commit (f (r_commit e)) e).
Definition emit (ev : event) : RM unit := smodify (λ e, r_with_events (ev :: r_events e) e).

(** [system_clock::now()] and [utcTime()]. *)
Definition now_ns : RM Z := λ e, (Ok (clock (r_tick e)), r_with_tick (S (r_tick e)) e).
Definition utcTime : RM Z := t ← now_ns; mret (u64 (t / 1000000)).

(** [std::rand()]. *)
Definition rand_next : RM Z := λ e, (Ok (rand (r_rands e)), r_with_rands (S (r_rands e)) e).

Definition InvalidIndex : Z := Invalid256.
Definition s_heartBeatIntervalRatio : Z := 4.
Definition c_intervalBlockTime : Z := 1000.

(** ** Timeouts *)

(** [min + rand() % 100 * (max - min) / 100], in [unsigned]. *)
Definition resetElectTimeout : RM unit :=
  r ← rand_next;
  upd_timers (λ t, rt_with_electTimeout
    (u32 (rt_minElectTimeout t + u32 ((r `rem` 100) * u32 (rt_maxElectTimeout t - rt_minElectTimeout t)) / 100)) t);;
  now ← now_ns;
  upd_timers (rt_with_lastElectTime now).

Definition recoverElectTime : RM unit :=
  upd_timers (λ t, rt_with_minElectTimeout (rt_minElectTimeoutInit t) (rt_with_maxElectTimeout (rt_maxElectTimeoutInit t) t)).

Definition increaseElectTime : RM unit :=
  upd_timers (λ t,
    if decide (rt_maxElectTimeoutBoundary t < u32 (rt_maxElectTimeout t + rt_increaseTime t))
    then rt_with_maxElectTimeout (rt_maxElectTimeoutBoundary t) t
    else rt_with_minElectTimeout (u32 (rt_minElectTimeout t + rt_increaseTime t))
           (rt_with_maxElectTimeout (u32 (rt_maxElectTimeout t + rt_increaseTime t)) t)).

Definition checkHeartbeatTimeout : RM bool :=
  now ← now_ns;
  e ← sget;
  mret (bool_decide (rt_heartbeatTimeout (r_timers e) ≤ (now - rt_lastHeartbeatReset (r_timers e)) `quot` 1000000)).

Definition checkElectTimeout : RM bool :=
  now ← now_ns;
  e ← sget;
  mret (bool_decide (rt_electTimeout (r_timers e) * 1000000 ≤ now - rt_lastElectTime (r_timers e))).

(** ** Roles *)

(** [Block()] assigned to a block: the assignment memoises the header's hash. *)
Definition empty_block : Block :=
  match block_assign Block0 Block0 with Ok b => b | Throw _ => Block0 end.

Definition switchToLeader : RM unit :=
  e ← sget;
  upd_votes (λ v, rv_with_state EN_STATE_LEADER (rv_with_leader (rb_idx (r_base e)) v));;
  recoverElectTime.

Definition switchToFollower (leader : Z) : RM unit :=
  upd_votes (λ v, rv_with_heartbeatCount 0 (rv_with_state EN_STATE_FOLLOWER (rv_with_leader leader v)));;
  e ← sget;
  sthrow_if (rc_locked (r_commit e) = true) UB;;
  swhen (rc_waiting (r_commit e) = true)
    (upd_commit (λ c, rc_with_commitReady true (rc_with_uncommittedBlockNumber 0 (rc_with_uncommittedBlock empty_block c))));;
  resetElectTimeout.

Definition switchToCandidate : RM unit :=
  upd_votes (λ v, rv_with_state EN_STATE_CANDIDATE (rv_with_leader InvalidIndex (rv_with_term (u64 (rv_term v + 1)) v)));;
  resetElectTimeout.

Definition setLeader (leader : Z) : RM unit := upd_votes (rv_with_leader leader).
Definition setVote (candidate : Z) : RM unit := upd_votes (rv_with_vote candidate).

(** [_votes >= m_nodeNum - m_f]. *)
Definition isMajorityVote (e : RaftEngine) (votes : Z) : bool :=
  bool_decide (rb_nodeNum (r_base e) - rb_f (r_base e) ≤ votes).
Definition wonElection := isMajorityVote.

Definition clearFirstVoteCache : RM unit :=
  e ← sget;
  swhen (rv_firstVote (r_votes e) ≠ Invalid256)
    (upd_votes (λ v, rv_with_heartbeatCount (u32 (rv_heartbeatCount v + 1)) v);;
     e ← sget;
     swhen (2 * s_heartBeatIntervalRatio ≤ rv_heartbeatCount (r_votes e))
       (upd_votes (λ v, rv_with_firstVote InvalidIndex (rv_with_heartbeatCount 0 v)))).

(** ** Configuration *)

(** [m_highestBlock.hash()], which keeps the memo. *)
Definition highest_hash : RM bytes :=
  e ← sget;
  '(h, hd) ← slift (header_hash (rb_highestBlock (r_base e)));
  upd_base (rb_with_highestBlock hd);;
  mret h.

(** [h512(std::string)]. *)
Definition h512_of_string (s : bytes) : res bytes :=
  b ← fromHex s ThrowErr; Ok (FixedHash_of h512_size b).

(** Whether a row of the miner table is of the type and in force. *)
Definition node_in_force (type : bytes) (curBlockNum : Z) (node : Entry) : res bool :=
  if decide (getField node (str "type") = type) then
    n ← cast (lexical_int (getField node (str "enable_num")));
    Ok (bool_decide (n ≤ curBlockNum))
  else Ok false.

Fixpoint add_miners (nodes : list Entry) (curBlockNum : Z) (miners : list bytes) : res (list bytes) :=
  match nodes with
  | [] => Ok miners
  | node :: nodes =>
      b ← node_in_force (str "miner") curBlockNum node;
      if b : bool then
        id ← h512_of_string (getField node (str "node_id"));
        add_miners nodes curBlockNum (if decide (id ∈ miners) then miners else miners ++ [id])
      else add_miners nodes curBlockNum miners
  end.

Fixpoint remove_first (id : bytes) (l : list bytes) : list bytes :=
  match l with [] => [] | x :: l => if decide (x = id) then l else x :: remove_first id l end.

Fixpoint remove_observers (nodes : list Entry) (curBlockNum : Z) (miners : list bytes) : res (list bytes) :=
  match nodes with
  | [] => Ok miners
  | node :: nodes =>
      b ← node_in_force (str "observer") curBlockNum node;
      if b : bool then
        id ← h512_of_string (getField node (str "node_id"));
        remove_observers nodes curBlockNum (remove_first id miners)
      else remove_observers nodes curBlockNum miners
  end.

Definition updateMinerList : RM unit :=
  e ← sget;
  match rb_storage (r_base e) with
  | None => mret tt
  | Some storage =>
      if decide (m_number (rb_highestBlock (r_base e)) = rb_lastObtainMinerNum (r_base e)) then mret tt
      else
        stry
          (let cur := m_number (rb_highestBlock (r_base e)) in
           h ← highest_hash;
           match storage h cur (str "_sys_miners_") (str "node") with
           | None => mret tt
           | Some nodes =>
               miners ← slift (add_miners (es_entries nodes) cur (rb_minerList (r_base e)));
               miners ← slift (remove_observers (es_entries nodes) cur miners);
               upd_base (rb_with_minerList (merge_sort bytes_le miners));;
               upd_base (λ b, rb_with_lastObtainMinerNum (m_number (rb_highestBlock b)) b)
           end)
          (λ _, mret tt)
  end.

Definition resetConfig : RM unit :=
  updateMinerList;;
  e ← sget;
  let miners := rb_minerList (r_base e) in
  let nodeNum := Z.of_nat (length miners) in
  if decide (nodeNum = 0) then upd_base (rb_with_cfgErr true)
  else
    match getIndexByMiner miners (pub_of (rb_key (r_base e))) with
    | None => upd_base (rb_with_cfgErr true)
    | Some i =>
        upd_base (rb_with_accountType MinerAccount);;
        let changed := bool_decide (nodeNum ≠ rb_nodeNum (r_base e) ∨ Z.of_nat i ≠ rb_idx (r_base e)) in
        swhen (changed = true)
          (upd_base (λ b, rb_with_idx (u16 (Z.of_nat i)) (rb_with_nodeNum (u16 nodeNum) b));;
           upd_base (λ b, rb_with_f (u16 ((rb_nodeNum b - 1) `quot` 2)) b));;
        upd_base (rb_with_cfgErr false);;
        swhen (changed = true) (switchToFollower InvalidIndex;; resetElectTimeout)
    end.

Definition appendMiner (miner : bytes) : RM unit :=
  upd_base (λ b, rb_with_minerList (rb_minerList b ++ [miner]) b);; resetConfig.

Definition initRaftEnv : RM unit :=
  resetConfig;;
  upd_timers (λ t, rt_with_minElectTimeoutInit (rt_minElectTimeout t)
    (rt_with_maxElectTimeoutInit (rt_maxElectTimeout t)
    (rt_with_minElectTimeoutBoundary (rt_minElectTimeout t)
    (rt_with_maxElectTimeoutBoundary
       (u32 (rt_maxElectTimeout t + u32 (rt_maxElectTimeout t - rt_minElectTimeout t) / 2)) t))));;
  now ← now_ns;
  upd_timers (λ t, rt_with_heartbeatTimeout (rt_minElectTimeout t) (rt_with_lastHeartbeatTime now (rt_with_lastElectTime now t)));;
  upd_timers (λ t, rt_with_increaseTime (u32 (rt_maxElectTimeout t - rt_minElectTimeout t) / 4)
    (rt_with_heartbeatInterval (rt_heartbeatTimeout t / s_heartBeatIntervalRatio) t));;
  resetElectTimeout;;
  utcTime;; mret tt.

(** [start]: the worker starts unless it runs already. *)
Definition start : RM unit := initRaftEnv;; upd_base (rb_with_started true).

(** ** Sending *)

Definition transDataToMessage (data : bytes) (packetType : Z) : res bytes :=
  s ← appendList RLPStream0 1;
  s ← append_bytes s data false;
  packetData ← out s;
  raft_packet_encode (MkRaftPacket 0 h512_0 packetType packetData 0 []).

(** [RaftMsgPacket packet;] reads the clock for a member that is not sent. *)
Definition make_message (fields : RLPStream → res RLPStream) (packetType : Z) : RM bytes :=
  d ← slift (s ← fields RLPStream0; out s);
  utcTime;;
  slift (transDataToMessage d packetType).

Definition broadcastMsg (msg : bytes) : RM unit :=
  e ← sget;
  sfor_each (p2p_sessions (r_world e)) (λ node,
    e ← sget;
    swhen (getIndexByMiner (rb_minerList (r_base e)) node ≠ None) (emit (EvSend node msg))).

(** The first session of the node, when the node is a miner. *)
Definition sendResponse (node : bytes) (packetType : Z) (fields : RLPStream → res RLPStream) : RM bool :=
  d ← slift (s ← fields RLPStream0; out s);
  e ← sget;
  if decide (node ∈ p2p_sessions (r_world e) ∧ getIndexByMiner (rb_minerList (r_base e)) node ≠ None) then
    utcTime;;
    msg ← slift (transDataToMessage d packetType);
    emit (EvSend node msg);;
    mret true
  else mret false.

(** The members every message starts with. *)
Definition own_msg : RM RaftMsg :=
  e ← sget;
  h ← highest_hash;
  mret (MkRaftMsg (rb_idx (r_base e)) (rv_term (r_votes e)) (m_number (rb_highestBlock (r_base e))) h).

Definition generateHeartbeat : RM bytes :=
  m ← own_msg;
  e ← sget;
  let c := r_commit e in
  '(b, n) ←
    (if header_bool (m_blockHeader (rc_uncommittedBlock c)) then
       '(b, blk) ← slift (block_encode (rc_uncommittedBlock c));
       upd_commit (rc_with_uncommittedBlock blk);;
       mret (b, rb_consensusBlockNumber (r_base e))
     else mret ([], 0));
  make_message (heartBeat_stream (MkHeartBeat m (rb_idx (r_base e)) b n)) RaftHeartBeatPacket.

Definition broadcastHeartbeat : RM unit :=
  now ← now_ns;
  e ← sget;
  swhen (rt_heartbeatInterval (r_timers e) ≤ (now - rt_lastHeartbeatTime (r_timers e)) `quot` 1000000)
    (upd_timers (rt_with_lastHeartbeatTime now);;
     msg ← generateHeartbeat;
     broadcastMsg msg;;
     clearFirstVoteCache).

Definition generateVoteReq : RM bytes :=
  m ← own_msg;
  e ← sget;
  let cur := bc_number (r_world e) in
  n ← (if header_bool (m_blockHeader (rc_uncommittedBlock (r_commit e))) then slift (add_i64 cur 1) else mret cur);
  make_message (voteReq_stream (MkVoteReq m (rb_idx (r_base e)) (rv_lastLeaderTerm (r_votes e)) n)) RaftVoteReqPacket.

Definition broadcastVoteReq : RM unit := msg ← generateVoteReq; broadcastMsg msg.

(** ** Executing and committing a block *)

Definition checkBlockValid_base (b : Block) : RM Block :=
  '(h, b) ← slift (block_hash_of b);
  now ← utcTime;
  e ← sget;
  let hd := m_blockHeader b in
  sthrow_if (now < m_timestamp hd ∧ rb_allowFutureBlocks (r_base e) = false) DisabledFutureTime;;
  sthrow_if (m_number hd ≤ bc_number (r_world e)) InvalidBlockHeight;;
  sthrow_if (bc_getBlockByHash (r_world e) h ≠ None) ExistedBlock;;
  sthrow_if (bc_getBlockByHash (r_world e) (m_parentHash hd) = None) ParentNoneExist;;
  mret b.

Definition checkMinerList (b : Block) : RM unit :=
  e ← sget; sthrow_if (rb_minerList (r_base e) ≠ m_sealerList (m_blockHeader b)) BlockMinerListWrong.

Definition checkBlockValid (b : Block) : RM Block := b ← checkBlockValid_base b; checkMinerList b;; mret b.

Definition executeBlock (b : Block) : RM (Block * ExecPtr) :=
  e ← sget;
  match bc_getBlockByNumber (r_world e) (bc_number (r_world e)) with
  | None => sthrow UB
  | Some parent =>
      '(h, _) ← slift (header_hash (m_blockHeader parent));
      slift (bv_executeBlock (r_world e) b
               (Engine.MkInfo h (m_number (m_blockHeader parent)) (m_stateRoot (m_blockHeader parent))))
  end.

Definition execBlock (b : Block) : RM Sealing :=
  w ← slift (block_copy b);
  w ← checkBlockValid w;
  emit (EvNoteSealing (m_number (m_blockHeader w)));;
  '(w, ctx) ← executeBlock w;
  w ← slift (block_assign Block0 w);
  mret (MkSealing w ctx).

Definition checkAndSave (s : Sealing) : RM unit :=
  e ← sget;
  let '(ok, w) := bc_commitBlock (r_world e) (sl_block s) (sl_execContext s) in
  smodify (r_with_world w);;
  emit (EvCommit (sl_block s) (sl_execContext s) ok);;
  (if ok : bool then emit (EvDropTrans (sl_block s)) else emit (EvBadBlock (sl_block s)));;
  resetConfig.

Definition checkAndExecute (b : Block) : RM bool :=
  s ← stry (s ← execBlock b; mret (Some s)) (λ _, mret None);
  match s with
  | None => mret false
  | Some s => checkAndSave s;; mret true
  end.

(** [reportBlock]; the argument may be [m_uncommittedBlock] itself, which is
    only read before it is reset. *)
Definition reportBlock (b : Block) : RM unit :=
  e ← sget;
  let shouldReport := bool_decide (bc_number (r_world e) = 0 ∨
                                   m_number (rb_highestBlock (r_base e)) < m_number (m_blockHeader b)) in
  swhen (shouldReport = true)
    (now ← utcTime;
     upd_base (rb_with_lastBlockTime now);;
     e ← sget;
     match bc_getBlockByNumber (r_world e) (bc_number (r_world e)) with
     | None => sthrow UB
     | Some blk =>
         hd ← slift (header_copy (m_blockHeader blk));
         upd_base (rb_with_highestBlock hd)
     end;;
     e ← sget;
     '(h, blk) ← slift (block_hash_of (rc_uncommittedBlock (r_commit e)));
     upd_commit (λ c, rc_with_uncommittedBlockNumber 0 (rc_with_uncommittedBlock empty_block
                        (rc_with_fingerPrint (delete h (rc_fingerPrint c)) c)));;
     let n := m_number (rb_highestBlock (r_base e)) in
     swhen (rb_consensusBlockNumber (r_base e) ≤ n)
       (n' ← slift (add_i64 n 1); upd_base (rb_with_consensusBlockNumber n'));;
     resetConfig).

Definition shouldSeal : RM bool :=
  e ← sget;
  if decide (rv_state (r_votes e) ≠ EN_STATE_LEADER) then mret false
  else if decide (rb_cfgErr (r_base e) = true ∨ rb_accountType (r_base e) ≠ MinerAccount) then mret false
  else
    h ← highest_hash;
    let height := u256 (m_number (rb_highestBlock (r_base e))) in
    if decide (map_Exists (λ _ b, height < fst b) (r_memberBlock e)) then mret false
    else
      let count := 1 + Z.of_nat (size (filter (λ p, snd p = (height, h)) (r_memberBlock e))) in
      if decide (count < rb_nodeNum (r_base e) - rb_f (r_base e)) then mret false
      else mret (negb (header_bool (m_blockHeader (rc_uncommittedBlock (r_commit e))))).

(** [commit] up to the wait on [m_commitCV]. *)
Definition commit_begin (b : Block) : RM unit :=
  e ← sget;
  b ← slift (block_assign Block0 b);
  upd_commit (λ c, rc_with_uncommittedBlockNumber (rb_consensusBlockNumber (r_base e)) (rc_with_uncommittedBlock b c));;
  upd_commit (λ c, rc_with_commitReady false (rc_with_waiting true c)).

(** [commit] after the wait, which ends when [m_commitReady] holds. *)
Definition commit_end (b : Block) : RM bool :=
  upd_commit (λ c, rc_with_waiting false (rc_with_commitReady false c));;
  e ← sget;
  let c := r_commit e in
  if negb (header_bool (m_blockHeader (rc_uncommittedBlock c))) then
    sthrow_if (rc_uncommittedBlockNumber c ≠ 0) AssertFail;;
    mret false
  else
    upd_commit (λ c, rc_with_uncommittedBlockNumber 0 (rc_with_uncommittedBlock empty_block c));;
    e ← sget;
    if decide (rv_state (r_votes e) ≠ EN_STATE_LEADER) then mret false else checkAndExecute b.

Definition reachBlockIntervalTime : RM bool :=
  now ← utcTime;
  e ← sget;
  mret (bool_decide (c_intervalBlockTime ≤ u64 (now - rb_lastBlockTime (r_base e)))).

(** ** Messages *)

(** [isValidReq]: the index of the peer, if the message is acceptable. *)
Definition isValidReq (e : RaftEngine) (buffer nodeId : bytes) : option nat :=
  if decide (buffer = []) then None
  else
    match getIndexByMiner (rb_minerList (r_base e)) nodeId with
    | None => None
    | Some i =>
        let self := getMinerByIndex (rb_minerList (r_base e)) (rb_idx (r_base e)) in
        if decide (self = h512_0 ∨ nodeId = self) then None else Some i
    end.

Definition onRecvRaftMessage (buffer nodeId ep : bytes) : RM unit :=
  now ← utcTime;
  e ← sget;
  match isValidReq e buffer nodeId with
  | None => mret tt
  | Some i =>
      match raft_packet_decode (RaftMsgPacket_new now) buffer with
      | Throw x => if StateErr.catchable x then mret tt else sthrow x
      | Ok p =>
          now ← utcTime;
          let p := raft_setOtherField p (Z.of_nat i) nodeId ep now in
          swhen (rp_packetType p < RaftPacketCount)
            (smodify (λ e, r_with_msgQueue (r_msgQueue e ++ [p]) e))
      end
  end.

(** The answer to a vote request; [flag] and [term] are set last. *)
Definition vote_response (node : bytes) (m : RaftMsg) (flag lastLeaderTerm : Z) : RM unit :=
  sendResponse node RaftVoteRespPacket (voteResp_stream (MkVoteResp m flag lastLeaderTerm));; mret tt.

(** A leader that has at least the candidate's term only sets the flag of the
    answer and goes on with the checks below. *)
Definition handleVoteRequest (node : bytes) (req : RaftVoteReq) : RM bool :=
  m ← own_msg;
  e ← sget;
  let v := r_votes e in
  if decide (rm_term (vq_msg req) ≤ rv_term v ∧ rv_state v ≠ EN_STATE_LEADER) then
    vote_response node m (if decide (rm_term (vq_msg req) = rv_term v) then VOTE_RESP_DISCARD else VOTE_RESP_REJECT)
      (rv_lastLeaderTerm v);;
    mret false
  else if decide (vq_lastLeaderTerm req < rv_lastLeaderTerm v) then
    vote_response node m VOTE_RESP_LASTTERM_ERROR (rv_lastLeaderTerm v);; mret false
  else
    cur ← (if header_bool (m_blockHeader (rc_uncommittedBlock (r_commit e)))
           then slift (add_i64 (bc_number (r_world e)) 1) else mret (bc_number (r_world e)));
    if decide (vq_lastBlockNumber req < cur) then
      vote_response node m VOTE_RESP_OUTDATED (rv_lastLeaderTerm v);; mret false
    else if decide (rv_firstVote v = InvalidIndex) then
      upd_votes (rv_with_firstVote (vq_candidate req));;
      vote_response node m VOTE_RESP_FIRST_VOTE (rv_lastLeaderTerm v);; mret false
    else
      upd_votes (λ v, rv_with_vote InvalidIndex (rv_with_leader InvalidIndex (rv_with_term (rm_term (vq_msg req)) v)));;
      upd_votes (rv_with_firstVote (vq_candidate req));;
      setVote (vq_candidate req);;
      vote_response node (MkRaftMsg (rm_idx m) (rm_term (vq_msg req)) (rm_height m) (rm_blockHash m))
        VOTE_RESP_GRANTED (rv_lastLeaderTerm v);;
      resetElectTimeout;;
      mret true.

(** [m_term - 1] is computed in [size_t]. *)
Definition handleVoteResponse (resp : RaftVoteResp) (vs : VoteState) : RM (HandleVoteResult * VoteState) :=
  e ← sget;
  let flag := vr_voteFlag resp in
  if decide (rm_term (vr_msg resp) < u64 (rv_term (r_votes e) - 1)) then mret (NONE, vs)
  else if decide (flag = VOTE_RESP_REJECT) then
    let n := u64 (vs_unVote vs + 1) in
    let vs := MkVotes (vs_vote vs) n (vs_lastTermErr vs) (vs_firstVote vs) (vs_discardedVote vs) (vs_outdated vs) in
    if isMajorityVote e n then increaseElectTime;; mret (TO_FOLLOWER, vs) else mret (NONE, vs)
  else if decide (flag = VOTE_RESP_LEADER_REJECT) then
    upd_votes (λ v, rv_with_lastLeaderTerm (vr_lastLeaderTerm resp) (rv_with_term (rm_term (vr_msg resp)) v));;
    increaseElectTime;;
    mret (TO_FOLLOWER, vs)
  else if decide (flag = VOTE_RESP_LASTTERM_ERROR) then
    let n := u64 (vs_lastTermErr vs + 1) in
    let vs := MkVotes (vs_vote vs) (vs_unVote vs) n (vs_firstVote vs) (vs_discardedVote vs) (vs_outdated vs) in
    if isMajorityVote e n then increaseElectTime;; mret (TO_FOLLOWER, vs) else mret (NONE, vs)
  else if decide (flag = VOTE_RESP_FIRST_VOTE) then
    let n := u64 (vs_firstVote vs + 1) in
    let vs := MkVotes (vs_vote vs) (vs_unVote vs) (vs_lastTermErr vs) n (vs_discardedVote vs) (vs_outdated vs) in
    if isMajorityVote e n then
      upd_votes (λ v, rv_with_term (u64 (rv_term v - 1)) v);; mret (TO_FOLLOWER, vs)
    else mret (NONE, vs)
  else if decide (flag = VOTE_RESP_DISCARD) then
    mret (NONE, MkVotes (vs_vote vs) (vs_unVote vs) (vs_lastTermErr vs) (vs_firstVote vs)
                  (u64 (vs_discardedVote vs + 1)) (vs_outdated vs))
  else if decide (flag = VOTE_RESP_OUTDATED) then
    mret (NONE, MkVotes (vs_vote vs) (vs_unVote vs) (vs_lastTermErr vs) (vs_firstVote vs) (vs_discardedVote vs)
                  (u64 (vs_outdated vs + 1)))
  else if decide (flag = VOTE_RESP_GRANTED) then
    let n := u64 (vs_vote vs + 1) in
    let vs := MkVotes n (vs_unVote vs) (vs_lastTermErr vs) (vs_firstVote vs) (vs_discardedVote vs) (vs_outdated vs) in
    mret (if isMajorityVote e n then TO_LEADER else NONE, vs)
  else mret (NONE, vs).

(** The step down of [handleHeartbeat]: the three cases in order. *)
Definition step_down (term : Z) : RM unit := upd_votes (λ v, rv_with_vote InvalidIndex (rv_with_term term v)).

Definition handleHeartbeat (node : bytes) (hb : RaftHeartBeat) : RM bool :=
  let term := rm_term (hb_msg hb) in
  e ← sget;
  if decide (term < rv_term (r_votes e) ∧ term ≤ rv_lastLeaderTerm (r_votes e)) then mret false
  else
    m ← own_msg;
    ok ←
      (if hasData hb then
         n ← slift (add_i64 (hb_uncommitedBlockNumber hb) (-1));
         e ← sget;
         if decide (n = m_number (rb_highestBlock (r_base e))) then
           b ← slift (block_decode (hb_uncommitedBlock hb));
           b ← slift (block_assign Block0 b);
           '(h, b) ← slift (block_hash_of b);
           upd_commit (λ c, rc_with_uncommittedBlockNumber (hb_uncommitedBlockNumber hb) (rc_with_uncommittedBlock b c));;
           mret (Some h)
         else mret None
       else mret (Some h256_0));
    match ok with
    | None => mret false
    | Some h =>
        sendResponse node RaftHeartBeatRespPacket (heartBeatResp_stream (MkHeartBeatResp m h));;
        e ← sget;
        let d1 := bool_decide (rv_lastLeaderTerm (r_votes e) < term) in
        swhen (d1 = true) (step_down term);;
        e ← sget;
        let d2 := bool_decide (rv_term (r_votes e) < term) in
        swhen (d2 = true) (step_down term);;
        e ← sget;
        let d3 := bool_decide (rv_state (r_votes e) = EN_STATE_CANDIDATE ∧ rv_term (r_votes e) ≤ term) in
        swhen (d3 = true) (step_down term);;
        clearFirstVoteCache;;
        upd_votes (rv_with_lastLeaderTerm term);;
        resetElectTimeout;;
        mret (d1 || d2 || d3)
    end.

(** [m_msgQueue.tryPop]. *)
Definition tryPop : RM (option RaftMsgPacket) :=
  e ← sget;
  match r_msgQueue e with
  | [] => mret None
  | p :: q => smodify (r_with_msgQueue q);; mret (Some p)
  end.

(** ** The leader *)

(** The acknowledgements counted towards the heartbeat timeout. *)
Definition note_heartbeat (node : bytes) (resp : RaftHeartBeatResp) (log : gmap bytes Z) : RM (gmap bytes Z) :=
  smodify (λ e, r_with_memberBlock
    (<[node := (u256 (rm_height (hr_msg resp)), rm_blockHash (hr_msg resp))]> (r_memberBlock e)) e);;
  let log := <[node := match log !! node with None => 1 | Some n => u32 (n + 1) end]> log in
  e ← sget;
  let count := Z.of_nat (size (filter (λ p, 0 < snd p) log)) in
  if decide (rb_nodeNum (r_base e) - rb_f (r_base e) ≤ count + 1) then
    now ← now_ns;
    upd_timers (rt_with_lastHeartbeatReset now);;
    mret ((λ n, if decide (0 < n) then n - 1 else n) <$> log)
  else mret log.

(** A call made while [m_commitMutex] is held; unwinding releases it. *)
Definition holding_lock {A} (m : RM A) : RM A :=
  upd_commit (rc_with_locked true);;
  x ← stry m (λ x, upd_commit (rc_with_locked false);; sthrow x);
  upd_commit (rc_with_locked false);;
  mret x.

(** The acknowledgements counted towards the commit of [m_uncommittedBlock]. *)
Definition note_fingerprint (node : bytes) (resp : RaftHeartBeatResp) : RM unit :=
  e ← sget;
  let c := r_commit e in
  if negb (header_bool (m_blockHeader (rc_uncommittedBlock c))) then mret tt
  else if decide (rc_uncommittedBlockNumber c ≠ rb_consensusBlockNumber (r_base e)) then
    upd_commit (λ c, rc_with_uncommittedBlockNumber 0 (rc_with_uncommittedBlock empty_block c))
  else
    '(h, blk) ← slift (block_hash_of (rc_uncommittedBlock c));
    upd_commit (rc_with_uncommittedBlock blk);;
    if decide (hr_uncommitedBlockHash resp ≠ h) then mret tt
    else
      let nodes := {[node]} ∪ default ∅ (rc_fingerPrint c !! h) in
      upd_commit (λ c, rc_with_fingerPrint (<[h := nodes]> (rc_fingerPrint c)) c);;
      if decide (rb_nodeNum (r_base e) - rb_f (r_base e) ≤ Z.of_nat (size nodes) + 1) then
        if rc_waiting c then upd_commit (rc_with_commitReady true)
        else
          holding_lock (checkAndExecute blk);;
          reportBlock blk
      else mret tt.

Definition runAsLeaderImp (log : gmap bytes Z) : RM (bool * gmap bytes Z) :=
  e ← sget;
  if decide (rv_state (r_votes e) ≠ EN_STATE_LEADER) then mret (false, log)
  else
    timeout ← (if decide (1 < rb_nodeNum (r_base e)) then checkHeartbeatTimeout else mret false);
    if timeout : bool then switchToCandidate;; mret (false, log)
    else
      broadcastHeartbeat;;
      ret ← tryPop;
      match ret with
      | None => mret (true, log)
      | Some p =>
          if decide (rp_packetType p = RaftVoteReqPacket) then
            req ← slift (b ← packet_body (rp_data p); voteReq_populate b);
            g ← handleVoteRequest (rp_nodeId p) req;
            if g : bool then switchToFollower InvalidIndex;; mret (false, log) else mret (true, log)
          else if decide (rp_packetType p = RaftVoteRespPacket) then mret (true, log)
          else if decide (rp_packetType p = RaftHeartBeatPacket) then
            hb ← slift (b ← packet_body (rp_data p); heartBeat_populate b);
            d ← handleHeartbeat (rp_nodeId p) hb;
            if d : bool then switchToFollower (hb_leader hb);; mret (false, log) else mret (true, log)
          else if decide (rp_packetType p = RaftHeartBeatRespPacket) then
            resp ← slift (b ← packet_body (rp_data p); heartBeatResp_populate b);
            e ← sget;
            if decide (rm_term (hr_msg resp) ≠ rv_term (r_votes e)) then mret (true, log)
            else
              log ← note_heartbeat (rp_nodeId p) resp log;
              note_fingerprint (rp_nodeId p) resp;;
              mret (true, log)
          else mret (true, log)
      end.

Definition runAsLeader_start : RM unit :=
  upd_votes (λ v, rv_with_lastLeaderTerm (rv_term v) (rv_with_firstVote InvalidIndex v));;
  now ← now_ns;
  upd_timers (λ t, rt_with_lastHeartbeatReset now (rt_with_lastHeartbeatTime now t)).

(** ** The candidate *)

Definition runAsCandidateImp (vs : VoteState) : RM (bool * VoteState) :=
  timeout ← checkElectTimeout;
  if timeout : bool then
    e ← sget;
    (if isMajorityVote e (totalVoteCount vs) then switchToCandidate
     else
       increaseElectTime;;
       upd_votes (λ v, rv_with_term (u64 (rv_term v - 1)) v);;
       switchToFollower InvalidIndex);;
    mret (false, vs)
  else
    ret ← tryPop;
    match ret with
    | None => mret (true, vs)
    | Some p =>
        if decide (rp_packetType p = RaftVoteReqPacket) then
          req ← slift (b ← packet_body (rp_data p); voteReq_populate b);
          g ← handleVoteRequest (rp_nodeId p) req;
          if g : bool then switchToFollower InvalidIndex;; mret (false, vs) else mret (true, vs)
        else if decide (rp_packetType p = RaftVoteRespPacket) then
          resp ← slift (b ← packet_body (rp_data p); voteResp_populate b);
          '(r, vs) ← handleVoteResponse resp vs;
          match r with
          | TO_LEADER => switchToLeader;; mret (false, vs)
          | TO_FOLLOWER => switchToFollower InvalidIndex;; mret (false, vs)
          | NONE => mret (true, vs)
          end
        else if decide (rp_packetType p = RaftHeartBeatPacket) then
          hb ← slift (b ← packet_body (rp_data p); heartBeat_populate b);
          d ← handleHeartbeat (rp_nodeId p) hb;
          if d : bool then switchToFollower (hb_leader hb);; mret (false, vs) else mret (true, vs)
        else mret (true, vs)
    end.

(** [runAsCandidate] up to its loop: the votes to go on with, if it goes on. *)
Definition runAsCandidate_start : RM (option VoteState) :=
  e ← sget;
  if decide (rv_state (r_votes e) ≠ EN_STATE_CANDIDATE) then mret None
  else
    broadcastVoteReq;;
    let vs := MkVotes 1 0 0 0 0 0 in
    e ← sget;
    setVote (rb_idx (r_base e));;
    upd_votes (rv_with_firstVote (rb_idx (r_base e)));;
    if wonElection e (vs_vote vs) then switchToLeader;; mret None else mret (Some vs).

(** ** The follower *)

Definition runAsFollowerImp : RM bool :=
  e ← sget;
  if decide (rv_state (r_votes e) ≠ EN_STATE_FOLLOWER) then mret false
  else
    timeout ← checkElectTimeout;
    if timeout : bool then switchToCandidate;; mret false
    else
      ret ← tryPop;
      match ret with
      | None => mret true
      | Some p =>
          if decide (rp_packetType p = RaftVoteReqPacket) then
            req ← slift (b ← packet_body (rp_data p); voteReq_populate b);
            g ← handleVoteRequest (rp_nodeId p) req;
            mret (negb g)
          else if decide (rp_packetType p = RaftHeartBeatPacket) then
            hb ← slift (b ← packet_body (rp_data p); heartBeat_populate b);
            e ← sget;
            swhen (rv_leader (r_votes e) = Invalid256) (setLeader (hb_leader hb));;
            d ← handleHeartbeat (rp_nodeId p) hb;
            swhen (d = true) (setLeader (hb_leader hb));;
            mret true
          else mret true
      end.

(** ** The worker thread *)

Inductive position :=
  | AtLoop                              (* in [workLoop] *)
  | AsLeader (log : gmap bytes Z)       (* in [runAsLeader], with memberHeartbeatLog *)
  | AsFollower                          (* in [runAsFollower] *)
  | AsCandidate (vs : VoteState).       (* in [runAsCandidate], with voteState *)

(** One iteration of the innermost loop the thread is in. *)
Definition thread_step (p : position) : RM position :=
  match p with
  | AtLoop =>
      e ← sget;
      if decide (rb_cfgErr (r_base e) = true ∨ rb_accountType (r_base e) ≠ MinerAccount) then mret AtLoop
      else
        match rv_state (r_votes e) with
        | EN_STATE_LEADER => runAsLeader_start;; mret (AsLeader ∅)
        | EN_STATE_FOLLOWER => mret AsFollower
        | EN_STATE_CANDIDATE => vs ← runAsCandidate_start; mret (from_option AsCandidate AtLoop vs)
        end
  | AsLeader log => '(b, log) ← runAsLeaderImp log; mret (if b : bool then AsLeader log else AtLoop)
  | AsFollower => b ← runAsFollowerImp; mret (if b : bool then AsFollower else AtLoop)
  | AsCandidate vs => '(b, vs) ← runAsCandidateImp vs; mret (if b : bool then AsCandidate vs else AtLoop)
  end.
End engine.
