(* ===== verification/RaftMsgFacts.v ===== *)
(** * The Raft message codec

    A message written by [streamRLPFields], wrapped in a packet by
    [transDataToMessage] and read back by [onRecvRaftMessage] and the handler
    is the message sent, up to the 32-bit truncation of the numbers that
    [RLPStream::append(unsigned)] performs. *)

From S2P Require Import Prelude StateErr RLP RLPFacts RLPStreamFacts CodecFacts Hex Crypto PBFTMsg PBFTMsgFacts Transaction Block Engine PBFTEngine Table RaftMsg RaftEngine.

Local Open Scope Z_scope.

(** The field types. *)
Definition raft_ok (m : RaftMsg) : Prop :=
  0 ≤ rm_idx m < 2 ^ 256 ∧ 0 ≤ rm_term m < 2 ^ 64 ∧ - 2 ^ 63 ≤ rm_height m < 2 ^ 63 ∧
  hash_ok h256_size (rm_blockHash m).

Definition raft_items (m : RaftMsg) : list bytes :=
  [enc_data (minimal (rm_idx m)); enc_data (minimal (u32 (rm_term m)));
   enc_data (minimal (u32 (rm_height m))); enc_data (rm_blockHash m)].

(** What travels of a message. *)
Definition raft_trunc (m : RaftMsg) : RaftMsg :=
  MkRaftMsg (rm_idx m) (u32 (rm_term m)) (u32 (rm_height m)) (rm_blockHash m).

(** A message of type [packetType] from the sender's fields to the receiver's
    members. *)
Definition over_wire {A} (fields : RLPStream → res RLPStream) (packetType : Z) (populate : bytes → res A) : res (Z * A) :=
  s ← fields RLPStream0;
  d ← out s;
  buffer ← RaftEngine.transDataToMessage d packetType;
  p ← raft_packet_decode (RaftMsgPacket_new 0) buffer;
  b ← packet_body (rp_data p);
  m ← populate b;
  Ok (rp_packetType p, m).

(** ** The packet *)

Lemma enc_small_type t : 0 ≤ t < 128 → ∃ c, enc_data (minimal t) = [c].
Proof.
  intros Ht. assert (∃ n : nat, (n < 128)%nat ∧ t = Z.of_nat n) as (n & Hn & ->) by (exists (Z.to_nat t); lia).
  clear Ht. do 128 (destruct n as [|n]; [eexists; vm_compute; reflexivity|]). lia.
Qed.

Lemma packet_roundtrip p0 t d :
  0 ≤ t < 128 → bytes_ok d → len d < 2 ^ 62 →
  ∃ buffer, raft_packet_encode (MkRaftPacket 0 h512_0 t d 0 []) = Ok buffer ∧
    raft_packet_decode p0 buffer = Ok (MkRaftPacket (rp_nodeIdx p0) (rp_nodeId p0) t d (rp_timestamp p0) (rp_endpoint p0)).
Proof.
  intros Ht Hd Hl. destruct (enc_small_type t Ht) as [c Hc]. exists ([c] ++ enc_data d). split.
  - unfold raft_packet_encode. cbn [rp_packetType rp_data]. rewrite append_unsigned_enc, u32_small, Hc by lia.
    unfold RLPStream0. rewrite add_item_top, bind_ok, append_bytes_enc by lia. by rewrite add_item_top.
  - pose proof (len_enc_data_le d). pose proof (len_nonneg (enc_data d)).
    unfold raft_packet_decode.
    assert (cropped ([c] ++ enc_data d) 0 1 = [c]) as -> by (apply (cropped_mid [] [c] (enc_data d) 1); [done|len_lia]).
    rewrite <- Hc. destruct (reads_some_minimal t) as [q R]; [lia|].
    rewrite (reads_RLP_new _ _ R), bind_ok, toInt_enc_minimal, bind_ok by (lia || (intros; apply u32_small; lia)).
    rewrite Hc. change 1 with (len [c]). rewrite cropped_from_app.
    rewrite (reads_RLP_new _ _ (reads_data d Hd ltac:(lia))), bind_ok, toBytes_enc_data, bind_ok by (done || lia).
    by rewrite u8_small by lia.
Qed.

Lemma over_wire_items {A} fields t (populate : bytes → res A) es :
  fields RLPStream0 = add_items es RLPStream0 → Forall bytes_ok es → len (concat es) < 2 ^ 61 → 0 ≤ t < 128 →
  over_wire fields t populate = (m ← populate (enc_data (concat es)); Ok (t, m)) ∧
  payload (enc_data (concat es)) = Ok (concat es).
Proof.
  intros Hf Hok Hl Ht. pose proof (wrap_fields_enc fields es Hf ltac:(lia)) as Hw.
  pose proof (len_enc_data_le (concat es)) as Hle. pose proof (concat_ok es Hok) as Hc.
  assert (len (enc_list (enc_data (concat es))) < 2 ^ 62) as Hle'.
  { pose proof (len_enc_list_le (enc_data (concat es))). lia. }
  destruct (packet_roundtrip (RaftMsgPacket_new 0) t (enc_list (enc_data (concat es)))) as (buffer & Eb & Ed); [done| |done|].
  { apply enc_list_ok; [apply enc_data_ok|]; done || lia. }
  destruct (decode_wrapped es (λ r, Ok r) Hok ltac:(lia)) as [Hd Hp]. split; [|done].
  unfold wrap_fields in Hw. unfold over_wire, RaftEngine.transDataToMessage.
  destruct (fields RLPStream0) as [s|]; [|done]. rewrite bind_ok in Hw. rewrite bind_ok.
  destruct (out s) as [d|]; [|done]. rewrite bind_ok in Hw. rewrite bind_ok.
  destruct (appendList RLPStream0 1) as [s1|]; [|done]. rewrite bind_ok in Hw. rewrite bind_ok.
  destruct (append_bytes s1 d false) as [s2|]; [|done]. rewrite bind_ok in Hw. rewrite !bind_ok, Hw, bind_ok.
  rewrite Eb, bind_ok, Ed, bind_ok. cbn [rp_data rp_packetType]. unfold packet_body.
  destruct (RLP_new _ VeryStrict) as [r|]; [|done]. rewrite bind_ok in Hd. rewrite bind_ok.
  destruct (rlp_index r rlp_cache0 0) as [[x c]|]; [|done]. cbn in Hd. injection Hd as ->. done.
Qed.

(** ** The common members *)

Lemma raft_stream_items m s : raft_ok m → raft_stream m s = add_items (raft_items m) s.
Proof.
  intros (Hi & Ht & Hh & [Hb1 Hb2]). unfold h256_size in *. unfold raft_stream, raft_items. stream_steps.
Qed.

(** Items that can be read back, of a bounded size. *)
Definition item_ok (e : bytes) : Prop := bytes_ok e ∧ reads_some e ∧ len e ≤ 100.

Lemma item_number i : 0 ≤ i < 2 ^ 256 → item_ok (enc_data (minimal i)).
Proof.
  intros Hi. pose proof (len_enc_minimal_le i Hi).
  split_and!; [apply enc_minimal_ok; lia|apply reads_some_minimal; lia|lia].
Qed.
Lemma item_u32 i : item_ok (enc_data (minimal (u32 i))).
Proof. apply item_number. pose proof (u32_range i). lia. Qed.
Lemma item_hash h : hash_ok h256_size h → item_ok (enc_data h).
Proof.
  intros [Hb Hl]. unfold h256_size in *. pose proof (len_enc_data_le h).
  split_and!; [apply enc_data_ok; [done|lia]|apply reads_some_data; [done|lia]|lia].
Qed.

Lemma raft_items_ok m : raft_ok m → Forall item_ok (raft_items m).
Proof. intros (Hi & Ht & Hh & Hb). repeat apply Forall_cons_2; auto using item_number, item_u32, item_hash, Forall_nil_2. Qed.

Lemma items_bounds es :
  Forall item_ok es → Forall bytes_ok es ∧ Forall reads_some es ∧ len (concat es) ≤ 100 * Z.of_nat (length es).
Proof.
  intros He. split_and!; [..|apply len_concat_le]; (eapply Forall_impl; [|exact He]; by intros e (? & ? & ?)).
Qed.

Lemma raft_populate_items d m more :
  raft_ok m → payload d = Ok (concat (raft_items m ++ more)) → Forall reads_some more →
  len (concat (raft_items m ++ more)) < 2 ^ 63 →
  raft_populate d = Ok (raft_trunc m, pos_cache (raft_items m ++ more) 3).
Proof.
  intros Hm Hp Hmore Hl. destruct (items_bounds _ (raft_items_ok m Hm)) as (_ & Hr & _).
  assert (Forall reads_some (raft_items m ++ more)) as Hes by (by apply Forall_app).
  pose proof (rlp_index_field d _ Hp Hes Hl) as H. clear Hp Hes Hl.
  destruct Hm as (Hi & Ht & Hh & [Hb1 Hb2]). pose proof (u32_range (rm_term m)). pose proof (u32_range (rm_height m)).
  unfold raft_populate. unfold h256_size in *.
  read_field H 0. rewrite toInt_u256_enc, bind_ok by lia.
  read_field H 1. rewrite toInt_u64_enc, bind_ok by lia.
  read_field H 2. rewrite toInt_i64_enc, bind_ok by lia.
  read_field H 3. by rewrite toHash_enc_data, bind_ok by (done || lia).
Qed.

(** Reading goes on after the common members. *)
Lemma raft_populate_more d m more :
  raft_ok m → Forall reads_some more → len (concat more) < 2 ^ 62 →
  payload d = Ok (concat (raft_items m ++ more)) →
  let es := raft_items m ++ more in
  raft_populate d = Ok (raft_trunc m, pos_cache es 3) ∧ cache_at es (pos_cache es 3) ∧
  ∀ j e c, es !! j = Some e → cache_at es c → Z.of_nat j < UINT64_MAX →
    rlp_index d c (Z.of_nat j) = Ok (e, pos_cache es j) ∧ cache_at es (pos_cache es j).
Proof.
  intros Hm Hr Hl Hp es. destruct (items_bounds _ (raft_items_ok m Hm)) as (_ & Hr' & Hl').
  assert (len (concat es) < 2 ^ 63) as Hle.
  { unfold es. rewrite concat_app, len_app. change (length (raft_items m)) with 4%nat in Hl'. lia. }
  rewrite (raft_populate_items d m more) by done. split_and!; [done| |].
  - apply cache_at_pos. unfold es. rewrite length_app. simpl. lia.
  - apply rlp_index_field; [done|by apply Forall_app|done].
Qed.

(** ** The messages *)

Definition voteReq_ok (m : RaftVoteReq) : Prop := raft_ok (vq_msg m) ∧ 0 ≤ vq_candidate m < 2 ^ 256.
Definition voteReq_trunc (m : RaftVoteReq) : RaftVoteReq :=
  MkVoteReq (raft_trunc (vq_msg m)) (vq_candidate m) (u32 (vq_lastLeaderTerm m)) (u32 (vq_lastBlockNumber m)).
Definition voteResp_ok (m : RaftVoteResp) : Prop := raft_ok (vr_msg m) ∧ 0 ≤ vr_voteFlag m < 2 ^ 8.
Definition voteResp_trunc (m : RaftVoteResp) : RaftVoteResp :=
  MkVoteResp (raft_trunc (vr_msg m)) (vr_voteFlag m) (u32 (vr_lastLeaderTerm m)).
Definition heartBeat_ok (m : RaftHeartBeat) : Prop :=
  raft_ok (hb_msg m) ∧ 0 ≤ hb_leader m < 2 ^ 256 ∧ bytes_ok (hb_uncommitedBlock m) ∧ len (hb_uncommitedBlock m) < 2 ^ 60.
Definition heartBeat_trunc (m : RaftHeartBeat) : RaftHeartBeat :=
  MkHeartBeat (raft_trunc (hb_msg m)) (hb_leader m) (hb_uncommitedBlock m) (u32 (hb_uncommitedBlockNumber m)).
Definition heartBeatResp_ok (m : RaftHeartBeatResp) : Prop :=
  raft_ok (hr_msg m) ∧ hash_ok h256_size (hr_uncommitedBlockHash m).
Definition heartBeatResp_trunc (m : RaftHeartBeatResp) : RaftHeartBeatResp :=
  MkHeartBeatResp (raft_trunc (hr_msg m)) (hr_uncommitedBlockHash m).

(** The shape of the four proofs: [more] are the items after the common ones. *)
Lemma over_wire_message {A} m more fields t (populate : bytes → res A) x :
  raft_ok m → (∀ s, fields s = (s ← raft_stream m s; add_items more s)) → Forall bytes_ok more →
  len (concat more) + 1000 < 2 ^ 61 → 0 ≤ t < 128 →
  (∀ d, payload d = Ok (concat (raft_items m ++ more)) → populate d = Ok x) →
  over_wire fields t populate = Ok (t, x).
Proof.
  intros Hm Hf Hok Hl Ht Hx. destruct (items_bounds _ (raft_items_ok m Hm)) as (Hok' & _ & Hl').
  change (length (raft_items m)) with 4%nat in Hl'.
  destruct (over_wire_items fields t populate (raft_items m ++ more)) as [-> Hp]; [| | |done|].
  - by rewrite Hf, raft_stream_items, add_items_app.
  - by apply Forall_app.
  - rewrite concat_app, len_app. lia.
  - by rewrite (Hx _ Hp), bind_ok.
Qed.

Lemma voteReq_wire m : voteReq_ok m →
  over_wire (voteReq_stream m) RaftVoteReqPacket voteReq_populate = Ok (RaftVoteReqPacket, voteReq_trunc m).
Proof.
  intros [Hm Hc].
  set (more := [enc_data (minimal (vq_candidate m)); enc_data (minimal (u32 (vq_lastLeaderTerm m)));
                enc_data (minimal (u32 (vq_lastBlockNumber m)))]).
  assert (Forall item_ok more) as Hi by (repeat apply Forall_cons_2; auto using item_number, item_u32, Forall_nil_2).
  destruct (items_bounds _ Hi) as (Hb & Hr & Hl). change (length more) with 3%nat in Hl.
  apply (over_wire_message (vq_msg m) more); [done| |done|lia|done|].
  - intros s. unfold voteReq_stream. destruct (raft_stream _ s); [|done]. rewrite !bind_ok. unfold more. stream_steps.
  - intros d Hp. unfold voteReq_populate.
    destruct (raft_populate_more d (vq_msg m) more) as (-> & Hc0 & H); [done..|lia|done|]. rewrite bind_ok. cbv beta iota.
    pose proof (u32_range (vq_lastLeaderTerm m)). pose proof (u32_range (vq_lastBlockNumber m)).
    read_field H 4. rewrite toInt_u256_enc, bind_ok by lia.
    read_field H 5. rewrite toInt_u64_enc, bind_ok by lia.
    read_field H 6. by rewrite toInt_i64_enc, bind_ok by lia.
Qed.

Lemma voteResp_wire m : voteResp_ok m →
  over_wire (voteResp_stream m) RaftVoteRespPacket voteResp_populate = Ok (RaftVoteRespPacket, voteResp_trunc m).
Proof.
  intros [Hm Hc].
  set (more := [enc_data (minimal (vr_voteFlag m)); enc_data (minimal (u32 (vr_lastLeaderTerm m)))]).
  assert (Forall item_ok more) as Hi.
  { repeat apply Forall_cons_2; auto using item_u32, Forall_nil_2. apply item_number. lia. }
  destruct (items_bounds _ Hi) as (Hb & Hr & Hl). change (length more) with 2%nat in Hl.
  apply (over_wire_message (vr_msg m) more); [done| |done|lia|done|].
  - intros s. unfold voteResp_stream. destruct (raft_stream _ s); [|done]. rewrite !bind_ok. unfold more. stream_steps.
  - intros d Hp. unfold voteResp_populate.
    destruct (raft_populate_more d (vr_msg m) more) as (-> & Hc0 & H); [done..|lia|done|]. rewrite bind_ok. cbv beta iota.
    pose proof (u32_range (vr_lastLeaderTerm m)).
    read_field H 4. rewrite toInt_u8_enc, bind_ok by lia.
    read_field H 5. by rewrite toInt_u64_enc, bind_ok by lia.
Qed.

Lemma heartBeat_wire m : heartBeat_ok m →
  over_wire (heartBeat_stream m) RaftHeartBeatPacket heartBeat_populate = Ok (RaftHeartBeatPacket, heartBeat_trunc m).
Proof.
  intros (Hm & Hc & Hbb & Hbl).
  set (more := [enc_data (minimal (hb_leader m)); enc_data (hb_uncommitedBlock m);
                enc_data (minimal (u32 (hb_uncommitedBlockNumber m)))]).
  destruct (item_number _ Hc) as (I1 & I2 & I3). destruct (item_u32 (hb_uncommitedBlockNumber m)) as (I4 & I5 & I6).
  pose proof (len_enc_data_le (hb_uncommitedBlock m)) as Hle.
  assert (Forall bytes_ok more) as Hb by (repeat apply Forall_cons_2; auto using Forall_nil_2; apply enc_data_ok; [done|lia]).
  assert (Forall reads_some more) as Hr by (repeat apply Forall_cons_2; auto using Forall_nil_2; apply reads_some_data; [done|lia]).
  assert (len (concat more) + 1000 < 2 ^ 61) as Hl by (unfold more; cbn [concat]; rewrite !len_app, len_nil; lia).
  apply (over_wire_message (hb_msg m) more); [done| |done|done|done|].
  - intros s. unfold heartBeat_stream. destruct (raft_stream _ s); [|done]. rewrite !bind_ok. unfold more. stream_steps.
  - intros d Hp. unfold heartBeat_populate.
    destruct (raft_populate_more d (hb_msg m) more) as (-> & Hc0 & H); [done..|lia|done|]. rewrite bind_ok. cbv beta iota.
    pose proof (u32_range (hb_uncommitedBlockNumber m)).
    read_field H 4. rewrite toInt_u256_enc, bind_ok by lia.
    read_field H 5. rewrite toBytes_enc_data, bind_ok by (done || lia).
    read_field H 6. by rewrite toInt_i64_enc, bind_ok by lia.
Qed.

Lemma heartBeatResp_wire m : heartBeatResp_ok m →
  over_wire (heartBeatResp_stream m) RaftHeartBeatRespPacket heartBeatResp_populate
    = Ok (RaftHeartBeatRespPacket, heartBeatResp_trunc m).
Proof.
  intros [Hm Hc]. set (more := [enc_data (hr_uncommitedBlockHash m)]).
  assert (Forall item_ok more) as Hi by (repeat apply Forall_cons_2; auto using item_hash, Forall_nil_2).
  destruct (items_bounds _ Hi) as (Hb & Hr & Hl). change (length more) with 1%nat in Hl.
  destruct Hc as [Hc1 Hc2]. unfold h256_size in *.
  apply (over_wire_message (hr_msg m) more); [done| |done|lia|done|].
  - intros s. unfold heartBeatResp_stream. destruct (raft_stream _ s); [|done]. rewrite !bind_ok. unfold more. stream_steps.
  - intros d Hp. unfold heartBeatResp_populate.
    destruct (raft_populate_more d (hr_msg m) more) as (-> & Hc0 & H); [done..|lia|done|]. rewrite bind_ok. cbv beta iota.
    read_field H 4. by rewrite toHash_enc_data, bind_ok by (done || lia).
Qed.

(** ** The property *)

(** C39. Every Raft message arrives as it was sent, with the packet type that
    selects its handler, except that terms, heights and block numbers are
    reduced modulo 2^32. *)
Theorem raft_wire_codec q r h a :
  voteReq_ok q → voteResp_ok r → heartBeat_ok h → heartBeatResp_ok a →
  over_wire (voteReq_stream q) RaftVoteReqPacket voteReq_populate = Ok (RaftVoteReqPacket, voteReq_trunc q) ∧
  over_wire (voteResp_stream r) RaftVoteRespPacket voteResp_populate = Ok (RaftVoteRespPacket, voteResp_trunc r) ∧
  over_wire (heartBeat_stream h) RaftHeartBeatPacket heartBeat_populate = Ok (RaftHeartBeatPacket, heartBeat_trunc h) ∧
  over_wire (heartBeatResp_stream a) RaftHeartBeatRespPacket heartBeatResp_populate
    = Ok (RaftHeartBeatRespPacket, heartBeatResp_trunc a).
Proof. intros. split_and!; auto using voteReq_wire, voteResp_wire, heartBeat_wire, heartBeatResp_wire. Qed.

Lemma raft_wire_codec_witness :
  let m := MkRaftMsg 3 (2 ^ 32 + 5) 7 h256_0 in
  over_wire (voteReq_stream (MkVoteReq m 3 2 8)) RaftVoteReqPacket voteReq_populate
    = Ok (RaftVoteReqPacket, MkVoteReq (MkRaftMsg 3 5 7 h256_0) 3 2 8).
Proof.
  assert (hash_ok h256_size h256_0) as Hz by (by apply zero_hash_ok).
  assert (raft_ok (MkRaftMsg 3 (2 ^ 32 + 5) 7 h256_0)) as Hm by (split_and!; [cbn; lia..|exact Hz]).
  apply (raft_wire_codec (MkVoteReq (MkRaftMsg 3 (2 ^ 32 + 5) 7 h256_0) 3 2 8) (MkVoteResp (MkRaftMsg 3 (2 ^ 32 + 5) 7 h256_0) 6 0)
           (MkHeartBeat (MkRaftMsg 3 (2 ^ 32 + 5) 7 h256_0) 0 [] 0) (MkHeartBeatResp (MkRaftMsg 3 (2 ^ 32 + 5) 7 h256_0) h256_0)).
  - split; [exact Hm|cbn; lia].
  - split; [exact Hm|cbn; lia].
  - split; [exact Hm|]. cbn. split; [lia|]. split; [apply Forall_nil_2|done].
  - split; [exact Hm|exact Hz].
Defined.
