(* ===== verification/RaftFacts.v ===== *)
(** * The Raft engine: what every method leaves alone

    Almost all methods neither consume messages, commit blocks, add
    acknowledgements nor make the node leader; they keep the bounds of the
    timers and the size of a majority. [background] is that relation between
    the states before and after, a preorder; the few methods that do one of
    these things are treated by themselves. *)

From S2P Require Import Prelude StateErr RLP Hex Crypto PBFTMsg Transaction Block Engine PBFTEngine Table RaftMsg RaftEngine.

Local Open Scope Z_scope.

(** ** Bounds *)

Record timers_ok (t : RaftTimers) : Prop := {
  to_init : 0 ≤ rt_minElectTimeoutInit t ≤ rt_maxElectTimeoutInit t;
  to_boundary : rt_maxElectTimeoutInit t ≤ rt_maxElectTimeoutBoundary t;
  to_width : 100 * rt_maxElectTimeoutBoundary t < 2 ^ 32;
  to_increase : 0 ≤ rt_increaseTime t ≤ rt_maxElectTimeoutBoundary t;
  to_min : rt_minElectTimeoutInit t ≤ rt_minElectTimeout t;
  to_order : rt_minElectTimeout t ≤ rt_maxElectTimeout t;
  to_max : rt_maxElectTimeout t ≤ rt_maxElectTimeoutBoundary t;
  to_timeout : rt_minElectTimeoutInit t ≤ rt_electTimeout t ≤ rt_maxElectTimeoutBoundary t;
}.

(** A majority of the miners is more than half of them. *)
Definition majority_ok (b : RaftBase) : Prop :=
  0 ≤ rb_nodeNum b ∧ 0 ≤ rb_f b ∧ (0 < rb_nodeNum b → rb_nodeNum b < 2 * (rb_nodeNum b - rb_f b)).

(** The blocks handed to the chain. *)
Definition committed {E : NodeEnv} (e : RaftEngine) : list Block :=
  omap (λ ev, match ev with EvCommit b _ _ => Some b | _ => None end) (r_events e).

Section facts.
Context `{Crypto, NodeEnv, Text, Random, !RandomLaws}.
Abbreviation RM := (SM RaftEngine).

Record background (s s' : RaftEngine) : Prop := {
  bg_queue : r_msgQueue s' = r_msgQueue s;
  bg_commits : committed s' = committed s;
  bg_acks h nodes : rc_fingerPrint (r_commit s') !! h = Some nodes → rc_fingerPrint (r_commit s) !! h = Some nodes;
  bg_role : rv_state (r_votes s') = EN_STATE_LEADER → rv_state (r_votes s) = EN_STATE_LEADER;
  bg_timers : timers_ok (r_timers s) → timers_ok (r_timers s');
  bg_majority : majority_ok (r_base s) → majority_ok (r_base s');
}.

#[export] Instance background_preorder : PreOrder background.
Proof.
  split; [by split|]. intros s1 s2 s3 [] []. split; try congruence; eauto.
Qed.

(** A method in the background, from any state reached in the background. *)
Definition quiet {A} (m : RM A) : Prop := ∀ s0, keeps (background s0) m.

Lemma quiet_run {A} (m : RM A) s : quiet m → background s (snd (m s)).
Proof. intros Hm. by apply Hm. Qed.

Lemma quiet_modify f : (∀ s, background s (f s)) → quiet (smodify f).
Proof. intros Hf s0. apply keeps_modify. intros s Hs. etrans; [exact Hs|apply Hf]. Qed.

Lemma quiet_base f : (∀ b, majority_ok b → majority_ok (f b)) → quiet (upd_base f).
Proof. intros Hf. apply quiet_modify. intros s. split; try done. apply Hf. Qed.
Lemma quiet_timers f : (∀ t, timers_ok t → timers_ok (f t)) → quiet (upd_timers f).
Proof. intros Hf. apply quiet_modify. intros s. split; try done. apply Hf. Qed.
Lemma quiet_votes f : (∀ v, rv_state (f v) = EN_STATE_LEADER → rv_state v = EN_STATE_LEADER) → quiet (upd_votes f).
Proof. intros Hf. apply quiet_modify. intros s. split; try done. apply Hf. Qed.
Lemma quiet_commit f :
  (∀ c h nodes, rc_fingerPrint (f c) !! h = Some nodes → rc_fingerPrint c !! h = Some nodes) →
  quiet (upd_commit f).
Proof. intros Hf. apply quiet_modify. intros s. specialize (Hf (r_commit s)). by split. Qed.
End facts.

(** Symbolic execution of background methods. *)
Create HintDb quiet discriminated.
Ltac quiet_side :=
  first [ done
        | by intros ? [] ].
Ltac quiet_leaf :=
  lazymatch goal with
  | |- keeps _ (upd_base _) => apply quiet_base; try quiet_side
  | |- keeps _ (upd_timers _) => apply quiet_timers; try (intros ? []; by split)
  | |- keeps _ (upd_votes _) => apply quiet_votes; try quiet_side
  | |- keeps _ (upd_commit _) => apply quiet_commit; try quiet_side
  | |- keeps _ (emit _) => apply quiet_modify; intros; by split
  | |- keeps _ now_ns => intros ? ?; etrans; [eassumption|by split]
  | |- keeps _ rand_next => intros ? ?; etrans; [eassumption|by split]
  | |- keeps _ (smodify _) => apply quiet_modify; intros; by split
  end.
Ltac quiet_call :=
  lazymatch goal with |- keeps (background ?s) ?m => refine ((_ : quiet m) s); eauto with quiet nocore end.
Ltac quiet_auto :=
  intros ?; repeat first [ solve [eauto with keeps nocore] | solve [quiet_call] | progress quiet_leaf | keeps_step ].

Section methods.
Context `{Crypto, NodeEnv, Text, Random, !RandomLaws}.
Abbreviation RM := (SM RaftEngine).

Lemma quiet_utcTime : quiet utcTime.
Proof. unfold utcTime. quiet_auto. Qed.
#[local] Hint Resolve quiet_utcTime : quiet.

Lemma elect_timeout_range t r :
  timers_ok t → 0 ≤ r →
  let x := u32 (rt_minElectTimeout t + u32 ((r `rem` 100) * u32 (rt_maxElectTimeout t - rt_minElectTimeout t)) / 100) in
  rt_minElectTimeout t ≤ x ≤ rt_maxElectTimeout t.
Proof.
  intros [? ? ? ? ? ? ? ?] Hr. set (d := rt_maxElectTimeout t - rt_minElectTimeout t).
  pose proof (Z.rem_bound_pos r 100 Hr ltac:(lia)) as Hm. set (k := r `rem` 100) in *.
  assert (0 ≤ d) by (subst d; lia). assert (100 * d < 2 ^ 32) by (subst d; lia).
  assert (0 ≤ k * d ≤ 99 * d) by nia.
  cbv zeta. rewrite (u32_small d) by lia. rewrite (u32_small (k * d)) by lia.
  assert (0 ≤ k * d / 100 ≤ d) by (split; [apply Z.div_pos; lia|apply Z.div_le_upper_bound; lia]).
  rewrite u32_small by (subst d; lia). subst d. lia.
Qed.

Lemma quiet_resetElectTimeout : quiet resetElectTimeout.
Proof.
  intros s0 s Hs. etrans; [exact Hs|]. split; try done. intros Ht.
  pose proof (elect_timeout_range _ (rand (r_rands s)) Ht (rand_nonneg _)) as Hr. cbv zeta in Hr.
  match type of Hr with _ ≤ ?x ≤ _ =>
    change (timers_ok (rt_with_lastElectTime (clock (r_tick s)) (rt_with_electTimeout x (r_timers s)))); set (y := x) in * end.
  destruct Ht as [? ? ? ? ? ? ? ?]. split; cbn; lia.
Qed.

Lemma quiet_recoverElectTime : quiet recoverElectTime.
Proof. unfold recoverElectTime. intros s0. apply quiet_timers. intros t [? ? ? ? ? ? ? ?]. split; cbn; lia. Qed.

Lemma quiet_increaseElectTime : quiet increaseElectTime.
Proof.
  unfold increaseElectTime. intros s0. apply quiet_timers. intros t [? ? ? ? ? ? ? ?].
  case_decide as Hd; [split; cbn; lia|]. rewrite u32_small in Hd by lia.
  split; cbn; rewrite ?u32_small by lia; lia.
Qed.
#[local] Hint Resolve quiet_resetElectTimeout quiet_recoverElectTime quiet_increaseElectTime : quiet.

Lemma quiet_checkHeartbeatTimeout : quiet checkHeartbeatTimeout.
Proof. unfold checkHeartbeatTimeout. quiet_auto. Qed.
Lemma quiet_checkElectTimeout : quiet checkElectTimeout.
Proof. unfold checkElectTimeout. quiet_auto. Qed.
Lemma quiet_switchToFollower l : quiet (switchToFollower l).
Proof. unfold switchToFollower. quiet_auto. Qed.
Lemma quiet_switchToCandidate : quiet switchToCandidate.
Proof. unfold switchToCandidate. quiet_auto. Qed.
Lemma quiet_setLeader l : quiet (setLeader l).
Proof. unfold setLeader. quiet_auto. Qed.
Lemma quiet_setVote l : quiet (setVote l).
Proof. unfold setVote. quiet_auto. Qed.
Lemma quiet_clearFirstVoteCache : quiet clearFirstVoteCache.
Proof. unfold clearFirstVoteCache. quiet_auto. Qed.
Lemma quiet_highest_hash : quiet highest_hash.
Proof. unfold highest_hash. quiet_auto. Qed.
#[local] Hint Resolve quiet_checkHeartbeatTimeout quiet_checkElectTimeout quiet_switchToFollower quiet_switchToCandidate
  quiet_setLeader quiet_setVote quiet_clearFirstVoteCache quiet_highest_hash : quiet.

Lemma quiet_updateMinerList : quiet updateMinerList.
Proof. unfold updateMinerList. quiet_auto. Qed.
#[local] Hint Resolve quiet_updateMinerList : quiet.

Lemma majority_of_miners b n :
  majority_ok b → majority_ok (rb_with_f (u16 ((u16 n - 1) `quot` 2)) (rb_with_nodeNum (u16 n) b)).
Proof.
  intros _. unfold majority_ok. cbn -[u16]. pose proof (Z.mod_pos_bound n (2 ^ 16) ltac:(lia)) as Hn.
  pose proof (Z.mod_pos_bound ((u16 n - 1) `quot` 2) (2 ^ 16) ltac:(lia)) as Hf. fold (u16 n) (u16 ((u16 n - 1) `quot` 2)) in Hn, Hf.
  split; [lia|]. split; [lia|]. intros Hp. assert (0 ≤ (u16 n - 1) `quot` 2 ≤ u16 n - 1) as Hq.
  { rewrite Z.quot_div_nonneg by lia. split; [apply Z.div_pos; lia|apply Z.div_le_upper_bound; lia]. }
  unfold u16 at 3. rewrite Z.mod_small by lia. rewrite Z.quot_div_nonneg by lia.
  pose proof (Z.mul_div_le (u16 n - 1) 2). lia.
Qed.

Lemma quiet_resetConfig : quiet resetConfig.
Proof.
  unfold resetConfig. intros s0. apply keeps_bind; [apply quiet_updateMinerList|]. intros _.
  apply keeps_bind; [eauto with keeps|]. intros e. cbv zeta. case_decide; [apply quiet_base; quiet_side|].
  destruct (getIndexByMiner _ _) as [i|]; [|apply quiet_base; quiet_side].
  apply keeps_bind; [apply quiet_base; quiet_side|]. intros _. apply keeps_bind; [|intros _; revert s0; quiet_auto].
  apply keeps_when. intros _ s Hs. etrans; [exact Hs|]. split; try done.
  apply (majority_of_miners (rb_with_idx _ (r_base s))).
Qed.
#[local] Hint Resolve quiet_resetConfig : quiet.

Lemma quiet_appendMiner m : quiet (appendMiner m).
Proof. unfold appendMiner. quiet_auto. Qed.
Lemma quiet_make_message f t : quiet (make_message f t).
Proof. unfold make_message. quiet_auto. Qed.
Lemma quiet_broadcastMsg m : quiet (broadcastMsg m).
Proof. unfold broadcastMsg. quiet_auto. Qed.
Lemma quiet_sendResponse n t f : quiet (sendResponse n t f).
Proof. unfold sendResponse. quiet_auto. Qed.
Lemma quiet_own_msg : quiet own_msg.
Proof. unfold own_msg. quiet_auto. Qed.
#[local] Hint Resolve quiet_make_message quiet_broadcastMsg quiet_sendResponse quiet_own_msg : quiet.

Lemma quiet_generateHeartbeat : quiet generateHeartbeat.
Proof. unfold generateHeartbeat. quiet_auto. Qed.
#[local] Hint Resolve quiet_generateHeartbeat : quiet.
Lemma quiet_broadcastHeartbeat : quiet broadcastHeartbeat.
Proof. unfold broadcastHeartbeat. quiet_auto. Qed.
Lemma quiet_generateVoteReq : quiet generateVoteReq.
Proof. unfold generateVoteReq. quiet_auto. Qed.
#[local] Hint Resolve quiet_broadcastHeartbeat quiet_generateVoteReq : quiet.
Lemma quiet_broadcastVoteReq : quiet broadcastVoteReq.
Proof. unfold broadcastVoteReq. quiet_auto. Qed.
Lemma quiet_checkBlockValid b : quiet (checkBlockValid b).
Proof. unfold checkBlockValid, checkBlockValid_base, checkMinerList. quiet_auto. Qed.
Lemma quiet_executeBlock b : quiet (executeBlock b).
Proof. unfold executeBlock. quiet_auto. Qed.
#[local] Hint Resolve quiet_broadcastVoteReq quiet_checkBlockValid quiet_executeBlock : quiet.
Lemma quiet_execBlock b : quiet (execBlock b).
Proof. unfold execBlock. quiet_auto. Qed.
Lemma quiet_reportBlock b : quiet (reportBlock b).
Proof.
  unfold reportBlock. quiet_auto. intros c h' nodes Hl. cbn in Hl.
  by apply lookup_delete_Some in Hl as [_ Hl].
Qed.
#[local] Hint Resolve quiet_execBlock quiet_reportBlock : quiet.
Lemma quiet_shouldSeal : quiet shouldSeal.
Proof. unfold shouldSeal. quiet_auto. Qed.
Lemma quiet_commit_begin b : quiet (commit_begin b).
Proof. unfold commit_begin. quiet_auto. Qed.
Lemma quiet_handleVoteRequest n req : quiet (handleVoteRequest n req).
Proof. unfold handleVoteRequest, vote_response. quiet_auto. Qed.
Lemma quiet_handleVoteResponse resp vs : quiet (handleVoteResponse resp vs).
Proof. unfold handleVoteResponse. quiet_auto. Qed.
Lemma quiet_handleHeartbeat n hb : quiet (handleHeartbeat n hb).
Proof. unfold handleHeartbeat, step_down. quiet_auto. Qed.
Lemma quiet_note_heartbeat n resp log : quiet (note_heartbeat n resp log).
Proof. unfold note_heartbeat. quiet_auto. Qed.
Lemma quiet_runAsLeader_start : quiet runAsLeader_start.
Proof. unfold runAsLeader_start. quiet_auto. Qed.
End methods.

#[export] Hint Resolve quiet_utcTime quiet_resetElectTimeout quiet_recoverElectTime quiet_increaseElectTime
  quiet_checkHeartbeatTimeout quiet_checkElectTimeout quiet_switchToFollower quiet_switchToCandidate
  quiet_setLeader quiet_setVote quiet_clearFirstVoteCache quiet_highest_hash quiet_updateMinerList
  quiet_resetConfig quiet_appendMiner quiet_make_message quiet_broadcastMsg quiet_sendResponse quiet_own_msg
  quiet_generateHeartbeat quiet_broadcastHeartbeat quiet_generateVoteReq quiet_broadcastVoteReq
  quiet_checkBlockValid quiet_executeBlock quiet_execBlock quiet_reportBlock quiet_shouldSeal quiet_commit_begin
  quiet_handleVoteRequest quiet_handleVoteResponse quiet_handleHeartbeat quiet_note_heartbeat
  quiet_runAsLeader_start : quiet.
