(* ===== verification/RaftRun.v ===== *)
(** * The Raft engine: runs

    The worker thread, the network thread, the sealer's thread and the other
    callers interleave; each call is one step. What a step of the worker can
    do beyond the background is the relation [works]: consume a message, add
    acknowledgements it carries, become leader on a majority of votes, commit
    a block on a majority of acknowledgements. *)

From S2P Require Import Prelude StateErr RLP Hex Crypto PBFTMsg Transaction Block Engine PBFTEngine Table RaftMsg RaftEngine RaftFacts.

Local Open Scope Z_scope.

(** ** Votes and acknowledgements in messages *)

Definition is_grant (p : RaftMsgPacket) : bool :=
  bool_decide (rp_packetType p = RaftVoteRespPacket) &&
  match (b ← packet_body (rp_data p); voteResp_populate b) with
  | Ok r => bool_decide (vr_voteFlag r = VOTE_RESP_GRANTED)
  | Throw _ => false
  end.

Definition grants (l : list RaftMsgPacket) : Z := Z.of_nat (length (filter (λ p, is_grant p = true) l)).

(** The packet acknowledges the block of hash [h]. *)
Definition is_ack (h : bytes) (p : RaftMsgPacket) : bool :=
  bool_decide (rp_packetType p = RaftHeartBeatRespPacket) &&
  match (b ← packet_body (rp_data p); heartBeatResp_populate b) with
  | Ok r => bool_decide (hr_uncommitedBlockHash r = h)
  | Throw _ => false
  end.

Definition acked (l : list RaftMsgPacket) (h node : bytes) : Prop :=
  ∃ p, p ∈ l ∧ is_ack h p = true ∧ rp_nodeId p = node.

Lemma grants_app l l' : grants (l ++ l') = grants l + grants l'.
Proof. unfold grants. rewrite list.filter_app, length_app. lia. Qed.

Lemma grants_nonneg l : 0 ≤ grants l.
Proof. unfold grants. lia. Qed.

Lemma acked_app l l' h n : acked (l ++ l') h n ↔ acked l h n ∨ acked l' h n.
Proof. unfold acked. set_solver. Qed.

Section run.
Context `{Crypto, NodeEnv, Text, Random, !RandomLaws}.
Abbreviation RM := (SM RaftEngine).

(** ** Steps that leave the configuration alone *)

Definition config (s : RaftEngine) : Z * Z := (rb_nodeNum (r_base s), rb_f (r_base s)).

Definition steady {A} (m : RM A) : Prop := ∀ c, keeps (λ s, config s = c) m.

Lemma steady_run {A} (m : RM A) s : steady m → config (snd (m s)) = config s.
Proof. intros Hm. by apply (Hm (config s)). Qed.

Ltac steady_call := lazymatch goal with |- keeps (λ s, config s = ?c) ?m => refine ((_ : steady m) c); eauto with steady nocore end.
Ltac steady_auto :=
  intros ?; repeat first [ solve [eauto with keeps nocore] | solve [steady_call] | solve [apply keeps_modify; by intros]
    | solve [intros ? ?; done] | keeps_step ].
Create HintDb steady discriminated.

Lemma steady_utcTime : steady utcTime.
Proof. unfold utcTime. steady_auto. Qed.
Lemma steady_own_msg : steady own_msg.
Proof. unfold own_msg, highest_hash. steady_auto. Qed.
#[local] Hint Resolve steady_utcTime steady_own_msg : steady.
Lemma steady_make_message f t : steady (make_message f t).
Proof. unfold make_message. steady_auto. Qed.
Lemma steady_broadcastMsg m : steady (broadcastMsg m).
Proof. unfold broadcastMsg. steady_auto. Qed.
#[local] Hint Resolve steady_make_message steady_broadcastMsg : steady.
Lemma steady_broadcastHeartbeat : steady broadcastHeartbeat.
Proof. unfold broadcastHeartbeat, generateHeartbeat, clearFirstVoteCache. steady_auto. Qed.
Lemma steady_broadcastVoteReq : steady broadcastVoteReq.
Proof. unfold broadcastVoteReq, generateVoteReq. steady_auto. Qed.
Lemma steady_checkHeartbeatTimeout : steady checkHeartbeatTimeout.
Proof. unfold checkHeartbeatTimeout. steady_auto. Qed.
Lemma steady_checkElectTimeout : steady checkElectTimeout.
Proof. unfold checkElectTimeout. steady_auto. Qed.
Lemma steady_handleVoteResponse r vs : steady (handleVoteResponse r vs).
Proof. unfold handleVoteResponse, increaseElectTime. steady_auto. Qed.
Lemma steady_setVote v : steady (setVote v).
Proof. unfold setVote. steady_auto. Qed.
Lemma steady_note_heartbeat n r log : steady (note_heartbeat n r log).
Proof. unfold note_heartbeat. steady_auto. Qed.

(** ** What a step of the worker does *)

(** The majority that makes a candidate the leader; the candidate's own vote
    is the first. *)
Definition elected (p : position) (l : list RaftMsgPacket) (s' : RaftEngine) : Prop :=
  match p with
  | AtLoop => rb_nodeNum (r_base s') - rb_f (r_base s') ≤ 1
  | AsCandidate vs => 0 ≤ vs_vote vs → rb_nodeNum (r_base s') - rb_f (r_base s') ≤ vs_vote vs + grants l
  | _ => False
  end.

(** The block was executed and committed after a majority acknowledged its
    hash; the leader itself is not in [nodes]. *)
Definition acknowledged (l : list RaftMsgPacket) (s : RaftEngine) (b : Block) : Prop :=
  ∃ blk h blk' (nodes : gset bytes) s1 sl s2,
    block_hash_of blk = Ok (h, blk') ∧ execBlock blk' s1 = (Ok sl, s2) ∧ b = sl_block sl ∧
    rb_nodeNum (r_base s) - rb_f (r_base s) ≤ Z.of_nat (size nodes) + 1 ∧
    (∀ n, n ∈ nodes → acked l h n ∨ n ∈ default ∅ (rc_fingerPrint (r_commit s) !! h)).

Record works (p : position) (l : list RaftMsgPacket) (s s' : RaftEngine) : Prop := {
  wk_queue : r_msgQueue s = l ++ r_msgQueue s';
  wk_acks h nodes n : rc_fingerPrint (r_commit s') !! h = Some nodes → n ∈ nodes →
    acked l h n ∨ n ∈ default ∅ (rc_fingerPrint (r_commit s) !! h);
  wk_role : rv_state (r_votes s') = EN_STATE_LEADER → rv_state (r_votes s) = EN_STATE_LEADER ∨ elected p l s';
  wk_timers : timers_ok (r_timers s) → timers_ok (r_timers s');
  wk_majority : majority_ok (r_base s) → majority_ok (r_base s');
  wk_commits : committed s' = committed s ∨ ∃ b, committed s' = b :: committed s ∧ acknowledged l s b;
}.

(** How the vote count moves with the thread. *)
Definition counts (p : position) (l : list RaftMsgPacket) (p' : position) : Prop :=
  match p' with
  | AsCandidate vs' =>
      match p with
      | AtLoop => vs_vote vs' = 1 ∧ l = []
      | AsCandidate vs => 0 ≤ vs_vote vs → 0 ≤ vs_vote vs' ≤ vs_vote vs + grants l
      | _ => False
      end
  | _ => True
  end.

Lemma works_background p s s' : background s s' → works p [] s s'.
Proof.
  intros []. split; auto. intros h nodes n Hl Hn. right. apply bg_acks in Hl. by rewrite Hl.
Qed.

Lemma works_after p l s1 s s' : background s1 s → config s = config s1 → works p l s s' → works p l s1 s'.
Proof.
  intros [] Hc []. split; auto; try congruence.
  - intros h nodes n Hl Hn. destruct (wk_acks0 h nodes n Hl Hn) as [|Hd]; [by left|]. right.
    destruct (rc_fingerPrint (r_commit s) !! h) as [ns|] eqn:E; [|set_solver]. apply bg_acks in E. by rewrite E.
  - intros Hr. destruct (wk_role0 Hr) as [|]; [left; auto|by right].
  - destruct wk_commits0 as [|(b & Hb & blk & h & blk' & nodes & s2 & sl & s3 & E1 & E2 & E3 & E4 & E5)]; [left; congruence|].
    right. exists b. split; [congruence|]. exists blk, h, blk', nodes, s2, sl, s3. split_and!; try done.
    + unfold config in Hc. injection Hc as Hn Hf. by rewrite <- Hn, <- Hf.
    + intros n Hn. destruct (E5 n Hn) as [|Hd]; [by left|]. right.
      destruct (rc_fingerPrint (r_commit s) !! h) as [ns|] eqn:E; [|set_solver]. apply bg_acks in E. by rewrite E.
Qed.

Lemma works_pop p pkt q s s' :
  r_msgQueue s = pkt :: q → background (r_with_msgQueue q s) s' → works p [pkt] s s'.
Proof.
  intros Hq []. split; auto.
  - by rewrite bg_queue.
  - intros h nodes n Hl Hn. right. apply bg_acks in Hl. cbn in Hl. by rewrite Hl.
Qed.

(** ** Rules *)

Lemma wp_quiet {A} (m : RM A) (Q : A → RaftEngine → Prop) (E : exn → RaftEngine → Prop) s :
  quiet m → (∀ a s', background s s' → Q a s') → (∀ x s', background s s' → E x s') → wp m Q E s.
Proof.
  intros Hm HQ HE. pose proof (quiet_run m s Hm) as Hb. unfold wp. destruct (m s) as [[a|x] s']; auto.
Qed.

Lemma wp_quiet_steady {A} (m : RM A) (Q : A → RaftEngine → Prop) (E : exn → RaftEngine → Prop) s :
  quiet m → steady m → (∀ a s', m s = (Ok a, s') → background s s' → config s' = config s → Q a s') →
  (∀ x s', background s s' → E x s') → wp m Q E s.
Proof.
  intros Hm Hs HQ HE. pose proof (quiet_run m s Hm) as Hb. pose proof (steady_run m s Hs) as Hc.
  unfold wp. destruct (m s) as [[a|x] s']; auto.
Qed.

Lemma wp_pop {A} (K : option RaftMsgPacket → RM A) Q E s :
  (r_msgQueue s = [] → wp (K None) Q E s) →
  (∀ p q, r_msgQueue s = p :: q → wp (K (Some p)) Q E (r_with_msgQueue q s)) → wp (tryPop ≫= K) Q E s.
Proof.
  intros Hn Hs. unfold tryPop. apply wp_bind, wp_bind, wp_get. destruct (r_msgQueue s) as [|p q] eqn:Eq.
  - by apply wp_ret, Hn.
  - apply wp_bind, wp_modify, wp_ret. by apply Hs.
Qed.

Lemma wp_state {A} (I : RaftEngine → Prop) (m : RM A) s : wp m (λ _, I) (λ _, I) s → I (snd (m s)).
Proof. unfold wp. by destruct (m s) as [[] ?]. Qed.

(** ** The follower *)

Definition done_step (p : position) (s : RaftEngine) : position → RaftEngine → Prop :=
  λ p' s', ∃ l, works p l s s' ∧ counts p l p'.
Definition thrown_step (p : position) (s : RaftEngine) : exn → RaftEngine → Prop :=
  λ _ s', ∃ l, works p l s s'.

Lemma follower_works s : wp (thread_step AsFollower) (done_step AsFollower s) (thrown_step AsFollower s) s.
Proof.
  cbn [thread_step]. apply wp_bind. unfold runAsFollowerImp. apply wp_bind, wp_get.
  assert (∀ (b : bool) s', background s s' → wp (mret (if b then AsFollower else AtLoop)) (done_step AsFollower s) (thrown_step AsFollower s) s') as Hend.
  { intros b s' Hb. apply wp_ret. exists []. split; [by apply works_background|by destruct b]. }
  apply wp_if; intros _; [by apply wp_ret, (Hend false)|].
  apply wp_bind, wp_quiet_steady; [apply quiet_checkElectTimeout|apply steady_checkElectTimeout| |intros x s' Hb; exists []; by apply works_background].
  intros t s1 _ B1 C1. destruct t.
  { apply wp_bind, wp_quiet; [apply quiet_switchToCandidate| |].
    - intros _ s2 B2. apply wp_ret, (Hend false). by etrans.
    - intros x s2 B2. exists []. apply works_background. by etrans. }
  apply wp_pop; [intros _; by apply wp_ret, (Hend true)|]. intros p q Eq. apply wp_quiet.
  - quiet_auto.
  - intros b s2 B2. apply wp_ret. exists [p]. split; [|by destruct b]. eapply works_after; [done..|]. by eapply works_pop.
  - intros x s2 B2. exists [p]. eapply works_after; [done..|]. by eapply works_pop.
Qed.

(** ** The candidate *)

Lemma switchToLeader_works p l s s1 :
  works p l s s1 → elected p l s1 →
  ∃ s2, switchToLeader s1 = (Ok tt, s2) ∧ works p l s s2.
Proof.
  intros [] He. set (sv := snd (upd_votes (λ v, rv_with_state EN_STATE_LEADER (rv_with_leader (rb_idx (r_base s1)) v)) s1)).
  pose proof (quiet_run recoverElectTime sv quiet_recoverElectTime) as Hb.
  eexists. split; [reflexivity|]. split; try done.
  - intros _. by right.
  - intros Ht. apply (bg_timers _ _ Hb). by apply wk_timers0.
Qed.

Lemma handleVoteResponse_votes resp vs s r vs' s' :
  handleVoteResponse resp vs s = (Ok (r, vs'), s') →
  (0 ≤ vs_vote vs → 0 ≤ vs_vote vs' ≤ vs_vote vs + (if decide (vr_voteFlag resp = VOTE_RESP_GRANTED) then 1 else 0)) ∧
  (r = TO_LEADER → fst (config s) - snd (config s) ≤ vs_vote vs').
Proof.
  unfold handleVoteResponse. erewrite sm_bind_ok by reflexivity. cbv zeta.
  assert (0 ≤ (if decide (vr_voteFlag resp = VOTE_RESP_GRANTED) then 1 else 0)) as Hz by (case_decide; lia).
  assert (∀ n : Z, isMajorityVote s n = true → fst (config s) - snd (config s) ≤ n) as Hmaj.
  { intros n Hn. unfold isMajorityVote in Hn. by apply bool_decide_eq_true in Hn. }
  repeat match goal with
  | |- (if decide ?P then _ else _) _ = _ → _ => destruct (decide P)
  | |- (if isMajorityVote _ _ then _ else _) _ = _ → _ => destruct (isMajorityVote s _) eqn:?
  end; intros [= <- <- <-] || intros [= Er <- <-]; cbn [vs_vote]; split; try lia; try done.
  - unfold u64. pose proof (Z.mod_pos_bound (vs_vote vs + 1) (2 ^ 64) ltac:(lia)).
    pose proof (Z.mod_le (vs_vote vs + 1) (2 ^ 64)). lia.
  - intros Hr. destruct (isMajorityVote s _) eqn:Em; [by apply Hmaj|done].
Qed.

(** The end of a step that did nothing but pop a message. *)
Lemma popped_works p pkt q s s1 s2 :
  background s s1 → config s1 = config s → r_msgQueue s1 = pkt :: q → background (r_with_msgQueue q s1) s2 →
  works p [pkt] s s2.
Proof. intros B1 C1 Eq B2. eapply works_after; [done..|]. by eapply works_pop. Qed.

Lemma grants_one p resp :
  rp_packetType p = RaftVoteRespPacket → (b ← packet_body (rp_data p); voteResp_populate b) = Ok resp →
  grants [p] = if decide (vr_voteFlag resp = VOTE_RESP_GRANTED) then 1 else 0.
Proof.
  intros Ht Hd. unfold grants. cbn [filter list_filter]. unfold is_grant. rewrite Ht, Hd, bool_decide_true by done.
  cbn [andb]. destruct (decide (vr_voteFlag resp = VOTE_RESP_GRANTED)).
  - rewrite bool_decide_true by done. by rewrite decide_True.
  - rewrite bool_decide_false by done. by rewrite decide_False.
Qed.

(** A handler that may make the node a follower. *)
Lemma wp_follow {A} (m : RM bool) leader (x y : A) (Q : A → RaftEngine → Prop) (E : exn → RaftEngine → Prop) s :
  quiet m → (∀ s', background s s' → Q x s') → (∀ s', background s s' → Q y s') →
  (∀ e s', background s s' → E e s') →
  wp (g ← m; if g : bool then switchToFollower leader;; mret x else mret y) Q E s.
Proof.
  intros Hm Hx Hy He. apply wp_bind, wp_quiet; [done| |done]. intros g s1 B1. destruct g; [|by apply wp_ret, Hy].
  apply wp_bind, wp_quiet; [apply quiet_switchToFollower| |].
  - intros _ s2 B2. apply wp_ret, Hx. by etrans.
  - intros e s2 B2. apply He. by etrans.
Qed.

Lemma candidate_works vs s :
  wp (thread_step (AsCandidate vs)) (done_step (AsCandidate vs) s) (thrown_step (AsCandidate vs) s) s.
Proof.
  cbn [thread_step]. apply wp_bind. unfold runAsCandidateImp. apply wp_bind.
  set (here := AsCandidate vs).
  assert (∀ (b : bool) l s', works here l s s' → wp (mret (if b then AsCandidate vs else AtLoop)) (done_step here s) (thrown_step here s) s') as Hend.
  { intros b l s' Hw. apply wp_ret. exists l. split; [done|]. destruct b; [|done]. cbn. pose proof (grants_nonneg l). lia. }
  apply wp_quiet_steady; [apply quiet_checkElectTimeout|apply steady_checkElectTimeout| |intros x s' Hb; exists []; by apply works_background].
  intros t s1 _ B1 C1. destruct t.
  { apply wp_bind, wp_get, wp_bind, wp_quiet.
    - quiet_auto.
    - intros _ s2 B2. apply wp_ret, (Hend false []), works_background. by etrans.
    - intros x s2 B2. exists []. apply works_background. by etrans. }
  apply wp_pop; [intros _; by apply wp_ret, (Hend true []), works_background|]. intros p q Eq.
  assert (∀ s2, background (r_with_msgQueue q s1) s2 → works here [p] s s2) as Hpop by (intros; by eapply popped_works).
  assert (∀ x s2, background (r_with_msgQueue q s1) s2 → thrown_step here s x s2) as Hthrow by (intros; eexists; eauto).
  apply wp_if; intros Ht0.
  { apply wp_bind, wp_lift; [|intros x _; by apply (Hthrow x)]. intros req _.
    apply wp_follow; [apply quiet_handleVoteRequest|intros; by apply (Hend false [p]), Hpop|intros; by apply (Hend true [p]), Hpop|auto]. }
  apply wp_if; intros Ht1.
  { apply wp_bind, wp_lift; [|intros x _; by apply (Hthrow x)]. intros resp Hresp.
    apply wp_bind, wp_quiet_steady; [apply quiet_handleVoteResponse|apply steady_handleVoteResponse| |auto].
    intros [r vs'] s2 E2 B2 C2. destruct (handleVoteResponse_votes _ _ _ _ _ _ E2) as [Hv Hl].
    rewrite <- (grants_one p resp Ht1 Hresp) in Hv. destruct r.
    - destruct (switchToLeader_works here [p] s s2) as (s3 & E3 & W3); [by apply Hpop| |].
      { intros Hvs. specialize (Hl eq_refl). rewrite <- C2 in Hl. cbn in Hl. lia. }
      apply wp_bind, (wp_eq _ _ _ _ _ _ E3), wp_ret, wp_ret. by exists [p].
    - apply wp_bind, wp_quiet; [apply quiet_switchToFollower| |].
      + intros _ s3 B3. apply wp_ret, wp_ret. exists [p]. split; [|done]. apply Hpop. by etrans.
      + intros x s3 B3. apply (Hthrow x). by etrans.
    - apply wp_ret, wp_ret. exists [p]. split; [by apply Hpop|done]. }
  apply wp_if; intros Ht2; [|by apply wp_ret, (Hend true [p]), Hpop].
  apply wp_bind, wp_lift; [|intros x _; by apply (Hthrow x)]. intros hb _.
  apply wp_follow; [apply quiet_handleHeartbeat|intros; by apply (Hend false [p]), Hpop|intros; by apply (Hend true [p]), Hpop|auto].
Qed.

(** ** The work loop *)

Lemma loop_works s : wp (thread_step AtLoop) (done_step AtLoop s) (thrown_step AtLoop s) s.
Proof.
  cbn [thread_step]. apply wp_bind, wp_get. apply wp_if; intros _.
  { apply wp_ret. exists []. split; [by apply works_background|done]. }
  destruct (rv_state (r_votes s)).
  - apply wp_bind, wp_quiet; [apply quiet_runAsLeader_start| |intros; exists []; by apply works_background].
    intros _ s1 B1. apply wp_ret. exists []. split; [by apply works_background|done].
  - apply wp_ret. exists []. split; [by apply works_background|done].
  - apply wp_bind. unfold runAsCandidate_start. apply wp_bind, wp_get. apply wp_if; intros _.
    { apply wp_ret, wp_ret. exists []. split; [by apply works_background|done]. }
    apply wp_bind, wp_quiet; [apply quiet_broadcastVoteReq| |intros; exists []; by apply works_background].
    intros _ s1 B1. apply wp_bind, wp_get, wp_bind, wp_modify, wp_bind, wp_modify.
    set (s3 := r_with_votes _ _). assert (background s s3) as B3 by (etrans; [exact B1|by split]).
    destruct (wonElection s1 _) eqn:Ew.
    + apply bool_decide_eq_true in Ew.
      destruct (switchToLeader_works AtLoop [] s s3) as (s4 & E4 & W4); [by apply works_background|done|].
      apply wp_bind, (wp_eq _ _ _ _ _ _ E4), wp_ret, wp_ret. by exists [].
    + apply wp_ret, wp_ret. exists []. split; [by apply works_background|done].
Qed.

(** ** The leader *)

(** The background, but for the commit of [b]. *)
Definition saves (b : Block) (s s' : RaftEngine) : Prop :=
  committed s' = b :: committed s ∧ background s (r_with_events (r_events s) s').

Lemma saves_after b s s1 s' : saves b s s1 → background s1 s' → saves b s s'.
Proof.
  intros [Hc [Q1 _ A1 R1 T1 M1]] [Q2 C2 A2 R2 T2 M2]. cbn in *.
  split; [congruence|]. split; cbn; auto; try congruence.
Qed.
Lemma saves_before b s s1 s' : background s s1 → saves b s1 s' → saves b s s'.
Proof.
  intros [Q1 C1 A1 R1 T1 M1] [Hc [Q2 _ A2 R2 T2 M2]]. cbn in *.
  split; [congruence|]. split; cbn; auto; congruence.
Qed.

(** [checkAndExecute] commits at most the block [execBlock] made of its
    argument. *)
Definition executed (blk : Block) (s s' : RaftEngine) : Prop :=
  background s s' ∨ ∃ s1 sl s2, execBlock blk s1 = (Ok sl, s2) ∧ saves (sl_block sl) s s'.

Lemma executed_after blk s s1 s' : executed blk s s1 → background s1 s' → executed blk s s'.
Proof.
  intros [B|(t & sl & t' & E & Hs)] B'; [left; by etrans|right]. exists t, sl, t'. split; [done|by eapply saves_after].
Qed.

Lemma checkAndSave_saves sl s : saves (sl_block sl) s (snd (checkAndSave sl s)).
Proof.
  unfold checkAndSave. rewrite (sm_bind_ok _ _ _ _ _ (eq_refl : sget s = (Ok s, s))).
  destruct (bc_commitBlock _ _ _) as [ok w].
  set (s1 := snd ((smodify (r_with_world w);; emit (EvCommit (sl_block sl) (sl_execContext sl) ok)) s)).
  eapply (saves_after _ _ s1); [by split|].
  rewrite (sm_bind_ok (smodify _) _ _ _ (r_with_world w s) eq_refl), (sm_bind_ok (emit _) _ _ _ s1 eq_refl).
  apply quiet_run. destruct ok; quiet_auto.
Qed.

Lemma checkAndExecute_executed blk s : executed blk s (snd (checkAndExecute blk s)).
Proof.
  unfold checkAndExecute. pose proof (quiet_run (execBlock blk) s (quiet_execBlock blk)) as Hb.
  destruct (execBlock blk s) as [[sl|x] s1] eqn:Ex.
  - rewrite (sm_bind_ok _ _ _ (Some sl) s1).
    + right. exists s, sl, s1. split; [done|]. eapply saves_before; [exact Hb|].
      pose proof (checkAndSave_saves sl s1) as Hs. unfold mbind, sm_bind. by destruct (checkAndSave sl s1) as [[|] ?].
    + unfold stry. by rewrite (sm_bind_ok _ _ _ _ _ Ex).
  - left. unfold stry, mbind, sm_bind. rewrite Ex. destruct (StateErr.catchable x); exact Hb.
Qed.

Lemma executed_lock blk s : executed blk s (snd (holding_lock (checkAndExecute blk) s)).
Proof.
  unfold holding_lock. set (s1 := snd (upd_commit (rc_with_locked true) s)).
  rewrite (sm_bind_ok _ _ _ _ s1 (eq_refl : upd_commit _ s = (Ok tt, s1))).
  pose proof (checkAndExecute_executed blk s1) as He.
  assert (∀ s2, executed blk s1 s2 → ∀ A (m : RM A), quiet m → executed blk s (snd (m s2))) as Hm.
  { intros s2 [B|(t & sl & t' & E & Hs)] A m Hq.
    - left. etrans; [|by apply quiet_run]. etrans; [|exact B]. by split.
    - right. exists t, sl, t'. split; [done|]. eapply saves_after; [|by apply quiet_run].
      eapply saves_before; [|exact Hs]. by split. }
  unfold mbind at 1, sm_bind at 1, stry. destruct (checkAndExecute blk s1) as [[a|x] s2]; cbn [snd] in He.
  - apply (Hm s2 He). quiet_auto.
  - destruct (StateErr.catchable x).
    + specialize (Hm s2 He unit (upd_commit (rc_with_locked false)) ltac:(quiet_auto)). exact Hm.
    + apply (Hm s2 He unit (sthrow x)). quiet_auto.
Qed.

Lemma works_more log l s s1 s' : works (AsLeader log) l s s1 → background s1 s' → works (AsLeader log) l s s'.
Proof.
  intros [Q A R T M C] [Q2 C2 A2 R2 T2 M2]. split; [congruence|intros h nodes n Hl; by apply A, A2| |auto|auto|by rewrite C2].
  intros Hr. destruct (R (R2 Hr)) as [|[]]. by left.
Qed.

Lemma works_executed (log : gmap bytes Z) (l : list RaftMsgPacket) (blk blk' : Block) (h : bytes) (nodes : gset bytes) (s s1 s' : RaftEngine) :
  works (AsLeader log) l s s1 → committed s1 = committed s → executed blk' s1 s' →
  block_hash_of blk = Ok (h, blk') → rb_nodeNum (r_base s) - rb_f (r_base s) ≤ Z.of_nat (size nodes) + 1 →
  (∀ n, n ∈ nodes → acked l h n ∨ n ∈ default ∅ (rc_fingerPrint (r_commit s) !! h)) → works (AsLeader log) l s s'.
Proof.
  intros Hw Hc [B|(t & sl & t' & Ex & Hs & B)] Hh Hq Hn; [by eapply works_more|].
  destruct (works_more _ _ _ _ _ Hw B) as [Q A R T M C]. split; auto.
  right. exists (sl_block sl). split; [congruence|]. exists blk, h, blk', nodes, t, sl, t'. by split_and!.
Qed.

(** The leader has taken [p] off its queue and done nothing else of note. *)
Definition received (log : gmap bytes Z) (p : RaftMsgPacket) (s s' : RaftEngine) : Prop :=
  works (AsLeader log) [p] s s' ∧ committed s' = committed s ∧ config s' = config s ∧
  ∀ h nodes, rc_fingerPrint (r_commit s') !! h = Some nodes → rc_fingerPrint (r_commit s) !! h = Some nodes.

Lemma note_fingerprint_works log p resp s s1 :
  received log p s s1 → rp_packetType p = RaftHeartBeatRespPacket →
  (b ← packet_body (rp_data p); heartBeatResp_populate b) = Ok resp →
  works (AsLeader log) [p] s (snd (note_fingerprint (rp_nodeId p) resp s1)).
Proof.
  intros (Hw & Hc & Hcfg & Ha) Ht Hr. unfold note_fingerprint.
  apply (wp_state (works (AsLeader log) [p] s)). apply wp_bind, wp_get. destruct (negb _); [by apply wp_ret|].
  apply wp_if; intros _; [apply wp_modify; eapply works_more; [exact Hw|by split]|].
  apply wp_bind, wp_lift; [|done]. intros [h blk] Hh. apply wp_bind, wp_modify.
  set (s2 := r_with_commit _ s1). assert (works (AsLeader log) [p] s s2) as W2 by (eapply works_more; [exact Hw|by split]).
  apply wp_if; intros Eh; [by apply wp_ret|]. apply dec_stable in Eh. apply wp_bind, wp_modify.
  set (nodes := {[rp_nodeId p]} ∪ _). set (s3 := r_with_commit _ s2).
  assert (∀ n, n ∈ nodes → acked [p] h n ∨ n ∈ default ∅ (rc_fingerPrint (r_commit s) !! h)) as Hn.
  { intros n [->%elem_of_singleton|Hn]%elem_of_union.
    - left. exists p. split_and!; [by left| |done]. unfold is_ack. rewrite Hr, bool_decide_true by done.
      by apply bool_decide_eq_true.
    - right. destruct (rc_fingerPrint (r_commit s1) !! h) as [ns|] eqn:E; [|set_solver]. apply Ha in E. by rewrite E. }
  assert (works (AsLeader log) [p] s s3) as W3.
  { destruct W2 as [Q A R T M C]. split; auto. intros h' ns n. cbn.
    intros [(<- & <-)|(_ & Hl)]%lookup_insert_Some; [apply Hn|by apply A]. }
  apply wp_if; intros Hq; [|by apply wp_ret].
  assert (works (AsLeader log) [p] s (snd (holding_lock (checkAndExecute blk) s3))) as W4.
  { eapply works_executed; [exact W3|done|apply executed_lock|exact Hh| |exact Hn].
    unfold config in Hcfg. injection Hcfg as <- <-. exact Hq. }
  destruct (rc_waiting _); [apply wp_modify; eapply works_more; [exact W3|by split]|].
  apply wp_bind. unfold wp at 1. destruct (holding_lock _ s3) as [[a|x] s4]; [|done].
  apply wp_quiet; [apply quiet_reportBlock|intros; by eapply works_more..].
Qed.

Lemma leader_works log s :
  wp (thread_step (AsLeader log)) (done_step (AsLeader log) s) (thrown_step (AsLeader log) s) s.
Proof.
  cbn [thread_step]. apply wp_bind. unfold runAsLeaderImp. apply wp_bind, wp_get. set (here := AsLeader log).
  assert (∀ (b : bool) log' l s', works here l s s' →
    wp (mret (if b then AsLeader log' else AtLoop)) (done_step here s) (thrown_step here s) s') as Hend.
  { intros b log' l s' Hw. apply wp_ret. exists l. split; [done|]. by destruct b. }
  apply wp_if; intros _; [by apply wp_ret, (Hend false log []), works_background|].
  apply wp_bind, wp_quiet_steady.
  { destruct (decide _); [apply quiet_checkHeartbeatTimeout|quiet_auto]. }
  { destruct (decide _); [apply steady_checkHeartbeatTimeout|steady_auto]. }
  2: { intros x s' B. exists []. by apply works_background. }
  intros t s1 _ B1 C1. destruct t.
  { apply wp_bind, wp_quiet; [apply quiet_switchToCandidate| |].
    - intros _ s2 B2. apply wp_ret, (Hend false log []), works_background. by etrans.
    - intros x s2 B2. exists []. apply works_background. by etrans. }
  apply wp_bind, wp_quiet_steady; [apply quiet_broadcastHeartbeat|apply steady_broadcastHeartbeat| |].
  2: { intros x s' B. exists []. apply works_background. by etrans. }
  intros _ s2 _ B2 C2. assert (background s s2) as B02 by by etrans. assert (config s2 = config s) as C02 by congruence.
  apply wp_pop; [intros _; by apply wp_ret, (Hend true log []), works_background|]. intros p q Eq.
  assert (∀ s3, background (r_with_msgQueue q s2) s3 → works here [p] s s3) as Hpop by (intros; by eapply popped_works).
  assert (∀ x s3, background (r_with_msgQueue q s2) s3 → thrown_step here s x s3) as Hthrow by (intros; eexists; eauto).
  apply wp_if; intros Ht0.
  { apply wp_bind, wp_lift; [|intros x _; by apply (Hthrow x)]. intros req _.
    apply wp_follow; [apply quiet_handleVoteRequest|intros; by apply (Hend false log [p]), Hpop|intros; by apply (Hend true log [p]), Hpop|auto]. }
  apply wp_if; intros Ht1; [by apply wp_ret, (Hend true log [p]), Hpop|].
  apply wp_if; intros Ht2.
  { apply wp_bind, wp_lift; [|intros x _; by apply (Hthrow x)]. intros hb _.
    apply wp_follow; [apply quiet_handleHeartbeat|intros; by apply (Hend false log [p]), Hpop|intros; by apply (Hend true log [p]), Hpop|auto]. }
  apply wp_if; intros Ht3; [|by apply wp_ret, (Hend true log [p]), Hpop].
  apply wp_bind, wp_lift; [|intros x _; by apply (Hthrow x)]. intros resp Hresp.
  apply wp_bind, wp_get. apply wp_if; intros _; [by apply wp_ret, (Hend true log [p]), Hpop|].
  apply wp_bind, wp_quiet_steady; [apply quiet_note_heartbeat|apply steady_note_heartbeat| |by auto].
  intros log' s4 _ B4 C4.
  assert (works here [p] s (snd (note_fingerprint (rp_nodeId p) resp s4))) as W5.
  { apply note_fingerprint_works; [|done..]. split_and!; [by apply Hpop| |by rewrite C4|].
    - rewrite (bg_commits _ _ B4). apply (bg_commits _ _ B02).
    - intros h nodes Hl. by apply (bg_acks _ _ B02), (bg_acks _ _ B4). }
  apply wp_bind. unfold wp at 1. destruct (note_fingerprint _ _ s4) as [[u|x] s5].
  - by apply wp_ret, (Hend true log' [p]).
  - by exists [p].
Qed.

Theorem thread_works p s : wp (thread_step p) (done_step p s) (thrown_step p s) s.
Proof. destruct p; [apply loop_works|apply leader_works|apply follower_works|apply candidate_works]. Qed.
End run.
