(* ===== verification/RaftSystem.v ===== *)
(** * The Raft engine: the node

    A run of the node interleaves the worker thread, which executes
    [thread_step], with the calls of the other threads: the network delivers
    messages, the block synchronisation reports blocks, the sealer asks
    whether to seal and hands a block to [commit], and the chain and the peers
    change. The packets the worker has taken off the queue are recorded, all of
    them and those since it last was in [workLoop]. *)

From S2P Require Import Prelude StateErr RLP Hex Crypto PBFTMsg Transaction Block Engine PBFTEngine Table RaftMsg RaftEngine RaftFacts RaftRun.

Local Open Scope Z_scope.

Section system.
Context `{Crypto, NodeEnv, Text, Random, !RandomLaws}.
Abbreviation RM := (SM RaftEngine).

Record RaftNode := MkNode {
  nd_thread : option position; (* None: the worker has stopped *)
  nd_engine : RaftEngine;
  nd_commit : option Block; (* the argument of the [commit] that waits *)
  nd_taken : list RaftMsgPacket;
  nd_round : list RaftMsgPacket;
}.

(** A call that ended, with or without an exception. *)
Definition call {A} (m : RM A) (s s' : RaftEngine) : Prop :=
  ∃ r, m s = (r, s') ∧ match r with Ok _ => True | Throw x => StateErr.catchable x = true end.

Inductive other_call : RaftEngine → RaftEngine → Prop :=
  | oc_report b s s' : call (reportBlock b) s s' → other_call s s'
  | oc_append m s s' : call (appendMiner m) s s' → other_call s s'
  | oc_seal s s' : call shouldSeal s s' → other_call s s'
  | oc_world w s : other_call s (r_with_world w s).

Inductive node_step : RaftNode → RaftNode → Prop :=
  | ns_thread p s c taken round p' s' l :
      thread_step p s = (Ok p', s') → r_msgQueue s = l ++ r_msgQueue s' →
      node_step (MkNode (Some p) s c taken round)
        (MkNode (Some p') s' c (taken ++ l) (match p with AtLoop => l | _ => round ++ l end))
  | ns_stop p s c taken round x s' l :
      thread_step p s = (Throw x, s') → StateErr.catchable x = true → r_msgQueue s = l ++ r_msgQueue s' →
      node_step (MkNode (Some p) s c taken round)
        (MkNode None s' c (taken ++ l) (match p with AtLoop => l | _ => round ++ l end))
  | ns_recv t s c taken round buffer node ep s' :
      call (onRecvRaftMessage buffer node ep) s s' →
      node_step (MkNode t s c taken round) (MkNode t s' c taken round)
  | ns_other t s c taken round s' :
      other_call s s' → node_step (MkNode t s c taken round) (MkNode t s' c taken round)
  | ns_commit t s taken round b s' :
      commit_begin b s = (Ok tt, s') →
      node_step (MkNode t s None taken round) (MkNode t s' (Some b) taken round)
  | ns_wakeup t s taken round b s' :
      rc_commitReady (r_commit s) = true → call (commit_end b) s s' →
      node_step (MkNode t s (Some b) taken round) (MkNode t s' None taken round).

(** The engine as constructed, with the timeouts of its configuration. *)
Record fresh (s : RaftEngine) : Prop := {
  fr_role : rv_state (r_votes s) = EN_STATE_FOLLOWER;
  fr_queue : r_msgQueue s = [];
  fr_acks : rc_fingerPrint (r_commit s) = ∅;
  fr_nodes : rb_nodeNum (r_base s) = 0 ∧ rb_f (r_base s) = 0;
  fr_order : 0 ≤ rt_minElectTimeout (r_timers s) ≤ rt_maxElectTimeout (r_timers s);
  fr_width : 150 * rt_maxElectTimeout (r_timers s) < 2 ^ 32;
}.

Definition node_started (n : RaftNode) : Prop :=
  ∃ s, fresh s ∧ start s = (Ok tt, nd_engine n) ∧ nd_thread n = Some AtLoop ∧ nd_commit n = None ∧
       nd_taken n = [] ∧ nd_round n = [].

Inductive node_reachable (n : RaftNode) : Prop :=
  | nr_init : node_started n → node_reachable n
  | nr_step n0 : node_reachable n0 → node_step n0 n → node_reachable n.

(** The same with the states the node went through, the latest first. *)
Inductive node_run : list RaftNode → RaftNode → Prop :=
  | run_init n : node_started n → node_run [] n
  | run_step past n0 n : node_run past n0 → node_step n0 n → node_run (n0 :: past) n.

Lemma run_reachable past n : node_run past n → node_reachable n.
Proof. induction 1; [by apply nr_init|by eapply nr_step]. Qed.

Lemma reachable_run n : node_reachable n → ∃ past, node_run past n.
Proof. induction 1 as [n Hn|n n0 _ [past Hp] Hs]; [exists []; by apply run_init|]. exists (n0 :: past). by apply run_step. Qed.

(** The engine has [id] for a miner, and not for the one at its own index. *)
Definition peer (s : RaftEngine) (id : bytes) : Prop :=
  id ∈ rb_minerList (r_base s) ∧ id ≠ getMinerByIndex (rb_minerList (r_base s)) (rb_idx (r_base s)).

(** [id] was such a miner in one of the states. *)
Definition was_peer (past : list RaftNode) (id : bytes) : Prop := ∃ m, m ∈ past ∧ peer (nd_engine m) id.

Lemma was_peer_cons n past id : was_peer past id → was_peer (n :: past) id.
Proof. intros (m & Hm & Hp). exists m. split; [by right|done]. Qed.

(** ** The invariant *)

Record node_ok (n : RaftNode) : Prop := {
  no_timers : timers_ok (r_timers (nd_engine n));
  no_majority : majority_ok (r_base (nd_engine n));
  no_votes vs : nd_thread n = Some (AsCandidate vs) → 0 ≤ vs_vote vs ≤ 1 + grants (nd_round n);
  no_acks h nodes node : rc_fingerPrint (r_commit (nd_engine n)) !! h = Some nodes → node ∈ nodes →
    acked (nd_taken n) h node;
}.

Lemma call_state {A} (m : RM A) s s' : call m s s' → s' = snd (m s).
Proof. by intros (r & -> & _). Qed.

Lemma other_call_background s s' : other_call s s' → background s s'.
Proof.
  intros []; [..|by split]; rewrite (call_state _ _ _ H4); apply quiet_run;
    [apply quiet_reportBlock|apply quiet_appendMiner|apply quiet_shouldSeal].
Qed.

Lemma wp_now (Q : Z → RaftEngine → Prop) E s : Q (clock (r_tick s)) (r_with_tick (S (r_tick s)) s) → wp now_ns Q E s.
Proof. done. Qed.

Lemma valid_peer s buffer node i : isValidReq s buffer node = Some i → peer s node.
Proof.
  unfold isValidReq, peer, getIndexByMiner. destruct (decide (buffer = [])); [done|].
  destruct (list_find _ _) as [[j m]|] eqn:E; cbn; [|done]. apply list_find_Some in E as (El & -> & _).
  destruct (decide _) as [|Hn]; [done|]. intros _. split; [by eapply list_elem_of_lookup_2|tauto].
Qed.

(** What a delivery may add to the queue: at most one packet, from a peer. *)
Definition delivered (s s' : RaftEngine) : Prop :=
  background s (r_with_msgQueue (r_msgQueue s) s') ∧
  ∃ l, r_msgQueue s' = r_msgQueue s ++ l ∧ (length l ≤ 1)%nat ∧ Forall (λ p, peer s (rp_nodeId p)) l.

(** A message from the network joins the end of the queue; nothing else of
    note changes. *)
Lemma recv_queue buffer node ep s : delivered s (snd (onRecvRaftMessage buffer node ep s)).
Proof.
  apply (wp_state (delivered s)).
  assert (∀ s1, background s s1 → delivered s s1) as Hq.
  { intros s1 []. split; [by split|]. exists []. rewrite app_nil_r. auto. }
  unfold onRecvRaftMessage. apply wp_bind. unfold utcTime at 1. apply wp_bind, wp_now, wp_ret.
  set (s1 := r_with_tick _ s). assert (background s s1) as B1 by by split.
  apply wp_bind, wp_get. destruct (isValidReq _ _ _) as [i|] eqn:Ev; [|by apply wp_ret, Hq].
  apply valid_peer in Ev. change (peer s node) in Ev.
  destruct (raft_packet_decode _ _) as [p|x]; [|destruct (StateErr.catchable x); [by apply wp_ret, Hq|by apply wp_throw, Hq]].
  apply wp_bind, wp_quiet; [apply quiet_utcTime| |intros x s2 B2; apply Hq; by etrans]. intros now' s2 B2.
  assert (background s s2) as B by by etrans. unfold swhen. apply wp_if; intros _; [|by apply wp_ret, Hq].
  apply wp_modify. destruct B. split; [by split|]. eexists [_]. split; [cbn; by rewrite bg_queue|]. split; [done|]. by constructor.
Qed.

(** What the sealer's call does when it wakes up. *)
Lemma commit_end_executed b s : executed b s (snd (commit_end b s)).
Proof.
  apply (wp_state (executed b s)). unfold commit_end.
  apply wp_bind, wp_modify, wp_bind, wp_get. set (s1 := r_with_commit _ s).
  assert (background s s1) as B1 by by split. destruct (negb _).
  - apply wp_quiet; [quiet_auto|intros; left; by etrans..].
  - apply wp_bind, wp_modify, wp_bind, wp_get. set (s2 := r_with_commit _ s1).
    assert (background s s2) as B2 by by split. apply wp_if; intros _; [by apply wp_ret; left|].
    pose proof (checkAndExecute_executed b s2) as He. unfold wp.
    assert (executed b s (snd (checkAndExecute b s2))) as He'.
    { destruct He as [B|(t & sl & t' & E & Hs)]; [left; by etrans|]. right. exists t, sl, t'. split; [done|].
      by eapply saves_before. }
    by destruct (checkAndExecute b s2) as [[] ?].
Qed.

Lemma executed_quiet b s s' : executed b s s' → background s (r_with_events (r_events s) s').
Proof. intros [[]|(? & ? & ? & _ & _ & B)]; [by split|done]. Qed.

(** ** The start *)

Definition bounds_are (a b : Z) (s : RaftEngine) : Prop :=
  rt_minElectTimeout (r_timers s) = a ∧ rt_maxElectTimeout (r_timers s) = b.

Lemma resetConfig_bounds a b : keeps (bounds_are a b) resetConfig.
Proof.
  unfold resetConfig, updateMinerList, highest_hash, switchToFollower, resetElectTimeout.
  repeat first [ solve [eauto with keeps nocore] | solve [apply keeps_modify; by intros] | solve [intros ? ?; done] | keeps_step ].
Qed.

(** The timers once [initRaftEnv] has derived the bounds from the configured
    timeouts, before the first timeout is drawn. *)
Lemma init_timers a b t :
  0 ≤ a ≤ b → 150 * b < 2 ^ 32 → rt_minElectTimeout t = a → rt_maxElectTimeout t = b →
  rt_minElectTimeoutInit t = a → rt_maxElectTimeoutInit t = b →
  rt_maxElectTimeoutBoundary t = u32 (b + u32 (b - a) / 2) → rt_increaseTime t = u32 (b - a) / 4 →
  timers_ok (rt_with_electTimeout a t).
Proof.
  intros Hab Hw Ha Hb Hai Hbi Hbb Hinc.
  assert (u32 (b - a) = b - a) as Ed by (apply Z.mod_small; lia). rewrite Ed in Hbb, Hinc.
  pose proof (Z.mul_div_le (b - a) 2). pose proof (Z.mul_div_le (b - a) 4).
  assert (0 ≤ (b - a) / 2) by (apply Z.div_pos; lia). assert (0 ≤ (b - a) / 4) by (apply Z.div_pos; lia).
  assert (u32 (b + (b - a) / 2) = b + (b - a) / 2) as Eb by (apply Z.mod_small; lia). rewrite Eb in Hbb.
  split; cbn; lia.
Qed.

(** A drawn timeout does not depend on the one it replaces. *)
Lemma resetElectTimeout_ok a s :
  timers_ok (rt_with_electTimeout a (r_timers s)) → timers_ok (r_timers (snd (resetElectTimeout s))).
Proof.
  intros Ht. pose proof (quiet_run resetElectTimeout (r_with_timers (rt_with_electTimeout a (r_timers s)) s) quiet_resetElectTimeout) as B.
  by apply (bg_timers _ _ B) in Ht.
Qed.

(** What the start leaves alone besides the timers. *)
Definition still (s s' : RaftEngine) : Prop := background s (r_with_timers (r_timers s) s').

Lemma start_ok s s' : fresh s → start s = (Ok tt, s') →
  timers_ok (r_timers s') ∧ majority_ok (r_base s') ∧ rc_fingerPrint (r_commit s') = ∅ ∧
  rv_state (r_votes s') ≠ EN_STATE_LEADER ∧ r_msgQueue s' = [].
Proof.
  intros [Hrole Hq Hacks [Hn Hf] Ho Hw] Hst.
  enough (wp start (λ _ s', timers_ok (r_timers s') ∧ still s s') (λ _ _, True) s) as Hwp.
  { unfold wp in Hwp. rewrite Hst in Hwp. destruct Hwp as [Ht []]. cbn in *. split_and!; [done| | | |congruence].
    - apply bg_majority. split_and!; lia.
    - apply map_empty. intros h. destruct (_ !! h) as [ns|] eqn:E; [|done]. apply bg_acks in E. by rewrite Hacks in E.
    - intros Hr. apply bg_role in Hr. congruence. }
  clear Hst. unfold start, initRaftEnv. apply wp_bind, wp_bind.
  pose proof (quiet_run resetConfig s quiet_resetConfig) as B.
  pose proof (resetConfig_bounds _ _ s (conj eq_refl eq_refl)) as [Ha Hb].
  unfold wp at 1. destruct (resetConfig s) as [[u|x] s1]; [|done]. cbn [snd] in *.
  apply wp_bind, wp_modify, wp_bind, wp_now, wp_bind, wp_modify, wp_bind, wp_modify, wp_bind.
  set (s2 := r_with_timers _ _). assert (still s s2) as B2 by (destruct B; by split).
  assert (timers_ok (rt_with_electTimeout (rt_minElectTimeout (r_timers s)) (r_timers s2))) as T2.
  { apply init_timers with (b := rt_maxElectTimeout (r_timers s)); cbn -[u32]; congruence. }
  apply resetElectTimeout_ok in T2. pose proof (quiet_run resetElectTimeout s2 quiet_resetElectTimeout) as B3.
  unfold wp at 1. destruct (resetElectTimeout s2) as [[v|x] s3]; [|done]. cbn [snd] in *.
  apply wp_bind, wp_bind, wp_now, wp_ret, wp_ret, wp_modify. split; [done|].
  destruct B2 as [Q2 C2 A2 R2 T2' M2], B3 as [Q3 C3 A3 R3 T3 M3]; split; cbn in *; [congruence| |auto..]. by etrans.
Qed.

(** ** The invariant along runs *)

Lemma started_ok n : node_started n → node_ok n.
Proof.
  destruct n as [t s' c taken round]. intros (s & Hf & Hs & Ht & Hc & Hk & Hr). cbn in *. subst.
  destruct (start_ok s s' Hf Hs) as (T & M & A & R & _). split; cbn; try done. intros h nodes node. by rewrite A.
Qed.

Lemma quiet_ok t c c' taken round s s' :
  node_ok (MkNode t s c taken round) →
  (timers_ok (r_timers s) → timers_ok (r_timers s')) → (majority_ok (r_base s) → majority_ok (r_base s')) →
  (∀ h nodes, rc_fingerPrint (r_commit s') !! h = Some nodes → rc_fingerPrint (r_commit s) !! h = Some nodes) →
  node_ok (MkNode t s' c' taken round).
Proof. intros [] HT HM HA. split; cbn in *; eauto. Qed.

Lemma works_ok p p' s s' c taken round l :
  node_ok (MkNode (Some p) s c taken round) → works p l s s' →
  (∀ q, p' = Some q → counts p l q) →
  node_ok (MkNode p' s' c (taken ++ l) (match p with AtLoop => l | _ => round ++ l end)).
Proof.
  intros [T M V A] [WQ WA WR WT WM WC] Hc. split; cbn in *; auto.
  - intros vs ->. specialize (Hc _ eq_refl). destruct p as [| | |vs0]; cbn in Hc; try done.
    + destruct Hc as [-> ->]. change (grants []) with 0. lia.
    + specialize (V vs0 eq_refl). specialize (Hc (proj1 V)). rewrite grants_app. lia.
  - intros h nodes node Hl Hn. apply acked_app. destruct (WA _ _ _ Hl Hn) as [|Hd]; [by right|].
    left. destruct (rc_fingerPrint (r_commit s) !! h) as [ns|] eqn:E; [|set_solver]. by eapply A.
Qed.

Lemma thread_step_ok p s p' s' l :
  thread_step p s = (Ok p', s') → r_msgQueue s = l ++ r_msgQueue s' → works p l s s' ∧ counts p l p'.
Proof.
  intros Hs Hl. pose proof (thread_works p s) as W. unfold wp in W. rewrite Hs in W. destruct W as (l' & W & C).
  assert (l' = l) as ->; [|done]. eapply app_inv_tail. rewrite <- Hl. symmetry. apply (wk_queue _ _ _ _ W).
Qed.

Lemma thread_throw_ok p s x s' l :
  thread_step p s = (Throw x, s') → r_msgQueue s = l ++ r_msgQueue s' → works p l s s'.
Proof.
  intros Hs Hl. pose proof (thread_works p s) as W. unfold wp in W. rewrite Hs in W. destruct W as (l' & W).
  assert (l' = l) as ->; [|done]. eapply app_inv_tail. rewrite <- Hl. symmetry. apply (wk_queue _ _ _ _ W).
Qed.

Lemma node_step_ok n n' : node_ok n → node_step n n' → node_ok n'.
Proof.
  intros Hn Hs. destruct Hs as [p s c taken round p' s' l Hs Hl|p s c taken round x s' l Hs _ Hl|
    t s c taken round buffer node ep s' ->%call_state|t s c taken round s' B%other_call_background|
    t s taken round b s' Hs|t s taken round b s' _ ->%call_state].
  - destruct (thread_step_ok _ _ _ _ _ Hs Hl) as [W C]. eapply works_ok; [done..|]. by intros q [= <-].
  - eapply works_ok; [done|by eapply thread_throw_ok|done].
  - destruct (recv_queue buffer node ep s) as [[] _]. by eapply quiet_ok.
  - destruct B. by eapply quiet_ok.
  - pose proof (quiet_run _ s (quiet_commit_begin b)) as B. rewrite Hs in B. destruct B. by eapply quiet_ok.
  - destruct (executed_quiet _ _ _ (commit_end_executed b s)). by eapply quiet_ok.
Qed.

Lemma reachable_ok n : node_reachable n → node_ok n.
Proof. induction 1; [by apply started_ok|by eapply node_step_ok]. Qed.

(** ** The senders of the packets *)

(** Every packet the node holds or has taken came from a miner other than the
    node itself, in the state in which it was received. *)
Definition from_peers (past : list RaftNode) (n : RaftNode) : Prop :=
  Forall (λ p, was_peer past (rp_nodeId p)) (nd_taken n ++ nd_round n ++ r_msgQueue (nd_engine n)).

Lemma from_peers_step past n n' : from_peers past n → node_step n n' → from_peers (n :: past) n'.
Proof.
  intros Hn Hs. assert (from_peers (n :: past) n) as Hn'.
  { eapply list.Forall_impl; [exact Hn|]. intros p. apply was_peer_cons. }
  clear Hn. unfold from_peers in *. rewrite !Forall_app in *. destruct Hn' as (Hk & Hr & Hq).
  assert (∀ s', background (nd_engine n) s' → Forall (λ p, was_peer (n :: past) (rp_nodeId p)) (r_msgQueue s')) as Hb.
  { intros s' B. by rewrite (bg_queue _ _ B). }
  destruct Hs as [p s c taken round p' s' l Hs Hl|p s c taken round x s' l Hs _ Hl|
    t s c taken round buffer node ep s' ->%call_state|t s c taken round s' B%other_call_background|
    t s taken round b s' Hs|t s taken round b s' _ ->%call_state]; cbn in *.
  - rewrite Hl, Forall_app in Hq. destruct p; rewrite ?Forall_app; tauto.
  - rewrite Hl, Forall_app in Hq. destruct p; rewrite ?Forall_app; tauto.
  - destruct (recv_queue buffer node ep s) as (_ & l & -> & _ & Hl). rewrite Forall_app. split_and!; try done.
    eapply list.Forall_impl; [exact Hl|]. intros p Hp. eexists. split; [by left|done].
  - split_and!; [done..|]. by apply Hb.
  - pose proof (quiet_run _ s (quiet_commit_begin b)) as B. rewrite Hs in B. split_and!; [done..|]. by apply Hb.
  - split_and!; [done..|]. pose proof (executed_quiet _ _ _ (commit_end_executed b s)) as B. by apply (Hb _ B).
Qed.

Lemma run_from_peers past n : node_run past n → from_peers past n.
Proof.
  induction 1 as [n (s & Hf & Hs & _ & _ & Hk & Hr)|]; [|by eapply from_peers_step].
  unfold from_peers. destruct (start_ok s _ Hf Hs) as (_ & _ & _ & _ & ->). by rewrite Hk, Hr.
Qed.

(** ** Elections and commits *)

(** The senders of the granting packets of the round, in order. *)
Definition granters (n : RaftNode) : list bytes := rp_nodeId <$> filter (λ p, is_grant p = true) (nd_round n).

Lemma granters_peers past n id : from_peers past n → id ∈ granters n → was_peer past id.
Proof.
  unfold from_peers. rewrite !Forall_app, !list.Forall_forall. intros (_ & Hr & _).
  intros (p & -> & [_ Hp]%list_elem_of_filter)%list_elem_of_fmap. by apply Hr.
Qed.

Lemma granters_distinct n : NoDup (granters n) → grants (nd_round n) = Z.of_nat (size (list_to_set (C := gset bytes) (granters n))).
Proof. intros Hd. rewrite size_list_to_set by done. unfold granters, grants. by rewrite length_fmap. Qed.

Lemma acked_peer past n h node : from_peers past n → acked (nd_taken n) h node → was_peer past node.
Proof. unfold from_peers. rewrite !Forall_app, !list.Forall_forall. intros (Hk & _) (p & Hp & _ & <-). by apply Hk. Qed.

Definition role (n : RaftNode) : RaftRole := rv_state (r_votes (nd_engine n)).
Definition miners (n : RaftNode) : Z := rb_nodeNum (r_base (nd_engine n)).
Definition quorum (n : RaftNode) : Z := rb_nodeNum (r_base (nd_engine n)) - rb_f (r_base (nd_engine n)).

Lemma thread_elected p l s s' c taken round t' :
  node_ok (MkNode (Some p) s c taken round) → works p l s s' → rv_state (r_votes s) ≠ EN_STATE_LEADER →
  let n' := MkNode t' s' c (taken ++ l) (match p with AtLoop => l | _ => round ++ l end) in
  role n' = EN_STATE_LEADER → quorum n' ≤ 1 + grants (nd_round n') ∧ miners n' < 2 * (1 + grants (nd_round n')).
Proof.
  intros [T M V A] [WQ WA WR WT WM WC] Hf n' Hl. destruct (WR Hl) as [|He]; [done|].
  assert (quorum n' ≤ 1 + grants (nd_round n')) as Hq.
  { unfold quorum. subst n'. cbn in *. destruct p as [| | |vs]; cbn in He; try done.
    - pose proof (grants_nonneg l). lia.
    - specialize (V vs eq_refl). specialize (He (proj1 V)). rewrite grants_app. lia. }
  split; [done|]. unfold miners, quorum in *. destruct (WM M) as (M1 & M2 & M3). subst n'. cbn in *.
  pose proof (grants_nonneg (match p with AtLoop => l | _ => round ++ l end)).
  destruct (decide (0 < rb_nodeNum (r_base s'))); [specialize (M3 ltac:(done))|]; lia.
Qed.

Lemma step_elected n n' :
  node_ok n → node_step n n' → role n ≠ EN_STATE_LEADER → role n' = EN_STATE_LEADER →
  quorum n' ≤ 1 + grants (nd_round n') ∧ miners n' < 2 * (1 + grants (nd_round n')).
Proof.
  intros Hn Hs. destruct Hs as [p s c taken round p' s' l Hs Hl|p s c taken round x s' l Hs _ Hl|
    t s c taken round buffer node ep s' ->%call_state|t s c taken round s' B%other_call_background|
    t s taken round b s' Hs|t s taken round b s' _ ->%call_state]; intros Hf Ht.
  - destruct (thread_step_ok _ _ _ _ _ Hs Hl) as [W _]. by eapply thread_elected.
  - pose proof (thread_throw_ok _ _ _ _ _ Hs Hl) as W. by eapply thread_elected.
  - destruct (recv_queue buffer node ep s) as [B _]. by destruct (Hf (bg_role _ _ B Ht)).
  - by destruct (Hf (bg_role _ _ B Ht)).
  - pose proof (quiet_run _ s (quiet_commit_begin b)) as B. rewrite Hs in B. by destruct (Hf (bg_role _ _ B Ht)).
  - pose proof (executed_quiet _ _ _ (commit_end_executed b s)) as B. by destruct (Hf (bg_role _ _ B Ht)).
Qed.

(** [b] is what executing [blk] gave. *)
Definition result_of (blk b : Block) : Prop := ∃ s sl s', execBlock blk s = (Ok sl, s') ∧ b = sl_block sl.

(** [b] is a block executed whose hash distinct nodes acknowledged to this one,
    each a miner other than this one when it did, and these nodes and this one
    are more than half of the miners. *)
Definition majority_acked (past : list RaftNode) (n n' : RaftNode) (b : Block) : Prop :=
  ∃ blk h blk' (nodes : gset bytes),
    block_hash_of blk = Ok (h, blk') ∧ result_of blk' b ∧
    quorum n ≤ Z.of_nat (size nodes) + 1 ∧ miners n < 2 * (Z.of_nat (size nodes) + 1) ∧
    ∀ node, node ∈ nodes → acked (nd_taken n') h node ∧ was_peer (n :: past) node.

(** The sealer's call of [commit] went on with its argument. *)
Definition commit_resumed (n n' : RaftNode) (b : Block) : Prop :=
  ∃ blk, nd_commit n = Some blk ∧ nd_commit n' = None ∧ result_of blk b ∧ role n = EN_STATE_LEADER ∧
    rc_commitReady (r_commit (nd_engine n)) = true ∧
    header_bool (m_blockHeader (rc_uncommittedBlock (r_commit (nd_engine n)))) = true.

Definition commits_of (n : RaftNode) : list Block := committed (nd_engine n).

Lemma quorum_majority n k : node_ok n → 0 ≤ k → quorum n ≤ k + 1 → miners n < 2 * (k + 1).
Proof.
  intros [_ (M1 & M2 & M3) _ _]. unfold quorum, miners. intros Hk Hq.
  destruct (decide (0 < rb_nodeNum (r_base (nd_engine n)))); [specialize (M3 ltac:(done))|]; lia.
Qed.

Lemma works_commits past p s s' c taken round l t' :
  let n := MkNode (Some p) s c taken round in
  let n' := MkNode t' s' c (taken ++ l) (match p with AtLoop => l | _ => round ++ l end) in
  node_ok n → from_peers (n :: past) n' → works p l s s' →
  commits_of n' = commits_of n ∨ ∃ b, commits_of n' = b :: commits_of n ∧ majority_acked past n n' b.
Proof.
  intros n n' Hok Hp [WQ WA WR WT WM WC]. pose proof (quorum_majority n) as Hm. destruct (Hok) as [T M V A].
  destruct WC as [|(b & Hb & blk & h & blk' & nodes & s1 & sl & s2 & E1 & E2 & E3 & E4 & E5)]; [by left|].
  right. exists b. split; [done|]. exists blk, h, blk', nodes. split_and!; [done|by exists s1, sl, s2|done|apply Hm; [done|lia|done]|].
  intros node Hn. enough (acked (nd_taken n') h node) as Ha by (split; [done|by eapply acked_peer]).
  cbn. apply acked_app. destruct (E5 node Hn) as [|Hd]; [by right|]. left. cbn in A.
  destruct (rc_fingerPrint (r_commit s) !! h) as [ns|] eqn:E; [|set_solver]. by eapply A.
Qed.

Lemma commit_end_idle b s :
  header_bool (m_blockHeader (rc_uncommittedBlock (r_commit s))) = false ∨ rv_state (r_votes s) ≠ EN_STATE_LEADER →
  background s (snd (commit_end b s)).
Proof.
  intros Hi. unfold commit_end. apply (wp_state (background s)). apply wp_bind, wp_modify, wp_bind, wp_get.
  set (s1 := r_with_commit _ s). assert (background s s1) as B1 by by split.
  change (rc_uncommittedBlock (r_commit s1)) with (rc_uncommittedBlock (r_commit s)).
  destruct (header_bool _) eqn:E; cbn [negb].
  - apply wp_bind, wp_modify, wp_bind, wp_get. apply wp_if; intros Hl; [by apply wp_ret; split|].
    destruct Hi as [|Hi]; [done|]. by destruct Hl.
  - apply wp_quiet; [quiet_auto|intros; by etrans..].
Qed.

Lemma step_commits past n n' :
  node_ok n → from_peers past n → node_step n n' →
  commits_of n' = commits_of n ∨
  ∃ b, commits_of n' = b :: commits_of n ∧ (majority_acked past n n' b ∨ commit_resumed n n' b).
Proof.
  intros Hn Hp Hs. pose proof (from_peers_step _ _ _ Hp Hs) as Hp'. clear Hp. destruct Hs as [p s c taken round p' s' l Hs Hl|p s c taken round x s' l Hs _ Hl|
    t s c taken round buffer node ep s' ->%call_state|t s c taken round s' B%other_call_background|
    t s taken round b s' Hs|t s taken round b s' Hr ->%call_state].
  - destruct (thread_step_ok _ _ _ _ _ Hs Hl) as [W _].
    destruct (works_commits past _ _ _ _ _ _ _ (Some p') Hn Hp' W) as [|(b & Hb & Hm)]; [by left|eauto].
  - pose proof (thread_throw_ok _ _ _ _ _ Hs Hl) as W.
    destruct (works_commits past _ _ _ _ _ _ _ None Hn Hp' W) as [|(b & Hb & Hm)]; [by left|eauto].
  - left. apply (bg_commits _ _ (proj1 (recv_queue buffer node ep s))).
  - left. apply (bg_commits _ _ B).
  - left. pose proof (quiet_run _ s (quiet_commit_begin b)) as B. rewrite Hs in B. apply (bg_commits _ _ B).
  - destruct (header_bool (m_blockHeader (rc_uncommittedBlock (r_commit s)))) eqn:Eh;
      [|left; apply (bg_commits _ _ (commit_end_idle b s (or_introl Eh)))].
    destruct (decide (rv_state (r_votes s) = EN_STATE_LEADER)) as [Er|Er];
      [|left; apply (bg_commits _ _ (commit_end_idle b s (or_intror Er)))].
    destruct (commit_end_executed b s) as [B|(t1 & sl & t2 & Ex & Hc & _)]; [left; apply (bg_commits _ _ B)|].
    right. exists (sl_block sl). split; [done|]. right. exists b. split_and!; try done. by exists t1, sl, t2.
Qed.

(** ** Running the node *)

Inductive action :=
  | Work
  | Deliver (buffer node ep : bytes)
  | Report (b : Block)
  | Commit (b : Block)
  | Wake.

(** The effect of an action, if it can be taken. *)
Definition act (a : action) (n : RaftNode) : option RaftNode :=
  let 'MkNode t s c taken round := n in
  let ended {A} (r : res A) (n' : RaftNode) := match r with Ok _ => Some n' | Throw x => if StateErr.catchable x then Some n' else None end in
  match a with
  | Work =>
      match t with
      | None => None
      | Some p =>
          let '(r, s') := thread_step p s in
          let l := take (length (r_msgQueue s) - length (r_msgQueue s')) (r_msgQueue s) in
          ended r (MkNode (match r with Ok p' => Some p' | Throw _ => None end) s' c (taken ++ l)
                     (match p with AtLoop => l | _ => round ++ l end))
      end
  | Deliver buffer node ep => let '(r, s') := onRecvRaftMessage buffer node ep s in ended r (MkNode t s' c taken round)
  | Report b => let '(r, s') := reportBlock b s in ended r (MkNode t s' c taken round)
  | Commit b =>
      match c, commit_begin b s with None, (Ok _, s') => Some (MkNode t s' (Some b) taken round) | _, _ => None end
  | Wake =>
      match c with
      | None => None
      | Some b =>
          if rc_commitReady (r_commit s) then
            let '(r, s') := commit_end b s in ended r (MkNode t s' None taken round)
          else None
      end
  end.

Fixpoint drive (l : list action) (n : RaftNode) : option RaftNode :=
  match l with
  | [] => Some n
  | a :: l => n ← act a n; drive l n
  end.

Lemma act_step a n n' : act a n = Some n' → node_step n n'.
Proof.
  destruct n as [t s c taken round]. destruct a as [|buffer node ep|b|b|]; cbn [act].
  - destruct t as [p|]; [|done]. pose proof (thread_works p s) as W. unfold wp in W.
    destruct (thread_step p s) as [[p'|x] s'] eqn:E; cbn in *.
    + intros [= <-]. destruct W as (l & [Q _ _ _ _ _] & _). apply ns_thread; [done|].
      rewrite Q at 1. rewrite Q, length_app, Nat.add_sub, take_app_length. done.
    + destruct (StateErr.catchable x) eqn:Ex; [|done]. intros [= <-]. destruct W as (l & [Q _ _ _ _ _]).
      eapply ns_stop; [done..|]. rewrite Q at 1. rewrite Q, length_app, Nat.add_sub, take_app_length. done.
  - destruct (onRecvRaftMessage buffer node ep s) as [[u|x] s'] eqn:E; [|destruct (StateErr.catchable x) eqn:Ex; [|done]];
      intros [= <-]; apply (ns_recv t s c taken round buffer node ep); eexists; by split.
  - destruct (reportBlock b s) as [[u|x] s'] eqn:E; [|destruct (StateErr.catchable x) eqn:Ex; [|done]];
      intros [= <-]; apply ns_other, (oc_report b); eexists; by split.
  - destruct c; [done|]. destruct (commit_begin b s) as [[[]|x] s'] eqn:E; [|done]. intros [= <-]. by apply ns_commit.
  - destruct c as [b|]; [|done]. destruct (rc_commitReady (r_commit s)) eqn:Er; [|done].
    destruct (commit_end b s) as [[u|x] s'] eqn:E; [|destruct (StateErr.catchable x) eqn:Ex; [|done]];
      intros [= <-]; apply ns_wakeup; try done; eexists; by split.
Qed.

Lemma drive_reachable l n n' : node_reachable n → drive l n = Some n' → node_reachable n'.
Proof.
  revert n. induction l as [|a l IH]; intros n Hn; cbn; [by intros [= <-]|].
  destruct (act a n) as [n1|] eqn:Ea; [|done]. cbn. apply IH. eapply nr_step; [done|by apply (act_step a)].
Qed.
End system.
