(* ===== verification/RaftProps.v ===== *)
(** * A concrete Raft node

    The node of PBFTExample.v's world under the Raft engine: three miners, of
    which this is the first, with election timeouts of a few dozen clock
    readings. *)

From S2P Require Import Prelude StateErr RLP Hex Crypto PBFTMsg Transaction Block Engine PBFTEngine PBFTExample Table TextDecimal RaftMsg RaftEngine RaftFacts RaftRun RaftSystem.

Local Open Scope Z_scope.

Section example.
#[local] Existing Instance example_crypto.
#[local] Existing Instance example_env.
#[local] Existing Instance decimal_text.

Definition example_random : Random := {| rand n := Z.of_nat n |}.
Lemma example_random_laws : @RandomLaws example_random.
Proof. split. intros n. cbn. lia. Qed.
#[local] Existing Instance example_random.
#[local] Existing Instance example_random_laws.

(** The engine of the first of [miners], as constructed. *)
Definition rx_engine (miners : list bytes) : RaftEngine :=
  MkRaftEngine
    (MkRBase 0 BlockHeader0 0 0 ObserverAccount 0 miners true false false (ex_key 0) None 0 0)
    (MkRTimers 0 20 24 0 0 0 0 0 0 0 0 0 0)
    (MkRVote EN_STATE_FOLLOWER 0 0 0 0 InvalidIndex 0)
    (MkRCommit Block0 0 false false ∅ false)
    [] ∅ (ex_world miners) 0%nat 0%nat [].

Definition rx_node (miners : list bytes) : RaftNode := MkNode (Some AtLoop) (snd (start (rx_engine miners))) None [] [].

Lemma rx_node_reachable miners : fst (start (rx_engine miners)) = Ok tt → node_reachable (rx_node miners).
Proof.
  intros E. apply nr_init. exists (rx_engine miners). split.
  { split; [reflexivity|reflexivity|reflexivity|split; reflexivity|cbn; lia|cbn; lia]. }
  split; [|by split_and!]. unfold rx_node, nd_engine. rewrite <- E. apply surjective_pairing.
Qed.

(** The node after some actions. *)
Definition rx_run (miners : list bytes) (l : list action) : RaftNode := default (rx_node miners) (drive l (rx_node miners)).

Lemma rx_run_reachable miners l : fst (start (rx_engine miners)) = Ok tt → node_reachable (rx_run miners l).
Proof.
  intros E%rx_node_reachable. unfold rx_run. destruct (drive l (rx_node miners)) eqn:Ed; [|done].
  by eapply drive_reachable.
Qed.

Definition can (a : action) (n : RaftNode) : bool := match act a n with Some _ => true | None => false end.
Definition next (a : action) (n : RaftNode) : RaftNode := default n (act a n).

Lemma next_step a n : can a n = true → node_step n (next a n).
Proof. unfold can, next. destruct (act a n) eqn:E; [|done]. intros _. by apply (act_step a). Qed.

(** ** Three miners *)

Definition rx_three : list bytes := [ex_key 0; ex_key 1; ex_key 2].
Definition rx_genesis : Block := ex_block 0 h256_0 rx_three.
Definition rx_next : Block := ex_next rx_three.
(** Another block for the same height. *)
Definition rx_other : Block := ex_block 1 (ex_hash rx_genesis) [].

(** The messages peers send. *)
Definition rx_packet (fields : RLPStream → res RLPStream) (packetType : Z) : bytes :=
  match (s ← fields RLPStream0; d ← out s; transDataToMessage d packetType) with Ok b => b | Throw _ => [] end.
Definition rx_deliver (i : Z) (b : bytes) : action := Deliver b (ex_key i) [].
Definition rx_msg (i term : Z) : RaftMsg := MkRaftMsg i term 0 (ex_hash rx_genesis).
Definition rx_grant (i term : Z) : action :=
  rx_deliver i (rx_packet (voteResp_stream (MkVoteResp (rx_msg i term) VOTE_RESP_GRANTED 0)) RaftVoteRespPacket).
Definition rx_ack (i term : Z) (h : bytes) : action :=
  rx_deliver i (rx_packet (heartBeatResp_stream (MkHeartBeatResp (rx_msg i term) h)) RaftHeartBeatRespPacket).
Definition rx_vote_request (i term : Z) : action :=
  rx_deliver i (rx_packet (voteReq_stream (MkVoteReq (rx_msg i term) i 1 5)) RaftVoteReqPacket).
Definition rx_heartbeat (i term : Z) (b : Block) : action :=
  rx_deliver i (rx_packet (heartBeat_stream (MkHeartBeat (rx_msg i term) i
    match block_encode b with Ok d => fst d | Throw _ => [] end 1)) RaftHeartBeatPacket).

(** No message comes until the node is a candidate of term 1; the second node
    grants its vote. *)
Definition rx_campaign : list action := Report rx_genesis :: repeat Work 23.
Definition rx_candidate : list action := rx_campaign ++ [rx_grant 1 1].
Definition rx_leader : list action := rx_candidate ++ [Work; Work].

(** The node received a block from the leader of term 0, was elected and got
    an acknowledgement of the block. *)
Definition rx_acknowledged : list action :=
  [Report rx_genesis; Work; rx_heartbeat 1 0 rx_next; Work] ++ repeat Work 24 ++
  [rx_grant 1 1; Work; Work; rx_ack 1 1 (ex_hash rx_next)].

(** A leader whose sealer waits in [commit] loses its role to the second node,
    accepts that node's block and is elected again before the sealer runs. *)
Definition rx_late : list action :=
  rx_leader ++ [Commit rx_next; rx_heartbeat 1 2 rx_other; Work; Work; rx_heartbeat 1 2 rx_other; Work] ++
  repeat Work 26 ++ [rx_grant 2 3; Work].

(** A vote request whose data is empty. *)
Definition rx_malformed : list action := [Report rx_genesis; Work; rx_deliver 1 [128; 128]].

(** A leader of term 1 is asked twice for its vote in term 0. *)
Definition rx_asked : list action := rx_leader ++ [rx_vote_request 2 0; Work; rx_vote_request 2 0].

(** ** Five miners *)

Definition rx_five : list bytes := [ex_key 0; ex_key 1; ex_key 2; ex_key 3; ex_key 4].
(** The second node's vote arrives twice. *)
Definition rx_twice : list action := rx_campaign ++ [rx_grant 1 1; Work; rx_grant 1 1].
End example.

(** * The Raft engine: properties

    What holds along every run of the node, and runs that show what does not:
    a majority of granted votes before a leader, a majority of acknowledgements
    before the worker commits, the bounds of the election timeout. *)

Section props.
Context `{Crypto, NodeEnv, Text, Random, !RandomLaws}.

(** C15. A node becomes leader only in a step of the worker thread, after it
    took granted votes off the queue since the thread entered [runAsCandidate]
    whose number, its own vote included, is more than half of the miners. Each
    granting packet came from a miner other than the node itself when it was
    received. Packets are counted, not senders: where no miner's vote was taken
    twice, the voters and the node are more than half of the miners. *)
Theorem raft_election_majority past n n' :
  node_run past n → node_step n n' → role n ≠ EN_STATE_LEADER → role n' = EN_STATE_LEADER →
  let voters : gset bytes := list_to_set (granters n') in
  quorum n' ≤ 1 + grants (nd_round n') ∧ miners n' < 2 * (1 + grants (nd_round n')) ∧
  (∀ id, id ∈ voters → was_peer (n :: past) id) ∧
  (NoDup (granters n') → miners n' < 2 * (1 + Z.of_nat (size voters))).
Proof.
  intros Hr Hs Hf Hl voters. pose proof (from_peers_step _ _ _ (run_from_peers _ _ Hr) Hs) as Hp.
  apply run_reachable, reachable_ok in Hr. destruct (step_elected _ _ Hr Hs Hf Hl) as [Hq Hm].
  split_and!; [done..| |].
  - intros id Hi%elem_of_list_to_set. by eapply granters_peers.
  - intros Hd. unfold voters. by rewrite <- granters_distinct.
Qed.

(** C16. A step of the node hands at most one block to the chain: either the
    worker commits a block whose hash distinct nodes have acknowledged in
    packets the node took off its queue, each a miner other than the node
    itself when its packet was received, who with the node are more than half
    of the miners; or the sealer's call of [commit] wakes up on a leader that
    has a block pending and commits its argument. *)
Theorem raft_commit_majority past n n' :
  node_run past n → node_step n n' →
  commits_of n' = commits_of n ∨
  ∃ b, commits_of n' = b :: commits_of n ∧ (majority_acked past n n' b ∨ commit_resumed n n' b).
Proof.
  intros Hr. pose proof (run_from_peers _ _ Hr) as Hp. apply run_reachable, reachable_ok in Hr. by apply step_commits.
Qed.

End props.

Section examples.
#[local] Existing Instance example_crypto.
#[local] Existing Instance example_env.
#[local] Existing Instance decimal_text.
#[local] Existing Instance example_random.
#[local] Existing Instance example_random_laws.

Lemma raft_election_majority_witness :
  let n := rx_run rx_three rx_candidate in
  ∃ past, node_run past n ∧ granters (next Work n) = [ex_key 1] ∧ miners (next Work n) = 3 ∧
    was_peer (n :: past) (ex_key 1) ∧ miners (next Work n) < 2 * (1 + Z.of_nat (size (list_to_set (C := gset bytes) (granters (next Work n))))).
Proof.
  intros n. destruct (reachable_run n) as [past Hr].
  { apply rx_run_reachable. vm_compute. reflexivity. }
  assert (granters (next Work n) = [ex_key 1]) as Hg by (vm_compute; reflexivity).
  exists past. split; [exact Hr|]. split; [exact Hg|]. split; [vm_compute; reflexivity|].
  destruct (raft_election_majority past n (next Work n)) as (_ & _ & Hv & Hd).
  - exact Hr.
  - apply next_step. vm_compute. reflexivity.
  - intros E. apply (f_equal (λ r, bool_decide (r = EN_STATE_LEADER))) in E. vm_compute in E. discriminate E.
  - vm_compute. reflexivity.
  - split; [apply Hv; rewrite Hg; set_solver|]. apply Hd. rewrite Hg. apply NoDup_singleton.
Defined.

Lemma raft_commit_majority_witness :
  let n := rx_run rx_three rx_acknowledged in
  length (commits_of n) = 0%nat ∧ length (commits_of (next Work n)) = 1%nat ∧
  ∃ past, node_run past n ∧
    (commits_of (next Work n) = commits_of n ∨
     ∃ b, commits_of (next Work n) = b :: commits_of n ∧ (majority_acked past n (next Work n) b ∨ commit_resumed n (next Work n) b)).
Proof.
  split; [vm_compute; reflexivity|]. split; [vm_compute; reflexivity|].
  destruct (reachable_run (rx_run rx_three rx_acknowledged)) as [past Hr].
  { apply rx_run_reachable. vm_compute. reflexivity. }
  exists past. split; [exact Hr|]. apply (raft_commit_majority past (rx_run rx_three rx_acknowledged)).
  - exact Hr.
  - apply next_step. vm_compute. reflexivity.
Defined.


(** ** Runs the code allows *)

(** The sealer's block is committed although no miner acknowledged any block. *)
Example late_wakeup_commits :
  let n := next Wake (rx_run rx_three rx_late) in
  node_reachable n ∧ length (commits_of n) = 1%nat ∧
  Forall (λ p, rp_packetType p ≠ RaftHeartBeatRespPacket) (nd_taken n).
Proof.
  split; [|split].
  - eapply nr_step; [|apply next_step; vm_compute; reflexivity]. apply rx_run_reachable. vm_compute. reflexivity.
  - vm_compute. reflexivity.
  - apply (bool_decide_unpack (Forall _ _)). vm_compute. exact I.
Qed.

(** A vote request without data ends the worker thread. *)
Example malformed_stops_worker :
  let n := next Work (rx_run rx_three rx_malformed) in node_reachable n ∧ nd_thread n = None.
Proof.
  split; [|vm_compute; reflexivity].
  eapply nr_step; [|apply next_step; vm_compute; reflexivity]. apply rx_run_reachable. vm_compute. reflexivity.
Qed.

(** A leader grants a vote of an older term, whose term it takes. *)
Example leader_grants_older_term :
  let n := rx_run rx_three rx_asked in
  role n = EN_STATE_LEADER ∧ rv_term (r_votes (nd_engine n)) = 1 ∧
  role (next Work n) = EN_STATE_FOLLOWER ∧ rv_term (r_votes (nd_engine (next Work n))) = 0 ∧
  rv_vote (r_votes (nd_engine (next Work n))) = 2.
Proof. split_and!; vm_compute; reflexivity. Qed.

(** One node's vote, received twice, elects a leader of five miners. *)
Example duplicate_vote_elects :
  let n := next Work (rx_run rx_five rx_twice) in
  node_reachable n ∧ role n = EN_STATE_LEADER ∧ quorum n = 3 ∧
  Forall (λ p, rp_nodeId p = ex_key 1) (nd_taken n).
Proof.
  split_and!; [|vm_compute; reflexivity..|].
  - eapply nr_step; [|apply next_step; vm_compute; reflexivity]. apply rx_run_reachable. vm_compute. reflexivity.
  - apply (bool_decide_unpack (Forall _ _)). vm_compute. exact I.
Qed.
End examples.
