(* ===== verification/Heap.v ===== *)
(** * std::priority_queue

    A vector kept as a binary heap by the algorithms of libstdc++
    ([__push_heap] and [__adjust_heap] of bits/stl_heap.h), since which of
    several elements of equal priority comes first is theirs to decide. The
    comparison [comp a b] says that [a] has a lower priority than [b]. What
    the users of a queue rely on: its elements are those pushed and not
    popped, and the top is one that no other precedes. *)

From S2P Require Import Prelude.

Local Open Scope Z_scope.

(** [a] need not come after [b]. *)
Definition prior {A} (comp : A → A → bool) (a b : A) : Prop := comp a b = false.

(** The comparison is a strict weak order, as [std::priority_queue] requires. *)
Class StrictWeak {A} (comp : A → A → bool) : Prop := {
  prior_refl a : prior comp a a;
  prior_trans a b c : prior comp a b → prior comp b c → prior comp a c;
  prior_total a b : comp a b = true → prior comp b a;
}.

Section heap.
Context {A : Type} (comp : A → A → bool).

Definition parent (i : nat) : nat := (i - 1) / 2.

(** [__push_heap]: the hole moves up until [v] may be put into it. *)
Fixpoint push_up (fuel : nat) (l : list A) (hole : nat) (v : A) : list A :=
  match fuel, l !! parent hole with
  | S fuel, Some p =>
      if decide (0 < hole)%nat then
        if comp p v then push_up fuel (<[hole := p]> l) (parent hole) v else <[hole := v]> l
      else <[hole := v]> l
  | _, _ => <[hole := v]> l
  end.

(** [__adjust_heap]: the hole moves down to a leaf, then [v] up from there. *)
Fixpoint adjust (fuel : nat) (l : list A) (hole : nat) : list A * nat :=
  let second := (2 * (hole + 1))%nat in
  match fuel with
  | S fuel =>
      if decide (hole < (length l - 1) / 2)%nat then
        match l !! second, l !! (second - 1)%nat with
        | Some r, Some c =>
            if comp r c then adjust fuel (<[hole := c]> l) (second - 1)%nat else adjust fuel (<[hole := r]> l) second
        | _, _ => (l, hole)
        end
      else if decide (Nat.even (length l) = true ∧ hole = ((length l - 2) / 2)%nat) then
        match l !! (second - 1)%nat with Some c => (<[hole := c]> l, (second - 1)%nat) | None => (l, hole) end
      else (l, hole)
  | O => (l, hole)
  end.

Definition pq_push (x : A) (l : list A) : list A := push_up (length l) (l ++ [x]) (length l) x.

(** [pop] of a queue that is not empty. *)
Definition pq_pop (l : list A) : list A :=
  match l !! (length l - 1)%nat, take (length l - 1) l with
  | Some v, (_ :: _) as l' => let '(l', hole) := adjust (length l') l' 0 in push_up hole l' hole v
  | _, _ => []
  end.

Definition pq_top (l : list A) : option A := head l.

(** ** The heap property *)

Definition is_heap (l : list A) : Prop :=
  ∀ i p x, (0 < i)%nat → l !! parent i = Some p → l !! i = Some x → prior comp p x.

Context `{!StrictWeak comp}.

Lemma parent_lt i : (0 < i)%nat → (parent i < i)%nat.
Proof. unfold parent. intros. apply Nat.Div0.div_lt_upper_bound; lia. Qed.

Lemma parent_child i : (0 < i)%nat → i = (2 * parent i + 1)%nat ∨ i = (2 * parent i + 2)%nat.
Proof.
  intros Hi. unfold parent. pose proof (Nat.div_mod (i - 1) 2 ltac:(lia)). pose proof (Nat.mod_upper_bound (i - 1) 2 ltac:(lia)). lia.
Qed.

(** The top of a heap precedes every element. *)
Lemma heap_top l x i y : is_heap l → l !! 0%nat = Some x → l !! i = Some y → prior comp x y.
Proof.
  intros Hh H0. revert y. induction i as [i IH] using lt_wf_ind. intros y Hy.
  destruct (decide (i = 0%nat)) as [->|Hi]; [replace y with x by congruence; apply prior_refl|].
  pose proof (parent_lt i ltac:(lia)) as Hp. destruct (lookup_lt_is_Some_2 l (parent i)) as [p Ep].
  { apply lookup_lt_Some in Hy. lia. }
  eapply prior_trans; [by eapply IH|]. eapply Hh; [|done..]. lia.
Qed.

(** A heap with a hole: the edges at the hole are left open, but the elements
    below it may follow the one above it. *)
Record holed (l : list A) (h : nat) : Prop := {
  ho_edges i p x : (0 < i)%nat → i ≠ h → parent i ≠ h → l !! parent i = Some p → l !! i = Some x → prior comp p x;
  ho_skip i p x : (0 < h)%nat → (0 < i)%nat → parent i = h → l !! parent h = Some p → l !! i = Some x → prior comp p x;
  ho_inside : (h < length l)%nat;
}.

Lemma holed_up l h v p :
  holed l h → (0 < h)%nat → l !! parent h = Some p → comp p v = true →
  (∀ i x, (0 < i)%nat → parent i = h → l !! i = Some x → prior comp v x) →
  holed (<[h := p]> l) (parent h) ∧
  (∀ i x, (0 < i)%nat → parent i = parent h → <[h := p]> l !! i = Some x → prior comp v x).
Proof.
  intros [He Hs Hin] Hh Hp Hc Hv. pose proof (parent_lt h Hh) as Hlt. split; [split|].
  - intros i q x Hi Hih Hpi Hq Hx. rewrite list_lookup_insert_Some in Hq, Hx.
    destruct Hx as [(<- & _)|(Hne & Hx)]; [by destruct Hpi|].
    destruct Hq as [(Eh & <- & _)|(Hpe & Hq)]; [by eapply Hs|]. eapply He; [done| | |done|done]; congruence.
  - intros i q x Hph Hi Epi Hq Hx. rewrite list_lookup_insert_ne in Hq by (pose proof (parent_lt (parent h) Hph); lia).
    rewrite list_lookup_insert_Some in Hx. pose proof (He (parent h) q p Hph) as Hqp.
    pose proof (parent_lt (parent h) Hph). specialize (Hqp ltac:(lia) ltac:(lia) Hq Hp).
    destruct Hx as [(-> & <- & _)|(Hne & Hx)]; [done|]. eapply prior_trans; [exact Hqp|]. eapply (He i p x); [done|done| |by rewrite Epi|done].
    rewrite Epi. lia.
  - rewrite length_insert. lia.
  - intros i x Hi Epi Hx. apply prior_total in Hc. rewrite list_lookup_insert_Some in Hx.
    destruct Hx as [(-> & <- & _)|(Hne & Hx)]; [done|]. eapply prior_trans; [exact Hc|].
    eapply (He i p x); [done|done| |by rewrite Epi|done]. rewrite Epi. lia.
Qed.

Lemma holed_fill l h v :
  holed l h → ((0 < h)%nat → ∀ p, l !! parent h = Some p → prior comp p v) →
  (∀ i x, (0 < i)%nat → parent i = h → l !! i = Some x → prior comp v x) → is_heap (<[h := v]> l).
Proof.
  intros [He Hs Hin] Hp Hv i q x Hi Hq Hx. pose proof (parent_lt i Hi). rewrite list_lookup_insert_Some in Hq, Hx.
  destruct Hx as [(<- & <- & _)|(Hne & Hx)], Hq as [(Eh & Eq & _)|(Hpe & Hq)].
  - lia.
  - by apply Hp.
  - subst q. by eapply Hv.
  - by eapply He.
Qed.

Lemma push_up_heap fuel l h v :
  (h ≤ fuel)%nat → holed l h → (∀ i x, (0 < i)%nat → parent i = h → l !! i = Some x → prior comp v x) →
  is_heap (push_up fuel l h v).
Proof.
  revert l h. induction fuel as [|fuel IH]; intros l h Hf Hh Hv; cbn [push_up].
  { apply holed_fill; [done|lia|done]. }
  destruct (l !! parent h) as [p|] eqn:Ep.
  2: { exfalso. apply lookup_ge_None in Ep. destruct Hh as [_ _ Hin]. destruct (decide (h = 0%nat)) as [->|]; [cbn in Ep; lia|].
       pose proof (parent_lt h ltac:(lia)). lia. }
  destruct (decide (0 < h)%nat) as [H0|H0]; [|apply holed_fill; [done|lia|done]].
  destruct (comp p v) eqn:Ec.
  - destruct (holed_up l h v p Hh H0 Ep Ec Hv) as [Hh' Hv']. pose proof (parent_lt h H0). apply IH; [lia|done|done].
  - apply holed_fill; [done| |done]. intros _ q Hq. by replace q with p by congruence.
Qed.

(** ** The elements *)

Lemma insert_Permutation (l : list A) j y v : l !! j = Some y → y :: <[j := v]> l ≡ₚ v :: l.
Proof.
  revert j. induction l as [|a l IH]; intros j Hj; [done|]. destruct j as [|j]; cbn in *.
  - injection Hj as ->. constructor.
  - rewrite Permutation_swap, (IH j Hj). apply Permutation_swap.
Qed.

Lemma insert_swap_Permutation (l : list A) i j v x :
  i ≠ j → l !! i = Some x → (j < length l)%nat → <[i := v]> (<[j := x]> l) ≡ₚ <[j := v]> l.
Proof.
  intros Hij Hi Hj. destruct (lookup_lt_is_Some_2 l j Hj) as [y Hy].
  apply (Permutation_cons_inv (a := y)), (Permutation_cons_inv (a := x)).
  rewrite Permutation_swap, (insert_Permutation (<[j := x]> l) i x v) by (by rewrite list_lookup_insert_ne).
  rewrite Permutation_swap, (insert_Permutation l j y x Hy), (insert_Permutation l j y v Hy). apply Permutation_swap.
Qed.

Lemma push_up_Permutation fuel l h v : (h < length l)%nat → push_up fuel l h v ≡ₚ <[h := v]> l.
Proof.
  revert l h. induction fuel as [|fuel IH]; intros l h Hh; cbn [push_up]; [done|].
  destruct (l !! parent h) as [p|] eqn:Ep; [|done]. destruct (decide (0 < h)%nat) as [H0|H0]; [|done].
  destruct (comp p v); [|done]. pose proof (parent_lt h H0).
  rewrite IH by (rewrite length_insert; lia). apply insert_swap_Permutation; [lia|done|done].
Qed.

(** ** Moving the hole down *)

(** [s] is the child of the hole that comes first. *)
Lemma holed_down l h s c :
  holed l h → (0 < s)%nat → parent s = h → l !! s = Some c →
  (∀ i x, (0 < i)%nat → parent i = h → l !! i = Some x → prior comp c x) →
  holed (<[h := c]> l) s.
Proof.
  intros [He Hs Hin] Hs0 Es Hc Hbest. pose proof (parent_lt s Hs0) as Hlt. split.
  - intros i p x Hi Hih Hpi Hp Hx. rewrite list_lookup_insert_Some in Hp, Hx. pose proof (parent_lt i Hi).
    destruct Hx as [(-> & <- & _)|(Hne & Hx)], Hp as [(Eh & <- & _)|(Hpe & Hp)]; [apply prior_refl| | |].
    + by eapply (Hs s).
    + by eapply Hbest.
    + eapply He; [done| | |done|done]; [|done]. done.
  - intros i p x _ Hi Epi Hp Hx. rewrite Es in Hp. rewrite list_lookup_insert_eq in Hp by done. injection Hp as <-.
    rewrite list_lookup_insert_ne in Hx by (pose proof (parent_lt i Hi); lia).
    eapply (He i c x); [done| | |by rewrite Epi|done]; [pose proof (parent_lt i Hi); lia|lia].
  - rewrite length_insert. by apply lookup_lt_Some in Hc.
Qed.

Lemma child_cases i h : (0 < i)%nat → parent i = h → i = (2 * (h + 1) - 1)%nat ∨ i = (2 * (h + 1))%nat.
Proof. intros Hi <-. destruct (parent_child i Hi); lia. Qed.

Lemma parent_left h : parent (2 * (h + 1) - 1) = h.
Proof. unfold parent. replace (2 * (h + 1) - 1 - 1)%nat with (h * 2)%nat by lia. apply Nat.div_mul. lia. Qed.
Lemma parent_right h : parent (2 * (h + 1)) = h.
Proof.
  unfold parent. replace (2 * (h + 1) - 1)%nat with (1 + h * 2)%nat by lia. rewrite Nat.div_add by lia. done.
Qed.

(** Where [adjust] ends. *)
Definition settled (l : list A) (h : nat) (r : list A * nat) : Prop :=
  length (fst r) = length l ∧ holed (fst r) (snd r) ∧
  (∀ i, (0 < i)%nat → parent i = snd r → fst r !! i = None) ∧
  ∀ v, <[snd r := v]> (fst r) ≡ₚ <[h := v]> l.

Lemma settled_step l h s c r :
  (h < length l)%nat → (0 < s)%nat → parent s = h → l !! s = Some c →
  settled (<[h := c]> l) s r → settled l h r.
Proof.
  intros Hh Hs Es Hc (Hl & Hho & Hn & Hp). rewrite length_insert in Hl. split_and!; [done..|].
  intros v. rewrite Hp. pose proof (parent_lt s Hs). apply insert_swap_Permutation; [lia|done|done].
Qed.

Lemma adjust_settled fuel l h : holed l h → (length l ≤ h + fuel)%nat → (0 < fuel)%nat → settled l h (adjust fuel l h).
Proof.
  revert l h. induction fuel as [|fuel IH]; intros l h Hh Hf Hf0; [lia|]. cbn [adjust]. pose proof (ho_inside _ _ Hh) as Hin.
  assert (length l - 1 = 2 * ((length l - 1) / 2) + (length l - 1) `mod` 2)%nat as Ed by (apply Nat.div_mod; lia).
  pose proof (Nat.mod_upper_bound (length l - 1) 2 ltac:(lia)).
  destruct (decide _) as [Hlt|Hge].
  - destruct (lookup_lt_is_Some_2 l (2 * (h + 1))) as [r Hr]; [lia|].
    destruct (lookup_lt_is_Some_2 l (2 * (h + 1) - 1)) as [c Hc]; [lia|]. rewrite Hr, Hc. destruct (comp r c) eqn:Ecmp.
    + eapply settled_step; [done| |apply parent_left|exact Hc|]; [lia|]. apply IH; [|rewrite length_insert; lia|lia].
      eapply holed_down; [done|lia|apply parent_left|done|]. intros i x Hi Epi Hx.
      destruct (child_cases i h Hi Epi) as [->| ->]; [|apply prior_total; congruence]. replace x with c by congruence. apply prior_refl.
    + eapply settled_step; [done| |apply parent_right|exact Hr|]; [lia|]. apply IH; [|rewrite length_insert; lia|lia].
      eapply holed_down; [done|lia|apply parent_right|done|]. intros i x Hi Epi Hx.
      destruct (child_cases i h Hi Epi) as [->| ->]; [by replace x with c by congruence|]. replace x with r by congruence. apply prior_refl.
  - assert (∀ l' h', holed l' h' → length l' = length l → (length l ≤ 2 * (h' + 1) - 1)%nat → settled l' h' (l', h')) as Hend.
    { intros l' h' Hh' Hl' Hle. split_and!; try done. cbn. intros i Hi Epi. apply lookup_ge_None. destruct (child_cases i h' Hi Epi); lia. }
    destruct (decide _) as [[Hev Eh]|Hno].
    + apply Nat.even_spec in Hev as [k Hk].
      assert ((length l - 2) / 2 = k - 1)%nat as Ek by (rewrite Hk; replace (2 * k - 2)%nat with ((k - 1) * 2)%nat by lia; apply Nat.div_mul; lia).
      destruct (lookup_lt_is_Some_2 l (2 * (h + 1) - 1)) as [c Hc]; [lia|]. rewrite Hc.
      eapply settled_step; [done| |apply parent_left|exact Hc|]; [lia|]. apply Hend; [|by rewrite length_insert|lia].
      eapply holed_down; [done|lia|apply parent_left|done|]. intros i x Hi Epi Hx.
      destruct (child_cases i h Hi Epi) as [->| ->]; [replace x with c by congruence; apply prior_refl|].
      apply lookup_lt_Some in Hx. lia.
    + apply Hend; [done|done|]. destruct (Nat.even (length l)) eqn:Ev.
      * apply Nat.even_spec in Ev as [k Hk].
        assert ((length l - 2) / 2 = k - 1)%nat as Ek by (rewrite Hk; replace (2 * k - 2)%nat with ((k - 1) * 2)%nat by lia; apply Nat.div_mul; lia).
        assert (h ≠ (length l - 2) / 2)%nat by tauto. lia.
      * assert (Nat.Odd (length l)) as [k Hk] by (apply Nat.odd_spec; by rewrite <- Nat.negb_even, Ev). lia.
Qed.

(** ** The queue *)

Lemma heap_nil : is_heap [].
Proof. intros i p x _ Hp. done. Qed.

Lemma is_heap_prefix l k : is_heap l → is_heap (take k l).
Proof.
  intros Hh i p x Hi Hp Hx. apply lookup_take_Some in Hp as [Hp _]. apply lookup_take_Some in Hx as [Hx _]. by eapply Hh.
Qed.

Lemma push_Permutation x l : pq_push x l ≡ₚ x :: l.
Proof.
  unfold pq_push. rewrite push_up_Permutation by (rewrite length_app; cbn; lia).
  rewrite list_insert_id by (by rewrite lookup_app_r, Nat.sub_diag by lia). symmetry. apply Permutation_cons_append.
Qed.

Lemma push_heap x l : is_heap l → is_heap (pq_push x l).
Proof.
  intros Hh. apply push_up_heap; [done|split|].
  - intros i p y Hi Hne Hpe Hp Hy. apply lookup_lt_Some in Hy as Hlt. rewrite length_app in Hlt. cbn in Hlt.
    pose proof (parent_lt i Hi). rewrite lookup_app_l in Hp by lia. rewrite lookup_app_l in Hy by lia. by eapply Hh.
  - intros i p y Hh0 Hi Ei _ Hy. apply lookup_lt_Some in Hy. rewrite length_app in Hy. cbn in Hy.
    pose proof (parent_lt i Hi). lia.
  - rewrite length_app. cbn. lia.
  - intros i y Hi Ei Hy. apply lookup_lt_Some in Hy. rewrite length_app in Hy. cbn in Hy.
    pose proof (parent_lt i Hi). lia.
Qed.

Lemma holed_top l : is_heap l → l ≠ [] → holed l 0.
Proof.
  intros Hh Hl. split; [|lia|destruct l; [done|cbn; lia]]. intros i p x Hi _ _. by apply Hh.
Qed.

(** What [pq_pop] does to a queue of at least two elements. *)
Lemma pop_eq x y l :
  ∃ v t, x :: y :: l ≡ₚ x :: v :: t ∧ take (S (length l)) (x :: y :: l) = x :: t ∧
    pq_pop (x :: y :: l) = (let '(l', hole) := adjust (length (x :: t)) (x :: t) 0 in push_up hole l' hole v).
Proof.
  destruct (lookup_lt_is_Some_2 (y :: l) (length l)) as [v Hv]; [cbn; lia|].
  exists v, (take (length l) (y :: l)). split_and!; [|done|].
  - constructor. rewrite <- (take_drop_middle (y :: l) (length l) v Hv) at 1. rewrite drop_ge by (cbn; lia).
    by rewrite <- Permutation_cons_append.
  - unfold pq_pop. replace (length (x :: y :: l) - 1)%nat with (S (length l)) by (cbn; lia).
    change ((x :: y :: l) !! S (length l)) with ((y :: l) !! length l). by rewrite Hv.
Qed.

Lemma pop_spec x l : is_heap (x :: l) → is_heap (pq_pop (x :: l)) ∧ x :: l ≡ₚ x :: pq_pop (x :: l).
Proof.
  intros Hh. destruct l as [|y l]; [split; [apply heap_nil|done]|].
  destruct (pop_eq x y l) as (v & t & Hp & Ht & ->).
  assert (is_heap (x :: t)) as Hh' by (rewrite <- Ht; by apply is_heap_prefix).
  pose proof (adjust_settled (length (x :: t)) (x :: t) 0 (holed_top _ Hh' ltac:(done)) ltac:(lia) ltac:(cbn; lia)) as (Hl & Hho & Hn & Hv).
  destruct (adjust _ _ _) as [l' hole]. cbn [fst snd] in *. split.
  - apply push_up_heap; [done|done|]. intros i z Hi Ei Hz. by rewrite (Hn i Hi Ei) in Hz.
  - rewrite Hp, push_up_Permutation by apply (ho_inside _ _ Hho). by rewrite (Hv v).
Qed.

Lemma top_prior x l y : is_heap (x :: l) → y ∈ x :: l → prior comp x y.
Proof. intros Hh [i Hi]%list_elem_of_lookup. by eapply heap_top. Qed.
End heap.
