(* ===== verification/SyncMsg.v ===== *)
(** * Messages of the block synchronisation

    libsync/Common.h (constants) and libsync/SyncMsgPacket.h/.cpp: a packet is
    one byte, its type plus [c_syncPacketIDBase], followed by one RLP list. *)

From S2P Require Import Prelude RLP RLPFacts RLPStreamFacts CodecFacts Hex Crypto.

Local Open Scope Z_scope.

(** ** Constants *)

Definition c_maxSendTransactions : Z := 128.
Definition c_maxRequestBlocks : Z := 32.
Definition c_maxRequestShards : Z := 4.
Definition c_downloadingRequestTimeout : Z := c_maxRequestBlocks * 1000.
Definition c_maxDownloadingBlockQueueSize : Z := c_maxRequestBlocks * 128.
Definition c_maxDownloadingBlockQueueBufferSize : Z := c_maxRequestShards * 8.
Definition c_maxReceivedDownloadRequestPerPeer : Z := 8.
Definition c_respondDownloadRequestTimeout : Z := 200.
Definition c_syncPacketIDBase : Z := 1.
Definition P2PMessage_MAX_LENGTH : Z := 1024 * 1024.
Definition c_maxPayload : Z := P2PMessage_MAX_LENGTH - 2048.
Definition c_maintainBlocksTimeout : Z := 5000.

(** [SyncPacketType], a byte: a message may carry any value. *)
Definition StatusPacket : Z := 0.
Definition TransactionsPacket : Z := 1.
Definition BlocksPacket : Z := 2.
Definition ReqBlocskPacket : Z := 3.

Inductive SyncState := Idle | Downloading | SyncSize.

#[global] Instance SyncState_eq_dec : EqDecision SyncState.
Proof. solve_decision. Defined.

Record SyncPeerInfo := MkPeerInfo {
  pi_nodeId : bytes;
  pi_number : Z;                (* int64_t *)
  pi_genesisHash : bytes;
  pi_latestHash : bytes;
}.

(** ** Sending *)

Definition prep (s : RLPStream) (id args : Z) : res RLPStream :=
  s ← appendRaw s [u8 (id + c_syncPacketIDBase)] 1;
  appendList s args.

(** [_number] is an [int64_t] and matches [append(unsigned)]. *)
Definition status_encode (number : Z) (genesisHash latestHash : bytes) : res bytes :=
  s ← prep RLPStream0 StatusPacket 3;
  s ← append_unsigned s number;
  s ← append_bytes s genesisHash false;
  s ← append_bytes s latestHash false;
  out s.

Definition transactions_encode (txsSize : Z) (txRLPs : bytes) : res bytes :=
  s ← prep RLPStream0 TransactionsPacket txsSize;
  s ← appendRaw s txRLPs txsSize;
  out s.

Fixpoint append_blocks (s : RLPStream) (blockRLPs : list bytes) : res RLPStream :=
  match blockRLPs with
  | [] => Ok s
  | b :: blockRLPs => s ← append_bytes s b false; append_blocks s blockRLPs
  end.

Definition blocks_encode (blockRLPs : list bytes) : res bytes :=
  s ← prep RLPStream0 BlocksPacket (u32 (Z.of_nat (length blockRLPs)));
  s ← append_blocks s blockRLPs;
  out s.

Definition blocks_singleEncode (blockRLP : bytes) : res bytes :=
  s ← prep RLPStream0 BlocksPacket 1;
  s ← append_bytes s blockRLP false;
  out s.

Definition reqBlock_encode (from size : Z) : res bytes :=
  s ← prep RLPStream0 ReqBlocskPacket 2;
  s ← append_unsigned s from;
  s ← append_unsigned s size;
  out s.

(** ** Receiving *)

Record SyncMsgPacket := MkSyncPacket {
  sp_packetType : Z;            (* byte *)
  sp_nodeId : bytes;
  sp_rlp : bytes;               (* m_rlp *)
}.

(** [SyncMsgPacket::checkPacket] and [SyncMsgEngine::checkMessage]: the
    constructor of [RLP] throws before a size could differ. *)
Definition checkPacket (msg : bytes) : res bool :=
  if decide (len msg < 2 ∨ 0x7f < byte_at msg 0) then Ok false
  else
    r ← RLP_new (cropped_from msg 1) VeryStrict;
    a ← actualSize r;
    Ok (bool_decide (u64 (a + 1) = len msg)).

Definition sync_decode (nodeId frame : bytes) : res (option SyncMsgPacket) :=
  ok ← checkPacket frame;
  if negb ok then Ok None
  else
    r0 ← RLP_new (cropped frame 0 1) VeryStrict;
    t ← toInt 4 u32 r0 Strict;
    r1 ← RLP_new (cropped_from frame 1) VeryStrict;
    Ok (Some (MkSyncPacket (u8 (u32 (t - c_syncPacketIDBase))) nodeId r1)).

(** The status a peer reports; [None] if the packet has not three fields. *)
Definition status_decode (p : SyncMsgPacket) : res (option SyncPeerInfo) :=
  n ← itemCount (sp_rlp p);
  if decide (n ≠ 3) then Ok None
  else
    '(f0, c) ← rlp_index (sp_rlp p) rlp_cache0 0;
    number ← toInt_i64 f0 Strict;
    '(f1, c) ← rlp_index (sp_rlp p) c 1;
    g ← toHash h256_size f1 Strict;
    '(f2, _) ← rlp_index (sp_rlp p) c 2;
    l ← toHash h256_size f2 Strict;
    Ok (Some (MkPeerInfo (sp_nodeId p) number g l)).

(** The range a peer asks for. *)
Definition reqBlock_decode (p : SyncMsgPacket) : res (option (Z * Z)) :=
  n ← itemCount (sp_rlp p);
  if decide (n ≠ 2) then Ok None
  else
    '(f0, c) ← rlp_index (sp_rlp p) rlp_cache0 0;
    from ← toInt_i64 f0 Strict;
    '(f1, _) ← rlp_index (sp_rlp p) c 1;
    size ← toInt 4 u32 f1 Strict;
    Ok (Some (from, size)).

(** * Messages of the block synchronisation: round trips

    A packet [prep] starts and fills with items is read back as its type and
    the list of the items. *)

(** The bytes of a packet. *)
Definition sync_packet (id : Z) (es : list bytes) : bytes := [id + c_syncPacketIDBase] ++ enc_list (concat es).

Lemma enc_small i : 1 ≤ i < 128 → enc_data (minimal i) = [i].
Proof.
  intros Hi. assert (∃ n : nat, (n < 127)%nat ∧ i = Z.of_nat (S n)) as (n & Hn & ->) by (exists (Z.to_nat (i - 1)); lia).
  clear Hi. do 127 (destruct n as [|n]; [vm_compute; reflexivity|]). lia.
Qed.

Lemma prep_items id es :
  0 ≤ id < 0x7f → len (concat es) < 2 ^ 63 →
  (s ← prep RLPStream0 id (Z.of_nat (length es)); s ← add_items es s; out s) = Ok (sync_packet id es).
Proof.
  intros Hid Hl. unfold prep. unfold c_syncPacketIDBase. rewrite u8_small by lia.
  change (appendRaw RLPStream0 [id + 1] 1) with (Ok (Stream [id + 1] [])). rewrite bind_ok.
  pose proof (appendList_items es (Stream [id + 1] []) Hl) as Ha. rewrite (add_item_top (enc_list _)) in Ha.
  destruct (appendList (Stream [id + 1] []) (Z.of_nat (length es))) as [s|]; [|done]. rewrite bind_ok in Ha. by rewrite bind_ok, Ha, bind_ok.
Qed.

Lemma sync_decode_packet node id es :
  0 ≤ id < 0x7f → len (concat es) < 2 ^ 62 →
  sync_decode node (sync_packet id es) = Ok (Some (MkSyncPacket id node (enc_list (concat es)))).
Proof.
  intros Hid Hl. destruct (list_decode es ltac:(lia)) as (_ & _ & Hn). pose proof (reads_list (concat es) ltac:(lia)) as R.
  pose proof (reads_pos _ _ R) as Hpos. pose proof (len_enc_list_le (concat es) ltac:(lia)) as Hle.
  unfold sync_decode, checkPacket, sync_packet, c_syncPacketIDBase. set (L := enc_list (concat es)) in *.
  rewrite decide_False by (cbn [app]; rewrite len_cons, byte_at_0; lia).
  assert (cropped_from ([id + 1] ++ L) 1 = L) as -> by apply (cropped_from_app [id + 1] L).
  rewrite Hn, bind_ok. pose proof (reads_actual _ _ R []) as Ha. rewrite app_nil_r in Ha. rewrite Ha, !bind_ok.
  rewrite bool_decide_true by (rewrite u64_small by lia; cbn [app]; rewrite len_cons; lia). cbn [negb].
  assert (cropped ([id + 1] ++ L) 0 1 = [id + 1]) as ->.
  { apply (cropped_mid [] [id + 1] L 1); [done|]. cbn [app]. rewrite len_cons. lia. }
  rewrite <- (enc_small (id + 1)) by lia.
  destruct (reads_some_minimal (id + 1)) as [q R1]; [lia|].
  rewrite (reads_RLP_new _ _ R1), bind_ok, toInt_enc_minimal, bind_ok by (lia || (intros; apply u32_small; lia)).
  rewrite bind_ok. replace (id + 1 - 1) with id by lia. by rewrite u32_small, u8_small by lia.
Qed.

(** ** Reading the fields *)

Lemma itemCount_list es :
  Forall reads_some es → len (concat es) < 2 ^ 63 → itemCount (enc_list (concat es)) = Ok (Z.of_nat (length es)).
Proof.
  intros Hes Hl. destruct (list_decode es Hl) as (Hlist & _). unfold itemCount. rewrite decide_True by done. by apply items_enc_list.
Qed.

Definition status_items (number : Z) (g l : bytes) : list bytes := [enc_data (minimal (u32 number)); enc_data g; enc_data l].
Definition req_items (from size : Z) : list bytes := [enc_data (minimal (u32 from)); enc_data (minimal (u32 size))].

Lemma len_u32_item i : len (enc_data (minimal (u32 i))) ≤ 41.
Proof. apply len_enc_minimal_le. pose proof (u32_range i). lia. Qed.

Lemma len_hash_item h : hash_ok h256_size h → len (enc_data h) ≤ 41.
Proof. intros [_ Hl]. unfold h256_size in Hl. pose proof (len_enc_data_le h). lia. Qed.

Lemma reads_u32_item i : reads_some (enc_data (minimal (u32 i))).
Proof. apply reads_some_minimal. pose proof (u32_range i). lia. Qed.

Lemma reads_hash_item h : hash_ok h256_size h → reads_some (enc_data h).
Proof. intros [Hb Hl]. unfold h256_size in Hl. apply reads_some_data; [done|lia]. Qed.

Lemma status_wire node number g l :
  hash_ok h256_size g → hash_ok h256_size l →
  (m ← status_encode number g l; p ← sync_decode node m; Ok p)
    = Ok (Some (MkSyncPacket StatusPacket node (enc_list (concat (status_items number g l))))) ∧
  status_decode (MkSyncPacket StatusPacket node (enc_list (concat (status_items number g l))))
    = Ok (Some (MkPeerInfo node (u32 number) g l)).
Proof.
  intros Hg Hl. pose proof (len_u32_item number). pose proof (len_hash_item g Hg). pose proof (len_hash_item l Hl).
  set (es := status_items number g l).
  assert (len (concat es) < 2 ^ 62) as Hlen by (cbn [es status_items concat]; rewrite !len_app, len_nil; lia).
  assert (Forall reads_some es) as Hes by (repeat apply Forall_cons_2; auto using reads_u32_item, reads_hash_item, Forall_nil_2).
  destruct Hg as [Hg1 Hg2], Hl as [Hl1 Hl2]. unfold h256_size in *. split.
  - assert (status_encode number g l = Ok (sync_packet StatusPacket es)) as ->.
    { rewrite <- (prep_items StatusPacket es) by (unfold StatusPacket; lia). unfold status_encode. change (Z.of_nat (length es)) with 3.
      destruct (prep RLPStream0 StatusPacket 3) as [s|]; [|done]. rewrite !bind_ok. unfold es, status_items. cbn [add_items].
      rewrite append_unsigned_enc. destruct (add_item _ s) as [s1|]; [|done]. rewrite !bind_ok.
      rewrite append_bytes_enc by lia. destruct (add_item _ s1) as [s2|]; [|done]. rewrite !bind_ok.
      rewrite append_bytes_enc by lia. by destruct (add_item _ s2). }
    rewrite bind_ok, sync_decode_packet by (unfold StatusPacket; lia). done.
  - unfold status_decode. cbn [sp_rlp sp_nodeId]. rewrite (itemCount_list es), bind_ok by (done || lia). change (Z.of_nat (length es)) with 3. rewrite decide_False by lia.
    pose proof (rlp_index_field (enc_list (concat es)) es (reads_payload_self _ _ (reads_list (concat es) ltac:(lia))) Hes ltac:(lia)) as H'.
    pose proof (u32_range number).
    read_field H' 0. rewrite toInt_i64_enc, bind_ok by lia.
    read_field H' 1. rewrite toHash_enc_data, bind_ok by (done || lia).
    read_field H' 2. by rewrite toHash_enc_data, bind_ok by (done || lia).
Qed.

Lemma reqBlock_encode_packet from size : reqBlock_encode from size = Ok (sync_packet ReqBlocskPacket (req_items from size)).
Proof.
  pose proof (len_u32_item from). pose proof (len_u32_item size). set (es := req_items from size).
  assert (len (concat es) < 2 ^ 62) as Hlen by (cbn [es req_items concat]; rewrite !len_app, len_nil; lia).
  rewrite <- (prep_items ReqBlocskPacket es) by (unfold ReqBlocskPacket; lia). unfold reqBlock_encode. change (Z.of_nat (length es)) with 2.
  destruct (prep RLPStream0 ReqBlocskPacket 2) as [s|]; [|done]. rewrite !bind_ok. unfold es, req_items. cbn [add_items].
  rewrite append_unsigned_enc. destruct (add_item _ s) as [s1|]; [|done]. rewrite !bind_ok.
  rewrite append_unsigned_enc. by destruct (add_item _ s1).
Qed.

Lemma reqBlock_wire node from size :
  (m ← reqBlock_encode from size; p ← sync_decode node m; Ok p)
    = Ok (Some (MkSyncPacket ReqBlocskPacket node (enc_list (concat (req_items from size))))) ∧
  reqBlock_decode (MkSyncPacket ReqBlocskPacket node (enc_list (concat (req_items from size)))) = Ok (Some (u32 from, u32 size)).
Proof.
  pose proof (len_u32_item from). pose proof (len_u32_item size). set (es := req_items from size).
  assert (len (concat es) < 2 ^ 62) as Hlen by (cbn [es req_items concat]; rewrite !len_app, len_nil; lia).
  assert (Forall reads_some es) as Hes by (repeat apply Forall_cons_2; auto using reads_u32_item, Forall_nil_2).
  split.
  - rewrite reqBlock_encode_packet. fold es.
    rewrite bind_ok, sync_decode_packet by (unfold ReqBlocskPacket; lia). done.
  - unfold reqBlock_decode. cbn [sp_rlp]. rewrite (itemCount_list es), bind_ok by (done || lia). change (Z.of_nat (length es)) with 2. rewrite decide_False by lia.
    pose proof (rlp_index_field (enc_list (concat es)) es (reads_payload_self _ _ (reads_list (concat es) ltac:(lia))) Hes ltac:(lia)) as H'.
    pose proof (u32_range from). pose proof (u32_range size).
    read_field H' 0. rewrite toInt_i64_enc, bind_ok by lia.
    read_field H' 1. by rewrite toInt_enc_minimal, bind_ok by (lia || (intros; apply u32_small; lia)).
Qed.
