(* ===== verification/SyncQueue.v ===== *)
(** * The queues of the block synchronisation

    libsync/RspBlockReq.h/.cpp (the requests a peer has made),
    libsync/DownloadingBlockQueue.h/.cpp (the blocks received and not yet
    executed) and [DownloadBlocksContainer] of libsync/SyncMsgEngine.cpp (the
    blocks on their way to a peer). Each class is a record, each method a
    definition; [std::priority_queue] is Heap.v. *)

From S2P Require Import Prelude StateErr RLP Crypto Transaction Block Engine Heap SyncMsg.

Local Open Scope Z_scope.

(** ** Requests of a peer *)

Record DownloadRequest := MkRequest { dr_fromNumber : Z; dr_size : Z }.    (* int64_t *)

(** [RequestQueueCmp]. *)
Definition request_cmp (a b : DownloadRequest) : bool :=
  if decide (dr_fromNumber a = dr_fromNumber b) then bool_decide (dr_size a < dr_size b)
  else bool_decide (dr_fromNumber b < dr_fromNumber a).

Record DownloadRequestQueue := MkRequestQueue {
  rq_reqQueue : list DownloadRequest;
  rq_locked : bool;             (* x_canPush is held *)
}.
Definition DownloadRequestQueue0 : DownloadRequestQueue := MkRequestQueue [] false.

Definition req_push (fromNumber size : Z) (q : DownloadRequestQueue) : DownloadRequestQueue :=
  if rq_locked q then q
  else if decide (c_maxReceivedDownloadRequestPerPeer ≤ Z.of_nat (length (rq_reqQueue q))) then q
  else MkRequestQueue (pq_push request_cmp (MkRequest fromNumber size) (rq_reqQueue q)) false.

(** The loop of [topAndPop]: the size so far, and the queue. *)
Fixpoint merge_tops (fuel : nat) (fromNumber size : Z) (q : list DownloadRequest) : res (Z * list DownloadRequest) :=
  match fuel, pq_top q with
  | S fuel, Some top =>
      e ← add_i64 fromNumber size;
      if decide (dr_fromNumber top ≤ e) then
        t ← add_i64 (dr_fromNumber top) (dr_size top);
        t ← add_i64 t (- fromNumber);
        merge_tops fuel fromNumber (size `max` t) (pq_pop request_cmp q)
      else Ok (size, q)
  | _, _ => Ok (size, q)
  end.

Definition topAndPop (q : DownloadRequestQueue) : res (DownloadRequest * DownloadRequestQueue) :=
  match pq_top (rq_reqQueue q) with
  | None => Ok (MkRequest 0 0, q)
  | Some top =>
      '(size, l) ← merge_tops (length (rq_reqQueue q)) (dr_fromNumber top) 0 (rq_reqQueue q);
      Ok (MkRequest (dr_fromNumber top) size, MkRequestQueue l (rq_locked q))
  end.

Definition req_empty (q : DownloadRequestQueue) : bool := bool_decide (rq_reqQueue q = []).

(** Locking a mutex one holds, or unlocking one that is free, is undefined. *)
Definition disablePush (q : DownloadRequestQueue) : res DownloadRequestQueue :=
  throw_if (rq_locked q = true) UB;; Ok (MkRequestQueue (rq_reqQueue q) true).
Definition enablePush (q : DownloadRequestQueue) : res DownloadRequestQueue :=
  throw_if (rq_locked q = false) UB;; Ok (MkRequestQueue (rq_reqQueue q) false).

(** ** Downloaded blocks *)

Definition block_number (b : Block) : Z := m_number (m_blockHeader b).

(** [BlockQueueCmp]. *)
Definition block_cmp (a b : Block) : bool := bool_decide (block_number b < block_number a).

(** A [DownloadBlocksShard] is the bytes of its blocks; its two numbers are
    always 0. *)
Record DownloadingBlockQueue := MkBlockQueue {
  bq_blocks : list Block;
  bq_buffer : list bytes;
}.
Definition DownloadingBlockQueue0 : DownloadingBlockQueue := MkBlockQueue [] [].

Section blocks.
Context `{Crypto}.
Abbreviation QM := (SM DownloadingBlockQueue).

(** [push(RLP const&)]. *)
Definition bq_push (rlps : bytes) (q : DownloadingBlockQueue) : DownloadingBlockQueue :=
  if decide (c_maxDownloadingBlockQueueBufferSize ≤ Z.of_nat (length (bq_buffer q))) then q
  else MkBlockQueue (bq_blocks q) (bq_buffer q ++ [rlps]).

(** [push(BlockPtrVec)]. *)
Fixpoint append_rlps (s : RLPStream) (blocks : list Block) : res RLPStream :=
  match blocks with
  | [] => Ok s
  | b :: blocks => '(d, _) ← block_encode b; s ← append_bytes s d false; append_rlps s blocks
  end.
Definition bq_push_blocks (blocks : list Block) (q : DownloadingBlockQueue) : res DownloadingBlockQueue :=
  s ← appendList RLPStream0 (Z.of_nat (length blocks));
  s ← append_rlps s blocks;
  d ← out s;
  r ← RLP_new d VeryStrict;
  Ok (bq_push r q).

Definition bq_empty (q : DownloadingBlockQueue) : bool := bool_decide (bq_blocks q = [] ∧ bq_buffer q = []).
Definition bq_size (q : DownloadingBlockQueue) : Z := Z.of_nat (length (bq_buffer q)) + Z.of_nat (length (bq_blocks q)).

Definition bq_pop (q : DownloadingBlockQueue) : DownloadingBlockQueue :=
  MkBlockQueue (pq_pop block_cmp (bq_blocks q)) (bq_buffer q).

Definition clearQueue (q : DownloadingBlockQueue) : DownloadingBlockQueue := MkBlockQueue [] (bq_buffer q).
Definition bq_clear (q : DownloadingBlockQueue) : DownloadingBlockQueue := clearQueue (MkBlockQueue (bq_blocks q) []).

(** [isNewerBlock]; [None] is a null [m_blockChain]. *)
Definition isNewerBlock (chain : option Z) (b : Block) : bool :=
  match chain with Some n => bool_decide (n < block_number b) | None => true end.

(** One block of a shard. *)
Definition import_item (chain : option Z) (item : bytes) : QM unit :=
  stry
    (d ← slift (toBytes item LaissezFaire);
     b ← slift (block_decode d);
     swhen (isNewerBlock chain b = true)
       (smodify (λ q, MkBlockQueue (pq_push block_cmp b (bq_blocks q)) (bq_buffer q))))
    (λ _, mret tt).

(** The items [i .. i + n - 1] of a shard; [rlps[i]] is inside the [try] block. *)
Fixpoint import_items (chain : option Z) (n : nat) (i : Z) (rlps : bytes) (c : rlp_cache) : QM unit :=
  match n with
  | O => mret tt
  | S n =>
      match rlp_access rlps c i with
      | (Ok item, c) => import_item chain item;; import_items chain n (i + 1) rlps c
      | (Throw e, c) => if StateErr.catchable e then import_items chain n (i + 1) rlps c else sthrow e
      end
  end.

Definition import_shard (chain : option Z) (shard : bytes) : QM unit :=
  rlps ← slift (RLP_new shard VeryStrict);
  n ← slift (itemCount rlps);
  import_items chain (Z.to_nat (u32 n)) 0 rlps rlp_cache0.

Fixpoint import_shards (chain : option Z) (shards : list bytes) : QM unit :=
  match shards with
  | [] => mret tt
  | s :: shards =>
      q ← sget;
      if decide (c_maxDownloadingBlockQueueSize ≤ Z.of_nat (length (bq_blocks q))) then mret tt
      else import_shard chain s;; import_shards chain shards
  end.

Definition flushBufferToQueue (chain : option Z) : QM unit :=
  q ← sget;
  smodify (λ q, MkBlockQueue (bq_blocks q) []);;
  import_shards chain (bq_buffer q).

Definition bq_top (chain : option Z) (isFlushBuffer : bool) : QM (option Block) :=
  swhen (isFlushBuffer = true) (flushBufferToQueue chain);;
  q ← sget;
  mret (pq_top (bq_blocks q)).

Definition clearFullQueueIfNotHas (blockNumber : Z) (q : DownloadingBlockQueue) : DownloadingBlockQueue :=
  if decide (Z.of_nat (length (bq_blocks q)) = c_maxDownloadingBlockQueueSize) then
    match pq_top (bq_blocks q) with
    | Some top => if decide (blockNumber < block_number top) then clearQueue q else q
    | None => q
    end
  else q.

(** ** Blocks on their way to a peer *)

Record DownloadBlocksContainer := MkContainer {
  dc_batch : list bytes;        (* m_blockRLPsBatch *)
  dc_batchSize : Z;             (* m_currentBatchSize, size_t *)
  dc_sent : list bytes;         (* the messages handed to m_service, in order *)
}.
Definition DownloadBlocksContainer0 : DownloadBlocksContainer := MkContainer [] 0 [].

Definition clearBatchAndSend (c : DownloadBlocksContainer) : res DownloadBlocksContainer :=
  if decide (dc_batch c = []) then Ok c
  else
    msg ← blocks_encode (dc_batch c);
    Ok (MkContainer [] 0 (dc_sent c ++ [msg])).

Definition sendBigBlock (blockRLP : bytes) (c : DownloadBlocksContainer) : res DownloadBlocksContainer :=
  msg ← blocks_singleEncode blockRLP;
  Ok (MkContainer (dc_batch c) (dc_batchSize c) (dc_sent c ++ [msg])).

(** [batchAndSend] of a block whose encoding is [blockRLP]. *)
Definition batch_rlp (blockRLP : bytes) (c : DownloadBlocksContainer) : res DownloadBlocksContainer :=
  if decide (c_maxPayload < len blockRLP) then sendBigBlock blockRLP c
  else
    c ← (if decide (c_maxPayload < u64 (dc_batchSize c + len blockRLP)) then clearBatchAndSend c else Ok c);
    Ok (MkContainer (dc_batch c ++ [blockRLP]) (u64 (dc_batchSize c + len blockRLP)) (dc_sent c)).

Definition batchAndSend (b : Block) (c : DownloadBlocksContainer) : res DownloadBlocksContainer :=
  '(blockRLP, _) ← block_encode b;
  batch_rlp blockRLP c.
End blocks.
