(* ===== verification/SyncQueueFacts.v ===== *)
(** * The queues of the block synchronisation: properties

    A request queue merges overlapping requests without losing or inventing a
    block number; a block queue hands out the lowest number first; the batches
    sent to a peer hold the blocks they were given. *)

From S2P Require Import Prelude StateErr RLP RLPFacts RLPStreamFacts CodecFacts Crypto Transaction Block Engine Heap SyncMsg SyncQueue.

Local Open Scope Z_scope.

(** ** The orders *)

Lemma request_prior a b :
  prior request_cmp a b ↔ dr_fromNumber a < dr_fromNumber b ∨ (dr_fromNumber a = dr_fromNumber b ∧ dr_size b ≤ dr_size a).
Proof. unfold prior, request_cmp. case_decide; rewrite bool_decide_eq_false; lia. Qed.
#[export] Instance request_order : StrictWeak request_cmp.
Proof.
  split; [intros a|intros a b c|intros a b]; rewrite ?request_prior; [lia|lia|].
  unfold request_cmp. case_decide; rewrite bool_decide_eq_true; lia.
Qed.

Lemma block_prior a b : prior block_cmp a b ↔ block_number a ≤ block_number b.
Proof. unfold prior, block_cmp. rewrite bool_decide_eq_false. lia. Qed.
#[export] Instance block_order : StrictWeak block_cmp.
Proof.
  split; [intros a|intros a b c|intros a b]; rewrite ?block_prior; [lia|lia|].
  unfold block_cmp. rewrite bool_decide_eq_true. lia.
Qed.

(** ** Requests *)

(** Requests whose ranges lie among the block numbers. *)
Definition request_ok (r : DownloadRequest) : Prop :=
  0 ≤ dr_fromNumber r ∧ 0 ≤ dr_size r ∧ dr_fromNumber r + dr_size r < 2 ^ 63.

Definition in_range (n : Z) (r : DownloadRequest) : Prop := dr_fromNumber r ≤ n < dr_fromNumber r + dr_size r.

Definition queue_ok (l : list DownloadRequest) : Prop := is_heap request_cmp l ∧ Forall request_ok l.

Lemma queue_push r l : request_ok r → queue_ok l → queue_ok (pq_push request_cmp r l).
Proof.
  intros Hr [Hh Hf]. split; [apply (push_heap request_cmp); exact Hh|].
  rewrite push_Permutation. by constructor.
Qed.

Lemma queue_pop r l : queue_ok (r :: l) → queue_ok (pq_pop request_cmp (r :: l)) ∧ r :: l ≡ₚ r :: pq_pop request_cmp (r :: l).
Proof.
  intros [Hh Hf]. destruct (pop_spec request_cmp r l Hh) as [Hh' Hp].
  split; [split; [done|]|done]. rewrite Hp in Hf. by apply Forall_cons_1 in Hf as [_ ?].
Qed.

Lemma queue_top_from r l x : queue_ok (r :: l) → x ∈ r :: l → dr_fromNumber r ≤ dr_fromNumber x.
Proof.
  intros [Hh _] Hx. pose proof (top_prior request_cmp r l x Hh Hx) as Hp.
  apply request_prior in Hp. lia.
Qed.

Lemma add_i64_small a b : - 2 ^ 63 ≤ a + b < 2 ^ 63 → add_i64 a b = Ok (a + b).
Proof. intros. unfold add_i64. by rewrite decide_True. Qed.

(** The merge loop takes the requests that touch the range, and only those. *)
Lemma merge_tops_exact fuel from size q :
  (length q ≤ fuel)%nat → queue_ok q → (∀ r, r ∈ q → from ≤ dr_fromNumber r) →
  0 ≤ from → 0 ≤ size → from + size < 2 ^ 63 →
  ∃ size' q' popped,
    merge_tops fuel from size q = Ok (size', q') ∧ q ≡ₚ popped ++ q' ∧ queue_ok q' ∧
    size ≤ size' ∧ from + size' < 2 ^ 63 ∧
    (∀ n, from ≤ n < from + size' ↔ from ≤ n < from + size ∨ ∃ r, r ∈ popped ∧ in_range n r) ∧
    (∀ r, r ∈ q' → from + size' < dr_fromNumber r).
Proof.
  revert size q. induction fuel as [|fuel IH]; intros size q Hf Hq Hlo H0 Hs Hb.
  { destruct q; [|cbn in Hf; lia]. exists size, [], []. split_and!; try done; set_solver. }
  destruct q as [|top q]; [exists size, [], []; split_and!; try done; set_solver|].
  cbn [merge_tops pq_top head]. rewrite (add_i64_small from size), bind_ok by lia.
  assert (request_ok top) as (T0 & T1 & T2) by (destruct Hq as [_ Hq]; by apply Forall_cons_1 in Hq as [? _]).
  destruct (decide (dr_fromNumber top ≤ from + size)) as [Hm|Hm].
  - destruct (queue_pop top q Hq) as [Hq' Hp]. pose proof (Hlo top ltac:(by left)) as Htop.
    rewrite (add_i64_small (dr_fromNumber top)), bind_ok, (add_i64_small (_ + _) (- from)), bind_ok by lia.
    assert (length (pq_pop request_cmp (top :: q)) = length q) as Hlen by (apply Permutation_length in Hp; by injection Hp).
    destruct (IH (size `max` (dr_fromNumber top + dr_size top + - from)) (pq_pop request_cmp (top :: q)))
      as (size' & q' & popped & E & Hp' & Hq'' & Hle & Hb' & Hn & Hr); [cbn in Hf; lia|done| |lia|lia|lia|].
    { intros r Hr. apply Hlo. rewrite Hp. by right. }
    exists size', q', (top :: popped). split_and!; [done|by rewrite Hp, Hp'|done|lia|done| |done].
    intros n. rewrite (Hn n). unfold in_range. split.
    + intros [Hi|(r & Hr' & Hi)]; [|right; exists r; split; [by right|done]].
      destruct (decide (n < from + size)); [left; lia|]. right. exists top. split; [by left|lia].
    + intros [Hi|(r & Hr' & Hi)]; [left; lia|]. apply elem_of_cons in Hr' as [->|Hr']; [left; lia|]. right. by exists r.
  - exists size, (top :: q), []. split_and!; try done; try lia.
    + intros n. set_solver.
    + intros r Hr. pose proof (queue_top_from top q r Hq Hr). lia.
Qed.

(** C33. [topAndPop] of a queue of valid requests always succeeds; the range it
    returns consists of exactly the block numbers of the requests it removes,
    and no request that is left touches the range. *)
Theorem topAndPop_exact q :
  queue_ok (rq_reqQueue q) → rq_reqQueue q ≠ [] →
  ∃ req q' popped,
    topAndPop q = Ok (req, q') ∧ rq_reqQueue q ≡ₚ popped ++ rq_reqQueue q' ∧ queue_ok (rq_reqQueue q') ∧ popped ≠ [] ∧
    (∀ n, in_range n req ↔ ∃ r, r ∈ popped ∧ in_range n r) ∧
    (∀ r, r ∈ rq_reqQueue q' → dr_fromNumber req + dr_size req < dr_fromNumber r).
Proof.
  destruct q as [[|top l] lk]; cbn [rq_reqQueue]; intros Hq Hne; [done|]. unfold topAndPop. cbn [pq_top head rq_reqQueue].
  assert (request_ok top) as (T0 & T1 & T2) by (destruct Hq as [_ Hq]; by apply Forall_cons_1 in Hq as [? _]).
  destruct (merge_tops_exact (length (top :: l)) (dr_fromNumber top) 0 (top :: l))
    as (size & q' & popped & E & Hp & Hq' & Hle & Hb & Hn & Hr); [done|done| |done|lia|lia|].
  { intros r Hr. by eapply queue_top_from. }
  exists (MkRequest (dr_fromNumber top) size), (MkRequestQueue q' lk), popped.
  rewrite E, bind_ok. split_and!; try done.
  - intros ->. cbn in Hp. specialize (Hr top). rewrite <- Hp in Hr. specialize (Hr ltac:(by left)). lia.
  - intros n. unfold in_range at 1. cbn [dr_fromNumber dr_size]. rewrite (Hn n). split; [intros [|]; [lia|done]|by right].
Qed.

Lemma topAndPop_exact_witness :
  let l := foldl (λ l r, pq_push request_cmp r l) [] [MkRequest 10 2; MkRequest 1 3; MkRequest 2 4; MkRequest 6 2; MkRequest 1 4] in
  ∃ req q' popped,
    topAndPop (MkRequestQueue l true) = Ok (req, q') ∧ l ≡ₚ popped ++ rq_reqQueue q' ∧ queue_ok (rq_reqQueue q') ∧ popped ≠ [] ∧
    (∀ n, in_range n req ↔ ∃ r, r ∈ popped ∧ in_range n r) ∧
    (∀ r, r ∈ rq_reqQueue q' → dr_fromNumber req + dr_size req < dr_fromNumber r).
Proof.
  apply (topAndPop_exact (MkRequestQueue (foldl (λ l r, pq_push request_cmp r l) [] [MkRequest 10 2; MkRequest 1 3; MkRequest 2 4; MkRequest 6 2; MkRequest 1 4]) true)).
  - cbn [rq_reqQueue foldl]. repeat (apply queue_push; [split; cbn; lia|]). split; [apply heap_nil|apply Forall_nil_2].
  - vm_compute. discriminate.
Defined.

(** The requests of one peer are at most eight. *)
Lemma req_push_bound from size q :
  Z.of_nat (length (rq_reqQueue q)) ≤ c_maxReceivedDownloadRequestPerPeer →
  Z.of_nat (length (rq_reqQueue (req_push from size q))) ≤ c_maxReceivedDownloadRequestPerPeer.
Proof.
  intros Hl. unfold req_push. destruct (rq_locked q); [done|]. case_decide as Hd; [done|]. cbn [rq_reqQueue].
  rewrite (Permutation_length (push_Permutation request_cmp _ _)). cbn [length]. lia.
Qed.

(** A request of a peer at the end of the numbers makes the addition of
    [topAndPop] overflow. *)
Example topAndPop_overflow : topAndPop (req_push (2 ^ 63 - 1) 1 DownloadRequestQueue0) = Throw UB.
Proof. vm_compute. reflexivity. Qed.

(** ** Batches *)

Definition total (ds : list bytes) : Z := len (concat ds).

(** Encodings of blocks. *)
Definition rlp_ok (d : bytes) : Prop := bytes_ok d ∧ 0 < len d < 2 ^ 40.

Lemma total_cons d ds : total (d :: ds) = len d + total ds.
Proof. unfold total. cbn [concat]. apply len_app. Qed.
Lemma total_snoc ds d : total (ds ++ [d]) = total ds + len d.
Proof. unfold total. rewrite concat_app, len_app. cbn [concat]. by rewrite app_nil_r. Qed.

Lemma rlps_bounds ds :
  Forall rlp_ok ds →
  Z.of_nat (length ds) ≤ total ds ∧ len (concat (enc_data <$> ds)) ≤ 10 * total ds ∧ Forall reads_some (enc_data <$> ds).
Proof.
  induction 1 as [|d ds [Hb Hd] _ (IH1 & IH2 & IH3)]; [split_and!; [done|done|constructor]|].
  rewrite total_cons, fmap_cons. cbn [concat length]. rewrite len_app. pose proof (len_enc_data_le d).
  split_and!; [lia|lia|]. constructor; [apply reads_some_data; [done|lia]|done].
Qed.

Lemma append_blocks_items ds s : Forall rlp_ok ds → append_blocks s ds = add_items (enc_data <$> ds) s.
Proof.
  intros Hds. revert s. induction Hds as [|d ds [Hb Hd] _ IH]; intros s; [done|].
  cbn [append_blocks]. rewrite fmap_cons. cbn [add_items]. rewrite append_bytes_enc by lia.
  destruct (add_item _ s) as [s'|]; [|done]. rewrite !bind_ok. apply IH.
Qed.

Lemma blocks_encode_ok ds :
  Forall rlp_ok ds → total ds < 2 ^ 41 → Z.of_nat (length ds) < 2 ^ 32 →
  blocks_encode ds = Ok (sync_packet BlocksPacket (enc_data <$> ds)).
Proof.
  intros Hds Ht Hc. destruct (rlps_bounds ds Hds) as (Hn & Hl & _).
  rewrite <- (prep_items BlocksPacket) by (unfold BlocksPacket; lia). rewrite length_fmap. unfold blocks_encode.
  rewrite u32_small by lia. destruct (prep _ _ _) as [s|]; [|done]. by rewrite !bind_ok, append_blocks_items.
Qed.

Lemma singleEncode_eq d : 0 < len d → blocks_singleEncode d = blocks_encode [d].
Proof.
  intros Hd. unfold blocks_singleEncode, blocks_encode. cbn [length append_blocks]. change (u32 (Z.of_nat 1)) with 1.
  destruct (prep RLPStream0 BlocksPacket 1) as [s|]; [|done]. rewrite !bind_ok. by destruct (append_bytes s d false).
Qed.

(** What travels together: a batch within the payload, or one large block. *)
Definition batch_ok (b : list bytes) : Prop :=
  b ≠ [] ∧ Forall rlp_ok b ∧ (total b ≤ c_maxPayload ∨ length b = 1%nat).
Definition packet_of (b : list bytes) : bytes := sync_packet BlocksPacket (enc_data <$> b).
Definition small (d : bytes) : Prop := len d ≤ c_maxPayload.

Lemma batch_count b : batch_ok b → total b < 2 ^ 41 ∧ Z.of_nat (length b) < 2 ^ 32.
Proof.
  intros (_ & Hb & Ht). destruct (rlps_bounds b Hb) as (Hn & _ & _).
  destruct Ht as [Ht|Ht]; [unfold c_maxPayload, P2PMessage_MAX_LENGTH in Ht; lia|]. split; [|lia].
  destruct b as [|d [|]]; try done. apply Forall_cons_1 in Hb as [[_ Hd] _]. rewrite total_cons. change (total []) with 0. lia.
Qed.

Lemma batch_encode b : batch_ok b → blocks_encode b = Ok (packet_of b).
Proof. intros Hb. destruct (batch_count b Hb). destruct Hb as (_ & ? & _). by apply blocks_encode_ok. Qed.

(** The state of a container that was given the blocks [ds]. *)
Record batched (ds : list bytes) (bs : list (list bytes)) (c : DownloadBlocksContainer) : Prop := {
  ba_sent : dc_sent c = packet_of <$> bs;
  ba_ok : Forall batch_ok bs;
  ba_all : concat bs ++ dc_batch c ≡ₚ ds;
  ba_order : Forall small ds → concat bs ++ dc_batch c = ds;
  ba_rlps : Forall rlp_ok (dc_batch c);
  ba_size : dc_batchSize c = total (dc_batch c) ∧ total (dc_batch c) ≤ c_maxPayload;
}.

Lemma clear_batched ds bs c :
  batched ds bs c → ∃ bs' c', clearBatchAndSend c = Ok c' ∧ batched ds bs' c' ∧ dc_batch c' = [].
Proof.
  intros [B1 B2 B3 B4 B5 [B6 B7]]. unfold clearBatchAndSend. case_decide as Hd; [by exists bs, c; split_and!|].
  assert (batch_ok (dc_batch c)) as Hb by (split_and!; auto).
  rewrite (batch_encode _ Hb), bind_ok. eexists (bs ++ [dc_batch c]), _. split; [done|]. split; [|done].
  split; cbn [dc_sent dc_batch dc_batchSize].
  - by rewrite fmap_app, B1.
  - apply Forall_app. by split; [|constructor].
  - rewrite concat_app. cbn [concat]. by rewrite !app_nil_r.
  - intros Hs. rewrite concat_app. cbn [concat]. rewrite !app_nil_r. by apply B4.
  - apply Forall_nil_2.
  - split; [done|]. unfold c_maxPayload, P2PMessage_MAX_LENGTH. change (total []) with 0. lia.
Qed.

Lemma batch_batched ds bs c d :
  batched ds bs c → rlp_ok d → ∃ bs' c', batch_rlp d c = Ok c' ∧ batched (ds ++ [d]) bs' c'.
Proof.
  intros Hc Hd. unfold batch_rlp. destruct (decide (c_maxPayload < len d)) as [Hbig|Hsmall].
  - unfold sendBigBlock. assert (batch_ok [d]) as Hb by (split_and!; [done|by constructor|by right]).
    rewrite singleEncode_eq, (batch_encode _ Hb), bind_ok by (destruct Hd; lia).
    eexists (bs ++ [[d]]), _. split; [done|]. destruct Hc as [B1 B2 B3 B4 B5 B6].
    split; cbn [dc_sent dc_batch dc_batchSize]; [by rewrite fmap_app, B1|apply Forall_app; by split; [|constructor]| | |done|done].
    + rewrite concat_app. cbn [concat app]. rewrite <- B3. rewrite <- !app_assoc. apply Permutation_app_head.
      apply (Permutation_app_comm [d]).
    + intros [_ Hs]%Forall_app. apply Forall_cons_1 in Hs as [Hs _]. unfold small in Hs. lia.
  - assert (∀ bs c, batched ds bs c → total (dc_batch c) + len d ≤ c_maxPayload →
      batched (ds ++ [d]) bs (MkContainer (dc_batch c ++ [d]) (u64 (dc_batchSize c + len d)) (dc_sent c))) as Hadd.
    { clear bs c Hc. intros bs c [B1 B2 B3 B4 B5 [B6 B7]] Hle. split; cbn [dc_sent dc_batch dc_batchSize]; try done.
      - rewrite app_assoc. by rewrite B3.
      - intros [Hs _]%Forall_app. rewrite app_assoc. by rewrite B4.
      - apply Forall_app. by split; [|constructor].
      - rewrite total_snoc, B6. unfold c_maxPayload, P2PMessage_MAX_LENGTH in *. destruct Hd.
        pose proof (len_nonneg (concat (dc_batch c))). unfold total in *. rewrite u64_small by lia. done. }
    pose proof (ba_size _ _ _ Hc) as [B6 B7]. destruct Hd as [Hd1 Hd2].
    assert (u64 (dc_batchSize c + len d) = total (dc_batch c) + len d) as Eu.
    { rewrite B6. apply u64_small. unfold c_maxPayload, P2PMessage_MAX_LENGTH, total in *.
      pose proof (len_nonneg (concat (dc_batch c))). lia. }
    rewrite Eu. case_decide as Hfull.
    + destruct (clear_batched ds bs c Hc) as (bs' & c' & -> & Hc' & He). rewrite bind_ok. exists bs'.
      eexists. split; [done|]. apply Hadd; [done|]. rewrite He. change (total []) with 0. lia.
    + rewrite bind_ok. exists bs. eexists. split; [done|]. apply Hadd; [done|lia].
Qed.

(** The blocks given to a container, one after the other, and its destructor. *)
Fixpoint batch_all (ds : list bytes) (c : DownloadBlocksContainer) : res DownloadBlocksContainer :=
  match ds with
  | [] => clearBatchAndSend c
  | d :: ds => c ← batch_rlp d c; batch_all ds c
  end.

Lemma batch_all_batched ds ds0 bs c :
  Forall rlp_ok ds → batched ds0 bs c →
  ∃ bs' c', batch_all ds c = Ok c' ∧ batched (ds0 ++ ds) bs' c' ∧ dc_batch c' = [].
Proof.
  intros Hds. revert ds0 bs c. induction Hds as [|d ds Hd _ IH]; intros ds0 bs c Hc; cbn [batch_all].
  - rewrite app_nil_r. by eapply clear_batched.
  - destruct (batch_batched _ _ _ _ Hc Hd) as (bs1 & c1 & -> & Hc1). rewrite bind_ok.
    destruct (IH _ _ _ Hc1) as (bs2 & c2 & -> & Hc2 & He). exists bs2, c2. by rewrite <- app_assoc in Hc2.
Qed.

Lemma batched_nil : batched [] [] DownloadBlocksContainer0.
Proof. by split. Qed.

(** Every block is sent once, in batches within the payload. *)
Lemma batch_all_spec ds :
  Forall rlp_ok ds →
  ∃ bs c, batch_all ds DownloadBlocksContainer0 = Ok c ∧ dc_sent c = packet_of <$> bs ∧ Forall batch_ok bs ∧
    concat bs ≡ₚ ds ∧ (Forall small ds → concat bs = ds).
Proof.
  intros Hds. destruct (batch_all_batched ds [] [] _ Hds batched_nil) as (bs & c & E & [B1 B2 B3 B4 _ _] & He).
  exists bs, c. rewrite He, app_nil_r in B3, B4. by split_and!.
Qed.

(** ** Receiving blocks *)

Section receive.
Context `{Crypto}.

(** The block of an encoding, if it is one and newer than the chain. *)
Definition imported (chain : option Z) (d : bytes) : list Block :=
  match block_decode d with Ok b => if isNewerBlock chain b then [b] else [] | Throw _ => [] end.

(** Bytes a peer may send: decoding them ends or throws. *)
Definition decodes (d : bytes) : Prop := ∀ e, block_decode d = Throw e → StateErr.catchable e = true.

Definition blocks_grow (q : DownloadingBlockQueue) (bs : list Block) (q' : DownloadingBlockQueue) : Prop :=
  bq_blocks q' ≡ₚ bq_blocks q ++ bs ∧ bq_buffer q' = bq_buffer q ∧
  (is_heap block_cmp (bq_blocks q) → is_heap block_cmp (bq_blocks q')).

Lemma grow_trans q bs q1 bs' q2 : blocks_grow q bs q1 → blocks_grow q1 bs' q2 → blocks_grow q (bs ++ bs') q2.
Proof.
  intros (P1 & B1 & H1) (P2 & B2 & H2). split_and!; [by rewrite P2, P1, app_assoc|congruence|auto].
Qed.
Lemma grow_nil q : blocks_grow q [] q.
Proof. split_and!; [by rewrite app_nil_r|done|done]. Qed.

Lemma import_item_spec chain d q :
  rlp_ok d → decodes d → ∃ q', import_item chain (enc_data d) q = (Ok tt, q') ∧ blocks_grow q (imported chain d) q'.
Proof.
  intros [Hb Hd] Hdec. unfold import_item, stry. rewrite toBytes_enc_data by (done || lia).
  rewrite (sm_bind_ok _ _ _ d q eq_refl). unfold imported. destruct (block_decode d) as [b|e] eqn:E.
  - rewrite (sm_bind_ok _ _ _ b q eq_refl). unfold swhen. destruct (isNewerBlock chain b).
    + rewrite decide_True by done. eexists. split; [done|]. split_and!; cbn [bq_blocks bq_buffer]; [|done|].
      * rewrite push_Permutation. apply Permutation_cons_append.
      * intros Hh. apply (push_heap block_cmp); exact Hh.
    + rewrite decide_False by done. exists q. split; [done|apply grow_nil].
  - rewrite (sm_bind_throw (slift (Throw e)) _ q e q eq_refl), (Hdec e E). exists q. split; [done|apply grow_nil].
Qed.

Lemma import_items_spec chain ds n i c q :
  Forall rlp_ok ds → Forall decodes ds → total ds < 2 ^ 41 → (n + i = length ds)%nat →
  cache_at (enc_data <$> ds) c →
  ∃ q', import_items chain n (Z.of_nat i) (enc_list (concat (enc_data <$> ds))) c q = (Ok tt, q') ∧
        blocks_grow q (concat (imported chain <$> drop i ds)) q'.
Proof.
  intros Hds Hdec Ht. destruct (rlps_bounds ds Hds) as (Hcnt & Hl & Hr).
  assert (len (concat (enc_data <$> ds)) < 2 ^ 63) as Hlt by lia.
  pose proof (rlp_index_field _ _ (reads_payload_self _ _ (reads_list _ Hlt)) Hr Hlt) as Hidx.
  revert i c q. induction n as [|n IH]; intros i c q Hn Hc; cbn [import_items].
  { exists q. rewrite drop_ge by lia. split; [done|apply grow_nil]. }
  destruct (lookup_lt_is_Some_2 ds i) as [d Hd]; [lia|].
  destruct (Hidx i (enc_data d) c) as [->%rlp_index_access Hc']; [by rewrite list_lookup_fmap, Hd|done|unfold UINT64_MAX; lia|].
  pose proof (Forall_lookup_1 _ _ _ _ Hds Hd) as Hdo. pose proof (Forall_lookup_1 _ _ _ _ Hdec Hd) as Hdd.
  destruct (import_item_spec chain d q Hdo Hdd) as (q1 & E1 & G1). rewrite (sm_bind_ok _ _ _ _ _ E1).
  destruct (IH (S i) _ q1 ltac:(lia) Hc') as (q2 & E2 & G2). replace (Z.of_nat i + 1) with (Z.of_nat (S i)) by lia.
  exists q2. split; [done|]. rewrite (drop_S ds d i Hd), fmap_cons. cbn [concat]. by eapply grow_trans.
Qed.

Lemma import_shard_spec chain ds q :
  Forall rlp_ok ds → Forall decodes ds → total ds < 2 ^ 41 → Z.of_nat (length ds) < 2 ^ 32 →
  ∃ q', import_shard chain (enc_list (concat (enc_data <$> ds))) q = (Ok tt, q') ∧
        blocks_grow q (concat (imported chain <$> ds)) q'.
Proof.
  intros Hds Hdec Ht Hc. destruct (rlps_bounds ds Hds) as (Hcnt & Hl & Hr).
  assert (len (concat (enc_data <$> ds)) < 2 ^ 63) as Hlt by lia. destruct (list_decode _ Hlt) as (_ & _ & Hn).
  unfold import_shard. rewrite Hn, (sm_bind_ok (slift (Ok _)) _ q _ q eq_refl).
  rewrite itemCount_list by (done || lia). rewrite (sm_bind_ok (slift (Ok _)) _ q _ q eq_refl), length_fmap.
  rewrite u32_small, Nat2Z.id by lia.
  apply (import_items_spec chain ds (length ds) 0 rlp_cache0 q); [done|done|done|lia|apply cache_at_0].
Qed.

Lemma imported_length chain ds : (length (concat (imported chain <$> ds)) ≤ length ds)%nat.
Proof.
  induction ds as [|d ds IH]; [done|]. rewrite fmap_cons. cbn [concat length]. rewrite length_app.
  assert (length (imported chain d) ≤ 1)%nat; [|lia]. unfold imported. destruct (block_decode d) as [b|]; [|cbn; lia].
  destruct (isNewerBlock chain b); cbn; lia.
Qed.

Definition shard_of (b : list bytes) : bytes := enc_list (concat (enc_data <$> b)).

Lemma import_shards_spec chain bs q :
  Forall batch_ok bs → Forall decodes (concat bs) →
  Z.of_nat (length (bq_blocks q)) + Z.of_nat (length (concat bs)) ≤ c_maxDownloadingBlockQueueSize →
  ∃ q', import_shards chain (shard_of <$> bs) q = (Ok tt, q') ∧ blocks_grow q (concat (imported chain <$> concat bs)) q'.
Proof.
  intros Hbs. revert q. induction Hbs as [|b bs Hb _ IH]; intros q Hdec Hle; [exists q; split; [done|apply grow_nil]|].
  rewrite fmap_cons. cbn [import_shards]. rewrite (sm_bind_ok _ _ _ _ _ (eq_refl : sget q = (Ok q, q))).
  cbn [concat] in *. rewrite length_app in Hle. apply Forall_app in Hdec as [Hd1 Hd2]. destruct (batch_count b Hb) as [Ht Hc].
  destruct Hb as (Hne & Hr & _). assert (0 < length b)%nat by (destruct b; [done|cbn; lia]).
  rewrite decide_False by lia. destruct (import_shard_spec chain b q Hr Hd1 Ht Hc) as (q1 & E1 & G1).
  unfold shard_of at 1. rewrite (sm_bind_ok _ _ _ _ _ E1). pose proof (imported_length chain b).
  destruct (IH q1 Hd2) as (q2 & E2 & G2).
  { destruct G1 as (P1 & _). rewrite (Permutation_length P1), length_app. lia. }
  exists q2. split; [done|]. rewrite fmap_app, concat_app. by eapply grow_trans.
Qed.
End receive.
