(* ===== verification/SyncMaster.v ===== *)
(** * The block synchronisation

    libsync/SyncStatus.h/.cpp (peers), libsync/SyncMsgEngine.h/.cpp (the
    handlers of messages) and libsync/SyncMaster.h/.cpp (the worker). The
    members are records, the methods definitions in the monad of StateErr.v.
    The transaction pool is that of TxPool.v, on the chain of the class
    [NodeEnv]; its signal [m_onReady] and that of the chain set the flags the
    worker looks at. The clock and [rand] are read in the order of the code. *)

From S2P Require Import Prelude StateErr RLP Crypto Transaction Block NonceCheck TxPool PBFTMsg Engine Table Heap SyncMsg SyncQueue.

Local Open Scope Z_scope.

(** [f] is run at most [p] times, until it stops. *)
Fixpoint siter {S A : Type} (p : positive) (f : A → SM S (bool * A)) (a : A) : SM S (bool * A) :=
  let twice p a :=
    '(go, a) ← siter p f a;
    if go : bool then siter p f a else mret (false, a) in
  match p with
  | xH => f a
  | xO p => twice p a
  | xI p => '(go, a) ← f a; if go : bool then twice p a else mret (false, a)
  end.

Section state.
Context `{NodeEnv}.

(** [SyncPeerStatus]. *)
Record SyncPeerStatus := MkPeer {
  ps_nodeId : bytes;
  ps_number : Z; (* int64_t *)
  ps_genesisHash : bytes;
  ps_latestHash : bytes;
  ps_reqQueue : DownloadRequestQueue;
}.

(** [SyncMasterStatus]. *)
Record SyncMasterStatus := MkStatus {
  st_knownHighestNumber : Z; (* int64_t *)
  st_knownLatestHash : bytes;
  st_state : SyncState;
  st_peers : gmap bytes SyncPeerStatus; (* std::map *)
  st_bq : DownloadingBlockQueue; (* m_downloadingBlockQueue *)
}.

(** What the synchronisation asks of the network and the chain. *)
Inductive sync_event :=
  | SySend (node : bytes) (msg : bytes)                (* asyncSendMessageByNodeID *)
  | SyStop (node : bytes)                              (* the session is stopped *)
  | SyCommit (b : Block) (ctx : ExecPtr) (ok : bool).  (* commitBlock *)

(** [SyncMaster], with the components it works on. *)
Record SyncMaster := MkSync {
  sy_status : SyncMasterStatus; (* m_syncStatus *)
  sy_nodeId : bytes;
  sy_genesisHash : bytes;
  sy_maxRequestNumber : Z; (* int64_t *)
  sy_lastDownloadingRequestTime : Z; (* uint64_t *)
  sy_currentSealingNumber : Z; (* int64_t *)
  sy_newTransactions : bool;
  sy_newBlocks : bool;
  sy_maintainBlocksTimeout : Z; (* uint64_t *)
  sy_isConsensusOk : option (W → Block → res bool); (* fp_isConsensusOk *)
  sy_pool : TxPool;
  sy_world : W; (* the chain, the verifier and the network *)
  sy_tick : nat; (* clock readings so far *)
  sy_rands : nat; (* calls of rand so far *)
  sy_events : list sync_event; (* newest first *)
}.

Definition ps_with_reqQueue (x : DownloadRequestQueue) (e : SyncPeerStatus) : SyncPeerStatus := MkPeer (ps_nodeId e)
  (ps_number e) (ps_genesisHash e) (ps_latestHash e) x.

Definition st_with_knownHighestNumber (x : Z) (e : SyncMasterStatus) : SyncMasterStatus := MkStatus x
  (st_knownLatestHash e) (st_state e) (st_peers e) (st_bq e).
Definition st_with_knownLatestHash (x : bytes) (e : SyncMasterStatus) : SyncMasterStatus := MkStatus
  (st_knownHighestNumber e) x (st_state e) (st_peers e) (st_bq e).
Definition st_with_state (x : SyncState) (e : SyncMasterStatus) : SyncMasterStatus := MkStatus (st_knownHighestNumber
  e) (st_knownLatestHash e) x (st_peers e) (st_bq e).
Definition st_with_peers (x : gmap bytes SyncPeerStatus) (e : SyncMasterStatus) : SyncMasterStatus := MkStatus
  (st_knownHighestNumber e) (st_knownLatestHash e) (st_state e) x (st_bq e).
Definition st_with_bq (x : DownloadingBlockQueue) (e : SyncMasterStatus) : SyncMasterStatus := MkStatus
  (st_knownHighestNumber e) (st_knownLatestHash e) (st_state e) (st_peers e) x.

Definition sy_with_status (x : SyncMasterStatus) (e : SyncMaster) : SyncMaster := MkSync x (sy_nodeId e)
  (sy_genesisHash e) (sy_maxRequestNumber e) (sy_lastDownloadingRequestTime e) (sy_currentSealingNumber e)
  (sy_newTransactions e) (sy_newBlocks e) (sy_maintainBlocksTimeout e) (sy_isConsensusOk e) (sy_pool e) (sy_world e)
  (sy_tick e) (sy_rands e) (sy_events e).
Definition sy_with_nodeId (x : bytes) (e : SyncMaster) : SyncMaster := MkSync (sy_status e) x (sy_genesisHash e)
  (sy_maxRequestNumber e) (sy_lastDownloadingRequestTime e) (sy_currentSealingNumber e) (sy_newTransactions e)
  (sy_newBlocks e) (sy_maintainBlocksTimeout e) (sy_isConsensusOk e) (sy_pool e) (sy_world e) (sy_tick e) (sy_rands e)
  (sy_events e).
Definition sy_with_genesisHash (x : bytes) (e : SyncMaster) : SyncMaster := MkSync (sy_status e) (sy_nodeId e) x
  (sy_maxRequestNumber e) (sy_lastDownloadingRequestTime e) (sy_currentSealingNumber e) (sy_newTransactions e)
  (sy_newBlocks e) (sy_maintainBlocksTimeout e) (sy_isConsensusOk e) (sy_pool e) (sy_world e) (sy_tick e) (sy_rands e)
  (sy_events e).
Definition sy_with_maxRequestNumber (x : Z) (e : SyncMaster) : SyncMaster := MkSync (sy_status e) (sy_nodeId e)
  (sy_genesisHash e) x (sy_lastDownloadingRequestTime e) (sy_currentSealingNumber e) (sy_newTransactions e)
  (sy_newBlocks e) (sy_maintainBlocksTimeout e) (sy_isConsensusOk e) (sy_pool e) (sy_world e) (sy_tick e) (sy_rands e)
  (sy_events e).
Definition sy_with_lastDownloadingRequestTime (x : Z) (e : SyncMaster) : SyncMaster := MkSync (sy_status e) (sy_nodeId
  e) (sy_genesisHash e) (sy_maxRequestNumber e) x (sy_currentSealingNumber e) (sy_newTransactions e) (sy_newBlocks e)
  (sy_maintainBlocksTimeout e) (sy_isConsensusOk e) (sy_pool e) (sy_world e) (sy_tick e) (sy_rands e) (sy_events e).
Definition sy_with_currentSealingNumber (x : Z) (e : SyncMaster) : SyncMaster := MkSync (sy_status e) (sy_nodeId e)
  (sy_genesisHash e) (sy_maxRequestNumber e) (sy_lastDownloadingRequestTime e) x (sy_newTransactions e) (sy_newBlocks
  e) (sy_maintainBlocksTimeout e) (sy_isConsensusOk e) (sy_pool e) (sy_world e) (sy_tick e) (sy_rands e) (sy_events
  e).
Definition sy_with_newTransactions (x : bool) (e : SyncMaster) : SyncMaster := MkSync (sy_status e) (sy_nodeId e)
  (sy_genesisHash e) (sy_maxRequestNumber e) (sy_lastDownloadingRequestTime e) (sy_currentSealingNumber e) x
  (sy_newBlocks e) (sy_maintainBlocksTimeout e) (sy_isConsensusOk e) (sy_pool e) (sy_world e) (sy_tick e) (sy_rands e)
  (sy_events e).
Definition sy_with_newBlocks (x : bool) (e : SyncMaster) : SyncMaster := MkSync (sy_status e) (sy_nodeId e)
  (sy_genesisHash e) (sy_maxRequestNumber e) (sy_lastDownloadingRequestTime e) (sy_currentSealingNumber e)
  (sy_newTransactions e) x (sy_maintainBlocksTimeout e) (sy_isConsensusOk e) (sy_pool e) (sy_world e) (sy_tick e)
  (sy_rands e) (sy_events e).
Definition sy_with_maintainBlocksTimeout (x : Z) (e : SyncMaster) : SyncMaster := MkSync (sy_status e) (sy_nodeId e)
  (sy_genesisHash e) (sy_maxRequestNumber e) (sy_lastDownloadingRequestTime e) (sy_currentSealingNumber e)
  (sy_newTransactions e) (sy_newBlocks e) x (sy_isConsensusOk e) (sy_pool e) (sy_world e) (sy_tick e) (sy_rands e)
  (sy_events e).
Definition sy_with_isConsensusOk (x : option (W → Block → res bool)) (e : SyncMaster) : SyncMaster := MkSync
  (sy_status e) (sy_nodeId e) (sy_genesisHash e) (sy_maxRequestNumber e) (sy_lastDownloadingRequestTime e)
  (sy_currentSealingNumber e) (sy_newTransactions e) (sy_newBlocks e) (sy_maintainBlocksTimeout e) x (sy_pool e)
  (sy_world e) (sy_tick e) (sy_rands e) (sy_events e).
Definition sy_with_pool (x : TxPool) (e : SyncMaster) : SyncMaster := MkSync (sy_status e) (sy_nodeId e)
  (sy_genesisHash e) (sy_maxRequestNumber e) (sy_lastDownloadingRequestTime e) (sy_currentSealingNumber e)
  (sy_newTransactions e) (sy_newBlocks e) (sy_maintainBlocksTimeout e) (sy_isConsensusOk e) x (sy_world e) (sy_tick e)
  (sy_rands e) (sy_events e).
Definition sy_with_world (x : W) (e : SyncMaster) : SyncMaster := MkSync (sy_status e) (sy_nodeId e) (sy_genesisHash
  e) (sy_maxRequestNumber e) (sy_lastDownloadingRequestTime e) (sy_currentSealingNumber e) (sy_newTransactions e)
  (sy_newBlocks e) (sy_maintainBlocksTimeout e) (sy_isConsensusOk e) (sy_pool e) x (sy_tick e) (sy_rands e) (sy_events
  e).
Definition sy_with_tick (x : nat) (e : SyncMaster) : SyncMaster := MkSync (sy_status e) (sy_nodeId e) (sy_genesisHash
  e) (sy_maxRequestNumber e) (sy_lastDownloadingRequestTime e) (sy_currentSealingNumber e) (sy_newTransactions e)
  (sy_newBlocks e) (sy_maintainBlocksTimeout e) (sy_isConsensusOk e) (sy_pool e) (sy_world e) x (sy_rands e)
  (sy_events e).
Definition sy_with_rands (x : nat) (e : SyncMaster) : SyncMaster := MkSync (sy_status e) (sy_nodeId e) (sy_genesisHash
  e) (sy_maxRequestNumber e) (sy_lastDownloadingRequestTime e) (sy_currentSealingNumber e) (sy_newTransactions e)
  (sy_newBlocks e) (sy_maintainBlocksTimeout e) (sy_isConsensusOk e) (sy_pool e) (sy_world e) (sy_tick e) x (sy_events
  e).
Definition sy_with_events (x : list sync_event) (e : SyncMaster) : SyncMaster := MkSync (sy_status e) (sy_nodeId e)
  (sy_genesisHash e) (sy_maxRequestNumber e) (sy_lastDownloadingRequestTime e) (sy_currentSealingNumber e)
  (sy_newTransactions e) (sy_newBlocks e) (sy_maintainBlocksTimeout e) (sy_isConsensusOk e) (sy_pool e) (sy_world e)
  (sy_tick e) (sy_rands e) x.
End state.

Section sync.
Context `{Crypto, NodeEnv, Random}.
Abbreviation YM := (SM SyncMaster).

(** ** Effects *)

Definition upd_status (f : SyncMasterStatus → SyncMasterStatus) : YM unit := smodify (λ e, sy_with_status (f (sy_status e)) e).
Definition upd_peers (f : gmap bytes SyncPeerStatus → gmap bytes SyncPeerStatus) : YM unit :=
  upd_status (λ s, st_with_peers (f (st_peers s)) s).
Definition sy_emit (ev : sync_event) : YM unit := smodify (λ e, sy_with_events (ev :: sy_events e) e).
Definition asyncSend (node msg : bytes) : YM unit := sy_emit (SySend node msg).
Definition sy_utcTime : YM Z := λ e, (Ok (u64 (clock (sy_tick e) / 1000000)), sy_with_tick (S (sy_tick e)) e).
Definition sy_rand : YM Z := λ e, (Ok (rand (sy_rands e)), sy_with_rands (S (sy_rands e)) e).

(** The chain as the pool sees it. *)
Definition chain_of (w : W) : Chain := MkChain (bc_number w) (bc_numberHash w) (bc_getBlockByHash w).

(** A call of the pool; [onReady] notes new transactions. *)
Definition in_pool {A} (m : PM A) : YM A := λ e,
  let '(r, p) := m (sy_pool e) in
  let ready := existsb (λ ev, match ev with EvReady => true | _ => false end)
                 (drop (length (tp_events (sy_pool e))) (tp_events p)) in
  (r, sy_with_pool p (if ready then sy_with_newTransactions true e else e)).

(** A call of the block queue. *)
Definition in_bq {A} (m : SM DownloadingBlockQueue A) : YM A := λ e,
  let '(r, q) := m (st_bq (sy_status e)) in
  (r, sy_with_status (st_with_bq q (sy_status e)) e).
Definition upd_bq (f : DownloadingBlockQueue → DownloadingBlockQueue) : YM unit := in_bq (smodify f).

Definition sy_number : YM Z := gets (λ e, bc_number (sy_world e)).

(** ** Peers *)

Definition hasPeer (id : bytes) (s : SyncMasterStatus) : bool := bool_decide (is_Some (st_peers s !! id)).

Definition newSyncPeerStatus (info : SyncPeerInfo) : YM bool :=
  e ← sget;
  if hasPeer (pi_nodeId info) (sy_status e) then mret false
  else
    upd_peers (<[pi_nodeId info :=
      MkPeer (pi_nodeId info) (pi_number info) (pi_genesisHash info) (pi_latestHash info) DownloadRequestQueue0]>);;
    mret true.

Definition deletePeer (id : bytes) : YM unit := upd_peers (delete id).

(** The peers in the order of [std::map]. *)
Definition peers_in_order (s : SyncMasterStatus) : list SyncPeerStatus := snd <$> in_order (st_peers s).
Definition peers (s : SyncMasterStatus) : list bytes := fst <$> in_order (st_peers s).

(** [SyncPeerStatus::update], through the shared pointer. *)
Definition peer_update (info : SyncPeerInfo) : YM unit :=
  upd_peers (alter (λ p, MkPeer (pi_nodeId info) (pi_number info) (pi_genesisHash info) (pi_latestHash info)
                           (ps_reqQueue p)) (pi_nodeId info)).

Definition swap_at (i j : nat) (l : list bytes) : list bytes :=
  match l !! i, l !! j with Some x, Some y => <[j := x]> (<[i := y]> l) | _, _ => l end.

(** The shuffle of [foreachPeerRandom]: [i] runs down to 1. *)
Fixpoint shuffle (i : nat) (l : list bytes) : YM (list bytes) :=
  match i with
  | O => mret l
  | S i' => r ← sy_rand; shuffle i' (swap_at i (Z.to_nat (r `mod` (Z.of_nat i + 1))) l)
  end.

(** The visits of [foreachPeerRandom]; [f] says whether to go on. *)
Fixpoint visit {A} (ids : list bytes) (f : SyncPeerStatus → A → YM (bool * A)) (a : A) : YM A :=
  match ids with
  | [] => mret a
  | id :: ids =>
      e ← sget;
      match st_peers (sy_status e) !! id with
      | None => visit ids f a
      | Some p => '(go, a) ← f p a; if go : bool then visit ids f a else mret a
      end
  end.

Definition foreachPeerRandom {A} (f : SyncPeerStatus → A → YM (bool * A)) (a : A) : YM A :=
  e ← sget;
  let ids := peers (sy_status e) in
  if decide (ids = []) then mret a
  else ids ← shuffle (length ids - 1) ids; visit ids f a.

(** The loop of [randomSelection]. *)
Fixpoint choose (i : nat) (allowed chosen : list bytes) : YM (list bytes) :=
  match i, allowed with
  | S i, _ :: _ =>
      r ← sy_rand;
      let n := Z.to_nat (r `mod` Z.of_nat (length allowed)) in
      choose i (delete n allowed) (chosen ++ option_list (allowed !! n))
  | _, _ => mret chosen
  end.

Definition randomSelection (percent : Z) (allow : SyncPeerStatus → bool) : YM (list bytes) :=
  e ← sget;
  let ps := peers_in_order (sy_status e) in
  choose (Z.to_nat ((Z.of_nat (length ps) * percent + 99) / 100)) (ps_nodeId <$> filter (λ p, allow p = true) ps) [].

Definition randomSelectionSize (maxChosenSize : Z) (allow : SyncPeerStatus → bool) : YM (list bytes) :=
  e ← sget;
  choose (Z.to_nat (u32 maxChosenSize))
    (ps_nodeId <$> filter (λ p, allow p = true) (peers_in_order (sy_status e))) [].

(** ** Messages *)

Definition onPeerStatus (p : SyncMsgPacket) : YM unit :=
  e ← sget;
  let known := st_peers (sy_status e) !! sp_nodeId p in
  info ← slift (status_decode p);
  match info with
  | None => mret tt
  | Some info =>
      if decide (pi_genesisHash info ≠ sy_genesisHash e) then mret tt
      else match known with None => newSyncPeerStatus info;; mret tt | Some _ => peer_update info end
  end.

(** One transaction of a packet. *)
Definition import_peer_tx (node item : bytes) : YM unit :=
  t ← slift (tx_decode Transaction0 item CheckEverything);
  now ← sy_utcTime;
  e ← sget;
  '(_, t) ← in_pool (tp_import (chain_of (sy_world e)) now t Ignore);
  h ← slift (tx_hash t);
  in_pool (transactionIsKnownBy h node).

Fixpoint import_peer_txs (node : bytes) (n : nat) (i : Z) (rlps : bytes) (c : rlp_cache) : YM unit :=
  match n with
  | O => mret tt
  | S n =>
      '(item, c) ← slift (rlp_index rlps c i);
      stry (import_peer_tx node item) (λ _, mret tt);;
      import_peer_txs node n (i + 1) rlps c
  end.

Definition onPeerTransactions (p : SyncMsgPacket) : YM unit :=
  e ← sget;
  if decide (st_state (sy_status e) = Downloading) then mret tt
  else
    n ← slift (itemCount (sp_rlp p));
    import_peer_txs (sp_nodeId p) (Z.to_nat (u32 n)) 0 (sp_rlp p) rlp_cache0.

Definition onPeerBlocks (p : SyncMsgPacket) : YM unit := upd_bq (bq_push (sp_rlp p)).

Definition onPeerRequestBlocks (p : SyncMsgPacket) : YM unit :=
  r ← slift (reqBlock_decode p);
  match r with
  | None => mret tt
  | Some (from, size) =>
      upd_peers (alter (λ s, ps_with_reqQueue (req_push from size (ps_reqQueue s)) s) (sp_nodeId p))
  end.

Definition interpret (p : SyncMsgPacket) : YM bool :=
  let t := sp_packetType p in
  stry
    (if decide (t = StatusPacket) then onPeerStatus p;; mret true
     else if decide (t = TransactionsPacket) then onPeerTransactions p;; mret true
     else if decide (t = BlocksPacket) then onPeerBlocks p;; mret true
     else if decide (t = ReqBlocskPacket) then onPeerRequestBlocks p;; mret true
     else mret false)
    (λ _, mret false).

Definition messageHandler (node buffer : bytes) : YM unit :=
  e ← sget;
  ok ← (if decide (node = sy_nodeId e) then mret false else slift (checkPacket buffer));
  if negb ok then sy_emit (SyStop node)
  else
    p ← slift (sync_decode node buffer);
    match p with
    | None => sy_emit (SyStop node)
    | Some p => interpret p;; mret tt
    end.

(** ** The worker *)

Definition isSyncing (e : SyncMaster) : bool := bool_decide (st_state (sy_status e) ≠ Idle).

Definition noteSealingBlockNumber (number : Z) : YM unit := smodify (sy_with_currentSealingNumber number).
Definition noteNewTransactions : YM unit := smodify (sy_with_newTransactions true).
Definition noteNewBlocks : YM unit := smodify (sy_with_newBlocks true).
Definition noteDownloadingBegin : YM unit :=
  upd_status (λ s, if decide (st_state s = Idle) then st_with_state Downloading s else s).
Definition noteDownloadingFinish : YM unit :=
  upd_status (λ s, if decide (st_state s = Downloading) then st_with_state Idle s else s).

(** *** Transactions *)

(** The condition of [topTransactionsCondition]; an exception of [sha3] is
    kept and rethrown. *)
Definition unsent (p : TxPool) (self : bytes) (t : Transaction) (x : option exn) : bool * option exn :=
  match x, tx_hash t with
  | None, Ok h => (negb (isTransactionKnownBy p h self), None)
  | None, Throw e => (false, Some e)
  | Some e, _ => (false, Some e)
  end.

(** The peers transaction number [i] goes to, recorded in [plan]. *)
Definition plan_transaction (i : nat) (t : Transaction) (plan : gmap bytes (list nat)) : YM (gmap bytes (list nat)) :=
  h ← slift (tx_hash t);
  e ← sget;
  let percent := if isTransactionKnownBySomeone (sy_pool e) h then 25 else 100 in
  chosen ← randomSelection percent (λ p,
    negb (isTransactionKnownBy (sy_pool e) h (sy_nodeId e)) && negb (isTransactionKnownBy (sy_pool e) h (ps_nodeId p)));
  sfor_each chosen (λ p, in_pool (transactionIsKnownBy h p));;
  swhen (chosen ≠ []) (in_pool (transactionIsKnownBy h (sy_nodeId e)));;
  mret (foldl (λ plan p, <[p := default [] (plan !! p) ++ [i]]> plan) plan chosen).

Fixpoint plan_transactions (i : nat) (ts : list Transaction) (plan : gmap bytes (list nat)) : YM (gmap bytes (list nat)) :=
  match ts with
  | [] => mret plan
  | t :: ts => plan ← plan_transaction i t plan; plan_transactions (S i) ts plan
  end.

Fixpoint tx_rlps (ts : list Transaction) (sel : list nat) : res bytes :=
  match sel with
  | [] => Ok []
  | i :: sel =>
      match ts !! i with
      | None => Throw UB
      | Some t => d ← tx_encode t WithSignature; r ← tx_rlps ts sel; Ok (d ++ r)
      end
  end.

Definition send_transactions (ts : list Transaction) (plan : gmap bytes (list nat)) (p : SyncPeerStatus) : YM unit :=
  let sel := default [] (plan !! ps_nodeId p) in
  swhen (sel ≠ [])
    (d ← slift (tx_rlps ts sel);
     msg ← slift (transactions_encode (u32 (Z.of_nat (length sel))) d);
     asyncSend (ps_nodeId p) msg).

Definition maintainTransactions : YM unit :=
  e ← sget;
  let '(ts, x) := topTransactionsCondition (sy_pool e) c_maxSendTransactions (unsent (sy_pool e) (sy_nodeId e)) None in
  match x with
  | Some x => sthrow x
  | None =>
      plan ← plan_transactions 0 ts ∅;
      e ← sget;
      sfor_each (peers_in_order (sy_status e)) (send_transactions ts plan)
  end.

(** *** Status *)

Definition maintainBlocks : YM unit :=
  e ← sget;
  let number := bc_number (sy_world e) in
  let currentHash := bc_numberHash (sy_world e) number in
  sfor_each (peers_in_order (sy_status e)) (λ p,
    msg ← slift (status_encode number (sy_genesisHash e) currentHash);
    asyncSend (ps_nodeId p) msg).

Definition maintainPeersConnection : YM unit :=
  e ← sget;
  sfor_each (peers (sy_status e)) (λ id, swhen (p2p_isConnected (sy_world e) id = false) (deletePeer id));;
  let number := bc_number (sy_world e) in
  let currentHash := bc_numberHash (sy_world e) number in
  sfor_each (p2p_sessions (sy_world e)) (λ id,
    e ← sget;
    swhen (hasPeer id (sy_status e) = false)
      (newSyncPeerStatus (MkPeerInfo id 0 (sy_genesisHash e) (sy_genesisHash e));;
       msg ← slift (status_encode number (sy_genesisHash e) currentHash);
       asyncSend id msg)).

Definition maintainDownloadingQueueBuffer : YM unit :=
  e ← sget;
  if decide (st_state (sy_status e) = Downloading) then
    n ← slift (add_i64 (bc_number (sy_world e)) 1);
    upd_bq (clearFullQueueIfNotHas n);;
    in_bq (flushBufferToQueue (Some (bc_number (sy_world e))))
  else upd_bq bq_clear.

(** *** Requests to peers *)

(** The highest number a peer reports and its hash; the first such peer. *)
Definition max_peer (ps : list SyncPeerStatus) : Z * bytes :=
  foldl (λ '(m, h) p, if decide (m < ps_number p) then (ps_number p, ps_latestHash p) else (m, h)) (0, h256_0) ps.

(** The lambda of [maintainPeersStatus]: [shard] and whether a peer was found. *)
Definition request_shard (currentNumber maxRequestNumber shardNumber : Z) (p : SyncPeerStatus) (a : Z * bool) :
    YM (bool * (Z * bool)) :=
  let '(shard, found) := a in
  c ← slift (add_i64 currentNumber 1);
  let from := i64 (c + shard * c_maxRequestBlocks) in
  t ← slift (add_i64 from c_maxRequestBlocks);
  t ← slift (add_i64 t (-1));
  let to := t `min` maxRequestNumber in
  if decide (ps_number p < to) then mret (true, (shard, found))
  else
    msg ← slift (reqBlock_encode from (u32 (to - from + 1)));
    asyncSend (ps_nodeId p) msg;;
    smodify (λ e, sy_with_maxRequestNumber (sy_maxRequestNumber e `max` to) e);;
    let shard := shard + 1 in
    mret (bool_decide (shard < shardNumber ∧ shard < c_maxRequestShards), (shard, true)).

Fixpoint request_loop (fuel : nat) (currentNumber maxRequestNumber shardNumber shard : Z) : YM unit :=
  if decide (shard < shardNumber ∧ shard < c_maxRequestShards) then
    match fuel with
    | O => sthrow OutOfFuel
    | S fuel =>
        '(shard, found) ← foreachPeerRandom (request_shard currentNumber maxRequestNumber shardNumber) (shard, false);
        if found : bool then request_loop fuel currentNumber maxRequestNumber shardNumber shard else mret tt
    end
  else mret tt.

Definition request_blocks (currentNumber maxPeerNumber : Z) : YM unit :=
  e ← sget;
  maxRequestNumber ←
    (match pq_top (bq_blocks (st_bq (sy_status e))) with
     | Some top => n ← slift (add_i64 (block_number top) (-1)); mret (maxPeerNumber `min` n)
     | None => mret maxPeerNumber
     end);
  if decide (maxRequestNumber ≤ currentNumber) then mret tt
  else
    d ← slift (add_i64 maxRequestNumber (- currentNumber));
    d ← slift (add_i64 d c_maxRequestBlocks);
    let shardNumber := (d - 1) `quot` c_maxRequestBlocks in
    smodify (sy_with_maxRequestNumber 0);;
    request_loop (Z.to_nat c_maxRequestShards) currentNumber maxRequestNumber shardNumber 0.

Definition maintainPeersStatus : YM unit :=
  e ← sget;
  let currentNumber := bc_number (sy_world e) in
  let '(maxPeerNumber, latestHash) := max_peer (peers_in_order (sy_status e)) in
  swhen (currentNumber < maxPeerNumber)
    (upd_status (λ s, st_with_knownLatestHash latestHash (st_with_knownHighestNumber maxPeerNumber s)));;
  if decide (maxPeerNumber ≤ sy_currentSealingNumber e) then mret tt
  else
    now ← sy_utcTime;
    if decide (u64 (now - sy_lastDownloadingRequestTime e) < c_downloadingRequestTimeout) then mret tt
    else
      smodify (sy_with_lastDownloadingRequestTime now);;
      noteDownloadingBegin;;
      request_blocks currentNumber maxPeerNumber.

(** *** Executing downloaded blocks *)

Definition isNewBlock (b : Block) : YM bool :=
  e ← sget;
  let currentNumber := bc_number (sy_world e) in
  n ← slift (add_i64 currentNumber 1);
  if decide (n ≠ block_number b) then mret false
  else if decide (bc_numberHash (sy_world e) currentNumber ≠ m_parentHash (m_blockHeader b)) then mret false
  else
    match sy_isConsensusOk e with
    | Some f => slift (f (sy_world e) b)
    | None => mret true
    end.

(** The block is executed and handed to the chain. *)
Definition commit_download (b : Block) : YM unit :=
  e ← sget;
  n ← slift (add_i64 (block_number b) (-1));
  match bc_getBlockByNumber (sy_world e) n with
  | None => sthrow UB
  | Some parent =>
      '(h, _) ← slift (header_hash (m_blockHeader parent));
      '(b, ctx) ← slift (bv_executeBlock (sy_world e) b
        (Engine.MkInfo h (m_number (m_blockHeader parent)) (m_stateRoot (m_blockHeader parent))));
      let '(ok, w) := bc_commitBlock (sy_world e) b ctx in
      smodify (sy_with_world w);;
      sy_emit (SyCommit b ctx ok);;
      (if ok : bool then
         noteNewBlocks;;
         in_pool (dropBlockTrans (chain_of w) b)
       else in_pool (tp_handleBadBlock b));;
      mret tt
  end.

(** The loop of [maintainDownloadingQueue]. *)
Fixpoint download_loop (fuel : nat) : YM unit :=
  e ← sget;
  match pq_top (bq_blocks (st_bq (sy_status e))) with
  | None => mret tt
  | Some b =>
      n ← slift (add_i64 (bc_number (sy_world e)) 1);
      if decide (block_number b ≤ n) then
        match fuel with
        | O => sthrow OutOfFuel
        | S fuel =>
            stry (isNew ← isNewBlock b; swhen (isNew = true) (commit_download b)) (λ _, mret tt);;
            upd_bq bq_pop;;
            download_loop fuel
        end
      else mret tt
  end.

(** Whether the download is finished. The hash of the last block is only
    compared to log an error. *)
Definition maintainDownloadingQueue : YM bool :=
  e ← sget;
  if decide (st_knownHighestNumber (sy_status e) ≤ bc_number (sy_world e)) then mret true
  else
    download_loop (length (bq_blocks (st_bq (sy_status e))));;
    e ← sget;
    swhen (sy_maxRequestNumber e ≤ bc_number (sy_world e)) (smodify (sy_with_lastDownloadingRequestTime 0));;
    if decide (st_knownHighestNumber (sy_status e) ≤ bc_number (sy_world e)) then
      match bc_getBlockByNumber (sy_world e) (st_knownHighestNumber (sy_status e)) with
      | None => sthrow UB
      | Some b => slift (header_hash (m_blockHeader b));; mret true
      end
    else mret false.

(** *** Answering requests *)

Definition upd_req (id : bytes) (f : DownloadRequestQueue → res DownloadRequestQueue) : YM unit :=
  e ← sget;
  match st_peers (sy_status e) !! id with
  | None => mret tt
  | Some p => q ← slift (f (ps_reqQueue p)); upd_peers (<[id := ps_with_reqQueue q p]>)
  end.
Definition req_of (id : bytes) (e : SyncMaster) : DownloadRequestQueue :=
  from_option ps_reqQueue DownloadRequestQueue0 (st_peers (sy_status e) !! id).

(** What the container has handed to the network leaves the node. *)
Definition push_out (id : bytes) (c : DownloadBlocksContainer) : YM DownloadBlocksContainer :=
  sfor_each (dc_sent c) (asyncSend id);; mret (MkContainer (dc_batch c) (dc_batchSize c) []).

(** The destructor of the container, which must not throw. *)
Definition destroy (id : bytes) (c : DownloadBlocksContainer) : YM unit :=
  match clearBatchAndSend c with
  | Ok c => push_out id c;; mret tt
  | Throw _ => sthrow AssertFail
  end.

(** One round of the loop over the blocks of a request: the next number and
    the container. An exception of [batchAndSend] destroys the container. *)
Definition send_block (id : bytes) (timeout : Z) (a : Z * DownloadBlocksContainer) : YM (bool * (Z * DownloadBlocksContainer)) :=
  let '(number, c) := a in
  now ← sy_utcTime;
  if decide (timeout < now) then mret (false, a)
  else
    e ← sget;
    match bc_getBlockByNumber (sy_world e) number with
    | None => mret (false, a)
    | Some b =>
        if decide (block_number b ≠ number) then mret (false, a)
        else
          match batchAndSend b c with
          | Ok c => c ← push_out id c; mret (true, (number + 1, c))
          | Throw x => destroy id c;; sthrow x
          end
    end.

Definition send_range (id : bytes) (timeout number limit : Z) (c : DownloadBlocksContainer) : YM (Z * DownloadBlocksContainer) :=
  match limit - number with
  | Zpos n => '(_, a) ← siter n (send_block id timeout) (number, c); mret a
  | _ => mret (number, c)
  end.

(** The loop over the requests of a peer. *)
Fixpoint serve (fuel : nat) (id : bytes) (timeout : Z) (c : DownloadBlocksContainer) : YM DownloadBlocksContainer :=
  e ← sget;
  if req_empty (req_of id e) then upd_req id enablePush;; mret c
  else
    now ← sy_utcTime;
    if decide (timeout < now) then upd_req id enablePush;; mret c
    else
      match fuel with
      | O => sthrow OutOfFuel
      | S fuel =>
          '(req, q) ← slift (topAndPop (req_of id e));
          upd_req id (λ _, Ok q);;
          limit ← slift (add_i64 (dr_fromNumber req) (dr_size req));
          '(number, c) ← send_range id timeout (dr_fromNumber req) limit c;
          if decide (number < limit) then
            upd_req id enablePush;;
            upd_req id (λ q, Ok (req_push number (limit - number) q));;
            mret c
          else serve fuel id timeout c
      end.

Definition serve_peer (timeout : Z) (p : SyncPeerStatus) (a : unit) : YM (bool * unit) :=
  e ← sget;
  let id := ps_nodeId p in
  if req_empty (req_of id e) then mret (true, tt)
  else
    upd_req id disablePush;;
    c ← serve (length (rq_reqQueue (req_of id e))) id timeout DownloadBlocksContainer0;
    destroy id c;;
    mret (false, tt).

Definition maintainBlockRequest : YM unit :=
  now ← sy_utcTime;
  foreachPeerRandom (serve_peer (u64 (now + c_respondDownloadRequestTimeout))) tt.

(** *** One round of the worker *)

Definition idle_work : YM unit :=
  e ← sget;
  swhen (sy_newTransactions e = true) (smodify (sy_with_newTransactions false);; maintainTransactions);;
  e ← sget;
  late ← (if sy_newBlocks e then mret true else now ← sy_utcTime; mret (bool_decide (sy_maintainBlocksTimeout e < now)));
  swhen (late = true)
    (smodify (sy_with_newBlocks false);;
     maintainBlocks;;
     now ← sy_utcTime;
     smodify (sy_with_maintainBlocksTimeout (u64 (now + c_maintainBlocksTimeout))));;
  maintainBlockRequest.

Definition doWork : YM unit :=
  maintainPeersConnection;;
  maintainDownloadingQueueBuffer;;
  maintainPeersStatus;;
  e ← sget;
  swhen (isSyncing e = false) idle_work;;
  e ← sget;
  swhen (isSyncing e = true)
    (swhen (st_state (sy_status e) = Downloading)
       (finished ← maintainDownloadingQueue;
        swhen (finished = true) noteDownloadingFinish)).

(** The constructor, [registerConsensusVerifyHandler] and [start]. *)
Definition SyncMaster_new (nodeId genesisHash : bytes) (p : TxPool) (w : W) : SyncMaster :=
  MkSync (MkStatus 0 genesisHash Idle ∅ DownloadingBlockQueue0) nodeId genesisHash 0 0 0 false false 0 None p w 0%nat 0%nat [].
Definition registerConsensusVerifyHandler (f : W → Block → res bool) : YM unit := smodify (sy_with_isConsensusOk (Some f)).
Definition sync_start : YM unit :=
  e ← sget;
  match sy_isConsensusOk e with None => sthrow OtherException | Some _ => mret tt end.

(** [SyncStatus]: the state, the numbers and the hash. *)
Definition sync_status (e : SyncMaster) : SyncState * Z * Z * bytes :=
  (st_state (sy_status e), bc_number (sy_world e), st_knownHighestNumber (sy_status e), st_knownLatestHash (sy_status e)).
End sync.
