(* ===== verification/SyncRun.v ===== *)
(** * The block synchronisation: what a round keeps

    Every operation of the synchronisation keeps its queues in order, and a
    block reaches the chain only if it follows the head, the consensus accepts
    it and it was executed on its parent. *)

From S2P Require Import Prelude StateErr RLP Crypto PBFTMsg Transaction Block Engine NonceCheck TxPool Table Heap SyncMsg SyncQueue SyncQueueFacts SyncMaster.

Local Open Scope Z_scope.

(** Reading the state. *)
Lemma keeps_read {S A : Type} (I : S → Prop) (f : S → SM S A) : (∀ s, I s → keeps I (f s)) → keeps I (sget ≫= f).
Proof. intros Hf s Hs. by apply Hf. Qed.

Lemma keeps_lift_bind {S A B : Type} (I : S → Prop) (r : res A) (f : A → SM S B) :
  (∀ a, r = Ok a → keeps I (f a)) → keeps I (slift r ≫= f).
Proof. intros Hf s Hs. destruct r as [a|e]; [by apply (Hf a)|done]. Qed.

Lemma keeps_siter {S A : Type} (I : S → Prop) p (f : A → SM S (bool * A)) a : (∀ a, keeps I (f a)) → keeps I (siter p f a).
Proof.
  intros Hf. revert a. induction p as [p IH|p IH|]; intros a; cbn [siter]; [| |apply Hf].
  - apply keeps_bind; [apply Hf|intros [[] a']; [|apply keeps_ret]].
    apply keeps_bind; [apply IH|intros [[] a'']; [apply IH|apply keeps_ret]].
  - apply keeps_bind; [apply IH|intros [[] a']; [apply IH|apply keeps_ret]].
Qed.

Lemma add_i64_inv a b c : add_i64 a b = Ok c → c = a + b.
Proof. unfold add_i64. case_decide; [by intros [= <-]|done]. Qed.

(** ** Queues in order *)

Section facts.
Context `{Crypto, NodeEnv, Random}.
Abbreviation YM := (SM SyncMaster).

Definition req_ok (q : DownloadRequestQueue) : Prop :=
  is_heap request_cmp (rq_reqQueue q) ∧ Z.of_nat (length (rq_reqQueue q)) ≤ c_maxReceivedDownloadRequestPerPeer.
Definition peer_ok (id : bytes) (p : SyncPeerStatus) : Prop := ps_nodeId p = id ∧ req_ok (ps_reqQueue p).
Definition peers_ok (m : gmap bytes SyncPeerStatus) : Prop := map_Forall peer_ok m.
Definition bq_ok (q : DownloadingBlockQueue) : Prop :=
  is_heap block_cmp (bq_blocks q) ∧ Z.of_nat (length (bq_buffer q)) ≤ c_maxDownloadingBlockQueueBufferSize.

Definition sync_ok (s : SyncMaster) : Prop := peers_ok (st_peers (sy_status s)) ∧ bq_ok (st_bq (sy_status s)).

Lemma req_ok_0 : req_ok DownloadRequestQueue0.
Proof. split; [apply heap_nil|]. done. Qed.

Lemma req_ok_push from size q : req_ok q → req_ok (req_push from size q).
Proof.
  intros [Hh Hl]. split; [|by apply req_push_bound]. unfold req_push. destruct (rq_locked q); [done|].
  case_decide; [done|]. apply (push_heap request_cmp); exact Hh.
Qed.

Lemma merge_tops_heap fuel from size l size' l' :
  is_heap request_cmp l → merge_tops fuel from size l = Ok (size', l') → is_heap request_cmp l' ∧ (length l' ≤ length l)%nat.
Proof.
  revert size l. induction fuel as [|fuel IH]; intros size l Hh.
  { destruct l; cbn; intros [= <- <-]; done. }
  destruct l as [|top l]; [cbn; intros [= <- <-]; done|]. cbn [merge_tops pq_top head].
  destruct (add_i64 from size) as [t|]; [|done]. rewrite bind_ok. case_decide; [|intros [= <- <-]; done].
  destruct (add_i64 _ _) as [t1|]; [|done]. rewrite bind_ok. destruct (add_i64 t1 _) as [t2|]; [|done]. rewrite bind_ok.
  intros E. destruct (pop_spec request_cmp top l Hh) as [Hh' Hp]. apply Permutation_length in Hp as Hl. cbn in Hl.
  destruct (IH _ _ Hh' E). split; [done|]. cbn. lia.
Qed.

Lemma req_ok_pop q r q' : req_ok q → topAndPop q = Ok (r, q') → req_ok q'.
Proof.
  intros [Hh Hl]. unfold topAndPop. destruct (pq_top _) as [top|]; [|intros [= <- <-]; done].
  destruct (merge_tops _ _ _ _) as [[size l]|] eqn:E; [|done]. rewrite bind_ok. intros [= <- <-].
  destruct (merge_tops_heap _ _ _ _ _ _ Hh E). split; cbn [rq_reqQueue]; [done|lia].
Qed.

Lemma req_ok_enable q q' : req_ok q → enablePush q = Ok q' → req_ok q'.
Proof. unfold enablePush. unfold throw_if. case_decide; [done|]. by intros ? [= <-]. Qed.
Lemma req_ok_disable q q' : req_ok q → disablePush q = Ok q' → req_ok q'.
Proof. unfold disablePush. unfold throw_if. case_decide; [done|]. by intros ? [= <-]. Qed.

Lemma bq_ok_push rlps q : bq_ok q → bq_ok (bq_push rlps q).
Proof.
  intros [Hh Hl]. unfold bq_push. case_decide; [done|]. split; cbn [bq_blocks bq_buffer]; [done|].
  rewrite length_app. cbn [length]. lia.
Qed.

Lemma bq_ok_pop q : bq_ok q → bq_ok (bq_pop q).
Proof.
  intros [Hh Hl]. split; [|done]. cbn [bq_pop bq_blocks]. destruct (bq_blocks q) as [|b l]; [done|].
  by apply (pop_spec block_cmp b l).
Qed.

Lemma bq_ok_clear q : bq_ok q → bq_ok (clearQueue q).
Proof. intros [Hh Hl]. split; [apply heap_nil|done]. Qed.

Lemma import_shards_keeps chain shards : keeps bq_ok (import_shards chain shards).
Proof.
  assert (∀ item, keeps bq_ok (import_item chain item)) as Hitem.
  { intros item. unfold import_item. apply keeps_try; [|intros; apply keeps_ret].
    do 2 (apply keeps_bind; [apply keeps_lift|intros ?]). apply keeps_when. intros _. apply keeps_modify.
    intros q [Hh Hl]. split; [|done]. cbn [bq_blocks]. apply (push_heap block_cmp); exact Hh. }
  assert (∀ n i rlps c, keeps bq_ok (import_items chain n i rlps c)) as Hitems.
  { induction n as [|n IH]; intros i rlps c; cbn [import_items]; [apply keeps_ret|].
    destruct (rlp_access rlps c i) as [[item|e] c'].
    - apply keeps_bind; [apply Hitem|intros _; apply IH].
    - destruct (StateErr.catchable e); [apply IH|apply keeps_throw]. }
  induction shards as [|sh shards IH]; cbn [import_shards]; [apply keeps_ret|].
  apply keeps_read. intros q _. apply keeps_if; intros _; [apply keeps_ret|].
  apply keeps_bind; [|intros _; exact IH]. unfold import_shard.
  do 2 (apply keeps_bind; [apply keeps_lift|intros ?]). apply Hitems.
Qed.

Lemma flush_keeps chain : keeps bq_ok (flushBufferToQueue chain).
Proof.
  unfold flushBufferToQueue. apply keeps_read. intros q _.
  apply keeps_bind; [|intros _; apply import_shards_keeps]. apply keeps_modify.
  intros q' [Hh Hl]. split; cbn [bq_blocks bq_buffer]; [done|]. done.
Qed.

(** ** Commits *)

(** The commits of a log, as steps of the chain: each block follows the head,
    is accepted by the handler [f], and was executed on its parent. *)
Inductive commits (f : W → Block → res bool) (w0 : W) : list sync_event → W → Prop :=
  | commits_start : commits f w0 [] w0
  | commits_send evs w node msg : commits f w0 evs w → commits f w0 (SySend node msg :: evs) w
  | commits_stop evs w node : commits f w0 evs w → commits f w0 (SyStop node :: evs) w
  | commits_block evs w b parent h hd b' ctx ok w' :
      commits f w0 evs w →
      f w b = Ok true →
      block_number b = bc_number w + 1 →
      m_parentHash (m_blockHeader b) = bc_numberHash w (bc_number w) →
      bc_getBlockByNumber w (bc_number w) = Some parent →
      header_hash (m_blockHeader parent) = Ok (h, hd) →
      bv_executeBlock w b (Engine.MkInfo h (m_number (m_blockHeader parent)) (m_stateRoot (m_blockHeader parent))) = Ok (b', ctx) →
      bc_commitBlock w b' ctx = (ok, w') →
      commits f w0 (SyCommit b' ctx ok :: evs) w'.

(** The log of [s] since the world was [w0] and the log [evs0]. *)
Definition since (f : W → Block → res bool) (w0 : W) (evs0 : list sync_event) (s : SyncMaster) : Prop :=
  sy_isConsensusOk s = Some f ∧ ∃ evs, sy_events s = evs ++ evs0 ∧ commits f w0 evs (sy_world s).

Context (f : W → Block → res bool) (w0 : W) (evs0 : list sync_event).
Definition sync_inv (s : SyncMaster) : Prop := sync_ok s ∧ since f w0 evs0 s.

Lemma keeps_same {A} (m : YM A) :
  (∀ s, let s' := snd (m s) in
     st_peers (sy_status s') = st_peers (sy_status s) ∧ st_bq (sy_status s') = st_bq (sy_status s) ∧
     sy_isConsensusOk s' = sy_isConsensusOk s ∧ sy_events s' = sy_events s ∧ sy_world s' = sy_world s) →
  keeps sync_inv m.
Proof.
  intros Hm s [Hok Hsince]. specialize (Hm s). destruct (m s) as [r s']. cbn [snd] in *. destruct Hm as (E1 & E2 & E3 & E4 & E5).
  unfold sync_inv, sync_ok, since. by rewrite E1, E2, E3, E4, E5.
Qed.

Lemma keeps_send node msg : keeps sync_inv (asyncSend node msg).
Proof. intros s [Hok (Hf & evs & He & Hc)]. split; [done|]. split; [done|]. exists (SySend node msg :: evs). split; [by cbn; rewrite He|by constructor]. Qed.
Lemma keeps_stop node : keeps sync_inv (sy_emit (SyStop node)).
Proof. intros s [Hok (Hf & evs & He & Hc)]. split; [done|]. split; [done|]. exists (SyStop node :: evs). split; [by cbn; rewrite He|by constructor]. Qed.

Lemma keeps_peers g : (∀ m, peers_ok m → peers_ok (g m)) → keeps sync_inv (upd_peers g).
Proof. intros Hg s [[Hp Hb] Hs]. split; [split; [by apply Hg|done]|done]. Qed.

Lemma keeps_in_bq {A} (m : SM DownloadingBlockQueue A) : keeps bq_ok m → keeps sync_inv (in_bq m).
Proof.
  intros Hm s [[Hp Hb] Hs]. specialize (Hm _ Hb). unfold in_bq. destruct (m _) as [r q]. split; [split; [done|exact Hm]|done].
Qed.
Lemma keeps_upd_bq g : (∀ q, bq_ok q → bq_ok (g q)) → keeps sync_inv (upd_bq g).
Proof. intros Hg. apply keeps_in_bq, keeps_modify, Hg. Qed.

Lemma keeps_in_pool {A} (m : SM TxPool A) : keeps sync_inv (in_pool m).
Proof. apply keeps_same. intros s. unfold in_pool. destruct (m _) as [r p]. by destruct (existsb _ _). Qed.

Lemma keeps_status g :
  (∀ s, st_peers (g s) = st_peers s ∧ st_bq (g s) = st_bq s) → keeps sync_inv (upd_status g).
Proof. intros Hg. apply keeps_same. intros s. destruct (Hg (sy_status s)). by split_and!. Qed.

Lemma keeps_now : keeps sync_inv sy_utcTime.
Proof. by apply keeps_same. Qed.
Lemma keeps_rand : keeps sync_inv sy_rand.
Proof. by apply keeps_same. Qed.
Lemma keeps_note_txs x : keeps sync_inv (smodify (sy_with_newTransactions x)).
Proof. by apply keeps_same. Qed.
Lemma keeps_note_blocks x : keeps sync_inv (smodify (sy_with_newBlocks x)).
Proof. by apply keeps_same. Qed.
Lemma keeps_note_sealing x : keeps sync_inv (noteSealingBlockNumber x).
Proof. by apply keeps_same. Qed.
Lemma keeps_max_request x : keeps sync_inv (smodify (λ e, sy_with_maxRequestNumber (x e) e)).
Proof. by apply keeps_same. Qed.
Lemma keeps_request_time x : keeps sync_inv (smodify (sy_with_lastDownloadingRequestTime x)).
Proof. by apply keeps_same. Qed.
Lemma keeps_timeout x : keeps sync_inv (smodify (sy_with_maintainBlocksTimeout x)).
Proof. by apply keeps_same. Qed.
Lemma keeps_max_request_0 x : keeps sync_inv (smodify (sy_with_maxRequestNumber x)).
Proof. by apply keeps_same. Qed.
Lemma keeps_begin : keeps sync_inv noteDownloadingBegin.
Proof. apply keeps_status. intros s. by case_decide. Qed.
Lemma keeps_finish : keeps sync_inv noteDownloadingFinish.
Proof. apply keeps_status. intros s. by case_decide. Qed.

#[local] Hint Resolve keeps_send keeps_stop keeps_in_pool keeps_now keeps_rand keeps_note_txs keeps_note_blocks
  keeps_note_sealing keeps_max_request keeps_max_request_0 keeps_request_time keeps_timeout keeps_begin keeps_finish : keeps.

Ltac sync_keeps :=
  repeat first [ solve [eauto with keeps]
               | lazymatch goal with |- keeps _ (sget ≫= _) => apply keeps_read; intros ? ?
                                       | |- keeps _ (slift _ ≫= _) => apply keeps_lift_bind; intros ? ? end
               | keeps_step ].

(** *** Peers *)

Lemma keeps_newPeer info : keeps sync_inv (newSyncPeerStatus info).
Proof.
  unfold newSyncPeerStatus. sync_keeps. apply keeps_peers. intros m Hm.
  apply map_Forall_insert_2; [|done]. split; [done|apply req_ok_0].
Qed.
Lemma keeps_deletePeer id : keeps sync_inv (deletePeer id).
Proof. apply keeps_peers. intros m Hm. by apply map_Forall_delete. Qed.

Lemma keeps_alter g id : (∀ p, peer_ok id p → peer_ok id (g p)) → keeps sync_inv (upd_peers (alter g id)).
Proof.
  intros Hg. apply keeps_peers. intros m Hm i p. rewrite lookup_alter_Some.
  intros [(<- & q & Hq & ->)|[_ Hp]]; [|by apply Hm]. apply Hg. by apply Hm.
Qed.
Lemma keeps_peer_update info : keeps sync_inv (peer_update info).
Proof. apply keeps_alter. intros p [_ Hq]. by split. Qed.

Lemma keeps_upd_req id g : (∀ q q', req_ok q → g q = Ok q' → req_ok q') → keeps sync_inv (upd_req id g).
Proof.
  intros Hg s Hs. unfold upd_req. change (sync_inv ((match st_peers (sy_status s) !! id with
    | None => mret tt | Some p => q ← slift (g (ps_reqQueue p)); upd_peers (<[id := ps_with_reqQueue q p]>) end : YM unit) s).2).
  destruct (st_peers (sy_status s) !! id) as [p|] eqn:E; [|done].
  destruct Hs as [[Hp Hb] Hs]. destruct (Hp id p E) as [Hid Hq]. destruct (g (ps_reqQueue p)) as [q|] eqn:Eg; [|by split; [split|]].
  apply (keeps_peers (insert id (ps_with_reqQueue q p))); [|by split; [split|]]. intros m Hm.
  apply map_Forall_insert_2; [|done]. split; [done|]. by eapply Hg.
Qed.

Lemma req_ok_of id s : sync_inv s → req_ok (req_of id s).
Proof.
  intros [[Hp _] _]. unfold req_of. destruct (st_peers (sy_status s) !! id) as [p|] eqn:E; [|apply req_ok_0].
  by destruct (Hp id p E).
Qed.

Lemma keeps_shuffle i l : keeps sync_inv (shuffle i l).
Proof. revert l. induction i as [|i IH]; intros l; cbn [shuffle]; sync_keeps. Qed.
Lemma keeps_visit {A} ids (g : SyncPeerStatus → A → YM (bool * A)) a : (∀ p a, keeps sync_inv (g p a)) → keeps sync_inv (visit ids g a).
Proof.
  intros Hg. revert a. induction ids as [|id ids IH]; intros a; cbn [visit]; sync_keeps.
Qed.
Lemma keeps_foreach {A} (g : SyncPeerStatus → A → YM (bool * A)) a : (∀ p a, keeps sync_inv (g p a)) → keeps sync_inv (foreachPeerRandom g a).
Proof. intros Hg. unfold foreachPeerRandom. sync_keeps; [apply keeps_shuffle|by apply keeps_visit]. Qed.
Lemma keeps_choose i allowed chosen : keeps sync_inv (choose i allowed chosen).
Proof.
  revert allowed chosen. induction i as [|i IH]; intros allowed chosen; cbn [choose]; [sync_keeps|].
  destruct allowed; sync_keeps.
Qed.
#[local] Hint Resolve keeps_newPeer keeps_deletePeer keeps_peer_update keeps_shuffle keeps_choose : keeps.

(** *** Messages *)

Lemma keeps_import_txs node n i rlps c : keeps sync_inv (import_peer_txs node n i rlps c).
Proof.
  revert i c. induction n as [|n IH]; intros i c; cbn [import_peer_txs]; sync_keeps.
  unfold import_peer_tx. sync_keeps.
Qed.

Lemma keeps_messageHandler node buffer : keeps sync_inv (messageHandler node buffer).
Proof.
  unfold messageHandler. sync_keeps. unfold interpret. apply keeps_try; [|intros; apply keeps_ret]. cbv zeta. sync_keeps.
  - unfold onPeerStatus. sync_keeps.
  - unfold onPeerTransactions. sync_keeps. apply keeps_import_txs.
  - apply keeps_upd_bq. apply bq_ok_push.
  - unfold onPeerRequestBlocks. sync_keeps. apply keeps_alter. intros q [Hid Hq]. split; [done|]. by apply req_ok_push.
Qed.

(** *** The worker *)

Lemma keeps_maintainTransactions : keeps sync_inv maintainTransactions.
Proof.
  assert (∀ ts i plan, keeps sync_inv (plan_transactions i ts plan)) as Hplan.
  { induction ts as [|t ts IH]; intros i plan; cbn [plan_transactions]; sync_keeps.
    unfold plan_transaction, randomSelection. sync_keeps. }
  unfold maintainTransactions. sync_keeps. unfold send_transactions. cbv zeta. sync_keeps.
Qed.

Lemma keeps_maintainBlocks : keeps sync_inv maintainBlocks.
Proof. unfold maintainBlocks. sync_keeps. Qed.
Lemma keeps_maintainPeersConnection : keeps sync_inv maintainPeersConnection.
Proof. unfold maintainPeersConnection. sync_keeps. Qed.

Lemma keeps_maintainBuffer : keeps sync_inv maintainDownloadingQueueBuffer.
Proof.
  unfold maintainDownloadingQueueBuffer. sync_keeps.
  - apply keeps_upd_bq. intros q Hq. unfold clearFullQueueIfNotHas. case_decide; [|done].
    destruct (pq_top _); [|done]. case_decide; [|done]. by apply bq_ok_clear.
  - apply keeps_in_bq, flush_keeps.
  - apply keeps_upd_bq. intros q [Hh Hl]. split; [apply heap_nil|done].
Qed.

Lemma keeps_maintainPeersStatus : keeps sync_inv maintainPeersStatus.
Proof.
  assert (∀ fuel c m n k, keeps sync_inv (request_loop fuel c m n k)) as Hloop.
  { induction fuel as [|fuel IH]; intros c m n k; cbn [request_loop]; sync_keeps.
    apply keeps_foreach. intros p [k' fd]. unfold request_shard. sync_keeps. }
  unfold maintainPeersStatus. sync_keeps.
  unfold request_blocks. sync_keeps.
Qed.

(** Handing the top block to the chain, if it is new. *)
Lemma keeps_commit b : keeps sync_inv (isNew ← isNewBlock b; swhen (isNew = true) (commit_download b)).
Proof.
  apply keeps_wp. intros s [Hok (Hf & evs & He & Hc)]. assert (sync_inv s) as Hs by (split; [done|split; [done|by exists evs]]).
  apply wp_bind. unfold isNewBlock. apply wp_bind, wp_get. cbv zeta. apply wp_bind, wp_lift; [|done].
  intros n ->%add_i64_inv.
  apply wp_if; intros H1'; [by apply wp_ret, wp_when|]. apply wp_if; intros H2'; [by apply wp_ret, wp_when|].
  apply dec_stable in H1', H2'. rewrite Hf. apply wp_lift; [|done]. intros isNew Hnew. apply wp_when; [intros ->|done].
  unfold commit_download. apply wp_bind, wp_get. apply wp_bind, wp_lift; [|done]. intros n ->%add_i64_inv.
  replace (block_number b + -1) with (bc_number (sy_world s)) by lia.
  destruct (bc_getBlockByNumber _ _) as [parent|] eqn:Ep; [|by apply wp_throw]. apply wp_bind, wp_lift; [|done].
  intros [h hd] Hh. apply wp_bind, wp_lift; [|done]. intros [b' ctx] Hx.
  destruct (bc_commitBlock (sy_world s) b' ctx) as [ok w] eqn:Ec.
  apply wp_bind, wp_modify, wp_bind, wp_modify. apply wp_keeps; [sync_keeps|].
  split; [done|]. split; [done|]. exists (SyCommit b' ctx ok :: evs). cbn. rewrite He. split; [done|]. by eapply commits_block.
Qed.
#[local] Hint Resolve keeps_commit : keeps.

Lemma keeps_maintainDownloadingQueue : keeps sync_inv maintainDownloadingQueue.
Proof.
  assert (∀ fuel, keeps sync_inv (download_loop fuel)) as Hloop.
  { induction fuel as [|fuel IH]; cbn [download_loop]; sync_keeps.
    apply keeps_upd_bq, bq_ok_pop. }
  unfold maintainDownloadingQueue. sync_keeps.
Qed.

Lemma keeps_send_range id timeout number limit c : keeps sync_inv (send_range id timeout number limit c).
Proof.
  unfold send_range. sync_keeps. apply keeps_siter. intros [n c']. unfold send_block, push_out, destroy. sync_keeps.
  unfold push_out. sync_keeps.
Qed.

Lemma keeps_serve fuel id timeout c : keeps sync_inv (serve fuel id timeout c).
Proof.
  revert c. induction fuel as [|fuel IH]; intros c; cbn [serve]; sync_keeps;
    try (apply keeps_upd_req; eauto using req_ok_enable); try apply keeps_send_range.
  - intros q q' Hq [= <-]. eapply req_ok_pop; [|done]. by apply req_ok_of.
  - intros q q' Hq [= <-]. by apply req_ok_push.
Qed.

Lemma keeps_maintainBlockRequest : keeps sync_inv maintainBlockRequest.
Proof.
  unfold maintainBlockRequest. sync_keeps. apply keeps_foreach. intros p []. unfold serve_peer. sync_keeps.
  - apply keeps_upd_req. eauto using req_ok_disable.
  - apply keeps_serve.
  - unfold destroy, push_out. sync_keeps.
Qed.

Lemma keeps_doWork : keeps sync_inv doWork.
Proof.
  pose proof keeps_maintainPeersConnection. pose proof keeps_maintainBuffer. pose proof keeps_maintainPeersStatus.
  pose proof keeps_maintainTransactions. pose proof keeps_maintainBlocks. pose proof keeps_maintainBlockRequest.
  pose proof keeps_maintainDownloadingQueue. unfold doWork, idle_work. sync_keeps.
Qed.
End facts.

(** * The block synchronisation: rounds, requests and progress

    What a run of the synchronisation does to the chain, how a round asks for
    the missing blocks, and that downloaded blocks are committed in order
    whatever order they came in. *)

Section run.
Context `{Crypto, NodeEnv, Random}.
Abbreviation YM := (SM SyncMaster).

(** ** Runs *)

(** What the threads of the node call; [OpWorld] is a change of the chain or
    of the network by another component. *)
Inductive sync_op :=
  | OpWork
  | OpMessage (node buffer : bytes)
  | OpSealing (number : Z)
  | OpTransactions
  | OpBlocks
  | OpWorld (w : W).

Definition sync_exec (op : sync_op) : YM unit :=
  match op with
  | OpWork => doWork
  | OpMessage node buffer => messageHandler node buffer
  | OpSealing number => noteSealingBlockNumber number
  | OpTransactions => noteNewTransactions
  | OpBlocks => noteNewBlocks
  | OpWorld w => smodify (sy_with_world w)
  end.

(** The state after some calls, whether they return or throw. *)
Definition sync_run (ops : list sync_op) (s : SyncMaster) : SyncMaster := foldl (λ s op, snd (sync_exec op s)) s ops.

(** The synchronisation as constructed, with its handler. *)
Definition sync_init (self genesis : bytes) (f : W → Block → res bool) (p : TxPool) (w : W) : SyncMaster :=
  snd (registerConsensusVerifyHandler f (SyncMaster_new self genesis p w)).

Lemma sync_init_ok self genesis f p w : sync_ok (sync_init self genesis f p w).
Proof. split; [apply map_Forall_empty|]. split; [apply heap_nil|done]. Qed.

Lemma exec_inv op f w0 evs0 : (∀ w, op ≠ OpWorld w) → keeps (sync_inv f w0 evs0) (sync_exec op).
Proof.
  intros Hop. destruct op; cbn [sync_exec]; [apply keeps_doWork|apply keeps_messageHandler|apply keeps_note_sealing
    |apply keeps_note_txs|apply keeps_note_blocks|by destruct (Hop w)].
Qed.

Lemma inv_start f s : sync_ok s → sy_isConsensusOk s = Some f → sync_inv f (sy_world s) (sy_events s) s.
Proof. intros Hok Hf. split; [done|]. split; [done|]. exists []. split; [done|constructor]. Qed.

Lemma exec_ok op f s :
  sync_ok s → sy_isConsensusOk s = Some f →
  let s' := snd (sync_exec op s) in sync_ok s' ∧ sy_isConsensusOk s' = Some f.
Proof.
  intros Hok Hf. destruct op as [| | | | |w]; [..|by split];
    match goal with |- context [sync_exec ?op] => destruct (exec_inv op f (sy_world s) (sy_events s)) with s as [H' [H'' _]]
    end; done || by apply inv_start.
Qed.

(** C17. Every call of the synchronisation leaves the queues in order, and the
    blocks it commits extend the chain one by one from the chain of the call:
    each follows the head, was accepted by the consensus handler in that state
    and was executed on its parent. *)
Theorem sync_commits_verified op f s :
  sync_ok s → sy_isConsensusOk s = Some f → (∀ w, op ≠ OpWorld w) →
  let s' := snd (sync_exec op s) in
  sync_ok s' ∧ sy_isConsensusOk s' = Some f ∧
  ∃ evs, sy_events s' = evs ++ sy_events s ∧ commits f (sy_world s) evs (sy_world s').
Proof.
  intros Hok Hf Hop. destruct (exec_inv op f (sy_world s) (sy_events s) Hop s (inv_start f s Hok Hf)) as [H1' H2'].
  by destruct H2'.
Qed.

(** C32. Along every run, other components changing the chain and the network at
    will: the next block taken from the download queue has the lowest number
    of all, at most 32 messages are buffered, and no peer has more than eight
    requests waiting, the lowest first. *)
Theorem sync_queue_invariant self genesis f p w ops :
  let s := sync_run ops (sync_init self genesis f p w) in
  (∀ top b, pq_top (bq_blocks (st_bq (sy_status s))) = Some top → b ∈ bq_blocks (st_bq (sy_status s)) → block_number top ≤ block_number b) ∧
  Z.of_nat (length (bq_buffer (st_bq (sy_status s)))) ≤ 32 ∧
  (∀ id peer, st_peers (sy_status s) !! id = Some peer →
     ps_nodeId peer = id ∧ Z.of_nat (length (rq_reqQueue (ps_reqQueue peer))) ≤ 8 ∧
     ∀ top r, pq_top (rq_reqQueue (ps_reqQueue peer)) = Some top → r ∈ rq_reqQueue (ps_reqQueue peer) →
       dr_fromNumber top ≤ dr_fromNumber r).
Proof.
  intros s. assert (sync_ok s ∧ sy_isConsensusOk s = Some f) as [[Hp [Hh Hb]] _].
  { unfold s, sync_run. generalize (sync_init_ok self genesis f p w), (eq_refl : sy_isConsensusOk (sync_init self genesis f p w) = Some f).
    generalize (sync_init self genesis f p w). clear s. induction ops as [|op ops IH]; intros s Hok Hf; [done|].
    destruct (exec_ok op f s Hok Hf). cbn [foldl]. by apply IH. }
  split_and!; [|exact Hb|].
  - intros top b Ht Hin. destruct (bq_blocks _) as [|x l]; [done|]. injection Ht as ->.
    apply block_prior. by eapply (top_prior block_cmp).
  - intros id peer Hpeer. destruct (Hp id peer Hpeer) as [Hid [Hh' Hl]]. split_and!; [done|exact Hl|].
    intros top r Ht Hin. destruct (rq_reqQueue _) as [|x l]; [done|]. injection Ht as ->.
    pose proof (top_prior request_cmp top l r Hh' Hin) as Hr. apply request_prior in Hr. lia.
Qed.

(** ** Random orders *)

Lemma swap_at_perm i j l : swap_at i j l ≡ₚ l.
Proof.
  unfold swap_at. destruct (l !! i) as [x|] eqn:Ei; [|done]. destruct (l !! j) as [y|] eqn:Ej; [|done].
  destruct (decide (i = j)) as [<-|Hne].
  - rewrite list_insert_insert_eq, list_insert_id by done. done.
  - rewrite insert_swap_Permutation by (done || by eapply lookup_lt_Some). by rewrite list_insert_id.
Qed.

Lemma shuffle_spec i l s : ∃ l' n, shuffle i l s = (Ok l', sy_with_rands n s) ∧ l' ≡ₚ l.
Proof.
  revert l s. induction i as [|i IH]; intros l s; cbn [shuffle].
  - exists l, (sy_rands s). by destruct s.
  - set (j := Z.to_nat (rand (sy_rands s) `mod` (Z.of_nat (S i) + 1))).
    destruct (IH (swap_at (S i) j l) (sy_with_rands (S (sy_rands s)) s)) as (l' & n & E & Hl).
    exists l', n. split; [exact E|]. by rewrite Hl, swap_at_perm.
Qed.

(** The selection takes distinct positions of the list it may choose from. *)
Lemma choose_spec i allowed chosen s :
  ∃ extra rest n, choose i allowed chosen s = (Ok (chosen ++ extra), sy_with_rands n s) ∧
    extra ++ rest ≡ₚ allowed ∧ length extra = (i `min` length allowed)%nat.
Proof.
  revert allowed chosen s. induction i as [|i IH]; intros allowed chosen s.
  { exists [], allowed, (sy_rands s). rewrite app_nil_r. split_and!; [by destruct s|done|done]. }
  destruct allowed as [|a allowed].
  { exists [], [], (sy_rands s). rewrite app_nil_r. split_and!; [by destruct s|done|done]. }
  cbn [choose]. set (al := a :: allowed) in *. set (j := Z.to_nat (rand (sy_rands s) `mod` Z.of_nat (length al))).
  assert (j < length al)%nat as Hj.
  { unfold j, al. cbn [length]. pose proof (Z.mod_pos_bound (rand (sy_rands s)) (Z.of_nat (S (length allowed)))). lia. }
  destruct (lookup_lt_is_Some_2 al j Hj) as [x Hx].
  destruct (IH (delete j al) (chosen ++ [x]) (sy_with_rands (S (sy_rands s)) s)) as (extra & rest & n & E & Hp & Hl).
  exists (x :: extra), rest, n. split_and!.
  - transitivity (choose i (delete j al) (chosen ++ option_list (al !! j)) (sy_with_rands (S (sy_rands s)) s)); [done|].
    rewrite Hx. change (option_list (Some x)) with [x]. rewrite E. by rewrite <- app_assoc.
  - cbn [app]. rewrite Hp. symmetry. by apply delete_Permutation.
  - cbn [length]. rewrite Hl, length_delete by done. unfold al. cbn [length]. lia.
Qed.
End run.
