(* ===== verification/SyncRequest.v ===== *)
(** * The block synchronisation: asking for missing blocks

    The requests of a round cut the missing numbers into consecutive shards,
    each of at most 32 blocks, and send each to a peer that has all of it. *)

From S2P Require Import Prelude StateErr RLP Crypto Transaction Block TxPool PBFTMsg Engine Table TableFacts Heap SyncMsg SyncQueue SyncQueueFacts SyncMaster SyncRun.

Local Open Scope Z_scope.

(** Shard [k] of the numbers after [cur], up to [mx]. *)
Definition shard_from (cur : Z) (k : nat) : Z := cur + 1 + 32 * Z.of_nat k.
Definition shard_to (cur mx : Z) (k : nat) : Z := (shard_from cur k + 31) `min` mx.

Section request.
Context `{Crypto, NodeEnv, Random}.

Definition request_of (cur mx : Z) (k : nat) (p : SyncPeerStatus) : sync_event :=
  SySend (ps_nodeId p) (sync_packet ReqBlocskPacket (req_items (shard_from cur k) (shard_to cur mx k - shard_from cur k + 1))).

Context (cur mx : Z) (peers0 : gmap bytes SyncPeerStatus) (evs0 : list sync_event).
Context (Hcur : 0 ≤ cur) (Hmx : cur < mx) (Hbig : mx + 192 < 2 ^ 63).
Abbreviation shards := ((mx - cur + 31) / 32).

(** The requests [ps] have been sent, shard after shard. *)
Record asked (ps : list SyncPeerStatus) (s : SyncMaster) : Prop := {
  as_peers : st_peers (sy_status s) = peers0;
  as_events : sy_events s = rev (imap (request_of cur mx) ps) ++ evs0;
  as_able k p : ps !! k = Some p → shard_to cur mx k ≤ ps_number p ∧ ∃ id, peers0 !! id = Some p;
  as_max : sy_maxRequestNumber s = match ps with [] => 0 | _ => shard_to cur mx (length ps - 1) end;
}.

Definition open (k : nat) : Prop := Z.of_nat k < shards ∧ Z.of_nat k < 4.

Lemma shard_ends k : open k →
  shard_from cur k ≤ shard_to cur mx k ≤ mx ∧ shard_to cur mx k - shard_from cur k < 32 ∧ shard_from cur k ≤ mx.
Proof. unfold open, shard_to, shard_from. intros [H1' H2']. pose proof (Z.mul_div_le (mx - cur + 31) 32 eq_refl). lia. Qed.

Lemma asked_snoc ps s p id :
  asked ps s → open (length ps) → peers0 !! id = Some p → shard_to cur mx (length ps) ≤ ps_number p →
  asked (ps ++ [p])
    (sy_with_maxRequestNumber (sy_maxRequestNumber s `max` shard_to cur mx (length ps))
       (sy_with_events (request_of cur mx (length ps) p :: sy_events s) s)).
Proof.
  intros [A1 A2 A3 A4] Ho Hp Hn. destruct (shard_ends _ Ho) as (E1 & E2 & E3). split; cbn.
  - done.
  - rewrite imap_app. cbn [imap]. rewrite Nat.add_0_r, rev_app_distr. cbn [rev app]. by rewrite A2.
  - intros k q. rewrite lookup_app_Some. intros [?|[Hk Hq]]; [by apply A3|].
    apply list_lookup_singleton_Some in Hq as [Hk' <-]. replace k with (length ps) by lia. eauto.
  - rewrite A4. rewrite length_app, Nat.add_sub. destruct ps as [|q ps]; cbn [app]; [|].
    + cbn [length] in *. unfold shard_from in *. lia.
    + apply Z.max_r. unfold shard_to, shard_from. cbn [length]. lia.
Qed.

Lemma request_shard_eq p k fd s :
  open k →
  request_shard cur mx shards p (Z.of_nat k, fd) s =
    if decide (ps_number p < shard_to cur mx k) then (Ok (true, (Z.of_nat k, fd)), s)
    else (Ok (bool_decide (open (S k)), (Z.of_nat (S k), true)),
          sy_with_maxRequestNumber (sy_maxRequestNumber s `max` shard_to cur mx k)
            (sy_with_events (request_of cur mx k p :: sy_events s) s)).
Proof.
  intros Ho. destruct (shard_ends k Ho) as (E1 & E2 & E3). destruct Ho as [_ Hk]. unfold request_shard.
  rewrite add_i64_small by lia. rewrite (sm_bind_ok (slift (Ok _)) _ s _ s eq_refl). cbv zeta. unfold c_maxRequestBlocks.
  replace (cur + 1 + Z.of_nat k * 32) with (shard_from cur k) by (unfold shard_from; lia).
  assert (i64 (shard_from cur k) = shard_from cur k) as -> by (apply i64_small; unfold shard_from in *; lia).
  do 2 (rewrite add_i64_small by (unfold shard_from in *; lia); rewrite (sm_bind_ok (slift (Ok _)) _ s _ s eq_refl)).
  replace (shard_from cur k + 32 + -1) with (shard_from cur k + 31) by lia. fold (shard_to cur mx k).
  case_decide; [done|]. rewrite u32_small by lia. rewrite reqBlock_encode_packet.
  rewrite (sm_bind_ok (slift (Ok _)) _ s _ s eq_refl). unfold asyncSend, sy_emit.
  rewrite (sm_bind_ok (smodify _) _ s _ _ eq_refl), (sm_bind_ok (smodify _) _ _ _ _ eq_refl).
  replace (Z.of_nat k + 1) with (Z.of_nat (S k)) by lia. done.
Qed.

(** A peer that has every block that is asked for. *)
Definition able (ids : list bytes) : Prop := ∃ id p, id ∈ ids ∧ peers0 !! id = Some p ∧ mx ≤ ps_number p.

Lemma visit_asked ids ps s fd :
  asked ps s → open (length ps) →
  ∃ ps' s' fd', visit ids (request_shard cur mx shards) (Z.of_nat (length ps), fd) s = (Ok (Z.of_nat (length (ps ++ ps')), fd'), s') ∧
    asked (ps ++ ps') s' ∧ (fd' = true ↔ fd = true ∨ ps' ≠ []) ∧
    Z.of_nat (length (ps ++ ps')) ≤ shards `min` 4 ∧ (able ids → ps' ≠ []).
Proof.
  revert ps s fd. induction ids as [|id ids IH]; intros ps s fd Ha Ho; cbn [visit].
  { exists [], s, fd. rewrite app_nil_r. destruct Ho. split_and!; [done|done|by intuition|lia|]. intros (? & ? & Hin & _). by apply elem_of_nil in Hin. }
  rewrite (sm_bind_ok _ _ _ _ _ (eq_refl : sget s = (Ok s, s))). rewrite (as_peers _ _ Ha).
  destruct (peers0 !! id) as [p|] eqn:Ep.
  - pose proof (shard_ends _ Ho) as (E1 & _). destruct (decide (ps_number p < shard_to cur mx (length ps))) as [Hlt|Hge].
    + rewrite (sm_bind_ok _ _ s (true, (Z.of_nat (length ps), fd)) s) by (by rewrite request_shard_eq, decide_True).
      destruct (IH ps s fd Ha Ho) as (ps' & s' & fd' & E & ? & ? & ? & Hable). exists ps', s', fd'. split_and!; try done.
      intros (id' & q & Hin & Hq & Hm). apply Hable. exists id', q. split_and!; [|done|done].
      apply elem_of_cons in Hin as [->|Hin]; [|done]. rewrite Ep in Hq. injection Hq as ->. lia.
    + pose proof (asked_snoc ps s p id Ha Ho Ep ltac:(lia)) as Ha'. set (s1 := sy_with_maxRequestNumber _ _) in Ha'.
      rewrite (sm_bind_ok _ _ s (bool_decide (open (S (length ps))), (Z.of_nat (S (length ps)), true)) s1)
        by (by rewrite request_shard_eq, decide_False).
      assert (length (ps ++ [p]) = S (length ps)) as El by (rewrite length_app; cbn; lia).
      case_bool_decide as Hopen.
      * rewrite <- El in Hopen |- *. destruct (IH _ _ true Ha' Hopen) as (ps' & s' & fd' & E & ? & [_ Hfd] & ? & Hable).
        exists (p :: ps'), s', fd'. rewrite <- app_assoc in *. split_and!; try done. split; [by right|intros _; apply Hfd; by left].
      * exists [p], s1, true. rewrite El. split_and!; try done; [split; [by right|done]|]. destruct Ho. lia.
  - destruct (IH ps s fd Ha Ho) as (ps' & s' & fd' & E & ? & ? & ? & Hable). exists ps', s', fd'. split_and!; try done.
    intros (id' & q & Hin & Hq & Hm). apply Hable. exists id', q. split_and!; [|done|done].
    apply elem_of_cons in Hin as [->|Hin]; [congruence|done].
Qed.

Lemma foreach_asked ps s :
  asked ps s → open (length ps) → able (peers (sy_status s)) →
  ∃ ps' s', foreachPeerRandom (request_shard cur mx shards) (Z.of_nat (length ps), false) s = (Ok (Z.of_nat (length (ps ++ ps')), true), s') ∧
    asked (ps ++ ps') s' ∧ ps' ≠ [] ∧ Z.of_nat (length (ps ++ ps')) ≤ shards `min` 4.
Proof.
  intros Ha Ho Hable. unfold foreachPeerRandom. rewrite (sm_bind_ok _ _ _ _ _ (eq_refl : sget s = (Ok s, s))).
  rewrite decide_False by (intros E; destruct Hable as (id & p & Hin & _); rewrite E in Hin; by apply elem_of_nil in Hin).
  destruct (shuffle_spec (length (peers (sy_status s)) - 1) (peers (sy_status s)) s) as (ids & n & E & Hp).
  rewrite (sm_bind_ok _ _ _ _ _ E). assert (asked ps (sy_with_rands n s)) as Ha' by (by destruct Ha; split).
  destruct (visit_asked ids ps (sy_with_rands n s) false Ha' Ho) as (ps' & s' & fd & E' & Hs' & [_ Hfd] & Hle & Hne).
  assert (ps' ≠ []) as Hps by (apply Hne; destruct Hable as (id & p & Hin & ?); exists id, p; by rewrite Hp).
  exists ps', s'. rewrite E'. rewrite Hfd by (by right). by split_and!.
Qed.

Lemma able_peers ps s : asked ps s → (∃ id p, peers0 !! id = Some p ∧ mx ≤ ps_number p) → able (peers (sy_status s)).
Proof.
  intros Ha (id & p & Hp & Hm). exists id, p. split_and!; [|done|done]. unfold peers.
  apply list_elem_of_fmap. exists (id, p). split; [done|]. apply elem_of_in_order. by rewrite (as_peers _ _ Ha).
Qed.

Lemma loop_asked fuel ps s :
  asked ps s → Z.of_nat (length ps) ≤ shards `min` 4 → (∃ id p, peers0 !! id = Some p ∧ mx ≤ ps_number p) → (4 ≤ fuel + length ps)%nat →
  ∃ ps' s', request_loop fuel cur mx shards (Z.of_nat (length ps)) s = (Ok tt, s') ∧ asked ps' s' ∧ Z.of_nat (length ps') = shards `min` 4.
Proof.
  intros Ha Hle Hex Hf. revert ps s Ha Hle Hf. induction fuel as [|fuel IH]; intros ps s Ha Hle Hf; cbn [request_loop]; unfold c_maxRequestShards.
  { rewrite decide_False by lia. exists ps, s. split_and!; [done|done|lia]. }
  case_decide as Ho; [|exists ps, s; split_and!; [done|done|lia]].
  destruct (foreach_asked ps s Ha Ho (able_peers ps s Ha Hex)) as (ps' & s' & E & Ha' & Hne & Hle').
  rewrite (sm_bind_ok _ _ _ _ _ E). apply IH; [done|done|]. rewrite length_app. destruct ps'; [done|]. cbn. lia.
Qed.
End request.

Section round.
Context `{Crypto, NodeEnv, Random}.

Lemma max_peer_known ps :
  let m := fst (max_peer ps) in (0 < m → ∃ p, p ∈ ps ∧ ps_number p = m) ∧ ∀ p, p ∈ ps → ps_number p ≤ m.
Proof.
  unfold max_peer. rewrite <- (rev_involutive ps). induction (rev ps) as [|p l IH]; [cbn; split; [lia|by intros p ?%elem_of_nil]|].
  cbn [rev]. rewrite foldl_app. cbn [foldl]. destruct (foldl _ _ (rev l)) as [m h]. cbn [fst] in IH. destruct IH as [IH1 IH2].
  case_decide; cbn [fst]; split.
  - intros _. exists p. split; [apply elem_of_app; right; by left|done].
  - intros q [Hq|Hq]%elem_of_app; [specialize (IH2 q Hq); lia|]. apply list_elem_of_singleton in Hq as ->. lia.
  - intros (q & Hq & ?)%IH1. exists q. split; [apply elem_of_app; by left|done].
  - intros q [Hq|Hq]%elem_of_app; [by apply IH2|]. apply list_elem_of_singleton in Hq as ->. lia.
Qed.

(** What there is to ask for: up to the best peer, or up to the first block
    that is waiting already. *)
Definition target (s : SyncMaster) : Z :=
  let m := fst (max_peer (peers_in_order (sy_status s))) in
  match pq_top (bq_blocks (st_bq (sy_status s))) with Some top => m `min` (block_number top - 1) | None => m end.

(** The worker may ask: it is not sealing the block it misses and the last
    requests are old enough. *)
Definition may_ask (s : SyncMaster) : Prop :=
  sy_currentSealingNumber s < fst (max_peer (peers_in_order (sy_status s))) ∧
  c_downloadingRequestTimeout ≤ u64 (u64 (clock (sy_tick s) / 1000000) - sy_lastDownloadingRequestTime s).

Lemma request_blocks_asked cur s :
  let m := fst (max_peer (peers_in_order (sy_status s))) in
  0 ≤ cur < target s → m + 192 < 2 ^ 63 →
  (∀ top, pq_top (bq_blocks (st_bq (sy_status s))) = Some top → - 2 ^ 63 < block_number top < 2 ^ 63) →
  ∃ ps s', request_blocks cur m s = (Ok tt, s') ∧ asked cur (target s) (st_peers (sy_status s)) (sy_events s) ps s' ∧
    Z.of_nat (length ps) = ((target s - cur + 31) / 32) `min` 4.
Proof.
  intros m Hcur Hm Htop. assert (target s ≤ m) as Hle by (unfold target; fold m; destruct (pq_top _); lia).
  unfold request_blocks. rewrite (sm_bind_ok _ _ _ _ _ (eq_refl : sget s = (Ok s, s))).
  rewrite (sm_bind_ok _ _ s (target s) s).
  2:{ unfold target. fold m. destruct (pq_top _) as [top|] eqn:Et; [|done]. specialize (Htop top eq_refl).
      rewrite add_i64_small by lia. rewrite (sm_bind_ok (slift (Ok _)) _ s _ s eq_refl). done. }
  rewrite decide_False by lia. rewrite (add_i64_small (target s)) by lia. rewrite (sm_bind_ok (slift (Ok _)) _ s _ s eq_refl).
  rewrite add_i64_small by (unfold c_maxRequestBlocks; lia). rewrite (sm_bind_ok (slift (Ok _)) _ s _ s eq_refl).
  cbv zeta. rewrite (sm_bind_ok (smodify _) _ s _ _ eq_refl). unfold c_maxRequestBlocks.
  rewrite Z.quot_div_nonneg by lia. replace (target s + - cur + 32 - 1) with (target s - cur + 31) by lia.
  destruct (max_peer_known (peers_in_order (sy_status s))) as [(p & Hin & Hp) _]; [unfold m in *; lia|].
  apply list_elem_of_fmap in Hin as ([id p'] & -> & Hin%elem_of_in_order).
  assert (0 ≤ (target s - cur + 31) / 32) by (apply Z.div_pos; lia).
  apply (loop_asked cur (target s) (st_peers (sy_status s)) (sy_events s) ltac:(lia) ltac:(lia) ltac:(lia) 4 []); [by split|cbn; lia| |done].
  exists id, p'. split; [done|]. cbn [snd] in Hp. fold m in Hp. lia.
Qed.

(** The shards cover the missing numbers, up to four shards of them. *)
Lemma shards_cover cur mx n i :
  cur < mx → Z.of_nat n = ((mx - cur + 31) / 32) `min` 4 →
  cur < i ≤ mx `min` (cur + 128) ↔ ∃ k, (k < n)%nat ∧ shard_from cur k ≤ i ≤ shard_to cur mx k.
Proof.
  intros Hlt Hn. pose proof (Z.mul_div_le (mx - cur + 31) 32 eq_refl). pose proof (Z.mul_succ_div_gt (mx - cur + 31) 32 eq_refl).
  unfold shard_to, shard_from. split.
  - intros Hi. exists (Z.to_nat ((i - cur - 1) / 32)).
    pose proof (Z.mul_div_le (i - cur - 1) 32 eq_refl). pose proof (Z.mul_succ_div_gt (i - cur - 1) 32 eq_refl).
    pose proof (Z.div_pos (i - cur - 1) 32 ltac:(lia) eq_refl). lia.
  - intros (k & Hk & Hi). lia.
Qed.

Lemma shard_last cur mx n :
  cur < mx → Z.of_nat n = ((mx - cur + 31) / 32) `min` 4 → shard_to cur mx (n - 1) = mx `min` (cur + 128).
Proof.
  intros Hlt Hn. pose proof (Z.mul_div_le (mx - cur + 31) 32 eq_refl). pose proof (Z.mul_succ_div_gt (mx - cur + 31) 32 eq_refl).
  unfold shard_to, shard_from. lia.
Qed.

(** C20. When the worker may ask and misses blocks, it sends one request per
    shard of consecutive numbers after its head, for at most 32 blocks each;
    the shards cover the first 128 missing numbers and nothing else, and each
    goes to a known peer whose chain holds all of its shard. The loop over
    the peers ends, whatever order they are visited in. The numbers peers report
    are assumed to leave room for the arithmetic below [2 ^ 63]; the messages
    keep the low 32 bits of a shard's numbers. *)
Theorem requests_cover_missing s :
  let cur := bc_number (sy_world s) in
  may_ask s → 0 ≤ cur < target s → fst (max_peer (peers_in_order (sy_status s))) + 192 < 2 ^ 63 →
  (∀ top, pq_top (bq_blocks (st_bq (sy_status s))) = Some top → - 2 ^ 63 < block_number top < 2 ^ 63) →
  ∃ ps s', maintainPeersStatus s = (Ok tt, s') ∧
    sy_events s' = rev (imap (request_of cur (target s)) ps) ++ sy_events s ∧
    (∀ k p, ps !! k = Some p → shard_to cur (target s) k ≤ ps_number p ∧ ∃ id, st_peers (sy_status s) !! id = Some p) ∧
    (∀ i, cur < i ≤ target s `min` (cur + 128) ↔
       ∃ k, (k < length ps)%nat ∧ shard_from cur k ≤ i ≤ shard_to cur (target s) k) ∧
    sy_maxRequestNumber s' = target s `min` (cur + 128).
Proof.
  intros cur [Hseal Htime] Hcur Hm Htop. unfold maintainPeersStatus. rewrite (sm_bind_ok _ _ _ _ _ (eq_refl : sget s = (Ok s, s))).
  cbv zeta. destruct (max_peer (peers_in_order (sy_status s))) as [m h] eqn:Em. cbn [fst] in *.
  assert (target s ≤ m) as Hle by (unfold target; rewrite Em; cbn [fst]; destruct (pq_top _); lia).
  unfold swhen. rewrite (decide_True (P := bc_number (sy_world s) < m)) by (fold cur; lia). unfold upd_status. rewrite (sm_bind_ok (smodify _) _ s _ _ eq_refl).
  rewrite decide_False by lia. rewrite (sm_bind_ok sy_utcTime _ _ _ _ eq_refl), decide_False by (cbn [sy_tick sy_with_status]; lia).
  rewrite (sm_bind_ok (smodify _) _ _ _ _ eq_refl). unfold noteDownloadingBegin, upd_status. rewrite (sm_bind_ok (smodify _) _ _ _ _ eq_refl).
  set (s1 := sy_with_status _ _). assert (st_peers (sy_status s1) = st_peers (sy_status s) ∧ st_bq (sy_status s1) = st_bq (sy_status s)) as [Ep Eq]
    by (cbn; case_decide; done). assert (peers_in_order (sy_status s1) = peers_in_order (sy_status s)) as Eo by (unfold peers_in_order; by rewrite Ep).
  assert (target s1 = target s) as Et by (unfold target; by rewrite Eo, Eq).
  destruct (request_blocks_asked cur s1) as (ps & s' & E & [A1 A2 A3 A4] & Hl); rewrite ?Et, ?Eo, ?Eq, ?Em; try done.
  rewrite Eo, Em in E. rewrite Et, Ep in *. exists ps, s'. split_and!; [exact E|exact A2|exact A3| |].
  - intros i. apply shards_cover; [lia|done].
  - rewrite A4. rewrite <- (shard_last cur (target s) (length ps)) by (done || lia). destruct ps; [|done].
    pose proof (Z.mul_succ_div_gt (target s - cur + 31) 32 eq_refl). cbn [length] in Hl. lia.
Qed.
End round.
