(* ===== verification/SyncProps.v ===== *)
(** * Theorems about the block synchronisation

    Downloaded blocks are committed in order whatever order they came in;
    blocks a peer sends arrive in the download queue; a queue that has grown
    past its limit is never emptied. *)

From S2P Require Import Prelude StateErr RLP RLPFacts RLPStreamFacts CodecFacts Crypto Transaction Block BlockFacts NonceCheck TxPool TxPoolProps PBFTMsg Engine PBFTExample Table Heap SyncMsg SyncQueue SyncQueueFacts SyncMaster SyncRun SyncRequest.

Local Open Scope Z_scope.

Section catch_up.
Context `{Crypto, NodeEnv, Random}.
Abbreviation YM := (SM SyncMaster).

(** ** Catching up *)

(** The blocks [bs] extend the chain of [w] one after the other to that of
    [w']; the pool forgets their transactions. *)
Inductive extends (f : W → Block → res bool) : W → TxPool → list Block → W → TxPool → Prop :=
  | extends_nil w p : extends f w p [] w p
  | extends_cons w p b bs parent h hd b' ctx w1 r p1 w' p' :
      f w b = Ok true →
      block_number b = bc_number w + 1 →
      m_parentHash (m_blockHeader b) = bc_numberHash w (bc_number w) →
      bc_getBlockByNumber w (bc_number w) = Some parent →
      header_hash (m_blockHeader parent) = Ok (h, hd) →
      bv_executeBlock w b (Engine.MkInfo h (m_number (m_blockHeader parent)) (m_stateRoot (m_blockHeader parent))) = Ok (b', ctx) →
      bc_commitBlock w b' ctx = (true, w1) →
      bc_number w1 = bc_number w + 1 →
      dropBlockTrans (chain_of w1) b' p = (r, p1) →
      (∀ e, r = Throw e → StateErr.catchable e = true) →
      extends f w1 p1 bs w' p' →
      extends f w p (b :: bs) w' p'.

Lemma extends_number f w p bs w' p' :
  extends f w p bs w' p' → bc_number w' = bc_number w + Z.of_nat (length bs) ∧ ∀ b, b ∈ bs → bc_number w < block_number b.
Proof.
  induction 1 as [|w p b bs parent h hd b' ctx w1 r p1 w' p' _ Hn _ _ _ _ _ Hn1 _ _ _ [IH1 IH2]].
  - split; [cbn; lia|by intros b ?%elem_of_nil].
  - split; [cbn [length]; lia|]. intros c [->|Hc]%elem_of_cons; [lia|]. specialize (IH2 c Hc). lia.
Qed.

Lemma catch_one f s b parent h hd b' ctx w1 r p1 :
  let w := sy_world s in
  sy_isConsensusOk s = Some f → - 2 ^ 62 < bc_number w < 2 ^ 62 →
  f w b = Ok true → block_number b = bc_number w + 1 → m_parentHash (m_blockHeader b) = bc_numberHash w (bc_number w) →
  bc_getBlockByNumber w (bc_number w) = Some parent → header_hash (m_blockHeader parent) = Ok (h, hd) →
  bv_executeBlock w b (Engine.MkInfo h (m_number (m_blockHeader parent)) (m_stateRoot (m_blockHeader parent))) = Ok (b', ctx) →
  bc_commitBlock w b' ctx = (true, w1) → dropBlockTrans (chain_of w1) b' (sy_pool s) = (r, p1) →
  (∀ e, r = Throw e → StateErr.catchable e = true) →
  ∃ s1, stry (isNew ← isNewBlock b; swhen (isNew = true) (commit_download b)) (λ _, mret tt) s = (Ok tt, s1) ∧
    sy_world s1 = w1 ∧ sy_pool s1 = p1 ∧ sy_status s1 = sy_status s ∧ sy_isConsensusOk s1 = Some f.
Proof.
  intros w Hf Hb Hfb Hn Hp Hpar Hh Hx Hc Hd Hcatch. unfold stry.
  assert (isNewBlock b s = (Ok true, s)) as En.
  { unfold isNewBlock. rewrite (sm_bind_ok _ _ _ _ _ (eq_refl : sget s = (Ok s, s))). cbv zeta. fold w.
    rewrite add_i64_small by lia. rewrite (sm_bind_ok (slift (Ok _)) _ s _ s eq_refl).
    rewrite decide_False by lia. rewrite decide_False by (intros Hne; by apply Hne). by rewrite Hf, Hfb. }
  rewrite (sm_bind_ok _ _ _ _ _ En). unfold swhen. rewrite decide_True by done. unfold commit_download.
  rewrite (sm_bind_ok _ _ _ _ _ (eq_refl : sget s = (Ok s, s))). fold w. rewrite add_i64_small by lia.
  rewrite (sm_bind_ok (slift (Ok _)) _ s _ s eq_refl). replace (block_number b + -1) with (bc_number w) by lia.
  rewrite Hpar, Hh, (sm_bind_ok (slift (Ok _)) _ s _ s eq_refl), Hx, (sm_bind_ok (slift (Ok _)) _ s _ s eq_refl), Hc.
  rewrite (sm_bind_ok (smodify _) _ s _ _ eq_refl). unfold sy_emit. rewrite (sm_bind_ok (smodify _) _ _ _ _ eq_refl).
  unfold noteNewBlocks, in_pool, mbind, sm_bind, smodify. cbn [sy_pool sy_with_newBlocks sy_with_events sy_with_world].
  rewrite Hd. destruct r as [r|e]; [|rewrite (Hcatch e eq_refl)]; destruct (existsb _ _); eexists; by split_and!.
Qed.

Lemma download_loop_extends f bs s w' p' :
  extends f (sy_world s) (sy_pool s) bs w' p' → sy_isConsensusOk s = Some f →
  is_heap block_cmp (bq_blocks (st_bq (sy_status s))) → bq_blocks (st_bq (sy_status s)) ≡ₚ bs →
  0 ≤ bc_number (sy_world s) → bc_number (sy_world s) + Z.of_nat (length bs) < 2 ^ 62 →
  ∃ s', download_loop (length bs) s = (Ok tt, s') ∧ sy_world s' = w' ∧ sy_pool s' = p' ∧
    st_bq (sy_status s') = MkBlockQueue [] (bq_buffer (st_bq (sy_status s))) ∧
    st_knownHighestNumber (sy_status s') = st_knownHighestNumber (sy_status s).
Proof.
  revert s. induction bs as [|b bs IH]; intros s Hext Hf Hh Hp H0' Hlt.
  { inversion Hext; subst. symmetry in Hp. apply Permutation_nil in Hp as E. exists s. cbn [download_loop length].
    rewrite (sm_bind_ok _ _ _ _ _ (eq_refl : sget s = (Ok s, s))), E. split_and!; try done.
    destruct (st_bq (sy_status s)). cbn in *. by rewrite E. }
  inversion Hext as [|? ? ? ? parent h hd b' ctx w1 r p1 ? ? Hfb Hn Hpar Hg Hhh Hx Hc Hn1 Hd Hcatch Hext']; subst.
  destruct (extends_number _ _ _ _ _ _ Hext') as [_ Hnum].
  destruct (bq_blocks (st_bq (sy_status s))) as [|x l] eqn:Eq; [by apply Permutation_nil_cons in Hp|].
  assert (x = b) as ->.
  { pose proof (top_prior block_cmp x l b Hh ltac:(rewrite Hp; by left)) as Hle%block_prior.
    assert (x ∈ b :: bs) as [->|Hin]%elem_of_cons by (rewrite <- Hp; by left); [done|]. specialize (Hnum x Hin). lia. }
  cbn [download_loop length]. rewrite (sm_bind_ok _ _ _ _ _ (eq_refl : sget s = (Ok s, s))), Eq. cbn [pq_top head].
  cbn [length] in Hlt. rewrite add_i64_small by lia. rewrite (sm_bind_ok (slift (Ok _)) _ s _ s eq_refl), decide_True by lia.
  destruct (catch_one f s b parent h hd b' ctx w1 r p1) as (s1 & E1 & W1 & P1 & S1 & F1); [done|lia|done..|].
  rewrite (sm_bind_ok _ _ _ _ _ E1). rewrite (sm_bind_ok (upd_bq bq_pop) _ s1 tt _ eq_refl).
  destruct (pop_spec block_cmp b l Hh) as [Hh' Hp']. rewrite Hp' in Hp. apply Permutation_cons_inv in Hp.
  edestruct IH as (s' & E' & R1 & R2 & R3 & R4); [| | | | | |exists s'; split; [exact E'|]].
  - cbn. rewrite W1, P1. exact Hext'.
  - exact F1.
  - cbn. rewrite S1, Eq. exact Hh'.
  - cbn. rewrite S1, Eq. exact Hp.
  - cbn. rewrite W1. lia.
  - cbn. rewrite W1. lia.
  - cbn in R3, R4. rewrite S1 in R3, R4. by split_and!.
Qed.

(** C18. Progress: when the download queue holds the blocks that extend the
    chain to the highest known number, in whatever order they arrived, one
    pass of the worker commits all of them in order, empties the queue and
    reports that the download is finished. *)
Theorem download_catches_up f bs s w' p' last hash :
  sync_ok s → sy_isConsensusOk s = Some f →
  extends f (sy_world s) (sy_pool s) bs w' p' → bq_blocks (st_bq (sy_status s)) ≡ₚ bs → bs ≠ [] →
  0 ≤ bc_number (sy_world s) → bc_number (sy_world s) + Z.of_nat (length bs) < 2 ^ 62 →
  st_knownHighestNumber (sy_status s) = bc_number w' →
  bc_getBlockByNumber w' (bc_number w') = Some last → header_hash (m_blockHeader last) = Ok hash →
  ∃ s', maintainDownloadingQueue s = (Ok true, s') ∧ sy_world s' = w' ∧ sy_pool s' = p' ∧
    bq_blocks (st_bq (sy_status s')) = [] ∧ bc_number w' = bc_number (sy_world s) + Z.of_nat (length bs).
Proof.
  intros [_ [Hh _]] Hf Hext Hp Hne H0' Hlt Hk Hl Hhash. destruct (extends_number _ _ _ _ _ _ Hext) as [Hn _].
  assert (0 < length bs)%nat by (destruct bs; [done|cbn; lia]).
  destruct (download_loop_extends f bs s w' p' Hext Hf Hh Hp H0' Hlt) as (s1 & E & W1 & P1 & B1 & K1).
  unfold maintainDownloadingQueue. rewrite (sm_bind_ok _ _ _ _ _ (eq_refl : sget s = (Ok s, s))), decide_False by lia.
  rewrite (Permutation_length Hp), (sm_bind_ok _ _ _ _ _ E). rewrite (sm_bind_ok _ _ _ _ _ (eq_refl : sget s1 = (Ok s1, s1))).
  assert (∃ s2, swhen (sy_maxRequestNumber s1 ≤ bc_number (sy_world s1)) (smodify (sy_with_lastDownloadingRequestTime 0)) s1 = (Ok tt, s2) ∧
    sy_world s2 = w' ∧ sy_pool s2 = p' ∧ sy_status s2 = sy_status s1) as (s2 & E2 & W2 & P2 & S2).
  { unfold swhen. case_decide; eexists; by split_and!. }
  rewrite (sm_bind_ok _ _ _ _ _ E2), W1, K1, Hk, decide_True, Hl, Hhash by lia. exists s2. rewrite S2, B1. by split_and!.
Qed.
End catch_up.

(** ** From one node to another *)

Section deliver.
Context `{Crypto, NodeEnv, Random}.

Lemma concat_perm {A} (l l' : list (list A)) : l ≡ₚ l' → concat l ≡ₚ concat l'.
Proof.
  induction 1 as [|x l l' _ IH|x y l|l1 l2 l3 _ IH1 _ IH2]; cbn [concat]; [done|by rewrite IH| |by rewrite IH1].
  rewrite !app_assoc. f_equiv. apply Permutation_app_comm.
Qed.

(** What a node does with the blocks of a request: each is put in the
    container, which is destroyed at the end. *)
Fixpoint send_blocks (bs : list Block) (c : DownloadBlocksContainer) : res DownloadBlocksContainer :=
  match bs with
  | [] => clearBatchAndSend c
  | b :: bs => c ← batchAndSend b c; send_blocks bs c
  end.

(** A block that is encoded as [d] and read back as [r]. *)
Definition travels (b : Block) (d : bytes) (r : Block) : Prop :=
  (∃ b', block_encode b = Ok (d, b')) ∧ rlp_ok d ∧ block_decode d = Ok r.

Lemma send_blocks_batch (l : list (Block * bytes * Block)) c :
  Forall (λ '(b, d, r), travels b d r) l → send_blocks (l.*1.*1) c = batch_all (l.*1.*2) c.
Proof.
  intros Hl. revert c. induction Hl as [|[[b d] r] l [[b' Hb] _] _ IH]; intros c; [done|].
  rewrite !fmap_cons. cbn [send_blocks batch_all fst snd]. unfold batchAndSend. rewrite Hb, bind_ok.
  destruct (batch_rlp d c) as [c'|]; [|done]. rewrite !bind_ok. apply IH.
Qed.

Lemma travels_imported (l : list (Block * bytes * Block)) n :
  Forall (λ '(b, d, r), travels b d r) l →
  concat (imported (Some n) <$> l.*1.*2) = filter (λ r, n < block_number r) l.*2 ∧ Forall decodes l.*1.*2 ∧ Forall rlp_ok l.*1.*2.
Proof.
  induction 1 as [|[[b d] r] l (_ & Hd & Hr) _ (IH1 & IH2 & IH3)]; [by split_and!; constructor|].
  rewrite !fmap_cons. cbn [concat fst snd]. rewrite IH1, filter_cons. unfold imported, isNewerBlock. rewrite Hr. split_and!.
  - case_bool_decide; case_decide; done.
  - constructor; [|done]. intros e He. congruence.
  - by constructor.
Qed.

Lemma decode_checked node buffer p : sync_decode node buffer = Ok (Some p) → checkPacket buffer = Ok true.
Proof. unfold sync_decode. destruct (checkPacket buffer) as [[]|]; [done|rewrite bind_ok; by cbn|done]. Qed.

Lemma batch_len b : batch_ok b → len (concat (enc_data <$> b)) < 2 ^ 62.
Proof. intros Hb. destruct (batch_count b Hb). destruct Hb as (_ & Hb & _). destruct (rlps_bounds b Hb). lia. Qed.

Lemma receive_packet node b s :
  batch_ok b → node ≠ sy_nodeId s →
  messageHandler node (packet_of b) s =
    (Ok tt, sy_with_status (st_with_bq (bq_push (shard_of b) (st_bq (sy_status s))) (sy_status s)) s).
Proof.
  intros Hb Hnode. pose proof (batch_len b Hb) as Hl. unfold messageHandler.
  rewrite (sm_bind_ok _ _ _ _ _ (eq_refl : sget s = (Ok s, s))), decide_False by done.
  assert (sync_decode node (packet_of b) = Ok (Some (MkSyncPacket BlocksPacket node (shard_of b)))) as E.
  { unfold packet_of. rewrite sync_decode_packet; [done|unfold BlocksPacket; lia|done]. }
  rewrite (decode_checked _ _ _ E), (sm_bind_ok (slift (Ok _)) _ s _ s eq_refl). cbn [negb].
  rewrite E, (sm_bind_ok (slift (Ok _)) _ s _ s eq_refl). unfold interpret. cbn [sp_packetType].
  rewrite !decide_False by done. by rewrite decide_True.
Qed.

(** The buffer after the packets of [bs]. *)
Definition buffered (bs : list (list bytes)) (s : SyncMaster) : SyncMaster :=
  let st := sy_status s in
  sy_with_status (st_with_bq (MkBlockQueue (bq_blocks (st_bq st)) (bq_buffer (st_bq st) ++ (shard_of <$> bs))) st) s.

Lemma receive_packets node bs s :
  Forall batch_ok bs → node ≠ sy_nodeId s →
  Z.of_nat (length (bq_buffer (st_bq (sy_status s))) + length bs) ≤ c_maxDownloadingBlockQueueBufferSize →
  sfor_each (packet_of <$> bs) (messageHandler node) s = (Ok tt, buffered bs s).
Proof.
  intros Hbs. revert s. induction Hbs as [|b bs Hb _ IH]; intros s Hnode Hl.
  - unfold buffered. cbn. rewrite app_nil_r. by destruct s as [[? ? ? ? []]].
  - rewrite fmap_cons. cbn [sfor_each]. rewrite (sm_bind_ok _ _ _ _ _ (receive_packet node b s Hb Hnode)).
    cbn [length] in Hl. unfold bq_push. rewrite decide_False by lia. rewrite IH; [|done|cbn; rewrite length_app; cbn; lia].
    unfold buffered. cbn. by rewrite <- app_assoc.
Qed.

(** C19. From node to node: the blocks a node sends in answer to a request,
    batched into messages, encoded, sent, checked, decoded, buffered and
    flushed by the receiver, are exactly what is added to the receiver's
    download queue, apart from blocks its chain has already, when it is
    downloading, the messages fit its empty buffer and the queue does not pass
    its limit. *)
Theorem blocks_delivered (l : list (Block * bytes * Block)) node s :
  let n := bc_number (sy_world s) in
  Forall (λ '(b, d, r), travels b d r) l → l ≠ [] → node ≠ sy_nodeId s → - 2 ^ 63 ≤ n < 2 ^ 63 - 1 →
  st_state (sy_status s) = Downloading → bq_buffer (st_bq (sy_status s)) = [] →
  Z.of_nat (length (bq_blocks (st_bq (sy_status s))) + length l) ≤ c_maxDownloadingBlockQueueSize →
  ∃ c, send_blocks (l.*1.*1) DownloadBlocksContainer0 = Ok c ∧ dc_batch c = [] ∧
    (Z.of_nat (length (dc_sent c)) ≤ c_maxDownloadingBlockQueueBufferSize →
     ∃ s1 s2, sfor_each (dc_sent c) (messageHandler node) s = (Ok tt, s1) ∧ maintainDownloadingQueueBuffer s1 = (Ok tt, s2) ∧
       bq_blocks (st_bq (sy_status s2)) ≡ₚ bq_blocks (st_bq (sy_status s)) ++ filter (λ r, n < block_number r) l.*2 ∧
       bq_buffer (st_bq (sy_status s2)) = []).
Proof.
  intros n Hl Hne Hnode Hn Hst Hbuf Hsize. destruct (travels_imported l n Hl) as (Himp & Hdec & Hrlp).
  rewrite send_blocks_batch by done. destruct (batch_all_batched (l.*1.*2) [] [] _ Hrlp batched_nil) as (bs & c & E & [B1 B2 B3 _ _ _] & He).
  rewrite He, app_nil_r in B3. exists c. split_and!; [done|done|]. rewrite B1, length_fmap. intros Hc.
  pose proof (Permutation_length B3) as Hlen. cbn [app] in B3, Hlen. rewrite !length_fmap in Hlen.
  assert (0 < length l)%nat by (destruct l; [done|cbn; lia]).
  exists (buffered bs s). rewrite receive_packets; [|done|done|by rewrite Hbuf].
  unfold maintainDownloadingQueueBuffer. rewrite (sm_bind_ok _ _ _ _ _ (eq_refl : sget (buffered bs s) = (Ok (buffered bs s), buffered bs s))).
  cbn [buffered sy_status sy_with_status st_state st_with_bq sy_world]. rewrite decide_True by done. fold n.
  rewrite add_i64_small by lia. rewrite (sm_bind_ok (slift (Ok _)) _ _ _ _ eq_refl).
  rewrite (sm_bind_ok (upd_bq _) _ _ tt (buffered bs s)).
  2:{ unfold upd_bq, in_bq, smodify. cbn [buffered sy_status sy_with_status st_bq st_with_bq]. unfold clearFullQueueIfNotHas.
      cbn [bq_blocks]. rewrite decide_False by lia. done. }
  unfold in_bq, flushBufferToQueue. cbn [buffered sy_status sy_with_status st_bq st_with_bq]. rewrite Hbuf. cbn [app].
  destruct (import_shards_spec (Some n) bs (MkBlockQueue (bq_blocks (st_bq (sy_status s))) [])) as (q & Eq & Hp & Hb & _);
    [done|by rewrite B3|cbn; lia|].
  change ((sget ≫= λ q, smodify (λ q, MkBlockQueue (bq_blocks q) []);; import_shards (Some n) (bq_buffer q))
    (MkBlockQueue (bq_blocks (st_bq (sy_status s))) (shard_of <$> bs)))
    with (import_shards (Some n) (shard_of <$> bs) (MkBlockQueue (bq_blocks (st_bq (sy_status s))) [])).
  rewrite Eq. eexists. split_and!; [done|done| |exact Hb]. cbn. rewrite Hp. cbn [bq_blocks].
  rewrite <- Himp. by rewrite (concat_perm _ _ (fmap_Permutation (imported (Some n)) _ _ B3)).
Qed.
End deliver.

(** ** A queue past its limit *)

Section overfull.
Context `{Crypto, NodeEnv, Random}.

(** C14. The limit of the download queue is only looked at before a message is
    unpacked, so the queue can grow past it; but a full queue is only emptied
    when it has exactly the limit. While downloading, a pass leaves a queue that
    is past the limit and lacks the next block as it is: the blocks received to
    fill the gap are thrown away, and nothing is taken from the queue. *)
Theorem overfull_queue_stuck s top fuel :
  let q := st_bq (sy_status s) in
  st_state (sy_status s) = Downloading →
  c_maxDownloadingBlockQueueSize < Z.of_nat (length (bq_blocks q)) →
  pq_top (bq_blocks q) = Some top → - 2 ^ 63 ≤ bc_number (sy_world s) → bc_number (sy_world s) + 1 < block_number top < 2 ^ 63 →
  let s' := sy_with_status (st_with_bq (MkBlockQueue (bq_blocks q) []) (sy_status s)) s in
  maintainDownloadingQueueBuffer s = (Ok tt, s') ∧ download_loop fuel s' = (Ok tt, s').
Proof.
  intros q Hst Hfull Htop Hn Hlt s'. split.
  - unfold maintainDownloadingQueueBuffer. rewrite (sm_bind_ok _ _ _ _ _ (eq_refl : sget s = (Ok s, s))), decide_True by done.
    rewrite add_i64_small by lia. rewrite (sm_bind_ok (slift (Ok _)) _ s _ s eq_refl).
    rewrite (sm_bind_ok (upd_bq _) _ s tt s).
    2:{ unfold upd_bq, in_bq, smodify, clearFullQueueIfNotHas. fold q. rewrite decide_False by lia. unfold q. by destruct s as [[]]. }
    unfold in_bq, flushBufferToQueue. fold q. rewrite (sm_bind_ok _ _ _ _ _ (eq_refl : sget q = (Ok q, q))).
    rewrite (sm_bind_ok (smodify _) _ _ _ _ eq_refl). destruct (bq_buffer q) as [|sh l]; [done|]. cbn [import_shards].
    rewrite (sm_bind_ok _ _ _ _ _ (eq_refl : sget (MkBlockQueue (bq_blocks q) []) = (Ok (MkBlockQueue (bq_blocks q) []), MkBlockQueue (bq_blocks q) []))).
    by rewrite decide_True by (cbn; lia).
  - destruct fuel; cbn [download_loop]; rewrite (sm_bind_ok _ _ _ _ _ (eq_refl : sget s' = (Ok s', s'))); unfold s';
      cbn [sy_status sy_with_status st_bq st_with_bq bq_blocks sy_world]; rewrite Htop, add_i64_small by lia;
      rewrite (sm_bind_ok (slift (Ok _)) _ _ _ _ eq_refl), decide_False by lia; done.
Qed.
End overfull.

(** ** A concrete node *)

Section example.
#[local] Existing Instance example_crypto.
#[local] Existing Instance example_env.
#[local] Instance sync_random : Random := {| rand n := Z.of_nat n |}.

Definition sx_miners : list bytes := [ex_key 1].
Definition sx_genesis : Block := ex_block 0 h256_0 sx_miners.
Definition sx_block1 : Block := ex_block 1 (ex_hash sx_genesis) sx_miners.
Definition sx_block2 : Block := ex_block 2 (ex_hash sx_block1) sx_miners.
Definition sx_accept (w : W) (b : Block) : res bool := Ok (bool_decide (m_sealerList (m_blockHeader b) = xw_miners w)).

(** The node [ex_key 0], which downloads the blocks after its genesis block;
    the blocks [bs] arrived in this order. *)
Definition sx_queue (bs : list Block) : DownloadingBlockQueue := MkBlockQueue (foldl (λ l b, pq_push block_cmp b l) [] bs) [].
Definition sx_state (number : Z) (peers : gmap bytes SyncPeerStatus) (bs : list Block) : SyncMaster :=
  MkSync (MkStatus number h256_0 Downloading peers (sx_queue bs)) (ex_key 0) (ex_hash sx_genesis) 0 0 0 false false 0
    (Some sx_accept) example_pool0 (ex_world sx_miners) 0%nat 0%nat [].
Definition sx_peers : gmap bytes SyncPeerStatus :=
  list_to_map ((λ '(i, n), (ex_key i, MkPeer (ex_key i) n (ex_hash sx_genesis) h256_0 DownloadRequestQueue0)) <$> [(1, 40); (2, 100); (3, 7)]).

Lemma sx_queue_ok bs : bq_ok (sx_queue bs).
Proof.
  split; [|done]. cbn [sx_queue bq_blocks]. assert (is_heap block_cmp []) as Hl by apply heap_nil. revert Hl. generalize (@nil Block).
  induction bs as [|b bs IH]; intros l Hl; [done|]. cbn [foldl]. apply IH. by apply (push_heap block_cmp).
Qed.
Lemma sx_state_ok number bs : sync_ok (sx_state number ∅ bs).
Proof. split; [apply map_Forall_empty|apply sx_queue_ok]. Qed.

Lemma sync_commits_verified_witness :
  let s := sx_state 2 ∅ [sx_block2; sx_block1] in let s' := snd (sync_exec OpWork s) in
  sync_ok s' ∧ sy_isConsensusOk s' = Some sx_accept ∧
  ∃ evs, sy_events s' = evs ++ sy_events s ∧ commits sx_accept (sy_world s) evs (sy_world s').
Proof.
  refine (sync_commits_verified OpWork sx_accept (sx_state 2 ∅ [sx_block2; sx_block1]) _ _ _);
    [apply sx_state_ok|reflexivity|discriminate].
Defined.

Lemma requests_cover_missing_witness :
  let s := sx_state 0 sx_peers [] in
  ∃ ps s', maintainPeersStatus s = (Ok tt, s') ∧
    sy_events s' = rev (imap (request_of 0 100) ps) ++ [] ∧
    (∀ k p, ps !! k = Some p → shard_to 0 100 k ≤ ps_number p ∧ ∃ id, sx_peers !! id = Some p) ∧
    (∀ i, 0 < i ≤ 100 ↔ ∃ k, (k < length ps)%nat ∧ shard_from 0 k ≤ i ≤ shard_to 0 100 k) ∧
    sy_maxRequestNumber s' = 100.
Proof.
  refine (requests_cover_missing (sx_state 0 sx_peers []) _ _ _ _).
  - split; vm_compute; [reflexivity|discriminate].
  - split; vm_compute; [discriminate|reflexivity].
  - vm_compute. reflexivity.
  - intros top Ht. vm_compute in Ht. discriminate.
Defined.

(** The chain and the pool after one and after two blocks. *)
Definition sx_world1 : W := MkWorld [sx_genesis; sx_block1] [] sx_miners.
Definition sx_world2 : W := MkWorld [sx_genesis; sx_block1; sx_block2] [] sx_miners.
Definition sx_pool1 : TxPool := snd (dropBlockTrans (chain_of sx_world1) sx_block1 example_pool0).
Definition sx_pool2 : TxPool := snd (dropBlockTrans (chain_of sx_world2) sx_block2 sx_pool1).

Lemma sx_extends : extends sx_accept (ex_world sx_miners) example_pool0 [sx_block1; sx_block2] sx_world2 sx_pool2.
Proof.
  assert (∀ b, is_Some (match header_hash (m_blockHeader b) with Ok x => Some x | Throw _ => None end) →
    ∃ h hd, header_hash (m_blockHeader b) = Ok (h, hd)) as Hhash.
  { intros b [x Hx]. destruct (header_hash (m_blockHeader b)) as [[h hd]|]; [eauto|done]. }
  destruct (Hhash sx_genesis) as (h & hd & Hg); [vm_compute; eauto|]. destruct (Hhash sx_block1) as (h1 & hd1 & H1); [vm_compute; eauto|].
  eapply (extends_cons sx_accept _ _ _ _ sx_genesis _ _ sx_block1 (Some 0%nat) sx_world1 (Ok true) sx_pool1);
    [vm_compute; reflexivity..|exact Hg|reflexivity|reflexivity|reflexivity|vm_compute; reflexivity|done|].
  eapply (extends_cons sx_accept _ _ _ _ sx_block1 _ _ sx_block2 (Some 0%nat) sx_world2 (Ok true) sx_pool2);
    [vm_compute; reflexivity..|exact H1|reflexivity|reflexivity|reflexivity|vm_compute; reflexivity|done|constructor].
Qed.

Lemma download_catches_up_witness :
  ∃ s', maintainDownloadingQueue (sx_state 2 ∅ [sx_block2; sx_block1]) = (Ok true, s') ∧ sy_world s' = sx_world2 ∧
    sy_pool s' = sx_pool2 ∧ bq_blocks (st_bq (sy_status s')) = [] ∧ bc_number sx_world2 = 0 + 2.
Proof.
  destruct (header_hash (m_blockHeader sx_block2)) as [hash|e] eqn:Eh; [|vm_compute in Eh; discriminate].
  refine (download_catches_up sx_accept [sx_block1; sx_block2] (sx_state 2 ∅ [sx_block2; sx_block1]) sx_world2 sx_pool2
            sx_block2 hash _ _ sx_extends _ _ _ _ _ _ Eh).
  - apply sx_state_ok.
  - reflexivity.
  - cbn [sx_state sy_status st_bq sx_queue bq_blocks foldl]. by rewrite !push_Permutation.
  - discriminate.
  - vm_compute. discriminate.
  - vm_compute. reflexivity.
  - vm_compute. reflexivity.
  - reflexivity.
Defined.

Definition sx_enc (b : Block) : bytes * Block := match block_encode b with Ok r => r | Throw _ => ([], b) end.
Definition sx_dec (d : bytes) : Block := match block_decode d with Ok r => r | Throw _ => Block0 end.
Definition sx_sent : list (Block * bytes * Block) :=
  (λ b, (b, fst (sx_enc b), sx_dec (fst (sx_enc b)))) <$> [sx_genesis; sx_block2; sx_block1].

Lemma sx_travels : Forall (λ '(b, d, r), travels b d r) sx_sent.
Proof.
  assert (∀ b, block_encode b = Ok (sx_enc b) → forallb (λ x, bool_decide (0 ≤ x < 256)) (fst (sx_enc b)) = true →
    0 < len (fst (sx_enc b)) < 2 ^ 40 → block_decode (fst (sx_enc b)) = Ok (sx_dec (fst (sx_enc b))) →
    travels b (fst (sx_enc b)) (sx_dec (fst (sx_enc b)))) as Hb.
  { intros b E Hf Hl Hd. split_and!; [|split; [|done]|done].
    - exists (snd (sx_enc b)). rewrite E. f_equal. apply surjective_pairing.
    - apply Forall_forall. intros x Hx. rewrite forallb_forall in Hf. specialize (Hf x Hx).
      by apply bool_decide_eq_true in Hf. }
  unfold sx_sent. rewrite !fmap_cons. repeat (apply Forall_cons_2; [|]); [..|apply Forall_nil_2]; apply Hb; vm_compute; done.
Qed.

Lemma blocks_delivered_witness :
  let s := sx_state 2 ∅ [] in
  ∃ c, send_blocks [sx_genesis; sx_block2; sx_block1] DownloadBlocksContainer0 = Ok c ∧ dc_batch c = [] ∧
    (Z.of_nat (length (dc_sent c)) ≤ c_maxDownloadingBlockQueueBufferSize →
     ∃ s1 s2, sfor_each (dc_sent c) (messageHandler (ex_key 1)) s = (Ok tt, s1) ∧ maintainDownloadingQueueBuffer s1 = (Ok tt, s2) ∧
       bq_blocks (st_bq (sy_status s2)) ≡ₚ [] ++ filter (λ r, 0 < block_number r) sx_sent.*2 ∧
       bq_buffer (st_bq (sy_status s2)) = []).
Proof.
  refine (blocks_delivered sx_sent (ex_key 1) (sx_state 2 ∅ []) sx_travels _ _ _ _ _ _);
    vm_compute; done.
Defined.

(** 4095 blocks wait, a message brings two more. *)
Definition sx_far (n : nat) : list Block := repeat (ex_block 9 h256_0 []) n.
Definition sx_message : bytes := shard_of [fst (sx_enc sx_block2); fst (sx_enc (ex_block 3 h256_0 []))].
Example flush_overfills :
  let q := MkBlockQueue (sx_far 4095) [sx_message] in
  Z.of_nat (length (bq_blocks (snd (flushBufferToQueue (Some 0) q)))) = c_maxDownloadingBlockQueueSize + 1.
Proof. vm_compute. reflexivity. Qed.

Lemma overfull_queue_stuck_witness :
  let s := sy_with_status (MkStatus 9 h256_0 Downloading ∅ (MkBlockQueue (sx_far 4097) [sx_message])) (sx_state 9 ∅ []) in
  let s' := sy_with_status (MkStatus 9 h256_0 Downloading ∅ (MkBlockQueue (sx_far 4097) [])) (sx_state 9 ∅ []) in
  maintainDownloadingQueueBuffer s = (Ok tt, s') ∧ download_loop 4097 s' = (Ok tt, s').
Proof.
  refine (overfull_queue_stuck (sy_with_status (MkStatus 9 h256_0 Downloading ∅ (MkBlockQueue (sx_far 4097) [sx_message])) (sx_state 9 ∅ []))
            (ex_block 9 h256_0 []) 4097 _ _ _ _ _); try done; vm_compute; done.
Defined.

(** A peer that reports the largest number makes the count of the shards overflow. *)
Example peer_number_overflow :
  let peers : gmap bytes SyncPeerStatus := {[ex_key 1 := MkPeer (ex_key 1) (2 ^ 63 - 1) (ex_hash sx_genesis) h256_0 DownloadRequestQueue0]} in
  fst (maintainPeersStatus (sx_state 0 peers [])) = Throw UB.
Proof. vm_compute. reflexivity. Qed.

(** A packet whose item is cut short is not rejected: the exception of the
    check leaves the handler, and the session stays open. *)
Example malformed_packet_throws :
  match messageHandler (ex_key 1) [1; 184] (sx_state 0 ∅ []) with
  | (Throw e, s) => StateErr.catchable e && bool_decide (sy_events s = [])
  | (Ok _, _) => false
  end = true.
Proof. vm_compute. reflexivity. Qed.
End example.
